(** * biblium: relation matrices, indicator matrices and citation networks

    A shallow embedding of the relation/co-occurrence engine and of the
    citation-network builders of [utilsbib.py], with the properties that the
    specification states about them.

    Modelling conventions.
    - A Python call that may raise returns a [result]: [Ok v] or [Raise e].
      [try: ... except: pass] blocks are written with [try_].
    - numpy/pandas floats are modelled by [npfloat]: an exact real number or
      one of the three IEEE special values (+inf, -inf, nan).  Rounding is
      not modelled, and the sign of zero is not tracked (zero behaves as +0).
    - A [DataFrame] of numbers has string column labels and the default
      positional row index 0..n-1.
    - Python dictionaries are insertion-ordered association lists ([dict]).
    - Functions of external libraries (scikit-learn, scipy, rapidfuzz,
      difflib, networkx algorithms, community detection back-ends) are
      section variables; what is assumed of them is stated where it is used. *)

From Stdlib Require Import String Ascii Bool Arith ZArith QArith Lia List.
From Stdlib Require Import Reals Lra Psatz.
From Stdlib Require Import Sorted Permutation.
Import ListNotations.

Set Implicit Arguments.

Open Scope string_scope.
Open Scope list_scope.
Open Scope R_scope.

(* ------------------------------------------------------------------ *)
(** * Exceptions *)

Inductive exn : Type :=
| ValueError
| NameError
| KeyError
| IndexError
| AttributeError
| ImportError
| NetworkXError
| OtherError.

Inductive result (A : Type) : Type :=
| Ok (v : A)
| Raise (e : exn).

Arguments Ok {A} v.
Arguments Raise {A} e.

Definition rbind {A B : Type} (m : result A) (k : A -> result B) : result B :=
  match m with
  | Ok v => k v
  | Raise e => Raise e
  end.

Definition is_ok {A : Type} (m : result A) : bool :=
  match m with Ok _ => true | Raise _ => false end.

(* ------------------------------------------------------------------ *)
(** * Decidable equality on keys *)

Class EqDec (A : Type) : Type :=
  eq_dec : forall x y : A, {x = y} + {x <> y}.

#[export] Instance nat_EqDec : EqDec nat := Nat.eq_dec.
#[export] Instance string_EqDec : EqDec string := string_dec.

Definition eqb_of {A : Type} `{EqDec A} (x y : A) : bool :=
  if eq_dec x y then true else false.

Definition mem {A : Type} `{EqDec A} (x : A) (l : list A) : bool :=
  existsb (eqb_of x) l.

(** Order-preserving removal of duplicates (first occurrence kept). *)
Fixpoint dedup {A : Type} `{EqDec A} (l : list A) : list A :=
  match l with
  | [] => []
  | x :: t => x :: filter (fun y => negb (eqb_of x y)) (dedup t)
  end.

(* ------------------------------------------------------------------ *)
(** * Insertion-ordered dictionaries *)

Definition dict (K V : Type) : Type := list (K * V).

Fixpoint dict_get {K V : Type} `{EqDec K} (d : dict K V) (k : K) : option V :=
  match d with
  | [] => None
  | (k', v) :: t => if eq_dec k k' then Some v else dict_get t k
  end.

(** [d[k] = v]: overwrite in place when the key exists, append otherwise. *)
Fixpoint dict_set {K V : Type} `{EqDec K} (d : dict K V) (k : K) (v : V) : dict K V :=
  match d with
  | [] => [(k, v)]
  | (k', v') :: t =>
      if eq_dec k k' then (k', v) :: t else (k', v') :: dict_set t k v
  end.

Definition dict_keys {K V : Type} (d : dict K V) : list K := map fst d.

Definition dict_mem {K V : Type} `{EqDec K} (d : dict K V) (k : K) : bool :=
  match dict_get d k with Some _ => true | None => false end.

(* ------------------------------------------------------------------ *)
(** * Floating-point values of numpy and pandas *)

Inductive npfloat : Type :=
| Fin (x : R)
| PInf
| NInf
| NaN.

Declare Scope np_scope.
Delimit Scope np_scope with np.

Definition Rsign (x : R) : comparison :=
  match total_order_T x 0 with
  | inleft (left _) => Lt
  | inleft (right _) => Eq
  | inright _ => Gt
  end.

Definition sign_mul (s t : comparison) : comparison :=
  match s, t with
  | Eq, _ | _, Eq => Eq
  | Lt, Lt | Gt, Gt => Gt
  | _, _ => Lt
  end.

(** The infinity of a given sign; a zero sign stands for an undefined form. *)
Definition inf_of (s : comparison) : npfloat :=
  match s with Lt => NInf | Eq => NaN | Gt => PInf end.

Definition sign_of (a : npfloat) : comparison :=
  match a with
  | Fin x => Rsign x
  | PInf => Gt
  | NInf => Lt
  | NaN => Eq
  end.

Definition np_add (a b : npfloat) : npfloat :=
  match a, b with
  | NaN, _ | _, NaN => NaN
  | Fin x, Fin y => Fin (x + y)
  | PInf, NInf | NInf, PInf => NaN
  | PInf, _ | _, PInf => PInf
  | NInf, _ | _, NInf => NInf
  end.

Definition np_sub (a b : npfloat) : npfloat :=
  match a, b with
  | NaN, _ | _, NaN => NaN
  | Fin x, Fin y => Fin (x - y)
  | PInf, PInf | NInf, NInf => NaN
  | PInf, _ | _, NInf => PInf
  | NInf, _ | _, PInf => NInf
  end.

Definition np_mul (a b : npfloat) : npfloat :=
  match a, b with
  | NaN, _ | _, NaN => NaN
  | Fin x, Fin y => Fin (x * y)
  | _, _ => inf_of (sign_mul (sign_of a) (sign_of b))
  end.

(** True division.  [x / 0] is an infinity of the sign of [x], [0 / 0] is nan. *)
Definition np_div (a b : npfloat) : npfloat :=
  match a, b with
  | NaN, _ | _, NaN => NaN
  | Fin x, Fin y => if Req_dec_T y 0 then inf_of (Rsign x) else Fin (x / y)
  | Fin _, _ => Fin 0
  | _, Fin y => inf_of (sign_mul (sign_of a) (if Req_dec_T y 0 then Gt else Rsign y))
  | _, _ => NaN
  end.

(** [np.maximum] and [np.minimum] propagate nan. *)
Definition np_maximum (a b : npfloat) : npfloat :=
  match a, b with
  | NaN, _ | _, NaN => NaN
  | PInf, _ | _, PInf => PInf
  | NInf, c | c, NInf => c
  | Fin x, Fin y => Fin (Rmax x y)
  end.

Definition np_minimum (a b : npfloat) : npfloat :=
  match a, b with
  | NaN, _ | _, NaN => NaN
  | NInf, _ | _, NInf => NInf
  | PInf, c | c, PInf => c
  | Fin x, Fin y => Fin (Rmin x y)
  end.

Definition np_sqrt (a : npfloat) : npfloat :=
  match a with
  | Fin x => if Rlt_dec x 0 then NaN else Fin (sqrt x)
  | PInf => PInf
  | NInf | NaN => NaN
  end.

Definition np_log (a : npfloat) : npfloat :=
  match a with
  | Fin x =>
      match Rsign x with
      | Lt => NaN
      | Eq => NInf
      | Gt => Fin (ln x)
      end
  | PInf => PInf
  | NInf | NaN => NaN
  end.

(** The comparison [a < 0]; false on nan. *)
Definition np_lt0 (a : npfloat) : bool :=
  match a with
  | Fin x => if Rlt_dec x 0 then true else false
  | NInf => true
  | PInf | NaN => false
  end.

Definition np_isnan (a : npfloat) : bool :=
  match a with NaN => true | _ => false end.

Definition npfloat_eq_dec (a b : npfloat) : {a = b} + {a <> b}.
Proof.
  destruct a as [x| | |], b as [y| | |];
    try (left; reflexivity); try (right; discriminate).
  destruct (Req_dec_T x y) as [e|n].
  - left; f_equal; exact e.
  - right; intro H; apply n; injection H; auto.
Defined.

#[export] Instance npfloat_EqDec : EqDec npfloat := npfloat_eq_dec.

Definition np_of_nat (n : nat) : npfloat := Fin (INR n).

Notation "a + b" := (np_add a b) : np_scope.
Notation "a - b" := (np_sub a b) : np_scope.
Notation "a * b" := (np_mul a b) : np_scope.
Notation "a / b" := (np_div a b) : np_scope.

(** [Series.sum()] and [DataFrame.sum(axis=0)]: pandas skips nan. *)
Definition nansum (l : list npfloat) : npfloat :=
  fold_left (fun acc v => if np_isnan v then acc else np_add acc v) l (Fin 0).

(** [ndarray.sum()] and the inner sums of a matrix product: nan propagates. *)
Definition np_sum (l : list npfloat) : npfloat :=
  fold_left np_add l (Fin 0).

(* ------------------------------------------------------------------ *)
(** * Matrices and data frames *)

Definition matrix : Type := list (list npfloat).

(** [m[i, j]] *)
Definition mat_get (m : matrix) (i j : nat) : npfloat :=
  nth j (nth i m []) NaN.

(** The [n1] x [n2] array whose cell (i, j) is [f i j]: numpy's elementwise
    (broadcast) expressions are written cell by cell with it. *)
Definition mat_init (n1 n2 : nat) (f : nat -> nat -> npfloat) : matrix :=
  map (fun i => map (fun j => f i j) (seq 0 n2)) (seq 0 n1).

Definition mat_map (f : npfloat -> npfloat) (m : matrix) : matrix :=
  map (map f) m.

(** [m.T] for an array of [n2] columns. *)
Definition mat_transpose (n2 : nat) (m : matrix) : matrix :=
  mat_init n2 (List.length m) (fun j i => mat_get m i j).

(** Column [j] of an array, top to bottom. *)
Definition column (j : nat) (m : matrix) : list npfloat :=
  map (fun row => nth j row NaN) m.

Definition dot (u v : list npfloat) : npfloat :=
  np_sum (map (fun p => np_mul (fst p) (snd p)) (combine u v)).

(** Documents x items frame.  The row index is the default positional one,
    so two frames are aligned exactly when they have as many rows. *)
Record DataFrame : Type := mkDataFrame {
  columns : list string;
  values : matrix
}.

Definition n_rows (df : DataFrame) : nat := List.length (values df).
Definition n_cols (df : DataFrame) : nat := List.length (columns df).

(** Every row has one cell per column. *)
Definition wf_frame (df : DataFrame) : Prop :=
  Forall (fun row => List.length row = n_cols df) (values df).

(** All cells are 0.0 or 1.0. *)
Definition binary_frame (df : DataFrame) : Prop :=
  Forall (Forall (fun v => v = Fin 0 \/ v = Fin 1)) (values df).

(** [np.array(df.sum(axis=0), dtype=float)] *)
Definition sum_axis0 (df : DataFrame) : list npfloat :=
  map (fun j => nansum (column j (values df))) (seq 0 (n_cols df)).

(** [df1.equals(df2)] *)
Definition df_equals (df1 df2 : DataFrame) : bool :=
  (if list_eq_dec string_dec (columns df1) (columns df2) then true else false)
  && (if list_eq_dec (list_eq_dec npfloat_eq_dec) (values df1) (values df2)
      then true else false).

(** Items x items frame: the relation matrix and its normalizations
    ([index = df1.columns], [columns = df2.columns]). *)
Record RelationFrame : Type := mkRelationFrame {
  row_labels : list string;
  col_labels : list string;
  cells : matrix
}.

(** [df1.T @ df2]: pandas raises when the row indexes are not aligned. *)
Definition matmul_T (df1 df2 : DataFrame) : result RelationFrame :=
  if Nat.eqb (n_rows df1) (n_rows df2) then
    Ok (mkRelationFrame (columns df1) (columns df2)
          (mat_init (n_cols df1) (n_cols df2)
             (fun i j => dot (column i (values df1)) (column j (values df2)))))
  else Raise ValueError.

(** [np.diag(relation)] *)
Definition np_diag (n : nat) (m : matrix) : list npfloat :=
  map (fun i => mat_get m i i) (seq 0 n).

(** [relation.values.sum()] *)
Definition mat_sum (m : matrix) : npfloat :=
  np_sum (concat m).

(** The PMI transformation of a square co-occurrence matrix. *)
Definition pmi_matrix (eps : npfloat) (n1 n2 : nat) (rel : matrix) : matrix :=
  let total := mat_sum rel in
  let Pi := map (fun x => np_maximum (np_div x total) eps)
                (np_diag (Nat.min n1 n2) rel) in
  let Pij := mat_map (fun x => np_maximum (np_div x total) eps) rel in
  let PMI := mat_init n1 n2 (fun i j =>
               np_log (np_div (mat_get Pij i j)
                         (np_mul (nth i Pi NaN) (nth j Pi NaN)))) in
  mat_map (fun x => if np_lt0 x then Fin 0 else x) PMI.

(* ------------------------------------------------------------------ *)
(** * compute_relation_matrix *)

(** Places inside the guarded blocks of [compute_relation_matrix] where the
    evaluation of a numpy/pandas expression may raise for a reason the
    numeric model does not capture.  A fault map says which of them raise
    in a given run. *)
Inductive site : Type :=
| s_association
| s_inclusion
| s_salton
| s_yule_n_docs
| s_yule_a
| s_yule_b
| s_yule_c
| s_yule_d
| s_yule_denom
| s_yule_q
| s_yule_store
| s_fisher_zeros
| s_fisher_table (i j : nat)
| s_fisher_store
| s_jaccard_denom
| s_jaccard
| s_equivalence
| s_measures
| s_measures_T.

Definition no_fault : site -> bool := fun _ => false.

(** The local variables of the normalization part that outlive the block
    which assigns them.  An unbound name is [None]. *)
Record locals : Type := mkLocals {
  normalized_matrices : dict string RelationFrame;
  var_a : option matrix;
  var_b : option matrix;
  var_c : option matrix;
  var_d : option matrix
}.

Definition init_locals : locals := mkLocals [] None None None None.

(** Statements: they read and write the locals and may raise; what was
    assigned before an exception stays assigned. *)
Definition stmt (A : Type) : Type := locals -> result A * locals.

Definition ret {A : Type} (v : A) : stmt A := fun s => (Ok v, s).

Definition bind {A B : Type} (m : stmt A) (k : A -> stmt B) : stmt B :=
  fun s =>
    match m s with
    | (Ok v, s') => k v s'
    | (Raise e, s') => (Raise e, s')
    end.

Declare Scope stmt_scope.
Delimit Scope stmt_scope with stmt.
Notation "x <- m ;; k" := (bind m (fun x => k))
  (at level 61, m at next level, right associativity) : stmt_scope.
Notation "m ;; k" := (bind m (fun _ => k))
  (at level 61, right associativity) : stmt_scope.

(** [try: m  except Exception: pass] *)
Definition try_ (m : stmt unit) : stmt unit :=
  fun s => (Ok tt, snd (m s)).

(** Reading a local name: [NameError] when it is unbound. *)
Definition read_var (proj : locals -> option matrix) : stmt matrix :=
  fun s =>
    match proj s with
    | Some m => (Ok m, s)
    | None => (Raise NameError, s)
    end.

Definition assign_a (m : matrix) : stmt unit :=
  fun s => (Ok tt, mkLocals (normalized_matrices s) (Some m) (var_b s) (var_c s) (var_d s)).
Definition assign_b (m : matrix) : stmt unit :=
  fun s => (Ok tt, mkLocals (normalized_matrices s) (var_a s) (Some m) (var_c s) (var_d s)).
Definition assign_c (m : matrix) : stmt unit :=
  fun s => (Ok tt, mkLocals (normalized_matrices s) (var_a s) (var_b s) (Some m) (var_d s)).
Definition assign_d (m : matrix) : stmt unit :=
  fun s => (Ok tt, mkLocals (normalized_matrices s) (var_a s) (var_b s) (var_c s) (Some m)).

Definition with_dict (s : locals) (d : dict string RelationFrame) : locals :=
  mkLocals d (var_a s) (var_b s) (var_c s) (var_d s).

(** [normalized_matrices[name] = frame] *)
Definition store (name : string) (frame : RelationFrame) : stmt unit :=
  fun s => (Ok tt, with_dict s (dict_set (normalized_matrices s) name frame)).

Fixpoint for_each {A B : Type} (f : A -> stmt B) (l : list A) : stmt (list B) :=
  match l with
  | [] => ret []
  | x :: t => (y <- f x ;; ys <- for_each f t ;; ret (y :: ys))%stmt
  end.

Section RelationMatrix.

(** [TfidfTransformer().fit_transform(...).toarray()] of scikit-learn. *)
Variable tfidf_fit_transform : matrix -> result matrix.
(** [scipy.stats.fisher_exact(table, alternative='two-sided')] on the
    table [[a, b], [c, d]]: the odds ratio and the p-value. *)
Variable fisher_exact :
  npfloat -> npfloat -> npfloat -> npfloat -> result (npfloat * npfloat).
(** [nx.from_pandas_adjacency]; the flag asks for a [DiGraph]. *)
Variable nxGraph : Type.
Variable from_pandas_adjacency : bool -> RelationFrame -> result nxGraph.
(** Which guarded statements raise in this run. *)
Variable fault : site -> bool.

Definition at_site (x : site) : stmt unit :=
  fun s => if fault x then (Raise OtherError, s) else (Ok tt, s).

Definition apply_tfidf (df : DataFrame) : result DataFrame :=
  rbind (tfidf_fit_transform (values df))
        (fun m => Ok (mkDataFrame (columns df) m)).

Section Normalization.
Variables df1 df2 : DataFrame.
Variable R : matrix.
Variable eps : npfloat.

Let n1 := n_cols df1.
Let n2 := n_cols df2.
Let row_sums := sum_axis0 df1.
Let col_sums := sum_axis0 df2.
Let r (i : nat) := nth i row_sums NaN.
Let c (j : nat) := nth j col_sums NaN.

Definition safe_df (m : matrix) : RelationFrame :=
  mkRelationFrame (columns df1) (columns df2) m.

Definition association : matrix :=
  mat_init n1 n2 (fun i j => mat_get R i j / (r i * c j + eps))%np.

Definition inclusion : matrix :=
  mat_init n1 n2 (fun i j => mat_get R i j / (np_minimum (r i) (c j) + eps))%np.

Definition salton : matrix :=
  mat_init n1 n2 (fun i j => mat_get R i j / (np_sqrt (r i * c j) + eps))%np.

Definition yule_b : matrix := mat_init n1 n2 (fun i j => r i - mat_get R i j)%np.
Definition yule_c : matrix := mat_init n1 n2 (fun i j => c j - mat_get R i j)%np.
Definition yule_d : matrix :=
  mat_init n1 n2 (fun i j =>
    np_of_nat (n_rows df1)
    - (mat_get R i j + mat_get yule_b i j + mat_get yule_c i j))%np.

Definition yule_q : matrix :=
  mat_init n1 n2 (fun i j =>
    let a := mat_get R i j in
    let b := mat_get yule_b i j in
    let c := mat_get yule_c i j in
    let d := mat_get yule_d i j in
    (a * d - b * c) / (a * d + b * c + eps))%np.

Definition jaccard : matrix :=
  mat_init n1 n2 (fun i j => mat_get R i j / (r i + c j - mat_get R i j + eps))%np.

Definition equivalence : matrix :=
  mat_init n1 n2 (fun i j =>
    (mat_get R i j * mat_get R i j) / (r i * c j + eps))%np.

Definition prop_given_row : matrix :=
  mat_init n1 n2 (fun i j => mat_get R i j / (r i + eps))%np.

Definition prop_given_col : matrix :=
  mat_init n1 n2 (fun i j => mat_get R i j / (c j + eps))%np.

(** The inner [try] of the Fisher loop: a raising test gives p = 1.0. *)
Definition fisher_p_value (a b c d : npfloat) : npfloat :=
  match fisher_exact a b c d with
  | Ok (_, p) => p
  | Raise _ => Fin 1
  end.

(** One cell of the Fisher loop: build the 2x2 table from the names
    [a], [b], [c], [d], then test it. *)
Definition fisher_cell (i j : nat) : stmt npfloat :=
  (at_site (s_fisher_table i j) ;;
   a <- read_var var_a ;;
   b <- read_var var_b ;;
   c <- read_var var_c ;;
   d <- read_var var_d ;;
   ret (fisher_p_value (mat_get a i j) (mat_get b i j)
                       (mat_get c i j) (mat_get d i j)))%stmt.

(** The bodies of the seven [try] blocks. *)
Definition body_association : stmt unit :=
  (at_site s_association ;; store "association" (safe_df association))%stmt.

Definition body_inclusion : stmt unit :=
  (at_site s_inclusion ;; store "inclusion" (safe_df inclusion))%stmt.

Definition body_salton : stmt unit :=
  (at_site s_salton ;; store "salton" (safe_df salton))%stmt.

Definition body_yule_q : stmt unit :=
  (at_site s_yule_n_docs ;;
   at_site s_yule_a ;; assign_a R ;;
   at_site s_yule_b ;; assign_b yule_b ;;
   at_site s_yule_c ;; assign_c yule_c ;;
   at_site s_yule_d ;; assign_d yule_d ;;
   at_site s_yule_denom ;;
   at_site s_yule_q ;;
   at_site s_yule_store ;; store "yule_q" (safe_df yule_q))%stmt.

Definition fisher_loop : stmt matrix :=
  for_each (fun i => for_each (fisher_cell i) (seq 0 n2)) (seq 0 n1).

Definition body_fisher_p : stmt unit :=
  (at_site s_fisher_zeros ;;
   p <- fisher_loop ;;
   at_site s_fisher_store ;; store "fisher_p" (safe_df p))%stmt.

Definition body_jaccard : stmt unit :=
  (at_site s_jaccard_denom ;;
   at_site s_jaccard ;; store "jaccard" (safe_df jaccard))%stmt.

Definition body_equivalence : stmt unit :=
  (at_site s_equivalence ;; store "equivalence" (safe_df equivalence))%stmt.

(** The seven guarded blocks, in source order. *)
Definition normalizations : stmt unit :=
  (try_ body_association ;; try_ body_inclusion ;; try_ body_salton ;;
   try_ body_yule_q ;; try_ body_fisher_p ;; try_ body_jaccard ;;
   try_ body_equivalence)%stmt.

(** [stacked_dict]: the given measures plus counts and conditional
    proportions; [None] when building the wide table raised. *)
Definition all_measures (computed : dict string RelationFrame)
  : option (dict string RelationFrame) :=
  if fault s_measures then None
  else Some (dict_set (dict_set (dict_set computed
               "count"%string (safe_df R))
               "prop_given_row"%string (safe_df prop_given_row))
               "prop_given_col"%string (safe_df prop_given_col)).
End Normalization.

Definition transpose_frame (f : RelationFrame) : RelationFrame :=
  mkRelationFrame (col_labels f) (row_labels f)
    (mat_transpose (List.length (col_labels f)) (cells f)).

(** What [compute_relation_matrix] returns:
    [(relation, normalized_matrices, G, all_measures_df, all_measures_df_T)]. *)
Definition relation_output : Type :=
  (RelationFrame * dict string RelationFrame * option nxGraph
   * option (dict string RelationFrame) * option (dict string RelationFrame))%type.

Definition compute_relation_matrix
    (df1 : DataFrame) (df2 : option DataFrame)
    (normalization pmi tfidf network : bool) (eps : npfloat)
  : result relation_output :=
  rbind (if tfidf then apply_tfidf df1 else Ok df1) (fun df1 =>
  rbind (if tfidf then
           match df2 with
           | Some d => rbind (apply_tfidf d) (fun d' => Ok (Some d'))
           | None => Ok None
           end
         else Ok df2) (fun df2 =>
  let df2 := match df2 with Some d => d | None => df1 end in
  rbind (matmul_T df1 df2) (fun relation =>
  rbind (if pmi then
           if df_equals df1 df2 then
             Ok (mkRelationFrame (columns df1) (columns df2)
                   (pmi_matrix eps (n_cols df1) (n_cols df2) (cells relation)))
           else Raise ValueError
         else Ok relation) (fun relation =>
  let normalized :=
    if normalization then
      normalized_matrices
        (snd (normalizations df1 df2 (cells relation) eps init_locals))
    else [] in
  let measures := all_measures df1 df2 (cells relation) eps normalized in
  rbind (if network then
           rbind (from_pandas_adjacency (negb (df_equals df1 df2)) relation)
                 (fun g => Ok (Some g))
         else Ok None) (fun G =>
  let measures_T :=
    match measures with
    | Some stacked =>
        if fault s_measures_T then None
        else Some (map (fun kv => (fst kv, transpose_frame (snd kv))) stacked)
    | None => None
    end in
  Ok (relation, normalized, G, measures, measures_T)))))).

End RelationMatrix.

Definition out_relation {G : Type} (o : relation_output G) : RelationFrame :=
  match o with (rel, _, _, _, _) => rel end.

Definition out_normalized {G : Type} (o : relation_output G)
  : dict string RelationFrame :=
  match o with (_, nm, _, _, _) => nm end.

(* ------------------------------------------------------------------ *)
(** * Documents counted by a relation cell *)

Definition is_one (v : npfloat) : bool :=
  if npfloat_eq_dec v (Fin 1) then true else false.

(** Number of positions (documents) where both indicator columns hold 1. *)
Definition count_both (u v : list npfloat) : nat :=
  List.length (filter (fun p => is_one (fst p) && is_one (snd p)) (combine u v)).

(** Number of documents that contain item [i] of [df1] and item [j] of [df2]. *)
Definition co_count (df1 df2 : DataFrame) (i j : nat) : nat :=
  count_both (column i (values df1)) (column j (values df2)).

(** Document frequency of item [i]: documents whose indicator is 1. *)
Definition doc_freq (df : DataFrame) (i : nat) : nat :=
  List.length (filter is_one (column i (values df))).

(** The three-document example: doc1 = {A,B}, doc2 = {B,C}, doc3 = {A,B,C}. *)
Definition scenario_frame : DataFrame :=
  mkDataFrame ["A"%string; "B"%string; "C"%string]
    [ [Fin 1; Fin 1; Fin 0];
      [Fin 0; Fin 1; Fin 1];
      [Fin 1; Fin 1; Fin 1] ].

(* ------------------------------------------------------------------ *)
(** * Facts about matrices *)

Lemma nth_map_seq (A : Type) (f : nat -> A) (n i : nat) (d : A) :
  (i < n)%nat -> nth i (map f (seq 0 n)) d = f i.
Proof.
  intro Hi.
  rewrite (nth_indep _ d (f 0%nat)) by (rewrite length_map, length_seq; exact Hi).
  rewrite map_nth, seq_nth by exact Hi.
  reflexivity.
Qed.

Lemma mat_get_init (n1 n2 : nat) (f : nat -> nat -> npfloat) (i j : nat) :
  (i < n1)%nat -> (j < n2)%nat -> mat_get (mat_init n1 n2 f) i j = f i j.
Proof.
  intros Hi Hj. unfold mat_get, mat_init.
  rewrite (nth_map_seq (fun i => map (fun j => f i j) (seq 0 n2)) [] Hi).
  apply nth_map_seq; exact Hj.
Qed.

Lemma mat_init_length (n1 n2 : nat) (f : nat -> nat -> npfloat) :
  List.length (mat_init n1 n2 f) = n1.
Proof. unfold mat_init. rewrite length_map, length_seq. reflexivity. Qed.

(** A property of all cells follows from the property at every index. *)
Lemma mat_init_Forall (P : npfloat -> Prop) (n1 n2 : nat) (f : nat -> nat -> npfloat) :
  (forall i j, (i < n1)%nat -> (j < n2)%nat -> P (f i j)) ->
  Forall (Forall P) (mat_init n1 n2 f).
Proof.
  intro H. unfold mat_init.
  apply Forall_map, Forall_forall. intros i Hi.
  apply Forall_map, Forall_forall. intros j Hj.
  apply in_seq in Hi, Hj. apply H; lia.
Qed.

Lemma column_length (j : nat) (m : matrix) :
  List.length (column j m) = List.length m.
Proof. unfold column. apply length_map. Qed.

Definition binary (v : npfloat) : Prop := v = Fin 0 \/ v = Fin 1.

Lemma column_binary (df : DataFrame) (j : nat) :
  wf_frame df -> binary_frame df -> (j < n_cols df)%nat ->
  Forall binary (column j (values df)).
Proof.
  unfold wf_frame, binary_frame, column. intros Hwf Hbin Hj.
  apply Forall_map. rewrite Forall_forall in *. intros row Hrow.
  specialize (Hwf row Hrow). specialize (Hbin row Hrow).
  rewrite Forall_forall in Hbin. apply Hbin, nth_In. lia.
Qed.

Lemma is_one_0 : is_one (Fin 0) = false.
Proof.
  unfold is_one. destruct (npfloat_eq_dec (Fin 0) (Fin 1)) as [e|n]; [|reflexivity].
  injection e; intro; lra.
Qed.

Lemma is_one_1 : is_one (Fin 1) = true.
Proof.
  unfold is_one. destruct (npfloat_eq_dec (Fin 1) (Fin 1)) as [e|n];
    [reflexivity | contradiction].
Qed.

(* ------------------------------------------------------------------ *)
(** * Sums and products of binary columns *)

Lemma dot_binary_acc (u v : list npfloat) :
  Forall binary u -> Forall binary v ->
  forall acc : nat,
    fold_left np_add (map (fun p => np_mul (fst p) (snd p)) (combine u v))
              (Fin (INR acc))
    = Fin (INR (acc + count_both u v)).
Proof.
  intro Hu. revert v. induction Hu as [|x u Hx Hu IH]; intros v Hv acc.
  - simpl. rewrite Nat.add_0_r. reflexivity.
  - destruct Hv as [|y v Hy Hv].
    + simpl. rewrite Nat.add_0_r. reflexivity.
    + unfold count_both in *. simpl combine. simpl map. simpl fold_left.
      simpl filter.
      destruct Hx as [-> | ->], Hy as [-> | ->]; simpl fst; simpl snd;
        rewrite ?is_one_0, ?is_one_1; simpl andb; cbv iota; cbn [np_mul np_add].
      * replace (INR acc + 0 * 0)%R with (INR acc) by lra. apply IH; assumption.
      * replace (INR acc + 0 * 1)%R with (INR acc) by lra. apply IH; assumption.
      * replace (INR acc + 1 * 0)%R with (INR acc) by lra. apply IH; assumption.
      * replace (INR acc + 1 * 1)%R with (INR (S acc)) by (rewrite S_INR; lra).
        rewrite IH by assumption. simpl List.length.
        f_equal. f_equal. lia.
Qed.

Lemma dot_binary (u v : list npfloat) :
  Forall binary u -> Forall binary v ->
  dot u v = np_of_nat (count_both u v).
Proof.
  intros Hu Hv. unfold dot, np_sum, np_of_nat.
  change (Fin 0) with (Fin (INR 0)).
  rewrite (dot_binary_acc Hu Hv 0). reflexivity.
Qed.

Lemma nansum_binary_acc (u : list npfloat) :
  Forall binary u ->
  forall acc : nat,
    fold_left (fun a v => if np_isnan v then a else np_add a v) u (Fin (INR acc))
    = Fin (INR (acc + List.length (filter is_one u))).
Proof.
  induction 1 as [|x u Hx Hu IH]; intro acc.
  - simpl. rewrite Nat.add_0_r. reflexivity.
  - simpl fold_left. simpl filter.
    destruct Hx as [-> | ->]; rewrite ?is_one_0, ?is_one_1; simpl np_isnan;
      cbv iota; cbn [np_add].
    + replace (INR acc + 0)%R with (INR acc) by lra. apply IH.
    + replace (INR acc + 1)%R with (INR (S acc)) by (rewrite S_INR; lra).
      rewrite IH. simpl List.length. f_equal. f_equal. lia.
Qed.

Lemma nansum_binary (u : list npfloat) :
  Forall binary u -> nansum u = np_of_nat (List.length (filter is_one u)).
Proof.
  intro Hu. unfold nansum, np_of_nat. change (Fin 0) with (Fin (INR 0)).
  rewrite (nansum_binary_acc Hu 0). reflexivity.
Qed.

Lemma count_both_sym (u v : list npfloat) : count_both u v = count_both v u.
Proof.
  unfold count_both. revert v. induction u as [|x u IH]; intros [|y v]; simpl; auto.
  rewrite (andb_comm (is_one x) (is_one y)).
  destruct (is_one y && is_one x); simpl; rewrite IH; reflexivity.
Qed.

Lemma count_both_diag (u : list npfloat) :
  count_both u u = List.length (filter is_one u).
Proof.
  unfold count_both. induction u as [|x u IH]; simpl; auto.
  destruct (is_one x); simpl; rewrite IH; reflexivity.
Qed.

Lemma count_both_le_l (u v : list npfloat) :
  (count_both u v <= List.length (filter is_one u))%nat.
Proof.
  unfold count_both. revert v. induction u as [|x u IH]; intros [|y v]; simpl; try lia.
  specialize (IH v).
  destruct (is_one x), (is_one y); simpl; lia.
Qed.

Lemma count_both_le_r (u v : list npfloat) :
  (count_both u v <= List.length (filter is_one v))%nat.
Proof. rewrite count_both_sym. apply count_both_le_l. Qed.

(** Inclusion-exclusion: the documents holding either item are documents. *)
Lemma count_union_le (u v : list npfloat) :
  List.length u = List.length v ->
  (List.length (filter is_one u) + List.length (filter is_one v)
   <= List.length u + count_both u v)%nat.
Proof.
  unfold count_both. revert v. induction u as [|x u IH]; intros [|y v] Hlen;
    simpl in *; try lia.
  injection Hlen as Hlen. specialize (IH v Hlen).
  destruct (is_one x), (is_one y); simpl; lia.
Qed.

(* ------------------------------------------------------------------ *)
(** * The raw relation matrix *)

Section RelationFacts.

Variable tfidf_fit_transform : matrix -> result matrix.
Variable fisher_exact :
  npfloat -> npfloat -> npfloat -> npfloat -> result (npfloat * npfloat).
Variable nxGraph : Type.
Variable from_pandas_adjacency : bool -> RelationFrame -> result nxGraph.
Variable fault : site -> bool.

Local Abbreviation crm :=
  (compute_relation_matrix tfidf_fit_transform fisher_exact
     from_pandas_adjacency fault).

Definition second_frame (df1 : DataFrame) (df2 : option DataFrame) : DataFrame :=
  match df2 with Some d => d | None => df1 end.

(** Without TF-IDF and PMI the returned relation is the product A^T.B. *)
Lemma raw_relation_is_product df1 df2 normalization network eps out :
  crm df1 df2 normalization false false network eps = Ok out ->
  n_rows df1 = n_rows (second_frame df1 df2) /\
  out_relation out =
    mkRelationFrame (columns df1) (columns (second_frame df1 df2))
      (mat_init (n_cols df1) (n_cols (second_frame df1 df2))
         (fun i j => dot (column i (values df1))
                         (column j (values (second_frame df1 df2))))).
Proof.
  unfold compute_relation_matrix. cbn [rbind].
  fold (second_frame df1 df2). set (d2 := second_frame df1 df2).
  unfold matmul_T. destruct (Nat.eqb_spec (n_rows df1) (n_rows d2)) as [E|E];
    cbn [rbind]; [|discriminate].
  destruct network; cbn [rbind].
  - destruct (from_pandas_adjacency _ _); cbn [rbind]; [|discriminate].
    intro H; injection H as <-. split; [exact E | reflexivity].
  - intro H; injection H as <-. split; [exact E | reflexivity].
Qed.

(** Without a network request the raw call returns whenever the frames
    have as many rows. *)
Lemma raw_relation_returns df1 df2 normalization eps :
  n_rows df1 = n_rows (second_frame df1 df2) ->
  exists out, crm df1 df2 normalization false false false eps = Ok out.
Proof.
  intro E. unfold compute_relation_matrix. cbn [rbind].
  fold (second_frame df1 df2). unfold matmul_T.
  rewrite E, Nat.eqb_refl. cbn [rbind]. eexists; reflexivity.
Qed.

Lemma relation_cell_counts df1 df2 i j :
  wf_frame df1 -> binary_frame df1 -> wf_frame df2 -> binary_frame df2 ->
  (i < n_cols df1)%nat -> (j < n_cols df2)%nat ->
  dot (column i (values df1)) (column j (values df2))
  = np_of_nat (co_count df1 df2 i j).
Proof.
  intros W1 B1 W2 B2 Hi Hj. unfold co_count.
  apply dot_binary; apply column_binary; assumption.
Qed.

Lemma doc_freq_is_column_sum df i :
  wf_frame df -> binary_frame df -> (i < n_cols df)%nat ->
  nth i (sum_axis0 df) NaN = np_of_nat (doc_freq df i).
Proof.
  intros W B Hi. unfold sum_axis0, doc_freq.
  rewrite (nth_map_seq (fun j => nansum (column j (values df))) NaN Hi).
  apply nansum_binary, column_binary; assumption.
Qed.

(** C1.  For binary indicator frames over the same documents the call
    without TF-IDF and PMI returns the raw relation A^T.B: its cell (i, j)
    is the number of documents that contain both item i and item j.  For
    self co-occurrence (second frame omitted or equal to the first) that
    matrix is symmetric and its diagonal holds each item's document
    frequency, which is also the column sum of the indicator frame.  In the
    three-document example R[A,B] = 2, R[B,C] = 2, R[A,C] = 1 and the
    diagonal is 2, 3, 2. *)
Theorem raw_relation_counts_shared_documents df1 df2 normalization eps :
  wf_frame df1 -> binary_frame df1 ->
  wf_frame (second_frame df1 df2) -> binary_frame (second_frame df1 df2) ->
  n_rows df1 = n_rows (second_frame df1 df2) ->
  (exists out, crm df1 df2 normalization false false false eps = Ok out) /\
  (forall network out,
      crm df1 df2 normalization false false network eps = Ok out ->
      let rel := out_relation out in
      row_labels rel = columns df1 /\
      col_labels rel = columns (second_frame df1 df2) /\
      (forall i j, (i < n_cols df1)%nat -> (j < n_cols (second_frame df1 df2))%nat ->
         mat_get (cells rel) i j
         = np_of_nat (co_count df1 (second_frame df1 df2) i j)) /\
      (second_frame df1 df2 = df1 ->
         forall i j, (i < n_cols df1)%nat -> (j < n_cols df1)%nat ->
           mat_get (cells rel) i j = mat_get (cells rel) j i /\
           mat_get (cells rel) i i = np_of_nat (doc_freq df1 i) /\
           mat_get (cells rel) i i = nth i (sum_axis0 df1) NaN)) /\
  (forall network out,
      crm scenario_frame None normalization false false network eps = Ok out ->
      let R := cells (out_relation out) in
      mat_get R 0 1 = Fin 2 /\ mat_get R 1 2 = Fin 2 /\ mat_get R 0 2 = Fin 1 /\
      mat_get R 0 0 = Fin 2 /\ mat_get R 1 1 = Fin 3 /\ mat_get R 2 2 = Fin 2).
Proof.
  intros W1 B1 W2 B2 E. split; [|split].
  - apply raw_relation_returns; exact E.
  - intros network out Hout rel.
    destruct (raw_relation_is_product _ _ _ _ _ Hout) as [_ Hrel].
    subst rel. rewrite Hrel. cbn [row_labels col_labels cells].
    split; [reflexivity|]. split; [reflexivity|]. split.
    + intros i j Hi Hj. rewrite mat_get_init by assumption.
      apply relation_cell_counts; assumption.
    + intros Hself i j Hi Hj. rewrite Hself in *.
      rewrite !mat_get_init by assumption.
      rewrite !relation_cell_counts by assumption.
      unfold co_count. split; [|split].
      * f_equal. apply count_both_sym.
      * rewrite count_both_diag. reflexivity.
      * rewrite count_both_diag. symmetry.
        apply doc_freq_is_column_sum; assumption.
  - intros network out Hout R.
    destruct (raw_relation_is_product _ _ _ _ _ Hout) as [_ Hrel].
    subst R. rewrite Hrel. cbn.
    repeat split; f_equal; lra.
Qed.

End RelationFacts.

(** Stand-ins for the external functions, used to run the model on examples. *)
Definition sample_tfidf (m : matrix) : result matrix := Ok m.
Definition sample_fisher (a b c d : npfloat) : result (npfloat * npfloat) :=
  Ok (Fin 1, Fin 1).
Definition sample_adjacency (directed : bool) (rel : RelationFrame) : result unit :=
  Ok tt.

(** The default [eps = 1e-9]. *)
Definition default_eps : npfloat := Fin (1 / 1000000000).

Lemma scenario_frame_wf : wf_frame scenario_frame.
Proof. repeat constructor. Qed.

Lemma scenario_frame_binary : binary_frame scenario_frame.
Proof.
  unfold binary_frame, scenario_frame; cbn [values].
  repeat (constructor; [repeat (constructor; [(left; reflexivity) || (right; reflexivity)|])|]);
    constructor.
Qed.

Lemma raw_relation_counts_witness :
  exists out,
    compute_relation_matrix sample_tfidf sample_fisher sample_adjacency no_fault
      scenario_frame None false false false false default_eps = Ok out.
Proof.
  exact (proj1 (@raw_relation_counts_shared_documents
                  sample_tfidf sample_fisher unit sample_adjacency no_fault
                  scenario_frame None false default_eps
                  scenario_frame_wf scenario_frame_binary
                  scenario_frame_wf scenario_frame_binary eq_refl)).
Defined.

(* ------------------------------------------------------------------ *)
(** * Dictionaries *)

Lemma dict_get_set_same (K V : Type) `{EqDec K} (d : dict K V) (k : K) (v : V) :
  dict_get (dict_set d k v) k = Some v.
Proof.
  induction d as [|[k' v'] d IH]; simpl.
  - destruct (eq_dec k k); [reflexivity | contradiction].
  - destruct (eq_dec k k') as [e|n]; simpl.
    + rewrite e. destruct (eq_dec k' k'); [reflexivity | contradiction].
    + destruct (eq_dec k k'); [contradiction | exact IH].
Qed.

Lemma dict_get_set_other (K V : Type) `{EqDec K} (d : dict K V) (k k' : K) (v : V) :
  k' <> k -> dict_get (dict_set d k v) k' = dict_get d k'.
Proof.
  intro Hne. induction d as [|[k0 v0] d IH]; simpl.
  - destruct (eq_dec k' k); [contradiction | reflexivity].
  - destruct (eq_dec k k0) as [e|n]; simpl.
    + subst k0. destruct (eq_dec k' k); [contradiction | reflexivity].
    + destruct (eq_dec k' k0); [reflexivity | exact IH].
Qed.

Lemma dict_get_set (K V : Type) `{EqDec K} (d : dict K V) (k k' : K) (v : V) :
  dict_get (dict_set d k v) k' = if eq_dec k' k then Some v else dict_get d k'.
Proof.
  destruct (eq_dec k' k) as [->|n].
  - apply dict_get_set_same.
  - apply dict_get_set_other; exact n.
Qed.

(* ------------------------------------------------------------------ *)
(** * Loops of statements that leave the locals alone *)

Lemma for_each_pure (A B : Type) (f : A -> stmt B) (l : list A) (s : locals) :
  (forall x, snd (f x s) = s) -> snd (for_each f l s) = s.
Proof.
  intro Hf. induction l as [|x l IH]; simpl; [reflexivity|].
  unfold bind. specialize (Hf x). destruct (f x s) as [[y|e] s1]; simpl in *; subst s1.
  - destruct (for_each f l s) as [[ys|e] s2]; simpl in *; subst s2; reflexivity.
  - reflexivity.
Qed.

Lemma for_each_map (A B : Type) (f : A -> stmt B) (g : A -> B) (l : list A) (s : locals) :
  (forall x, In x l -> f x s = (Ok (g x), s)) ->
  for_each f l s = (Ok (map g l), s).
Proof.
  induction l as [|x l IH]; intro Hf; simpl; [reflexivity|].
  unfold bind. rewrite (Hf x (or_introl eq_refl)).
  rewrite IH by (intros y Hy; apply Hf; right; exact Hy).
  reflexivity.
Qed.

(** When the loop returns, every element was evaluated without raising. *)
Lemma for_each_ok_inv (A B : Type) (f : A -> stmt B) (l : list A) (s : locals) (ys : list B) :
  (forall x, snd (f x s) = s) ->
  fst (for_each f l s) = Ok ys ->
  Forall2 (fun x y => fst (f x s) = Ok y) l ys.
Proof.
  intro Hf. revert ys. induction l as [|x l IH]; intros ys; simpl.
  - intro H; injection H as <-. constructor.
  - unfold bind. pose proof (Hf x) as Hx.
    destruct (f x s) as [[y|e] s1] eqn:Efx; simpl in *; subst s1; [|discriminate].
    destruct (for_each f l s) as [[zs|e] s2] eqn:Erest; simpl in *; [|discriminate].
    intro H; injection H as <-. constructor.
    + rewrite Efx. reflexivity.
    + apply IH. reflexivity.
Qed.

(** When some element raises, so does the loop. *)
Lemma for_each_raises (A B : Type) (f : A -> stmt B) (l : list A) (s : locals) (x : A) :
  (forall x, snd (f x s) = s) ->
  In x l -> is_ok (fst (f x s)) = false ->
  is_ok (fst (for_each f l s)) = false.
Proof.
  intros Hf Hin Hx. induction l as [|z l IH]; simpl in *; [contradiction|].
  unfold bind. pose proof (Hf z) as Hz.
  destruct (f z s) as [[y|e] s1] eqn:Efz; simpl in *; subst s1; [|reflexivity].
  destruct Hin as [->|Hin].
  - rewrite Efz in Hx. discriminate.
  - specialize (IH Hin). pose proof (@for_each_pure _ _ f l s Hf) as Hs.
    destruct (for_each f l s) as [[zs|e] s2]; simpl in *; [discriminate | reflexivity].
Qed.

(* ------------------------------------------------------------------ *)
(** * Running the guarded normalization blocks *)

Section NormalizationRun.

Variable fisher_exact :
  npfloat -> npfloat -> npfloat -> npfloat -> result (npfloat * npfloat).
Variable fault : site -> bool.
Variables df1 df2 : DataFrame.
Variable R : matrix.
Variable eps : npfloat.

(** Some statement of the [yule_q] block raises. *)
Definition yule_raises : bool :=
  fault s_yule_n_docs || fault s_yule_a || fault s_yule_b || fault s_yule_c
  || fault s_yule_d || fault s_yule_denom || fault s_yule_q || fault s_yule_store.

(** The [yule_q] block raised before it had bound all of [a], [b], [c], [d]. *)
Definition yule_unbound : bool :=
  fault s_yule_n_docs || fault s_yule_a || fault s_yule_b || fault s_yule_c
  || fault s_yule_d.

(** Some cell of the Fisher loop cannot be computed: building its table
    raises, or reads a name that the [yule_q] block left unbound. *)
Definition fisher_cells_raise : bool :=
  existsb (fun i => existsb (fun j => fault (s_fisher_table i j) || yule_unbound)
                            (seq 0 (n_cols df2)))
          (seq 0 (n_cols df1)).

Definition fisher_raises : bool :=
  fault s_fisher_zeros || fisher_cells_raise || fault s_fisher_store.

(** The matrix of p-values: the test's p-value, or 1.0 where the test raised. *)
Definition fisher_matrix : matrix :=
  mat_init (n_cols df1) (n_cols df2) (fun i j =>
    fisher_p_value fisher_exact
      (mat_get R i j) (mat_get (yule_b df1 df2 R) i j)
      (mat_get (yule_c df1 df2 R) i j) (mat_get (yule_d df1 df2 R) i j)).

Local Abbreviation dict_of s := (normalized_matrices s).

(** A block made of one guarded expression and a store. *)
Lemma simple_body_run (x : site) (name : string) (frame : RelationFrame) (s : locals) :
  snd ((at_site fault x ;; store name frame)%stmt s)
  = if fault x then s else with_dict s (dict_set (dict_of s) name frame).
Proof.
  unfold bind, at_site, store. destruct (fault x); reflexivity.
Qed.

Lemma jaccard_body_run (s : locals) :
  snd (body_jaccard fault df1 df2 R eps s)
  = if fault s_jaccard_denom || fault s_jaccard then s
    else with_dict s (dict_set (dict_of s) "jaccard"
                        (safe_df df1 df2 (jaccard df1 df2 R eps))).
Proof.
  unfold body_jaccard, bind, at_site, store.
  destruct (fault s_jaccard_denom); [reflexivity|].
  destruct (fault s_jaccard); reflexivity.
Qed.

Lemma yule_body_dict (s : locals) :
  dict_of (snd (body_yule_q fault df1 df2 R eps s))
  = if yule_raises then dict_of s
    else dict_set (dict_of s) "yule_q" (safe_df df1 df2 (yule_q df1 df2 R eps)).
Proof.
  unfold yule_raises, body_yule_q, bind, at_site, store, assign_a, assign_b,
    assign_c, assign_d.
  destruct (fault s_yule_n_docs); [reflexivity|].
  destruct (fault s_yule_a); [reflexivity|].
  destruct (fault s_yule_b); [reflexivity|].
  destruct (fault s_yule_c); [reflexivity|].
  destruct (fault s_yule_d); [reflexivity|].
  destruct (fault s_yule_denom); [reflexivity|].
  destruct (fault s_yule_q); [reflexivity|].
  destruct (fault s_yule_store); reflexivity.
Qed.

(** The names [a], [b], [c], [d] after the [yule_q] block, when they were
    unbound before it. *)
Lemma yule_body_vars (s : locals) :
  var_a s = None -> var_b s = None -> var_c s = None -> var_d s = None ->
  let s' := snd (body_yule_q fault df1 df2 R eps s) in
  (yule_unbound = false ->
     var_a s' = Some R /\ var_b s' = Some (yule_b df1 df2 R) /\
     var_c s' = Some (yule_c df1 df2 R) /\ var_d s' = Some (yule_d df1 df2 R)) /\
  (yule_unbound = true ->
     var_a s' = None \/ var_b s' = None \/ var_c s' = None \/ var_d s' = None).
Proof.
  intros Ha Hb Hc Hd.
  unfold yule_unbound, body_yule_q, bind, at_site, store, assign_a, assign_b,
    assign_c, assign_d.
  destruct (fault s_yule_n_docs); cbn; [split; [discriminate | auto]|].
  destruct (fault s_yule_a); cbn; [split; [discriminate | auto]|].
  destruct (fault s_yule_b); cbn; [split; [discriminate | auto]|].
  destruct (fault s_yule_c); cbn; [split; [discriminate | auto]|].
  destruct (fault s_yule_d); cbn; [split; [discriminate | auto]|].
  split; [|discriminate]. intros _.
  destruct (fault s_yule_denom); cbn; [auto|].
  destruct (fault s_yule_q); cbn; [auto|].
  destruct (fault s_yule_store); cbn; auto.
Qed.

Lemma fisher_cell_pure (i j : nat) (s : locals) :
  snd (fisher_cell fisher_exact fault i j s) = s.
Proof.
  unfold fisher_cell, bind, at_site, read_var, ret.
  destruct (fault (s_fisher_table i j)); [reflexivity|].
  destruct (var_a s); [|reflexivity]. destruct (var_b s); [|reflexivity].
  destruct (var_c s); [|reflexivity]. destruct (var_d s); reflexivity.
Qed.

Lemma fisher_cell_bound (i j : nat) (s : locals) (a b c d : matrix) :
  var_a s = Some a -> var_b s = Some b -> var_c s = Some c -> var_d s = Some d ->
  fault (s_fisher_table i j) = false ->
  fisher_cell fisher_exact fault i j s
  = (Ok (fisher_p_value fisher_exact (mat_get a i j) (mat_get b i j)
                        (mat_get c i j) (mat_get d i j)), s).
Proof.
  intros Ha Hb Hc Hd Hf. unfold fisher_cell, bind, at_site, read_var, ret.
  rewrite Hf, Ha, Hb, Hc, Hd. reflexivity.
Qed.

Lemma fisher_cell_unbound (i j : nat) (s : locals) :
  var_a s = None \/ var_b s = None \/ var_c s = None \/ var_d s = None ->
  is_ok (fst (fisher_cell fisher_exact fault i j s)) = false.
Proof.
  intro H. unfold fisher_cell, bind, at_site, read_var, ret.
  destruct (fault (s_fisher_table i j)); [reflexivity|].
  destruct (var_a s); [|reflexivity]. destruct (var_b s); [|reflexivity].
  destruct (var_c s); [|reflexivity]. destruct (var_d s); [|reflexivity].
  destruct H as [H|[H|[H|H]]]; discriminate.
Qed.

Lemma fisher_cell_fault (i j : nat) (s : locals) :
  fault (s_fisher_table i j) = true ->
  is_ok (fst (fisher_cell fisher_exact fault i j s)) = false.
Proof.
  intro H. unfold fisher_cell, bind, at_site. rewrite H. reflexivity.
Qed.

Lemma fisher_row_pure (i : nat) (l : list nat) (s : locals) :
  snd (for_each (fisher_cell fisher_exact fault i) l s) = s.
Proof. apply for_each_pure. intro j. apply fisher_cell_pure. Qed.

Lemma fisher_loop_pure (s : locals) :
  snd (fisher_loop fisher_exact fault df1 df2 s) = s.
Proof.
  unfold fisher_loop. apply for_each_pure. intro i. apply fisher_row_pure.
Qed.

(** The state in which the Fisher block runs: the names are as the
    [yule_q] block left them. *)
Definition yule_left (s : locals) : Prop :=
  (yule_unbound = false ->
     var_a s = Some R /\ var_b s = Some (yule_b df1 df2 R) /\
     var_c s = Some (yule_c df1 df2 R) /\ var_d s = Some (yule_d df1 df2 R)) /\
  (yule_unbound = true ->
     var_a s = None \/ var_b s = None \/ var_c s = None \/ var_d s = None).

Lemma fisher_loop_returns (s : locals) :
  yule_left s -> fisher_cells_raise = false ->
  fisher_loop fisher_exact fault df1 df2 s = (Ok fisher_matrix, s).
Proof.
  intros [Hbound _] Hno. unfold fisher_loop, fisher_matrix, mat_init.
  apply for_each_map. intros i Hi.
  apply for_each_map. intros j Hj.
  unfold fisher_cells_raise in Hno.
  assert (Hij : fault (s_fisher_table i j) || yule_unbound = false).
  { destruct (fault (s_fisher_table i j) || yule_unbound) eqn:E; [|reflexivity].
    exfalso.
    enough (H : existsb (fun i => existsb
                  (fun j => fault (s_fisher_table i j) || yule_unbound)
                  (seq 0 (n_cols df2))) (seq 0 (n_cols df1)) = true)
      by (rewrite H in Hno; discriminate).
    apply existsb_exists. exists i. split; [exact Hi|].
    apply existsb_exists. exists j. split; assumption. }
  apply orb_false_iff in Hij. destruct Hij as [Hf Hu].
  destruct (Hbound Hu) as (Ha & Hb & Hc & Hd).
  apply fisher_cell_bound; assumption.
Qed.

Lemma fisher_loop_raises (s : locals) :
  yule_left s -> fisher_cells_raise = true ->
  is_ok (fst (fisher_loop fisher_exact fault df1 df2 s)) = false.
Proof.
  intros [_ Hunbound] Hyes. unfold fisher_cells_raise in Hyes.
  apply existsb_exists in Hyes. destruct Hyes as (i & Hi & Hrow).
  apply existsb_exists in Hrow. destruct Hrow as (j & Hj & Hcell).
  unfold fisher_loop.
  apply for_each_raises with (x := i); [intro; apply fisher_row_pure | exact Hi |].
  apply for_each_raises with (x := j); [intro; apply fisher_cell_pure | exact Hj |].
  apply orb_true_iff in Hcell. destruct Hcell as [Hf|Hu].
  - apply fisher_cell_fault; exact Hf.
  - apply fisher_cell_unbound, Hunbound, Hu.
Qed.

Lemma fisher_body_dict (s : locals) :
  yule_left s ->
  dict_of (snd (body_fisher_p fisher_exact fault df1 df2 s))
  = if fisher_raises then dict_of s
    else dict_set (dict_of s) "fisher_p" (safe_df df1 df2 fisher_matrix).
Proof.
  intro Hs. unfold fisher_raises, body_fisher_p, bind, at_site.
  destruct (fault s_fisher_zeros); [reflexivity|]. cbn [orb].
  destruct fisher_cells_raise eqn:Hc.
  - pose proof (fisher_loop_raises Hs Hc) as Hr.
    pose proof (fisher_loop_pure s) as Hp.
    destruct (fisher_loop fisher_exact fault df1 df2 s) as [[p|e] s1];
      simpl in *; [discriminate | subst s1; reflexivity].
  - rewrite (fisher_loop_returns Hs Hc). cbn [orb].
    destruct (fault s_fisher_store); reflexivity.
Qed.

Lemma fisher_body_vars (s : locals) :
  let s' := snd (body_fisher_p fisher_exact fault df1 df2 s) in
  var_a s' = var_a s /\ var_b s' = var_b s /\ var_c s' = var_c s /\ var_d s' = var_d s.
Proof.
  unfold body_fisher_p, bind, at_site.
  destruct (fault s_fisher_zeros); [cbn; auto|].
  pose proof (fisher_loop_pure s) as Hp.
  destruct (fisher_loop fisher_exact fault df1 df2 s) as [[p|e] s1];
    simpl in *; subst s1; [|auto].
  destruct (fault s_fisher_store); cbn; auto.
Qed.

Lemma simple_body_dict (x : site) (name : string) (frame : RelationFrame) (s : locals) :
  dict_of (snd ((at_site fault x ;; store name frame)%stmt s))
  = if fault x then dict_of s else dict_set (dict_of s) name frame.
Proof. rewrite simple_body_run. destruct (fault x); reflexivity. Qed.

Lemma simple_body_vars (x : site) (name : string) (frame : RelationFrame) (s : locals) :
  let s' := snd ((at_site fault x ;; store name frame)%stmt s) in
  var_a s' = var_a s /\ var_b s' = var_b s /\ var_c s' = var_c s /\ var_d s' = var_d s.
Proof. cbv zeta. rewrite simple_body_run. destruct (fault x); cbn; auto. Qed.

Lemma jaccard_body_dict (s : locals) :
  dict_of (snd (body_jaccard fault df1 df2 R eps s))
  = if fault s_jaccard_denom || fault s_jaccard then dict_of s
    else dict_set (dict_of s) "jaccard" (safe_df df1 df2 (jaccard df1 df2 R eps)).
Proof.
  rewrite jaccard_body_run.
  destruct (fault s_jaccard_denom || fault s_jaccard); reflexivity.
Qed.

(** Looking a key up after a block that stored under [name] unless it raised. *)
Lemma dict_get_layer (raised : bool) (d : dict string RelationFrame)
      (name k : string) (frame : RelationFrame) :
  dict_get (if raised then d else dict_set d name frame) k
  = if string_dec k name then (if raised then dict_get d k else Some frame)
    else dict_get d k.
Proof.
  destruct raised.
  - destruct (string_dec k name); reflexivity.
  - rewrite dict_get_set. unfold eq_dec, string_EqDec.
    destruct (string_dec k name); reflexivity.
Qed.

(** The locals in which each block starts, from the empty ones. *)
Definition after_association : locals :=
  snd (body_association fault df1 df2 R eps init_locals).
Definition after_inclusion : locals :=
  snd (body_inclusion fault df1 df2 R eps after_association).
Definition after_salton : locals :=
  snd (body_salton fault df1 df2 R eps after_inclusion).
Definition after_yule_q : locals :=
  snd (body_yule_q fault df1 df2 R eps after_salton).
Definition after_fisher_p : locals :=
  snd (body_fisher_p fisher_exact fault df1 df2 after_yule_q).
Definition after_jaccard : locals :=
  snd (body_jaccard fault df1 df2 R eps after_fisher_p).
Definition after_equivalence : locals :=
  snd (body_equivalence fault df1 df2 R eps after_jaccard).

Lemma normalizations_run :
  normalizations fisher_exact fault df1 df2 R eps init_locals
  = (Ok tt, after_equivalence).
Proof. reflexivity. Qed.

Lemma after_salton_unbound :
  var_a after_salton = None /\ var_b after_salton = None /\
  var_c after_salton = None /\ var_d after_salton = None.
Proof.
  unfold after_salton, after_inclusion, after_association,
    body_salton, body_inclusion, body_association.
  repeat match goal with
  | |- context [snd ((at_site fault ?x ;; store ?n ?f)%stmt ?s)] =>
      destruct (simple_body_vars x n f s) as (-> & -> & -> & ->)
  end.
  cbn. auto.
Qed.

Lemma after_yule_q_left : yule_left after_yule_q.
Proof.
  destruct after_salton_unbound as (Ha & Hb & Hc & Hd).
  exact (yule_body_vars after_salton Ha Hb Hc Hd).
Qed.

Ltac decide_strings :=
  repeat match goal with
  | |- context [string_dec ?a ?b] =>
      destruct (string_dec a b); try congruence
  end.

Ltac unfold_layers :=
  unfold after_equivalence, body_equivalence;
  rewrite simple_body_dict, dict_get_layer;
  unfold after_jaccard; rewrite jaccard_body_dict, dict_get_layer;
  unfold after_fisher_p; rewrite (fisher_body_dict after_yule_q_left), dict_get_layer;
  unfold after_yule_q; rewrite yule_body_dict, dict_get_layer;
  unfold after_salton, body_salton; rewrite simple_body_dict, dict_get_layer;
  unfold after_inclusion, body_inclusion; rewrite simple_body_dict, dict_get_layer;
  unfold after_association, body_association; rewrite simple_body_dict, dict_get_layer;
  cbn [init_locals normalized_matrices dict_get].

(** What each name holds in [normalized_matrices] after the seven blocks. *)
Lemma normalized_lookup :
  let nm := dict_of after_equivalence in
  dict_get nm "association"
    = (if fault s_association then None
       else Some (safe_df df1 df2 (association df1 df2 R eps))) /\
  dict_get nm "inclusion"
    = (if fault s_inclusion then None
       else Some (safe_df df1 df2 (inclusion df1 df2 R eps))) /\
  dict_get nm "salton"
    = (if fault s_salton then None
       else Some (safe_df df1 df2 (salton df1 df2 R eps))) /\
  dict_get nm "yule_q"
    = (if yule_raises then None
       else Some (safe_df df1 df2 (yule_q df1 df2 R eps))) /\
  dict_get nm "fisher_p"
    = (if fisher_raises then None else Some (safe_df df1 df2 fisher_matrix)) /\
  dict_get nm "jaccard"
    = (if fault s_jaccard_denom || fault s_jaccard then None
       else Some (safe_df df1 df2 (jaccard df1 df2 R eps))) /\
  dict_get nm "equivalence"
    = (if fault s_equivalence then None
       else Some (safe_df df1 df2 (equivalence df1 df2 R eps))).
Proof.
  cbv zeta. repeat split; unfold_layers; decide_strings; reflexivity.
Qed.

(** The seven blocks as they run: name, body, and the locals in which the
    body starts. *)
Definition blocks_run : list (string * stmt unit * locals) :=
  [ ("association", body_association fault df1 df2 R eps, init_locals);
    ("inclusion", body_inclusion fault df1 df2 R eps, after_association);
    ("salton", body_salton fault df1 df2 R eps, after_inclusion);
    ("yule_q", body_yule_q fault df1 df2 R eps, after_salton);
    ("fisher_p", body_fisher_p fisher_exact fault df1 df2, after_yule_q);
    ("jaccard", body_jaccard fault df1 df2 R eps, after_fisher_p);
    ("equivalence", body_equivalence fault df1 df2 R eps, after_jaccard) ].

(** The body raises when run in [s]. *)
Definition raised (body : stmt unit) (s : locals) : bool :=
  negb (is_ok (fst (body s))).

Lemma simple_body_raised (x : site) (name : string) (frame : RelationFrame) (s : locals) :
  raised (at_site fault x ;; store name frame)%stmt s = fault x.
Proof. unfold raised, bind, at_site, store. destruct (fault x); reflexivity. Qed.

Lemma jaccard_body_raised (s : locals) :
  raised (body_jaccard fault df1 df2 R eps) s
  = fault s_jaccard_denom || fault s_jaccard.
Proof.
  unfold raised, body_jaccard, bind, at_site, store.
  destruct (fault s_jaccard_denom); [reflexivity|].
  destruct (fault s_jaccard); reflexivity.
Qed.

Lemma yule_body_raised (s : locals) :
  raised (body_yule_q fault df1 df2 R eps) s = yule_raises.
Proof.
  unfold raised, yule_raises, body_yule_q, bind, at_site, store, assign_a,
    assign_b, assign_c, assign_d.
  destruct (fault s_yule_n_docs); [reflexivity|].
  destruct (fault s_yule_a); [reflexivity|].
  destruct (fault s_yule_b); [reflexivity|].
  destruct (fault s_yule_c); [reflexivity|].
  destruct (fault s_yule_d); [reflexivity|].
  destruct (fault s_yule_denom); [reflexivity|].
  destruct (fault s_yule_q); [reflexivity|].
  destruct (fault s_yule_store); reflexivity.
Qed.

Lemma fisher_body_raised (s : locals) :
  yule_left s ->
  raised (body_fisher_p fisher_exact fault df1 df2) s = fisher_raises.
Proof.
  intro Hs. unfold raised, fisher_raises, body_fisher_p, bind, at_site.
  destruct (fault s_fisher_zeros); [reflexivity|]. cbn [orb].
  destruct fisher_cells_raise eqn:Hc.
  - pose proof (fisher_loop_raises Hs Hc) as Hr.
    destruct (fisher_loop fisher_exact fault df1 df2 s) as [[p|e] s1];
      simpl in *; [discriminate | reflexivity].
  - rewrite (fisher_loop_returns Hs Hc). cbn [orb].
    destruct (fault s_fisher_store); reflexivity.
Qed.

(** A name is returned exactly when its block did not raise, and then with
    the frame that the block stored. *)
Lemma blocks_run_spec (name : string) (body : stmt unit) (s : locals) :
  In (name, body, s) blocks_run ->
  dict_get (dict_of after_equivalence) name
  = (if raised body s then None else dict_get (dict_of (snd (body s))) name) /\
  (raised body s = false -> dict_get (dict_of (snd (body s))) name <> None).
Proof.
  pose proof normalized_lookup as (L1 & L2 & L3 & L4 & L5 & L6 & L7).
  cbv zeta in *. unfold blocks_run. intro Hin.
  repeat (destruct Hin as [Hin|Hin]; [injection Hin as <- <- <-|]);
    try contradiction.
  - rewrite L1. unfold body_association.
    rewrite simple_body_raised, simple_body_dict, dict_get_layer.
    destruct (fault s_association); decide_strings; split; congruence.
  - rewrite L2. unfold body_inclusion.
    rewrite simple_body_raised, simple_body_dict, dict_get_layer.
    destruct (fault s_inclusion); decide_strings; split; congruence.
  - rewrite L3. unfold body_salton.
    rewrite simple_body_raised, simple_body_dict, dict_get_layer.
    destruct (fault s_salton); decide_strings; split; congruence.
  - rewrite L4. rewrite yule_body_raised, yule_body_dict, dict_get_layer.
    destruct yule_raises; decide_strings; split; congruence.
  - rewrite L5. rewrite (fisher_body_raised after_yule_q_left),
      (fisher_body_dict after_yule_q_left), dict_get_layer.
    destruct fisher_raises; decide_strings; split; congruence.
  - rewrite L6. rewrite jaccard_body_raised, jaccard_body_dict, dict_get_layer.
    destruct (fault s_jaccard_denom || fault s_jaccard); decide_strings;
      split; congruence.
  - rewrite L7. unfold body_equivalence.
    rewrite simple_body_raised, simple_body_dict, dict_get_layer.
    destruct (fault s_equivalence); decide_strings; split; congruence.
Qed.

End NormalizationRun.

(* ------------------------------------------------------------------ *)
(** * What a returning call of compute_relation_matrix computed *)

Section RelationTheorems.

Variable tfidf_fit_transform : matrix -> result matrix.
Variable fisher_exact :
  npfloat -> npfloat -> npfloat -> npfloat -> result (npfloat * npfloat).
Variable nxGraph : Type.
Variable from_pandas_adjacency : bool -> RelationFrame -> result nxGraph.

Local Abbreviation crm fault :=
  (compute_relation_matrix tfidf_fit_transform fisher_exact
     from_pandas_adjacency fault).

(** The frames that enter the product: the arguments, re-weighted when
    TF-IDF is requested, the second one defaulting to the first. *)
Definition frames_used (tfidf : bool) (df1 : DataFrame) (df2 : option DataFrame)
           (e1 e2 : DataFrame) : Prop :=
  if tfidf then
    apply_tfidf tfidf_fit_transform df1 = Ok e1 /\
    match df2 with
    | Some d => apply_tfidf tfidf_fit_transform d = Ok e2
    | None => e2 = e1
    end
  else e1 = df1 /\ e2 = second_frame df1 df2.

Definition product (e1 e2 : DataFrame) : matrix :=
  mat_init (n_cols e1) (n_cols e2)
    (fun i j => dot (column i (values e1)) (column j (values e2))).

Lemma compute_relation_matrix_inv fault df1 df2 normalization pmi tfidf network eps out :
  crm fault df1 df2 normalization pmi tfidf network eps = Ok out ->
  exists e1 e2,
    frames_used tfidf df1 df2 e1 e2 /\
    n_rows e1 = n_rows e2 /\
    (pmi = true -> df_equals e1 e2 = true) /\
    out_relation out
      = mkRelationFrame (columns e1) (columns e2)
          (if pmi then pmi_matrix eps (n_cols e1) (n_cols e2) (product e1 e2)
           else product e1 e2) /\
    out_normalized out
      = if normalization then
          normalized_matrices
            (after_equivalence fisher_exact fault e1 e2
               (cells (out_relation out)) eps)
        else [].
Proof.
  unfold compute_relation_matrix, frames_used.
  destruct (if tfidf then apply_tfidf tfidf_fit_transform df1 else Ok df1)
    as [e1|e] eqn:H1; cbn [rbind]; [|discriminate].
  destruct (if tfidf then
              match df2 with
              | Some d => rbind (apply_tfidf tfidf_fit_transform d)
                                (fun d' => Ok (Some d'))
              | None => Ok None
              end
            else Ok df2) as [o2|e] eqn:H2; cbn [rbind]; [|discriminate].
  set (e2 := match o2 with Some d => d | None => e1 end).
  unfold matmul_T. destruct (Nat.eqb_spec (n_rows e1) (n_rows e2)) as [E|E];
    cbn [rbind]; [|discriminate].
  fold (product e1 e2).
  destruct (if pmi then
              if df_equals e1 e2 then
                Ok (mkRelationFrame (columns e1) (columns e2)
                      (pmi_matrix eps (n_cols e1) (n_cols e2)
                         (cells (mkRelationFrame (columns e1) (columns e2)
                                   (product e1 e2)))))
              else Raise ValueError
            else Ok (mkRelationFrame (columns e1) (columns e2) (product e1 e2)))
    as [rel|e] eqn:H3; cbn [rbind]; [|discriminate].
  intro Hout.
  assert (Hrel : out_relation out = rel /\
                 out_normalized out
                 = if normalization then
                     normalized_matrices
                       (after_equivalence fisher_exact fault e1 e2 (cells rel) eps)
                   else []).
  { destruct network; cbn [rbind] in Hout.
    - destruct (from_pandas_adjacency _ rel); cbn [rbind] in Hout; [|discriminate].
      injection Hout as <-. cbn [out_relation out_normalized].
      split; [reflexivity|]. destruct normalization; reflexivity.
    - injection Hout as <-. cbn [out_relation out_normalized].
      split; [reflexivity|]. destruct normalization; reflexivity. }
  destruct Hrel as [Hr Hn]. exists e1, e2.
  split; [|split; [exact E|split; [|split]]].
  - destruct tfidf.
    + split; [exact H1|]. subst e2. destruct df2 as [d|].
      * destruct (apply_tfidf tfidf_fit_transform d); cbn [rbind] in H2;
          [injection H2 as <-; reflexivity | discriminate].
      * injection H2 as <-. reflexivity.
    + injection H1 as <-. injection H2 as <-. split; reflexivity.
  - intros ->. destruct (df_equals e1 e2); [reflexivity | discriminate].
  - rewrite Hr. destruct pmi.
    + destruct (df_equals e1 e2); [|discriminate]. injection H3 as <-. reflexivity.
    + injection H3 as <-. reflexivity.
  - rewrite Hn, Hr. reflexivity.
Qed.

(** Faults inside the guarded blocks never decide whether the call returns. *)
Lemma faults_do_not_abort f1 f2 df1 df2 normalization pmi tfidf network eps :
  is_ok (crm f1 df1 df2 normalization pmi tfidf network eps)
  = is_ok (crm f2 df1 df2 normalization pmi tfidf network eps).
Proof.
  unfold compute_relation_matrix.
  destruct (if tfidf then apply_tfidf tfidf_fit_transform df1 else Ok df1)
    as [e1|e]; cbn [rbind]; [|reflexivity].
  destruct (if tfidf then
              match df2 with
              | Some d => rbind (apply_tfidf tfidf_fit_transform d)
                                (fun d' => Ok (Some d'))
              | None => Ok None
              end
            else Ok df2) as [o2|e]; cbn [rbind]; [|reflexivity].
  destruct (matmul_T e1 (match o2 with Some d => d | None => e1 end))
    as [rel0|e]; cbn [rbind]; [|reflexivity].
  match goal with
  | |- context [rbind ?m _] => destruct m as [rel|e]; cbn [rbind]; [|reflexivity]
  end.
  destruct network; cbn [rbind]; [|reflexivity].
  destruct (from_pandas_adjacency _ rel); reflexivity.
Qed.

(** C7.  With [normalization=True] every one of the seven normalizations
    runs in its own guarded block, one after the other.  A name is in the
    returned dictionary exactly when the body of its block did not raise,
    and then with the frame that body stored; a body that raises leaves its
    name out and nothing else changes.  No raising body makes the call
    abort: the call returns exactly when it returns without any fault.
    Spelled out per name: each formula-based normalization is present unless
    one of its own statements raises, and [fisher_p] is present unless one of
    its own statements raises or a cell reads [a], [b], [c], [d] that the
    [yule_q] block left unbound (a [NameError] inside the Fisher block). *)
Theorem failed_normalization_is_omitted fault df1 df2 pmi tfidf network eps :
  is_ok (crm fault df1 df2 true pmi tfidf network eps)
  = is_ok (crm no_fault df1 df2 true pmi tfidf network eps) /\
  forall out,
    crm fault df1 df2 true pmi tfidf network eps = Ok out ->
    exists e1 e2,
      frames_used tfidf df1 df2 e1 e2 /\
      let R := cells (out_relation out) in
      let nm := out_normalized out in
      (forall name body s,
          In (name, body, s) (blocks_run fisher_exact fault e1 e2 R eps) ->
          dict_get nm name
          = (if raised body s then None
             else dict_get (normalized_matrices (snd (body s))) name) /\
          (raised body s = false ->
           dict_get (normalized_matrices (snd (body s))) name <> None)) /\
      dict_get nm "association"
        = (if fault s_association then None
           else Some (safe_df e1 e2 (association e1 e2 R eps))) /\
      dict_get nm "inclusion"
        = (if fault s_inclusion then None
           else Some (safe_df e1 e2 (inclusion e1 e2 R eps))) /\
      dict_get nm "salton"
        = (if fault s_salton then None
           else Some (safe_df e1 e2 (salton e1 e2 R eps))) /\
      dict_get nm "yule_q"
        = (if yule_raises fault then None
           else Some (safe_df e1 e2 (yule_q e1 e2 R eps))) /\
      dict_get nm "fisher_p"
        = (if fisher_raises fault e1 e2 then None
           else Some (safe_df e1 e2 (fisher_matrix fisher_exact e1 e2 R))) /\
      dict_get nm "jaccard"
        = (if fault s_jaccard_denom || fault s_jaccard then None
           else Some (safe_df e1 e2 (jaccard e1 e2 R eps))) /\
      dict_get nm "equivalence"
        = (if fault s_equivalence then None
           else Some (safe_df e1 e2 (equivalence e1 e2 R eps))).
Proof.
  split; [apply faults_do_not_abort|].
  intros out Hout.
  destruct (compute_relation_matrix_inv _ _ _ _ _ _ _ _ Hout)
    as (e1 & e2 & Hused & _ & _ & _ & Hnm).
  exists e1, e2. split; [exact Hused|]. cbv zeta. rewrite Hnm. split.
  - intros name body s Hin. apply blocks_run_spec. exact Hin.
  - apply normalized_lookup.
Qed.

End RelationTheorems.

(* ------------------------------------------------------------------ *)
(** * Bounds of the normalized values *)

(** A finite value in [0, 1]. *)
Definition in_unit (v : npfloat) : Prop :=
  exists x : R, v = Fin x /\ 0 <= x <= 1.

(** A finite value in [-1, 1]. *)
Definition in_signed_unit (v : npfloat) : Prop :=
  exists x : R, v = Fin x /\ -1 <= x <= 1.

Lemma np_div_fin (x y : R) : y <> 0 -> np_div (Fin x) (Fin y) = Fin (x / y).
Proof.
  intro Hy. unfold np_div. destruct (Req_dec_T y 0); [contradiction | reflexivity].
Qed.

Lemma ratio_in_unit (x y e : R) :
  0 <= x -> x <= y -> 0 < e -> in_unit (np_div (Fin x) (np_add (Fin y) (Fin e))).
Proof.
  intros Hx Hxy He. cbn [np_add]. rewrite np_div_fin by lra.
  exists (x / (y + e)). split; [reflexivity|]. split.
  - apply Rmult_le_pos; [lra|]. left. apply Rinv_0_lt_compat. lra.
  - apply (Rmult_le_reg_r (y + e)); [lra|].
    unfold Rdiv. rewrite Rmult_assoc, Rinv_l by lra. lra.
Qed.

Lemma ratio_in_signed_unit (x y e : R) :
  - y <= x -> x <= y -> 0 < e ->
  in_signed_unit (np_div (Fin x) (np_add (Fin y) (Fin e))).
Proof.
  intros Hlo Hhi He. cbn [np_add]. rewrite np_div_fin by lra.
  exists (x / (y + e)). split; [reflexivity|].
  assert (Hpos : 0 < y + e) by lra.
  split.
  - apply (Rmult_le_reg_r (y + e)); [lra|].
    unfold Rdiv. rewrite Rmult_assoc, Rinv_l by lra. lra.
  - apply (Rmult_le_reg_r (y + e)); [lra|].
    unfold Rdiv. rewrite Rmult_assoc, Rinv_l by lra. lra.
Qed.

(** The counts behind one cell of the relation of two binary frames:
    shared documents, and the two document frequencies. *)
Lemma binary_cell_counts (df1 df2 : DataFrame) (i j : nat) :
  wf_frame df1 -> binary_frame df1 -> wf_frame df2 -> binary_frame df2 ->
  n_rows df1 = n_rows df2 ->
  (i < n_cols df1)%nat -> (j < n_cols df2)%nat ->
  exists n p q : nat,
    mat_get (product df1 df2) i j = Fin (INR n) /\
    nth i (sum_axis0 df1) NaN = Fin (INR p) /\
    nth j (sum_axis0 df2) NaN = Fin (INR q) /\
    (n <= p)%nat /\ (n <= q)%nat /\ (p + q <= n_rows df1 + n)%nat.
Proof.
  intros W1 B1 W2 B2 E Hi Hj.
  exists (co_count df1 df2 i j), (doc_freq df1 i), (doc_freq df2 j).
  split; [|split; [|split]].
  - unfold product. rewrite mat_get_init by assumption.
    apply relation_cell_counts; assumption.
  - apply doc_freq_is_column_sum; assumption.
  - apply doc_freq_is_column_sum; assumption.
  - unfold co_count, doc_freq.
    set (u := column i (values df1)). set (v := column j (values df2)).
    assert (Hlen : List.length u = List.length v).
    { subst u v. rewrite !column_length. exact E. }
    pose proof (count_both_le_l u v) as H1.
    pose proof (count_both_le_r u v) as H2.
    pose proof (count_union_le u v Hlen) as H3.
    assert (Hn : List.length u = n_rows df1) by (subst u; apply column_length).
    rewrite Hn in H3. lia.
Qed.

Section FormulaBounds.

(** [n] shared documents, [p] and [q] documents per item, [N] documents. *)
Variables n p q N : nat.
Variable e : R.
Hypothesis Hnp : (n <= p)%nat.
Hypothesis Hnq : (n <= q)%nat.
Hypothesis Hunion : (p + q <= N + n)%nat.
Hypothesis He : 0 < e.

Let x := INR n.
Let y := INR p.
Let z := INR q.

Lemma counts_as_reals :
  0 <= x /\ x <= y /\ x <= z /\ x <= y * z /\ x * x <= y * z /\
  y + z <= INR N + x.
Proof.
  subst x y z.
  assert (H1 : (n <= p * q)%nat) by nia.
  assert (H2 : (n * n <= p * q)%nat) by nia.
  apply le_INR in H1, H2. rewrite mult_INR in H1. rewrite !mult_INR in H2.
  pose proof (le_INR _ _ Hnp). pose proof (le_INR _ _ Hnq).
  pose proof (le_INR _ _ Hunion) as H3. rewrite !plus_INR in H3.
  pose proof (pos_INR n). repeat split; lra.
Qed.

Lemma association_bounded :
  in_unit (Fin x / (Fin y * Fin z + Fin e))%np.
Proof.
  destruct counts_as_reals as (? & ? & ? & ? & ? & ?).
  cbn [np_mul]. apply ratio_in_unit; lra.
Qed.

Lemma inclusion_bounded :
  in_unit (Fin x / (np_minimum (Fin y) (Fin z) + Fin e))%np.
Proof.
  destruct counts_as_reals as (? & ? & ? & ? & ? & ?).
  cbn [np_minimum]. apply ratio_in_unit; try lra.
  apply Rmin_glb; lra.
Qed.

Lemma salton_bounded :
  in_unit (Fin x / (np_sqrt (Fin y * Fin z) + Fin e))%np.
Proof.
  destruct counts_as_reals as (? & ? & ? & ? & ? & ?).
  cbn [np_mul]. unfold np_sqrt.
  destruct (Rlt_dec (y * z) 0) as [Hneg|_]; [lra|].
  apply ratio_in_unit; try lra.
  rewrite <- (sqrt_square x) by lra. apply sqrt_le_1; nra.
Qed.

Lemma jaccard_bounded :
  in_unit (Fin x / (Fin y + Fin z - Fin x + Fin e))%np.
Proof.
  destruct counts_as_reals as (? & ? & ? & ? & ? & ?).
  cbn [np_add np_sub]. apply ratio_in_unit; lra.
Qed.

Lemma equivalence_bounded :
  in_unit ((Fin x * Fin x) / (Fin y * Fin z + Fin e))%np.
Proof.
  destruct counts_as_reals as (? & ? & ? & ? & ? & ?).
  cbn [np_mul]. apply ratio_in_unit; nra.
Qed.

Lemma yule_q_bounded :
  let a := Fin x in
  let b := (Fin y - Fin x)%np in
  let c := (Fin z - Fin x)%np in
  let d := (np_of_nat N - (a + b + c))%np in
  in_signed_unit ((a * d - b * c) / (a * d + b * c + Fin e))%np.
Proof.
  destruct counts_as_reals as (? & ? & ? & ? & ? & ?).
  cbv zeta. unfold np_of_nat. cbn [np_add np_sub np_mul].
  assert (Hd : 0 <= INR N - (x + (y - x) + (z - x))) by lra.
  assert (Had : 0 <= x * (INR N - (x + (y - x) + (z - x))))
    by (apply Rmult_le_pos; lra).
  assert (Hbc : 0 <= (y - x) * (z - x)) by (apply Rmult_le_pos; lra).
  apply ratio_in_signed_unit; lra.
Qed.

End FormulaBounds.

Section NormalizationBounds.

Variable tfidf_fit_transform : matrix -> result matrix.
Variable fisher_exact :
  npfloat -> npfloat -> npfloat -> npfloat -> result (npfloat * npfloat).
Variable nxGraph : Type.
Variable from_pandas_adjacency : bool -> RelationFrame -> result nxGraph.
Variable fault : site -> bool.

(** C9.  For binary indicator frames (over the same documents, no TF-IDF,
    no PMI) and a positive [eps], every cell of the returned 'jaccard',
    'salton', 'association', 'inclusion' and 'equivalence' matrices is a
    finite number in [0, 1], and every cell of 'yule_q' is a finite number in
    [-1, 1]. *)
Theorem normalized_values_bounded df1 df2 network (e : R) out :
  wf_frame df1 -> binary_frame df1 ->
  wf_frame (second_frame df1 df2) -> binary_frame (second_frame df1 df2) ->
  0 < e ->
  compute_relation_matrix tfidf_fit_transform fisher_exact
    from_pandas_adjacency fault df1 df2 true false false network (Fin e) = Ok out ->
  (forall name frame,
      In name ["jaccard"; "salton"; "association"; "inclusion"; "equivalence"] ->
      dict_get (out_normalized out) name = Some frame ->
      Forall (Forall in_unit) (cells frame)) /\
  (forall frame,
      dict_get (out_normalized out) "yule_q" = Some frame ->
      Forall (Forall in_signed_unit) (cells frame)).
Proof.
  intros W1 B1 W2 B2 He Hout.
  apply compute_relation_matrix_inv in Hout
    as (e1 & e2 & [-> ->] & E & _ & Hrel & Hnm).
  set (d2 := second_frame df1 df2) in *.
  rewrite Hrel in Hnm. cbn [cells] in Hnm.
  pose proof (normalized_lookup fisher_exact fault df1 d2 (product df1 d2) (Fin e))
    as (L1 & L2 & L3 & L4 & _ & L6 & L7).
  cbv zeta in *. rewrite <- Hnm in *. clear Hnm Hrel.
  assert (Hcell : forall i j, (i < n_cols df1)%nat -> (j < n_cols d2)%nat ->
            exists n p q : nat,
              mat_get (product df1 d2) i j = Fin (INR n) /\
              nth i (sum_axis0 df1) NaN = Fin (INR p) /\
              nth j (sum_axis0 d2) NaN = Fin (INR q) /\
              (n <= p)%nat /\ (n <= q)%nat /\ (p + q <= n_rows df1 + n)%nat)
    by (intros; apply binary_cell_counts; assumption).
  split.
  - intros name frame Hname Hget. simpl in Hname.
    destruct Hname as [<-|[<-|[<-|[<-|[<-|[]]]]]].
    + rewrite L6 in Hget. destruct (_ || _); [discriminate|].
      injection Hget as <-. cbn [cells safe_df]. unfold jaccard.
      apply mat_init_Forall. intros i j Hi Hj.
      destruct (Hcell i j Hi Hj) as (n & p & q & -> & -> & -> & ? & ? & ?).
      apply jaccard_bounded with (N := n_rows df1); assumption.
    + rewrite L3 in Hget. destruct (fault s_salton); [discriminate|].
      injection Hget as <-. cbn [cells safe_df]. unfold salton.
      apply mat_init_Forall. intros i j Hi Hj.
      destruct (Hcell i j Hi Hj) as (n & p & q & -> & -> & -> & ? & ? & ?).
      apply salton_bounded with (N := n_rows df1); assumption.
    + rewrite L1 in Hget. destruct (fault s_association); [discriminate|].
      injection Hget as <-. cbn [cells safe_df]. unfold association.
      apply mat_init_Forall. intros i j Hi Hj.
      destruct (Hcell i j Hi Hj) as (n & p & q & -> & -> & -> & ? & ? & ?).
      apply association_bounded with (N := n_rows df1); assumption.
    + rewrite L2 in Hget. destruct (fault s_inclusion); [discriminate|].
      injection Hget as <-. cbn [cells safe_df]. unfold inclusion.
      apply mat_init_Forall. intros i j Hi Hj.
      destruct (Hcell i j Hi Hj) as (n & p & q & -> & -> & -> & ? & ? & ?).
      apply inclusion_bounded with (N := n_rows df1); assumption.
    + rewrite L7 in Hget. destruct (fault s_equivalence); [discriminate|].
      injection Hget as <-. cbn [cells safe_df]. unfold equivalence.
      apply mat_init_Forall. intros i j Hi Hj.
      destruct (Hcell i j Hi Hj) as (n & p & q & -> & -> & -> & ? & ? & ?).
      apply equivalence_bounded with (N := n_rows df1); assumption.
  - intros frame Hget. rewrite L4 in Hget.
    destruct (yule_raises fault); [discriminate|].
    injection Hget as <-. cbn [cells safe_df]. unfold yule_q.
    apply mat_init_Forall. intros i j Hi Hj. cbv zeta.
    unfold yule_d. rewrite mat_get_init by assumption.
    unfold yule_b, yule_c. rewrite !mat_get_init by assumption.
    destruct (Hcell i j Hi Hj) as (n & p & q & -> & -> & -> & ? & ? & ?).
    apply yule_q_bounded; assumption.
Qed.

End NormalizationBounds.

Lemma default_eps_positive : 0 < 1 / 1000000000.
Proof. lra. Qed.

Lemma normalized_values_bounded_witness :
  exists out,
    compute_relation_matrix sample_tfidf sample_fisher sample_adjacency no_fault
      scenario_frame None true false false false default_eps = Ok out /\
    forall frame,
      dict_get (out_normalized out) "jaccard" = Some frame ->
      Forall (Forall in_unit) (cells frame).
Proof.
  eexists. split; [reflexivity|].
  intros frame Hget.
  refine (proj1 (@normalized_values_bounded
                   sample_tfidf sample_fisher unit sample_adjacency no_fault
                   scenario_frame None false (1 / 1000000000) _
                   scenario_frame_wf scenario_frame_binary
                   scenario_frame_wf scenario_frame_binary
                   default_eps_positive eq_refl) "jaccard" frame _ Hget).
  left. reflexivity.
Defined.

(* ------------------------------------------------------------------ *)
(** * The Fisher block *)

Section FisherFallback.

Variable tfidf_fit_transform : matrix -> result matrix.
Variable nxGraph : Type.
Variable from_pandas_adjacency : bool -> RelationFrame -> result nxGraph.

Local Abbreviation crm fisher_exact fault :=
  (compute_relation_matrix tfidf_fit_transform fisher_exact
     from_pandas_adjacency fault).

(** Neither the faults of guarded statements nor the behaviour of the exact
    test decide whether the call returns. *)
Lemma guarded_parts_do_not_abort fe1 fe2 f1 f2 df1 df2 normalization pmi tfidf network eps :
  is_ok (crm fe1 f1 df1 df2 normalization pmi tfidf network eps)
  = is_ok (crm fe2 f2 df1 df2 normalization pmi tfidf network eps).
Proof.
  unfold compute_relation_matrix.
  destruct (if tfidf then apply_tfidf tfidf_fit_transform df1 else Ok df1)
    as [e1|e]; cbn [rbind]; [|reflexivity].
  destruct (if tfidf then
              match df2 with
              | Some d => rbind (apply_tfidf tfidf_fit_transform d)
                                (fun d' => Ok (Some d'))
              | None => Ok None
              end
            else Ok df2) as [o2|e]; cbn [rbind]; [|reflexivity].
  destruct (matmul_T e1 (match o2 with Some d => d | None => e1 end))
    as [rel0|e]; cbn [rbind]; [|reflexivity].
  match goal with
  | |- context [rbind ?m _] => destruct m as [rel|e]; cbn [rbind]; [|reflexivity]
  end.
  destruct network; cbn [rbind]; [|reflexivity].
  destruct (from_pandas_adjacency _ rel); reflexivity.
Qed.

Lemma frames_used_functional tfidf df1 df2 e1 e2 e1' e2' :
  frames_used tfidf_fit_transform tfidf df1 df2 e1 e2 ->
  frames_used tfidf_fit_transform tfidf df1 df2 e1' e2' ->
  e1' = e1 /\ e2' = e2.
Proof.
  unfold frames_used. destruct tfidf.
  - intros [H1 H2] [H1' H2']. rewrite H1 in H1'. injection H1' as <-.
    split; [reflexivity|]. destruct df2 as [d|].
    + rewrite H2 in H2'. injection H2' as <-. reflexivity.
    + congruence.
  - intros [-> ->] [-> ->]. split; reflexivity.
Qed.

(** C10.  When 'fisher_p' is among the returned normalizations, its cell
    (i, j) is the p-value of the exact test on the table [[a, b], [c, d]] of
    that cell, and 1.0 where the test raised; the frame has one cell per pair
    of items.  A raising test never removes the frame: with any other
    behaviour of the exact test (one that raises everywhere, say) the call
    still returns and 'fisher_p' is still present. *)
Theorem fisher_cell_failure_gives_one
        fisher_exact fault df1 df2 pmi tfidf network eps out frame :
  crm fisher_exact fault df1 df2 true pmi tfidf network eps = Ok out ->
  dict_get (out_normalized out) "fisher_p" = Some frame ->
  exists e1 e2,
    frames_used tfidf_fit_transform tfidf df1 df2 e1 e2 /\
    let R := cells (out_relation out) in
    List.length (cells frame) = n_cols e1 /\
    (forall i j, (i < n_cols e1)%nat -> (j < n_cols e2)%nat ->
       mat_get (cells frame) i j
       = match fisher_exact (mat_get R i j) (mat_get (yule_b e1 e2 R) i j)
                            (mat_get (yule_c e1 e2 R) i j)
                            (mat_get (yule_d e1 e2 R) i j) with
         | Ok (_, p_value) => p_value
         | Raise _ => Fin 1
         end) /\
    (forall other_test, exists out',
       crm other_test fault df1 df2 true pmi tfidf network eps = Ok out' /\
       dict_mem (out_normalized out') "fisher_p" = true).
Proof.
  intros Hout Hget.
  pose proof Hout as Hinv.
  apply compute_relation_matrix_inv in Hinv
    as (e1 & e2 & Hused & E & Hpmi & Hrel & Hnm).
  exists e1, e2. split; [exact Hused|]. cbv zeta.
  pose proof (normalized_lookup fisher_exact fault e1 e2
                (cells (out_relation out)) eps)
    as (_ & _ & _ & _ & L5 & _ & _).
  cbv zeta in L5. rewrite <- Hnm, Hget in L5.
  destruct (fisher_raises fault e1 e2) eqn:Hraise; [discriminate|].
  injection L5 as ->. cbn [cells safe_df]. split; [|split].
  - unfold fisher_matrix. apply mat_init_length.
  - intros i j Hi Hj. unfold fisher_matrix.
    rewrite mat_get_init by assumption. reflexivity.
  - intro other_test.
    pose proof (guarded_parts_do_not_abort other_test fisher_exact fault fault
                  df1 df2 true pmi tfidf network eps) as Hok.
    rewrite Hout in Hok. cbn [is_ok] in Hok.
    destruct (crm other_test fault df1 df2 true pmi tfidf network eps)
      as [out'|e] eqn:Hout'; cbn [is_ok] in Hok; [|discriminate].
    exists out'. split; [reflexivity|].
    apply compute_relation_matrix_inv in Hout'
      as (e1' & e2' & Hused' & _ & _ & _ & Hnm').
    destruct (@frames_used_functional tfidf df1 df2 e1 e2 e1' e2' Hused Hused')
      as [-> ->].
    pose proof (normalized_lookup other_test fault e1 e2
                  (cells (out_relation out')) eps)
      as (_ & _ & _ & _ & L5' & _ & _).
    cbv zeta in L5'. rewrite <- Hnm', Hraise in L5'.
    unfold dict_mem. rewrite L5'. reflexivity.
Qed.

End FisherFallback.

(** An exact test that raises on every table. *)
Definition raising_fisher (a b c d : npfloat) : result (npfloat * npfloat) :=
  Raise ValueError.

Lemma fisher_cell_failure_witness :
  exists out frame,
    compute_relation_matrix sample_tfidf raising_fisher sample_adjacency no_fault
      scenario_frame None true false false false default_eps = Ok out /\
    dict_get (out_normalized out) "fisher_p" = Some frame /\
    mat_get (cells frame) 0 1 = Fin 1.
Proof.
  eexists. eexists. split; [reflexivity|]. split; [reflexivity|].
  destruct (@fisher_cell_failure_gives_one
              sample_tfidf unit sample_adjacency raising_fisher no_fault
              scenario_frame None false false false default_eps _ _
              eq_refl eq_refl)
    as (e1 & e2 & [-> ->] & _ & Hcell & _).
  rewrite (Hcell 0%nat 1%nat) by (cbn; lia).
  reflexivity.
Defined.

(* ------------------------------------------------------------------ *)
(** * PMI *)

Lemma df_equals_refl (df : DataFrame) : df_equals df df = true.
Proof.
  unfold df_equals.
  destruct (list_eq_dec string_dec (columns df) (columns df)); [|contradiction].
  destruct (list_eq_dec (list_eq_dec npfloat_eq_dec) (values df) (values df));
    [reflexivity | contradiction].
Qed.

Lemma df_equals_true (df1 df2 : DataFrame) : df_equals df1 df2 = true -> df1 = df2.
Proof.
  unfold df_equals. destruct df1 as [c1 v1], df2 as [c2 v2]; cbn [columns values].
  destruct (list_eq_dec string_dec c1 c2); [|discriminate].
  destruct (list_eq_dec (list_eq_dec npfloat_eq_dec) v1 v2); [|discriminate].
  intros _. congruence.
Qed.

Section PmiFacts.

Variable tfidf_fit_transform : matrix -> result matrix.
Variable fisher_exact :
  npfloat -> npfloat -> npfloat -> npfloat -> result (npfloat * npfloat).
Variable nxGraph : Type.
Variable from_pandas_adjacency : bool -> RelationFrame -> result nxGraph.
Variable fault : site -> bool.

Local Abbreviation crm :=
  (compute_relation_matrix tfidf_fit_transform fisher_exact
     from_pandas_adjacency fault).

(** PMI with a second frame that differs from the first is refused. *)
Lemma pmi_rejects_other_frame df1 d2 normalization network eps :
  d2 <> df1 ->
  crm df1 (Some d2) normalization true false network eps = Raise ValueError.
Proof.
  intro Hne. unfold compute_relation_matrix. cbn [rbind].
  unfold matmul_T. destruct (Nat.eqb (n_rows df1) (n_rows d2)); cbn [rbind];
    [|reflexivity].
  destruct (df_equals df1 d2) eqn:E; [|reflexivity].
  apply df_equals_true in E. congruence.
Qed.

End PmiFacts.

(** One document that contains none of the items. *)
Definition empty_document_frame : DataFrame :=
  mkDataFrame ["A"] [ [Fin 0] ].

Definition finite (v : npfloat) : Prop := exists x : R, v = Fin x.

Definition finite_frame (df : DataFrame) : Prop :=
  Forall (Forall finite) (values df).

Lemma np_sum_finite_acc (l : list npfloat) :
  Forall finite l -> forall a : R, finite (fold_left np_add l (Fin a)).
Proof.
  induction 1 as [|v l [x ->] Hl IH]; intro a; simpl.
  - exists a; reflexivity.
  - apply IH.
Qed.

Lemma dot_finite (u v : list npfloat) :
  Forall finite u -> Forall finite v -> finite (dot u v).
Proof.
  intros Hu Hv. unfold dot, np_sum. apply np_sum_finite_acc.
  revert v Hv. induction Hu as [|a u [x ->] Hu IH]; intros v Hv; simpl.
  - constructor.
  - destruct Hv as [|b v [y ->] Hv]; simpl; constructor.
    + exists (x * y); reflexivity.
    + apply IH; assumption.
Qed.

Lemma column_finite (df : DataFrame) (j : nat) :
  wf_frame df -> finite_frame df -> (j < n_cols df)%nat ->
  Forall finite (column j (values df)).
Proof.
  unfold wf_frame, finite_frame, column. intros Hwf Hfin Hj.
  apply Forall_map. rewrite Forall_forall in *. intros row Hrow.
  specialize (Hwf row Hrow). specialize (Hfin row Hrow).
  rewrite Forall_forall in Hfin. apply Hfin, nth_In. lia.
Qed.

Lemma product_finite (df1 df2 : DataFrame) :
  wf_frame df1 -> finite_frame df1 -> wf_frame df2 -> finite_frame df2 ->
  Forall (Forall finite) (product df1 df2).
Proof.
  intros W1 F1 W2 F2. unfold product. apply mat_init_Forall.
  intros i j Hi Hj. apply dot_finite; apply column_finite; assumption.
Qed.

Lemma mat_sum_finite (m : matrix) :
  Forall (Forall finite) m -> finite (mat_sum m).
Proof.
  intro H. unfold mat_sum, np_sum. apply np_sum_finite_acc.
  induction H as [|row m Hrow Hm IH]; simpl; [constructor|].
  apply Forall_app. split; assumption.
Qed.

Lemma mat_get_finite (m : matrix) (i j : nat) :
  Forall (Forall finite) m ->
  (i < List.length m)%nat -> (j < List.length (nth i m []))%nat ->
  finite (mat_get m i j).
Proof.
  intros H Hi Hj. unfold mat_get.
  rewrite Forall_forall in H. specialize (H (nth i m []) (nth_In _ _ Hi)).
  rewrite Forall_forall in H. apply H, nth_In, Hj.
Qed.

Lemma mat_get_map (f : npfloat -> npfloat) (m : matrix) (i j : nat) :
  f NaN = NaN -> mat_get (mat_map f m) i j = f (mat_get m i j).
Proof.
  intro Hf. unfold mat_get, mat_map.
  change (@nil npfloat) with (map f []) at 1. rewrite map_nth.
  rewrite <- Hf at 1. apply map_nth.
Qed.

Lemma mat_map_init (f : npfloat -> npfloat) (n1 n2 : nat) (g : nat -> nat -> npfloat) :
  mat_map f (mat_init n1 n2 g) = mat_init n1 n2 (fun i j => f (g i j)).
Proof.
  unfold mat_map, mat_init. rewrite map_map. apply map_ext. intro i.
  rewrite map_map. reflexivity.
Qed.

Lemma Rsign_pos (x : R) : 0 < x -> Rsign x = Gt.
Proof.
  intro H. unfold Rsign. destruct (total_order_T x 0) as [[Hlt|Heq]|Hgt];
    [lra | lra | reflexivity].
Qed.

(** The PMI of one cell, when the co-occurrence total is a non-zero number. *)
Lemma pmi_cell (e t x a b : R) (n : nat) (rel : matrix) (i j : nat) :
  0 < e -> t <> 0 -> mat_sum rel = Fin t ->
  (i < n)%nat -> (j < n)%nat ->
  mat_get rel i j = Fin x -> mat_get rel i i = Fin a -> mat_get rel j j = Fin b ->
  mat_get (pmi_matrix (Fin e) n n rel) i j
  = Fin (Rmax 0 (ln (Rmax (x / t) e / (Rmax (a / t) e * Rmax (b / t) e)))).
Proof.
  intros He Ht Hsum Hi Hj Hx Ha Hb. unfold pmi_matrix.
  rewrite mat_map_init, mat_get_init by assumption.
  rewrite Hsum, Nat.min_id. unfold np_diag. rewrite !map_map.
  rewrite (nth_map_seq _ NaN Hi), (nth_map_seq _ NaN Hj).
  rewrite mat_get_map by reflexivity.
  rewrite Hx, Ha, Hb, !np_div_fin by exact Ht.
  cbn [np_maximum np_mul].
  set (pij := Rmax (x / t) e). set (pi := Rmax (a / t) e). set (pj := Rmax (b / t) e).
  assert (0 < pij) by (subst pij; pose proof (Rmax_r (x / t) e); lra).
  assert (0 < pi) by (subst pi; pose proof (Rmax_r (a / t) e); lra).
  assert (0 < pj) by (subst pj; pose proof (Rmax_r (b / t) e); lra).
  assert (Hprod : 0 < pi * pj) by (apply Rmult_lt_0_compat; assumption).
  rewrite np_div_fin by lra. unfold np_log.
  rewrite Rsign_pos by (apply Rdiv_lt_0_compat; assumption).
  unfold np_lt0. destruct (Rlt_dec (ln (pij / (pi * pj))) 0) as [Hneg|Hpos].
  - rewrite Rmax_left by lra. reflexivity.
  - rewrite Rmax_right by lra. reflexivity.
Qed.

Section PmiValues.

Variable tfidf_fit_transform : matrix -> result matrix.
Variable fisher_exact :
  npfloat -> npfloat -> npfloat -> npfloat -> result (npfloat * npfloat).
Variable nxGraph : Type.
Variable from_pandas_adjacency : bool -> RelationFrame -> result nxGraph.
Variable fault : site -> bool.

Local Abbreviation crm :=
  (compute_relation_matrix tfidf_fit_transform fisher_exact
     from_pandas_adjacency fault).

(** X19: for a frame of numbers whose co-occurrence total is not zero, every
    cell of the returned PMI matrix is the logarithm of the floored
    probabilities' ratio, truncated below at 0. *)
Lemma pmi_entries_nonnegative df1 df2 normalization network (e t : R) out :
  wf_frame df1 -> finite_frame df1 ->
  df2 = None \/ df2 = Some df1 ->
  0 < e -> mat_sum (product df1 df1) = Fin t -> t <> 0 ->
  crm df1 df2 normalization true false network (Fin e) = Ok out ->
  forall i j, (i < n_cols df1)%nat -> (j < n_cols df1)%nat ->
    exists x a b : R,
      mat_get (product df1 df1) i j = Fin x /\
      mat_get (product df1 df1) i i = Fin a /\
      mat_get (product df1 df1) j j = Fin b /\
      mat_get (cells (out_relation out)) i j
      = Fin (Rmax 0 (ln (Rmax (x / t) e / (Rmax (a / t) e * Rmax (b / t) e)))) /\
      0 <= Rmax 0 (ln (Rmax (x / t) e / (Rmax (a / t) e * Rmax (b / t) e))).
Proof.
  intros W F Hself He Hsum Ht Hout i j Hi Hj.
  apply compute_relation_matrix_inv in Hout
    as (e1 & e2 & [-> ->] & _ & _ & Hrel & _).
  assert (Hd2 : second_frame df1 df2 = df1) by (destruct Hself; subst; reflexivity).
  rewrite Hd2 in Hrel. rewrite Hrel. cbn [cells].
  assert (Hfin : forall k l, (k < n_cols df1)%nat -> (l < n_cols df1)%nat ->
            finite (mat_get (product df1 df1) k l)).
  { intros k l Hk Hl. unfold product. rewrite mat_get_init by assumption.
    apply dot_finite; apply column_finite; assumption. }
  destruct (Hfin i j Hi Hj) as [x Hx].
  destruct (Hfin i i Hi Hi) as [a Ha].
  destruct (Hfin j j Hj Hj) as [b Hb].
  exists x, a, b. repeat split; try assumption.
  - apply pmi_cell; assumption.
  - apply Rmax_l.
Qed.

End PmiValues.

(** C8, at the input where it fails.  The claim asks for a non-negative
    number in every PMI cell.  For one document without any item the
    co-occurrence total is 0, the probabilities are 0/0 = nan before they are
    floored, [np.maximum] and [np.log] propagate nan, nan is not below 0, and
    the returned PMI cell is nan. *)
Lemma pmi_of_empty_document_is_nan :
  exists out,
    compute_relation_matrix sample_tfidf sample_fisher sample_adjacency no_fault
      empty_document_frame None false true false false default_eps = Ok out /\
    cells (out_relation out) = [ [NaN] ].
Proof.
  unfold compute_relation_matrix. cbn [rbind].
  unfold matmul_T. cbn [n_rows empty_document_frame values List.length Nat.eqb rbind].
  rewrite df_equals_refl. cbn [rbind].
  eexists. split; [reflexivity|].
  cbn. destruct (Req_dec_T (0 + (0 + 0 * 0)) 0) as [_|n]; [|exfalso; lra].
  unfold Rsign. destruct (total_order_T (0 + 0 * 0) 0) as [[Hlt|Heq]|Hgt];
    [exfalso; lra | reflexivity | exfalso; lra].
Qed.

(* ------------------------------------------------------------------ *)
(** * Graphs (networkx DiGraph / Graph containers) *)

#[export] Instance prod_EqDec (A B : Type) `{EqDec A} `{EqDec B} : EqDec (A * B).
Proof.
  intros [a b] [a' b']. destruct (eq_dec a a') as [->|n].
  - destruct (eq_dec b b') as [->|n]; [left; reflexivity|].
    right; intro E; injection E; auto.
  - right; intro E; injection E; auto.
Defined.

(** Values of node attributes. *)
Inductive attr_value : Type :=
| VInt (z : Z)
| VFloat (x : npfloat)
| VStr (s : string)
| VMembers (ms : list string)
| VMissing.

Definition attrs : Type := dict string attr_value.

(** Nodes in insertion order with their attribute dictionaries, and the
    set of directed edges. *)
Record DiGraph (N : Type) : Type := mkDiGraph {
  node_attrs : dict N attrs;
  edge_list : list (N * N)
}.

Arguments mkDiGraph {N} node_attrs edge_list.

Section GraphOps.

Context {N : Type} `{EqDec N}.

Definition empty_graph : DiGraph N := mkDiGraph [] [].

(** [list(G.nodes())] *)
Definition node_list (G : DiGraph N) : list N := dict_keys (node_attrs G).

Definition has_node (G : DiGraph N) (n : N) : bool := mem n (node_list G).

Definition has_edge (G : DiGraph N) (u v : N) : bool := mem (u, v) (edge_list G).

(** [G.number_of_nodes()] *)
Definition number_of_nodes (G : DiGraph N) : nat := List.length (node_list G).

Definition update_attrs (old new : attrs) : attrs :=
  fold_left (fun d kv => dict_set d (fst kv) (snd kv)) new old.

(** [G.add_node(n, **a)]: a new node, or new attribute values on an old one. *)
Definition add_node (G : DiGraph N) (n : N) (a : attrs) : DiGraph N :=
  match dict_get (node_attrs G) n with
  | Some old => mkDiGraph (dict_set (node_attrs G) n (update_attrs old a)) (edge_list G)
  | None => mkDiGraph (node_attrs G ++ [(n, a)]) (edge_list G)
  end.

(** [G.add_nodes_from(ns)] *)
Definition add_nodes_from (G : DiGraph N) (ns : list N) : DiGraph N :=
  fold_left (fun g n => add_node g n []) ns G.

(** [G.add_edge(u, v)]: the end points become nodes when they are not. *)
Definition add_edge (G : DiGraph N) (u v : N) : DiGraph N :=
  let G1 := add_node (add_node G u []) v [] in
  if has_edge G1 u v then G1
  else mkDiGraph (node_attrs G1) (edge_list G1 ++ [(u, v)]).

(** [list(nx.selfloop_edges(G))] *)
Definition selfloop_edges (G : DiGraph N) : list (N * N) :=
  filter (fun e => eqb_of (fst e) (snd e)) (edge_list G).

(** [G.remove_edges_from(es)] *)
Definition remove_edges_from (G : DiGraph N) (es : list (N * N)) : DiGraph N :=
  mkDiGraph (node_attrs G) (filter (fun e => negb (mem e es)) (edge_list G)).

Definition out_degree (G : DiGraph N) (n : N) : nat :=
  List.length (filter (fun e => eqb_of (fst e) n) (edge_list G)).

Definition in_degree (G : DiGraph N) (n : N) : nat :=
  List.length (filter (fun e => eqb_of (snd e) n) (edge_list G)).

(** [G.degree(n)] of a directed graph. *)
Definition degree (G : DiGraph N) (n : N) : nat :=
  (in_degree G n + out_degree G n)%nat.

(** [G.remove_nodes_from(ns)]: the nodes go, and the edges at them. *)
Definition remove_nodes_from (G : DiGraph N) (ns : list N) : DiGraph N :=
  mkDiGraph
    (filter (fun na => negb (mem (fst na) ns)) (node_attrs G))
    (filter (fun e => negb (mem (fst e) ns) && negb (mem (snd e) ns)) (edge_list G)).

(** [G.subgraph(ns).copy()] *)
Definition subgraph (G : DiGraph N) (ns : list N) : DiGraph N :=
  mkDiGraph
    (filter (fun na => mem (fst na) ns) (node_attrs G))
    (filter (fun e => mem (fst e) ns && mem (snd e) ns) (edge_list G)).

(** "Prune self-loops and singletons": the self-loops go, then the nodes
    of degree 0. *)
Definition prune_graph (G : DiGraph N) : DiGraph N :=
  let G2 := remove_edges_from G (selfloop_edges G) in
  remove_nodes_from G2 (filter (fun n => Nat.eqb (degree G2 n) 0) (node_list G2)).

(** [G.nodes[n][key] = value]: [KeyError] when [n] is not a node. *)
Definition set_node_attr (G : DiGraph N) (n : N) (key : string) (value : attr_value)
  : result (DiGraph N) :=
  match dict_get (node_attrs G) n with
  | Some a => Ok (mkDiGraph (dict_set (node_attrs G) n (dict_set a key value))
                            (edge_list G))
  | None => Raise KeyError
  end.

(** [G.nodes[n].get(key)] *)
Definition get_node_attr (G : DiGraph N) (n : N) (key : string) : option attr_value :=
  match dict_get (node_attrs G) n with
  | Some a => dict_get a key
  | None => None
  end.

End GraphOps.

(** [nx.relabel_nodes(G, mapping)] with a mapping defined on every node:
    nodes with the same new label are merged, the attributes of the last
    one standing. *)
Definition relabel_nodes {N M : Type} `{EqDec N} `{EqDec M}
           (G : DiGraph N) (mapping : N -> M) : DiGraph M :=
  let G1 := mkDiGraph
              (fold_left (fun d na => dict_set d (mapping (fst na)) (snd na))
                         (node_attrs G) [])
              [] in
  fold_left (fun g e => add_edge g (mapping (fst e)) (mapping (snd e)))
            (edge_list G) G1.

(* ------------------------------------------------------------------ *)
(** * Community detection: add_partitions *)

(** A node -> community id dictionary. *)
Definition partition : Type := dict string Z.

(** A graph whose nodes are item labels.  (Edge directions play no role in
    this part.) *)
Definition ItemGraph : Type := DiGraph string.

Definition dict_of_pairs {K V : Type} `{EqDec K} (l : list (K * V)) : dict K V :=
  fold_left (fun d kv => dict_set d (fst kv) (snd kv)) l [].

(** [{node: cid for cid, comm in enumerate(communities) for node in comm}] *)
Definition enumerate_communities (communities : list (list string)) : partition :=
  dict_of_pairs
    (List.concat (map (fun ic => map (fun node => (node, Z.of_nat (fst ic))) (snd ic))
                      (combine (seq 0 (List.length communities)) communities))).

(** The igraph routines used by the wrappers; each returns the clusters as
    lists of vertex names, spinglass its membership per vertex. *)
Record igraph_lib : Type := mkIgraph {
  community_walktrap : ItemGraph -> result (list (list string));
  community_infomap : ItemGraph -> result (list (list string));
  community_leading_eigenvector : ItemGraph -> result (list (list string));
  community_leiden : ItemGraph -> result (list (list string));
  community_spinglass : nat -> ItemGraph -> result (list (string * Z))
}.

Section Partitions.

(** [community_louvain.best_partition] (the items of the dictionary it
    returns), or [None] when python-louvain is not installed. *)
Variable community_louvain : option (ItemGraph -> result (list (string * Z))).
(** [ig], or [None] when igraph is not installed. *)
Variable ig : option igraph_lib.
(** networkx community routines. *)
Variable greedy_modularity_communities : ItemGraph -> result (list (list string)).
Variable asyn_lpa_communities : ItemGraph -> result (list (list string)).
(** The [k]-th tuple of communities produced by the [girvan_newman] generator. *)
Variable girvan_newman : ItemGraph -> nat -> result (list (list string)).
Variable k_clique_communities : ItemGraph -> result (list (list string)).
Variable kernighan_lin_bisection : ItemGraph -> result (list string * list string).

Definition louvain_partition (G : ItemGraph) : result partition :=
  match community_louvain with
  | None => Raise ImportError
  | Some best_partition =>
      rbind (best_partition G) (fun items => Ok (dict_of_pairs items))
  end.

Definition greedy_modularity_partition (G : ItemGraph) : result partition :=
  rbind (greedy_modularity_communities G) (fun cs => Ok (enumerate_communities cs)).

Definition label_propagation_partition (G : ItemGraph) : result partition :=
  rbind (asyn_lpa_communities G) (fun cs => Ok (enumerate_communities cs)).

Definition girvan_newman_partition (n_communities : nat) (G : ItemGraph)
  : result partition :=
  if (n_communities <? 2)%nat then Raise ValueError
  else rbind (girvan_newman G (n_communities - 2))
             (fun cs => Ok (enumerate_communities cs)).

Definition k_clique_partition (G : ItemGraph) : result partition :=
  rbind (k_clique_communities G) (fun cs => Ok (enumerate_communities cs)).

Definition kernighan_lin_partition (G : ItemGraph) : result partition :=
  rbind (kernighan_lin_bisection G) (fun sets =>
    Ok (fold_left (fun d node => dict_set d node 1%Z) (snd sets)
          (dict_of_pairs (map (fun node => (node, 0%Z)) (fst sets))))).

Definition edge_betweenness_partition (n_communities : nat) (G : ItemGraph)
  : result partition :=
  girvan_newman_partition n_communities G.

(** A wrapper over igraph: using [ig] when it is [None] raises. *)
Definition with_igraph {A : Type} (call : igraph_lib -> result A) : result A :=
  match ig with
  | None => Raise AttributeError
  | Some lib => call lib
  end.

Definition walktrap_partition (G : ItemGraph) : result partition :=
  rbind (with_igraph (fun lib => community_walktrap lib G))
        (fun cs => Ok (enumerate_communities cs)).

Definition infomap_partition (G : ItemGraph) : result partition :=
  rbind (with_igraph (fun lib => community_infomap lib G))
        (fun cs => Ok (enumerate_communities cs)).

Definition leading_eigenvector_partition (G : ItemGraph) : result partition :=
  rbind (with_igraph (fun lib => community_leading_eigenvector lib G))
        (fun cs => Ok (enumerate_communities cs)).

Definition leiden_partition (G : ItemGraph) : result partition :=
  rbind (with_igraph (fun lib => community_leiden lib G))
        (fun cs => Ok (enumerate_communities cs)).

Definition spinglass_partition (spins : nat) (G : ItemGraph) : result partition :=
  let spins := if (spins <? 2)%nat then 2%nat else spins in
  rbind (with_igraph (fun lib => community_spinglass lib spins G))
        (fun membership => Ok (dict_of_pairs membership)).

(** The keyword arguments that the model keeps: the others are part of the
    external routines. *)
Record partition_kwargs : Type := mkKwargs {
  girvan_n_communities : nat;
  edge_betweenness_n_communities : nat;
  spinglass_spins : nat
}.

Definition default_kwargs : partition_kwargs := mkKwargs 2 2 2.

(** [configs], in source order. *)
Definition configs (kw : partition_kwargs)
  : list (string * (ItemGraph -> result partition)) :=
  [ ("walktrap", walktrap_partition);
    ("edge_betweenness", edge_betweenness_partition (edge_betweenness_n_communities kw));
    ("infomap", infomap_partition);
    ("leading_eigenvector", leading_eigenvector_partition);
    ("leiden", leiden_partition);
    ("spinglass", spinglass_partition (spinglass_spins kw));
    ("louvain", louvain_partition);
    ("greedy_modularity", greedy_modularity_partition);
    ("label_propagation", label_propagation_partition);
    ("girvan_newman", girvan_newman_partition (girvan_n_communities kw));
    ("k_clique", k_clique_partition);
    ("kernighan_lin", kernighan_lin_partition) ].

(** [for node, cid in partition.items(): G.nodes[node][attr] = cid], up to
    the first [KeyError]. *)
Fixpoint write_partition (G : ItemGraph) (attr : string) (items : list (string * Z))
  : ItemGraph :=
  match items with
  | [] => G
  | (node, cid) :: rest =>
      match set_node_attr G node attr (VInt cid) with
      | Ok G' => write_partition G' attr rest
      | Raise _ => G
      end
  end.

(** One turn of the loop: the [try] block of one algorithm. *)
Definition attempt (state : ItemGraph * dict string partition)
           (config : string * (ItemGraph -> result partition))
  : ItemGraph * dict string partition :=
  let (G, results) := state in
  let (name, func) := config in
  match func G with
  | Ok p => (write_partition G ("partition_" ++ name) p, dict_set results name p)
  | Raise _ => (G, results)
  end.

(** [add_partitions]: the graph as the call leaves it, and [results]. *)
Definition add_partitions (G : ItemGraph) (kw : partition_kwargs)
  : ItemGraph * dict string partition :=
  fold_left attempt (configs kw) (G, []).

End Partitions.

(* ------------------------------------------------------------------ *)
(** * Keys of dictionaries *)

Lemma dict_get_None_keys (K V : Type) `{EqDec K} (d : dict K V) (k : K) :
  dict_get d k = None <-> ~ In k (dict_keys d).
Proof.
  induction d as [|[k' v'] d IH]; simpl.
  - tauto.
  - destruct (eq_dec k k') as [->|n].
    + split; [discriminate | intro Hn; exfalso; apply Hn; left; reflexivity].
    + rewrite IH. split.
      * intros Hn [E|Hin]; [apply n; symmetry; exact E | exact (Hn Hin)].
      * intros Hn Hin. apply Hn. right. exact Hin.
Qed.

Lemma dict_set_keys_present (K V : Type) `{EqDec K} (d : dict K V) (k : K) (v : V) :
  In k (dict_keys d) -> dict_keys (dict_set d k v) = dict_keys d.
Proof.
  induction d as [|[k' v'] d IH]; simpl; [contradiction|].
  intro Hin. destruct (eq_dec k k') as [->|n]; [reflexivity|].
  simpl. f_equal. apply IH. destruct Hin as [E|Hin]; [congruence | exact Hin].
Qed.

Lemma dict_set_keys_absent (K V : Type) `{EqDec K} (d : dict K V) (k : K) (v : V) :
  ~ In k (dict_keys d) -> dict_keys (dict_set d k v) = dict_keys d ++ [k].
Proof.
  induction d as [|[k' v'] d IH]; simpl; [reflexivity|].
  intro Hn. destruct (eq_dec k k') as [->|n]; [exfalso; apply Hn; left; reflexivity|].
  simpl. f_equal. apply IH. intro Hin. apply Hn. right. exact Hin.
Qed.

Lemma dict_set_keys_NoDup (K V : Type) `{EqDec K} (d : dict K V) (k : K) (v : V) :
  NoDup (dict_keys d) -> NoDup (dict_keys (dict_set d k v)).
Proof.
  intro Hd. destruct (in_dec eq_dec k (dict_keys d)) as [Hin|Hn].
  - rewrite dict_set_keys_present by exact Hin. exact Hd.
  - rewrite dict_set_keys_absent by exact Hn.
    apply NoDup_app; [exact Hd | repeat constructor; simpl; tauto |].
    intros x Hx [<-|[]]. exact (Hn Hx).
Qed.

Lemma fold_dict_set_NoDup (K V A : Type) `{EqDec K}
      (key : A -> K) (val : A -> V) (l : list A) (d : dict K V) :
  NoDup (dict_keys d) ->
  NoDup (dict_keys (fold_left (fun d a => dict_set d (key a) (val a)) l d)).
Proof.
  revert d. induction l as [|a l IH]; intros d Hd; simpl; [exact Hd|].
  apply IH, dict_set_keys_NoDup, Hd.
Qed.

Lemma dict_of_pairs_NoDup (K V : Type) `{EqDec K} (l : list (K * V)) :
  NoDup (dict_keys (dict_of_pairs l)).
Proof. unfold dict_of_pairs. apply fold_dict_set_NoDup. constructor. Qed.

Lemma mem_In (A : Type) `{EqDec A} (x : A) (l : list A) : mem x l = true <-> In x l.
Proof.
  unfold mem. rewrite existsb_exists. split.
  - intros (y & Hy & E). unfold eqb_of in E.
    destruct (eq_dec x y) as [->|n]; [exact Hy | discriminate].
  - intro Hin. exists x. split; [exact Hin|]. unfold eqb_of.
    destruct (eq_dec x x); [reflexivity | contradiction].
Qed.

Lemma dict_get_In (K V : Type) `{EqDec K} (d : dict K V) (k : K) (v : V) :
  dict_get d k = Some v -> In (k, v) d.
Proof.
  induction d as [|[k' v'] d IH]; simpl; [discriminate|].
  destruct (eq_dec k k') as [->|n].
  - intro E; injection E as ->. left; reflexivity.
  - intro E. right. apply IH, E.
Qed.

Lemma dict_get_Some_key (K V : Type) `{EqDec K} (d : dict K V) (k : K) (v : V) :
  dict_get d k = Some v -> In k (dict_keys d).
Proof.
  intro E. apply dict_get_In in E. unfold dict_keys.
  change k with (fst (k, v)). apply in_map, E.
Qed.

(* ------------------------------------------------------------------ *)
(** * Writing node attributes *)

Section NodeAttributes.

Context {N : Type} `{EqDec N}.

Lemma has_node_get (G : DiGraph N) (n : N) :
  has_node G n = true <-> dict_get (node_attrs G) n <> None.
Proof.
  unfold has_node, node_list. rewrite mem_In.
  rewrite dict_get_None_keys. split.
  - intros Hin Hn. exact (Hn Hin).
  - intro Hnn. destruct (in_dec eq_dec n (dict_keys (node_attrs G))); tauto.
Qed.

Lemma set_node_attr_nodes (G G' : DiGraph N) (n : N) (key : string) (v : attr_value) :
  set_node_attr G n key v = Ok G' -> node_list G' = node_list G.
Proof.
  unfold set_node_attr. destruct (dict_get (node_attrs G) n) as [a|] eqn:E; [|discriminate].
  intro H0; injection H0 as <-. unfold node_list; cbn [node_attrs].
  apply dict_set_keys_present. apply (dict_get_Some_key _ _ E).
Qed.

Lemma set_node_attr_present (G : DiGraph N) (n : N) (key : string) (v : attr_value) :
  has_node G n = true -> exists G', set_node_attr G n key v = Ok G'.
Proof.
  rewrite has_node_get. unfold set_node_attr.
  destruct (dict_get (node_attrs G) n); [eexists; reflexivity | contradiction].
Qed.

Lemma set_node_attr_get (G G' : DiGraph N) (n : N) (key : string) (v : attr_value)
      (n' : N) (key' : string) :
  set_node_attr G n key v = Ok G' ->
  get_node_attr G' n' key'
  = if eq_dec n' n then
      (if string_dec key' key then Some v else get_node_attr G n' key')
    else get_node_attr G n' key'.
Proof.
  unfold set_node_attr, get_node_attr.
  destruct (dict_get (node_attrs G) n) as [a|] eqn:E; [|discriminate].
  intro H0; injection H0 as <-. cbn [node_attrs].
  rewrite dict_get_set. destruct (eq_dec n' n) as [->|Hne]; [|reflexivity].
  rewrite E, dict_get_set. unfold eq_dec at 1, string_EqDec.
  destruct (string_dec key' key); reflexivity.
Qed.

End NodeAttributes.

Lemma write_partition_nodes (G : ItemGraph) (attr : string) (items : list (string * Z)) :
  node_list (write_partition G attr items) = node_list G.
Proof.
  revert G. induction items as [|[node cid] rest IH]; intro G; simpl; [reflexivity|].
  destruct (set_node_attr G node attr (VInt cid)) as [G'|e] eqn:E; [|reflexivity].
  rewrite IH. apply (set_node_attr_nodes _ _ _ _ E).
Qed.

(** Only the attribute [attr] is written. *)
Lemma write_partition_other_attr (G : ItemGraph) (attr : string)
      (items : list (string * Z)) (n key : string) :
  key <> attr ->
  get_node_attr (write_partition G attr items) n key = get_node_attr G n key.
Proof.
  intro Hne. revert G. induction items as [|[node cid] rest IH]; intro G; simpl;
    [reflexivity|].
  destruct (set_node_attr G node attr (VInt cid)) as [G'|e] eqn:E; [|reflexivity].
  rewrite IH, (set_node_attr_get _ _ _ _ n key E).
  destruct (eq_dec n node); [|reflexivity].
  destruct (string_dec key attr); [contradiction | reflexivity].
Qed.

(** Only the nodes of the partition are written. *)
Lemma write_partition_other_node (G : ItemGraph) (attr : string)
      (items : list (string * Z)) (n key : string) :
  ~ In n (map fst items) ->
  get_node_attr (write_partition G attr items) n key = get_node_attr G n key.
Proof.
  revert G. induction items as [|[node cid] rest IH]; intros G Hn; simpl;
    [reflexivity|].
  simpl in Hn.
  destruct (set_node_attr G node attr (VInt cid)) as [G'|e] eqn:E; [|reflexivity].
  rewrite IH by tauto. rewrite (set_node_attr_get _ _ _ _ n key E).
  destruct (eq_dec n node) as [->|]; [tauto | reflexivity].
Qed.

(** When every node of the partition is in the graph, every item is written. *)
Lemma write_partition_complete (G : ItemGraph) (attr : string)
      (items : list (string * Z)) :
  (forall node, In node (map fst items) -> has_node G node = true) ->
  NoDup (map fst items) ->
  forall node cid, In (node, cid) items ->
    get_node_attr (write_partition G attr items) node attr = Some (VInt cid).
Proof.
  revert G. induction items as [|[n0 c0] rest IH]; intros G Hnodes Hnd node cid Hin;
    simpl in *; [contradiction|].
  inversion Hnd as [|? ? Hfresh Hnd']; subst.
  destruct (set_node_attr_present G n0 attr (VInt c0) (Hnodes n0 (or_introl eq_refl)))
    as [G' E].
  rewrite E.
  assert (Hnodes' : forall x, In x (map fst rest) -> has_node G' x = true).
  { intros x Hx. unfold has_node. rewrite (set_node_attr_nodes _ _ _ _ E).
    apply Hnodes. right. exact Hx. }
  destruct Hin as [Heq|Hin].
  - injection Heq as <- <-.
    rewrite write_partition_other_node by exact Hfresh.
    rewrite (set_node_attr_get _ _ _ _ n0 attr E).
    destruct (eq_dec n0 n0); [|contradiction].
    destruct (string_dec attr attr); [reflexivity | contradiction].
  - apply IH; assumption.
Qed.

(* ------------------------------------------------------------------ *)
(** * The loop of add_partitions *)

Lemma append_inj_r (s a b : string) : (s ++ a)%string = (s ++ b)%string -> a = b.
Proof.
  induction s as [|c s IH]; simpl; [auto|].
  intro E. injection E as E. apply IH, E.
Qed.

Lemma attempt_nodes state config :
  node_list (fst (attempt state config)) = node_list (fst state).
Proof.
  destruct state as [G results], config as [name func]. simpl.
  destruct (func G); simpl; [apply write_partition_nodes | reflexivity].
Qed.

Lemma attempt_other_result state config name :
  name <> fst config ->
  dict_get (snd (attempt state config)) name = dict_get (snd state) name.
Proof.
  destruct state as [G results], config as [name' func]. simpl. intro Hne.
  destruct (func G); simpl; [|reflexivity].
  apply dict_get_set_other. exact Hne.
Qed.

Lemma attempt_other_attr state config name n :
  name <> fst config ->
  get_node_attr (fst (attempt state config)) n ("partition_" ++ name)
  = get_node_attr (fst state) n ("partition_" ++ name).
Proof.
  destruct state as [G results], config as [name' func]. simpl. intro Hne.
  destruct (func G); simpl; [|reflexivity].
  apply write_partition_other_attr. intro E. apply Hne.
  exact (append_inj_r "partition_" _ _ E).
Qed.

Lemma run_nodes cfgs state :
  node_list (fst (fold_left attempt cfgs state)) = node_list (fst state).
Proof.
  revert state. induction cfgs as [|c cfgs IH]; intro state; simpl; [reflexivity|].
  rewrite IH. apply attempt_nodes.
Qed.

Lemma run_other_result cfgs state name :
  ~ In name (map fst cfgs) ->
  dict_get (snd (fold_left attempt cfgs state)) name = dict_get (snd state) name.
Proof.
  revert state. induction cfgs as [|c cfgs IH]; intros state Hn; simpl; [reflexivity|].
  simpl in Hn. rewrite IH by tauto. apply attempt_other_result.
  intro E. apply Hn. left. symmetry. exact E.
Qed.

Lemma run_other_attr cfgs state name n :
  ~ In name (map fst cfgs) ->
  get_node_attr (fst (fold_left attempt cfgs state)) n ("partition_" ++ name)
  = get_node_attr (fst state) n ("partition_" ++ name).
Proof.
  revert state. induction cfgs as [|c cfgs IH]; intros state Hn; simpl; [reflexivity|].
  simpl in Hn. rewrite IH by tauto. apply attempt_other_attr.
  intro E. apply Hn. left. symmetry. exact E.
Qed.

(** The turn of the [k]-th algorithm decides its entry of [results] and its
    node attribute; the other turns leave both alone. *)
Lemma run_turn cfgs :
  NoDup (map fst cfgs) ->
  forall state k name func,
    nth_error cfgs k = Some (name, func) ->
    let before := fold_left attempt (firstn k cfgs) state in
    let final := fold_left attempt cfgs state in
    dict_get (snd final) name
    = match func (fst before) with
      | Ok p => Some p
      | Raise _ => dict_get (snd state) name
      end /\
    forall n,
      get_node_attr (fst final) n ("partition_" ++ name)
      = get_node_attr (fst (attempt before (name, func))) n ("partition_" ++ name).
Proof.
  induction cfgs as [|c cfgs IH]; intros Hnd state k name func Hk.
  - destruct k; discriminate.
  - simpl in Hnd. inversion Hnd as [|? ? Hfresh Hnd']; subst.
    destruct k as [|k]; simpl in Hk.
    + injection Hk as ->. cbn [firstn fold_left]. cbv zeta. split.
      * rewrite run_other_result by exact Hfresh.
        destruct state as [G results]. simpl. destruct (func G); simpl.
        -- apply dict_get_set_same.
        -- reflexivity.
      * intro n. apply run_other_attr. exact Hfresh.
    + cbn [firstn fold_left]. cbv zeta.
      destruct (IH Hnd' (attempt state c) k name func Hk) as [Hres Hattr].
      cbv zeta in Hres, Hattr. split; [|exact Hattr].
      rewrite Hres. destruct (func _); [reflexivity|].
      apply attempt_other_result. intro E. apply Hfresh.
      rewrite <- E. change name with (fst (name, func)).
      apply in_map. eapply nth_error_In, Hk.
Qed.

Lemma NoDup_app_disjoint (A : Type) (l1 l2 : list A) (x : A) :
  NoDup (l1 ++ l2) -> In x l1 -> In x l2 -> False.
Proof.
  induction l1 as [|a l1 IH]; simpl; [tauto|].
  intros Hnd [->|Hin] H2; inversion Hnd as [|? ? Hfresh Hnd']; subst.
  - apply Hfresh, in_or_app. right. exact H2.
  - exact (IH Hnd' Hin H2).
Qed.

Section PartitionBatch.

Variable community_louvain : option (ItemGraph -> result (list (string * Z))).
Variable ig : option igraph_lib.
Variable greedy_modularity_communities : ItemGraph -> result (list (list string)).
Variable asyn_lpa_communities : ItemGraph -> result (list (list string)).
Variable girvan_newman : ItemGraph -> nat -> result (list (list string)).
Variable k_clique_communities : ItemGraph -> result (list (list string)).
Variable kernighan_lin_bisection : ItemGraph -> result (list string * list string).

Local Abbreviation the_configs :=
  (configs community_louvain ig greedy_modularity_communities asyn_lpa_communities
     girvan_newman k_clique_communities kernighan_lin_bisection).

Local Abbreviation the_add_partitions :=
  (add_partitions community_louvain ig greedy_modularity_communities
     asyn_lpa_communities girvan_newman k_clique_communities
     kernighan_lin_bisection).

Lemma config_names kw :
  map fst (the_configs kw)
  = [ "walktrap"; "edge_betweenness"; "infomap"; "leading_eigenvector"; "leiden";
      "spinglass"; "louvain"; "greedy_modularity"; "label_propagation";
      "girvan_newman"; "k_clique"; "kernighan_lin" ].
Proof. reflexivity. Qed.

Lemma config_names_NoDup kw : NoDup (map fst (the_configs kw)).
Proof.
  rewrite config_names.
  repeat (constructor; [simpl; intuition discriminate|]). constructor.
Qed.

(** Every wrapper returns a dictionary: no node occurs twice in it. *)
Lemma config_partitions_are_dicts kw name func G p :
  In (name, func) (the_configs kw) -> func G = Ok p -> NoDup (dict_keys p).
Proof.
  unfold configs. intro Hin. simpl in Hin.
  repeat (destruct Hin as [Hin|Hin]; [injection Hin as <- <-|]); try contradiction;
    unfold walktrap_partition, edge_betweenness_partition, infomap_partition,
      leading_eigenvector_partition, leiden_partition, spinglass_partition,
      louvain_partition, greedy_modularity_partition, label_propagation_partition,
      girvan_newman_partition, k_clique_partition, kernighan_lin_partition,
      with_igraph, enumerate_communities;
    intro Hp;
    repeat match type of Hp with
    | (if ?c then _ else _) = _ => destruct c; try discriminate
    | rbind ?m _ = _ => destruct m; cbn [rbind] in Hp; try discriminate
    | match ?o with Some _ => _ | None => _ end = _ => destruct o; try discriminate
    end;
    injection Hp as <-;
    try apply dict_of_pairs_NoDup.
  apply fold_dict_set_NoDup with (key := fun node : string => node)
                                 (val := fun _ : string => 1%Z).
  apply dict_of_pairs_NoDup.
Qed.

(** C6.  [add_partitions] tries the twelve configured algorithms one after
    the other and always returns.  [results] holds exactly the algorithms
    whose call returned, each with the partition it returned: an algorithm
    that raised is left out and changes nothing.  For an algorithm that
    returned a partition of nodes of the graph, every node of the partition
    carries the attribute [partition_<name>] with its community id when the
    call ends. *)
Theorem add_partitions_skips_failures (G : ItemGraph) (kw : partition_kwargs) :
  let final := the_add_partitions G kw in
  (forall name, dict_mem (snd final) name = true -> In name (map fst (the_configs kw))) /\
  node_list (fst final) = node_list G /\
  (forall k name func,
      nth_error (the_configs kw) k = Some (name, func) ->
      let before := fst (fold_left attempt (firstn k (the_configs kw)) (G, [])) in
      dict_get (snd final) name
      = match func before with Ok p => Some p | Raise _ => None end /\
      (is_ok (func before) = false ->
         forall n, get_node_attr (fst final) n ("partition_" ++ name)
                   = get_node_attr G n ("partition_" ++ name)) /\
      (forall p,
          func before = Ok p ->
          (forall node, In node (dict_keys p) -> has_node G node = true) ->
          forall node cid,
            dict_get p node = Some cid ->
            get_node_attr (fst final) node ("partition_" ++ name) = Some (VInt cid))).
Proof.
  cbv zeta. unfold add_partitions. split; [|split].
  - intros name Hmem.
    destruct (in_dec string_dec name (map fst (the_configs kw))) as [Hin|Hn];
      [exact Hin|].
    unfold dict_mem in Hmem. rewrite run_other_result in Hmem by exact Hn.
    discriminate.
  - apply run_nodes.
  - intros k name func Hk.
    destruct (@run_turn _ (config_names_NoDup kw) (G, []) k name func Hk)
      as [Hres Hattr].
    cbv zeta in Hres, Hattr.
    set (before := fold_left attempt (firstn k (the_configs kw)) (G, [])) in *.
    assert (Hfresh : ~ In name (map fst (firstn k (the_configs kw)))).
    { intro Hin. pose proof (config_names_NoDup kw) as Hnd.
      rewrite <- (firstn_skipn k (the_configs kw)), map_app in Hnd.
      apply (NoDup_app_disjoint _ _ name Hnd Hin).
      change name with (fst (name, func)). apply in_map.
      apply nth_error_In with (n := 0%nat).
      rewrite nth_error_skipn, Nat.add_0_r. exact Hk. }
    split; [|split].
    + rewrite Hres. destruct (func (fst before)); reflexivity.
    + intros Hraise n. rewrite Hattr.
      assert (Hb : get_node_attr (fst before) n ("partition_" ++ name)
                   = get_node_attr G n ("partition_" ++ name))
        by (subst before; apply (run_other_attr _ (G, []) _ n Hfresh)).
      rewrite <- Hb. destruct before as [Gb rb]. cbn [attempt fst] in *.
      destruct (func Gb) as [p|e]; [discriminate | reflexivity].
    + intros p Hp Hnodes node cid Hget. rewrite Hattr.
      destruct before as [Gb rb] eqn:Eb. cbn [attempt fst] in *. rewrite Hp.
      cbn [fst]. apply write_partition_complete.
      * intros x Hx. unfold has_node.
        replace (node_list Gb) with (node_list G).
        -- apply Hnodes, Hx.
        -- change Gb with (fst (Gb, rb)). rewrite <- Eb. subst before.
           symmetry. apply run_nodes.
      * apply (@config_partitions_are_dicts kw name func Gb p).
        -- eapply nth_error_In, Hk.
        -- exact Hp.
      * eapply dict_get_In. exact Hget.
Qed.

End PartitionBatch.

(** A run without igraph: a path a - b - c, Louvain and greedy modularity
    return, every other back-end raises. *)
Definition path_graph : ItemGraph :=
  add_edge (add_edge empty_graph "a" "b") "b" "c".

Definition sample_add_partitions : ItemGraph * dict string partition :=
  add_partitions
    (Some (fun _ => Ok [("a", 0%Z); ("b", 0%Z); ("c", 1%Z)]))
    None
    (fun _ => Ok [["a"; "b"]; ["c"]])
    (fun _ => Raise OtherError)
    (fun _ _ => Raise OtherError)
    (fun _ => Raise OtherError)
    (fun _ => Raise OtherError)
    path_graph default_kwargs.

Example sample_add_partitions_results :
  dict_keys (snd sample_add_partitions) = ["louvain"; "greedy_modularity"] /\
  get_node_attr (fst sample_add_partitions) "c" "partition_louvain" = Some (VInt 1) /\
  get_node_attr (fst sample_add_partitions) "a" "partition_greedy_modularity"
  = Some (VInt 0) /\
  get_node_attr (fst sample_add_partitions) "a" "partition_walktrap" = None.
Proof. repeat split; reflexivity. Qed.

(* ------------------------------------------------------------------ *)
(** * Python string methods (on byte strings)

    Characters are bytes.  ASCII letters, digits and white space are
    classified as Python does; bytes above 127 (parts of UTF-8 sequences)
    count as word characters, are not white space and are not changed by
    [lower]. *)

Definition code (c : ascii) : nat := nat_of_ascii c.

(** [c.isspace()] *)
Definition is_space (c : ascii) : bool :=
  let n := code c in
  ((9 <=? n) && (n <=? 13) || (28 <=? n) && (n <=? 32))%nat.

(** ASCII letter or digit, or a byte above 127. *)
Definition is_alnum (c : ascii) : bool :=
  let n := code c in
  ((48 <=? n) && (n <=? 57) || (65 <=? n) && (n <=? 90)
   || (97 <=? n) && (n <=? 122) || (128 <=? n))%nat.

Definition lower_char (c : ascii) : ascii :=
  let n := code c in
  if ((65 <=? n) && (n <=? 90))%nat then ascii_of_nat (n + 32) else c.

Definition chars (s : string) : list ascii := list_ascii_of_string s.
Definition text (l : list ascii) : string := string_of_list_ascii l.

(** [s.lower()] *)
Definition lower (s : string) : string := text (map lower_char (chars s)).

Fixpoint drop_while (p : ascii -> bool) (l : list ascii) : list ascii :=
  match l with
  | [] => []
  | c :: rest => if p c then drop_while p rest else l
  end.

(** [s.strip()] *)
Definition strip (s : string) : string :=
  text (rev (drop_while is_space (rev (drop_while is_space (chars s))))).

Fixpoint starts_with (prefix l : list ascii) : bool :=
  match prefix, l with
  | [], _ => true
  | _ :: _, [] => false
  | a :: prefix', b :: l' => eqb_of (code a) (code b) && starts_with prefix' l'
  end.

(** Scan for [sep] from left to right: [skip] characters of a separator
    just found remain to be passed, [cur] is the current part, reversed. *)
Fixpoint split_scan (sep : list ascii) (skip : nat) (cur l : list ascii)
  : list (list ascii) :=
  match l with
  | [] => [rev cur]
  | c :: rest =>
      match skip with
      | S k => split_scan sep k cur rest
      | O =>
          if starts_with sep l
          then rev cur :: split_scan sep (List.length sep - 1) [] rest
          else split_scan sep 0 (c :: cur) rest
      end
  end.

(** [s.split(sep)]: [ValueError] on the empty separator. *)
Definition split (sep s : string) : result (list string) :=
  match chars sep with
  | [] => Raise ValueError
  | _ => Ok (map text (split_scan (chars sep) 0 [] (chars s)))
  end.

(** [s.split(sep)] for a separator known not to be empty. *)
Definition split_on (sep s : string) : list string :=
  map text (split_scan (chars sep) 0 [] (chars s)).

(** [re.sub(r"[...]+", " ", s)]: every maximal run of characters in the
    class becomes one space. *)
Fixpoint collapse_runs (in_class : ascii -> bool) (in_run : bool) (l : list ascii)
  : list ascii :=
  match l with
  | [] => []
  | c :: rest =>
      if in_class c then
        if in_run then collapse_runs in_class true rest
        else " "%char :: collapse_runs in_class true rest
      else c :: collapse_runs in_class false rest
  end.

(** [normalize] of [build_citation_network]. *)
Definition normalize (s : string) : string :=
  let lowered := chars (lower s) in
  let no_punct := collapse_runs (fun c => negb (is_alnum c)) false lowered in
  strip (text (collapse_runs is_space false no_punct)).

Example split_keywords :
  split "; " "deep learning; graphs;x" = Ok ["deep learning"; "graphs;x"].
Proof. reflexivity. Qed.

Example split_trailing : split_on ";" "a;;b;" = ["a"; ""; "b"; ""].
Proof. reflexivity. Qed.

Example strip_blanks : strip "  a b  " = "a b".
Proof. reflexivity. Qed.

Example normalize_title : normalize "  Deep-Learning: A (Short) Survey_2! " = "deep learning a short survey 2".
Proof. reflexivity. Qed.

(* ------------------------------------------------------------------ *)
(** * build_citation_network *)

(** One row of the document table.  A missing cell (NaN) is [None]. *)
Record Document : Type := mkDocument {
  doc_id : string;
  title : option string;
  year : option Z;
  references : option string;
  short_label : option string;
  cited_by : option Z
}.

Definition Qgtb (a b : Q) : bool := negb (Qle_bool a b).
Definition Qgeb (a b : Q) : bool := Qle_bool b a.

(** [l.index(x)] when [x in l]. *)
Fixpoint index_of (x : string) (l : list string) : option nat :=
  match l with
  | [] => None
  | y :: rest =>
      if string_dec x y then Some 0%nat
      else match index_of x rest with
           | Some i => Some (S i)
           | None => None
           end
  end.

(** [max(comps, key=len)]: the first of the longest; [ValueError] on []. *)
Fixpoint max_by_len {A : Type} (comps : list (list A)) : result (list A) :=
  match comps with
  | [] => Raise ValueError
  | c :: rest =>
      match max_by_len rest with
      | Ok best => if (List.length c <? List.length best)%nat then Ok best else Ok c
      | Raise _ => Ok c
      end
  end.

(** [[r.strip() for r in refs.split(";") if r.strip()]] *)
Definition reference_list (refs : string) : list string :=
  filter (fun r => negb (eqb_of r "")) (map strip (split_on ";" refs)).

Definition doc_id_at (docs : list Document) (i : nat) : string :=
  match nth_error docs i with
  | Some d => doc_id d
  | None => ""
  end.

(** [df["Title"].tolist()] followed by [normalize] on each: a missing title
    is a float and has no [lower]. *)
Fixpoint normalized_titles (docs : list Document) : result (list string) :=
  match docs with
  | [] => Ok []
  | d :: rest =>
      match title d with
      | None => Raise AttributeError
      | Some t => rbind (normalized_titles rest) (fun ts => Ok (normalize t :: ts))
      end
  end.

Section CitationNetwork.

(** [fuzz.partial_ratio] of rapidfuzz, a score from 0 to 100. *)
Variable partial_ratio : string -> string -> Q.
(** [list(nx.weakly_connected_components(G))] *)
Variable weakly_connected_components : DiGraph nat -> list (list nat).

(** The scan for the best fuzzy score over all titles. *)
Definition best_fuzzy (norm_ref : string) (norm_titles : list string)
  : Q * option nat :=
  fold_left
    (fun (best : Q * option nat) (jt : nat * string) =>
       let score := partial_ratio norm_ref (snd jt) in
       if Qgtb score (fst best) then (score, Some (fst jt)) else best)
    (combine (seq 0 (List.length norm_titles)) norm_titles)
    (0%Q, None).

(** The title a reference is matched to, if any. *)
Definition match_reference (threshold : Q) (norm_titles : list string) (ref : string)
  : option nat :=
  let norm_ref := normalize ref in
  match index_of norm_ref norm_titles with
  | Some tgt => Some tgt
  | None =>
      let best := best_fuzzy norm_ref norm_titles in
      if Qgeb (fst best) threshold then snd best else None
  end.

(** The inner loop over the references of document [idx]: the graph, and
    [local_unmatched]. *)
Definition link_references (threshold : Q) (norm_titles : list string)
           (G : DiGraph nat) (idx : nat) (ref_list : list string)
  : DiGraph nat * list string :=
  fold_left
    (fun (st : DiGraph nat * list string) (ref : string) =>
       match match_reference threshold norm_titles ref with
       | Some tgt => (add_edge (fst st) idx tgt, snd st)
       | None => (fst st, snd st ++ [ref])
       end)
    ref_list (G, []).

(** The outer loop over the rows: the graph and [unmatched]. *)
Definition link_documents (threshold : Q) (norm_titles : list string)
           (docs : list Document) (G : DiGraph nat)
  : DiGraph nat * dict nat (list string) :=
  fold_left
    (fun (st : DiGraph nat * dict nat (list string)) (row : nat * Document) =>
       match references (snd row) with
       | None => st
       | Some refs =>
           let linked :=
             link_references threshold norm_titles (fst st) (fst row)
                             (reference_list refs) in
           match snd linked with
           | [] => (fst linked, snd st)
           | _ :: _ => (fst linked, dict_set (snd st) (fst row) (snd linked))
           end
       end)
    (combine (seq 0 (List.length docs)) docs)
    (G, []).


(** The graph on row positions, before it is relabelled. *)
Definition citation_graph (docs : list Document) (threshold : Q) (largest_only : bool)
  : result (DiGraph nat * dict nat (list string)) :=
  rbind (normalized_titles docs) (fun norm_titles =>
  let G0 := add_nodes_from empty_graph (seq 0 (List.length docs)) in
  let linked := link_documents threshold norm_titles docs G0 in
  let G3 := prune_graph (fst linked) in
  rbind (if largest_only && (0 <? number_of_nodes G3)%nat then
           rbind (max_by_len (weakly_connected_components G3))
                 (fun largest => Ok (subgraph G3 largest))
         else Ok G3) (fun G4 =>
  Ok (G4, snd linked))).

Definition build_citation_network
           (docs : list Document) (threshold : Q) (largest_only : bool)
  : result (DiGraph string * dict string (list string)) :=
  rbind (citation_graph docs threshold largest_only) (fun gu =>
  let G4 := fst gu in
  if forallb (fun i => (i <? List.length docs)%nat) (node_list G4) then
    Ok (relabel_nodes G4 (doc_id_at docs),
        dict_of_pairs
          (map (fun iu => (doc_id_at docs (fst iu), snd iu))
               (filter (fun iu => has_node G4 (fst iu)) (snd gu))))
  else Raise KeyError).

End CitationNetwork.

(* ------------------------------------------------------------------ *)
(** * Facts about the graph operations *)

Section GraphFacts.

Context {N : Type} `{EqDec N}.

(** Edges join nodes of the graph. *)
Definition wf_graph (G : DiGraph N) : Prop :=
  forall u v, In (u, v) (edge_list G) -> In u (node_list G) /\ In v (node_list G).

Lemma eqb_of_true (A : Type) `{EqDec A} (x y : A) : eqb_of x y = true <-> x = y.
Proof. unfold eqb_of. destruct (eq_dec x y); split; congruence. Qed.

Lemma eqb_of_false (A : Type) `{EqDec A} (x y : A) : eqb_of x y = false <-> x <> y.
Proof. unfold eqb_of. destruct (eq_dec x y); split; congruence. Qed.

Lemma mem_false (A : Type) `{EqDec A} (x : A) (l : list A) :
  mem x l = false <-> ~ In x l.
Proof.
  split.
  - intros Hm Hin. apply (proj2 (mem_In x l)) in Hin. congruence.
  - intro Hn. destruct (mem x l) eqn:E; [|reflexivity].
    apply (proj1 (mem_In x l)) in E. contradiction.
Qed.

Lemma add_node_nodes (G : DiGraph N) (n : N) (a : attrs) (x : N) :
  In x (node_list (add_node G n a)) <-> x = n \/ In x (node_list G).
Proof.
  unfold add_node, node_list.
  destruct (dict_get (node_attrs G) n) as [old|] eqn:E; cbn [node_attrs].
  - rewrite dict_set_keys_present by (eapply dict_get_Some_key; exact E).
    split; [tauto|]. intros [->|Hx]; [|exact Hx].
    eapply dict_get_Some_key; exact E.
  - unfold dict_keys. rewrite map_app, in_app_iff. simpl. split.
    + intros [Hx|[<-|[]]]; tauto.
    + intros [->|Hx]; tauto.
Qed.

Lemma add_node_edges (G : DiGraph N) (n : N) (a : attrs) :
  edge_list (add_node G n a) = edge_list G.
Proof.
  unfold add_node. destruct (dict_get (node_attrs G) n); reflexivity.
Qed.

Lemma add_edge_nodes (G : DiGraph N) (u v x : N) :
  In x (node_list (add_edge G u v)) <-> x = u \/ x = v \/ In x (node_list G).
Proof.
  unfold add_edge.
  destruct (has_edge (add_node (add_node G u []) v []) u v); unfold node_list at 1;
    cbn [node_attrs]; fold (node_list (add_node (add_node G u []) v []));
    rewrite !add_node_nodes; tauto.
Qed.

Lemma add_edge_edges (G : DiGraph N) (u v : N) (e : N * N) :
  In e (edge_list (add_edge G u v)) <-> e = (u, v) \/ In e (edge_list G).
Proof.
  unfold add_edge.
  destruct (has_edge (add_node (add_node G u []) v []) u v) eqn:E.
  - unfold has_edge in E. apply mem_In in E.
    rewrite !add_node_edges in *. split; [tauto|].
    intros [->|He]; assumption.
  - cbn [edge_list]. rewrite in_app_iff, !add_node_edges. simpl.
    split; [intros [He|[<-|[]]]; tauto | intros [->|He]; tauto].
Qed.

Lemma add_edge_wf (G : DiGraph N) (u v : N) :
  wf_graph G -> wf_graph (add_edge G u v).
Proof.
  intros Hwf a b Hab. apply add_edge_edges in Hab. rewrite !add_edge_nodes.
  destruct Hab as [E|Hab].
  - injection E as -> ->. tauto.
  - destruct (Hwf a b Hab). tauto.
Qed.

Lemma add_nodes_from_edges (G : DiGraph N) (ns : list N) :
  edge_list (add_nodes_from G ns) = edge_list G.
Proof.
  unfold add_nodes_from. revert G. induction ns as [|n ns IH]; intro G; simpl;
    [reflexivity|].
  rewrite IH. apply add_node_edges.
Qed.

Lemma add_nodes_from_nodes (G : DiGraph N) (ns : list N) (x : N) :
  In x (node_list (add_nodes_from G ns)) <-> In x ns \/ In x (node_list G).
Proof.
  unfold add_nodes_from. revert G. induction ns as [|n ns IH]; intro G; simpl.
  - tauto.
  - rewrite IH, add_node_nodes. split; intuition congruence.
Qed.

(** A node has positive degree exactly when an edge starts or ends at it. *)
Lemma degree_zero (G : DiGraph N) (n : N) :
  degree G n = 0%nat <->
  forall u v, In (u, v) (edge_list G) -> u <> n /\ v <> n.
Proof.
  unfold degree, in_degree, out_degree. split.
  - intros Hz u v Huv.
    assert (Hin : List.length (filter (fun e => eqb_of (snd e) n) (edge_list G)) = 0%nat) by lia.
    assert (Hout : List.length (filter (fun e => eqb_of (fst e) n) (edge_list G)) = 0%nat) by lia.
    apply length_zero_iff_nil in Hin, Hout. split; intro E; subst.
    + assert (Hf : In (n, v) (filter (fun e => eqb_of (fst e) n) (edge_list G))).
      { apply filter_In. split; [exact Huv|]. apply eqb_of_true. reflexivity. }
      rewrite Hout in Hf. exact Hf.
    + assert (Hf : In (u, n) (filter (fun e => eqb_of (snd e) n) (edge_list G))).
      { apply filter_In. split; [exact Huv|]. apply eqb_of_true. reflexivity. }
      rewrite Hin in Hf. exact Hf.
  - intro Hno.
    assert (Hin : filter (fun e => eqb_of (snd e) n) (edge_list G) = []).
    { destruct (filter (fun e => eqb_of (snd e) n) (edge_list G)) as [|[u v] l] eqn:E;
        [reflexivity|].
      assert (Hf : In (u, v) (filter (fun e => eqb_of (snd e) n) (edge_list G)))
        by (rewrite E; left; reflexivity).
      apply filter_In in Hf as [Huv Hv]. apply eqb_of_true in Hv. simpl in Hv.
      destruct (Hno u v Huv). contradiction. }
    assert (Hout : filter (fun e => eqb_of (fst e) n) (edge_list G) = []).
    { destruct (filter (fun e => eqb_of (fst e) n) (edge_list G)) as [|[u v] l] eqn:E;
        [reflexivity|].
      assert (Hf : In (u, v) (filter (fun e => eqb_of (fst e) n) (edge_list G)))
        by (rewrite E; left; reflexivity).
      apply filter_In in Hf as [Huv Hu]. apply eqb_of_true in Hu. simpl in Hu.
      destruct (Hno u v Huv). contradiction. }
    rewrite Hin, Hout. reflexivity.
Qed.

Lemma degree_positive (G : DiGraph N) (n m : N) :
  In (n, m) (edge_list G) \/ In (m, n) (edge_list G) -> degree G n <> 0%nat.
Proof.
  intros Hedge Hz. rewrite degree_zero in Hz.
  destruct Hedge as [He|He]; destruct (Hz _ _ He); contradiction.
Qed.

End GraphFacts.

Section PruneFacts.

Context {N : Type} `{EqDec N}.

Lemma keys_filter (V : Type) (q : N -> bool) (d : dict N V) (n : N) :
  In n (dict_keys (filter (fun kv => q (fst kv)) d))
  <-> In n (dict_keys d) /\ q n = true.
Proof.
  unfold dict_keys. rewrite !in_map_iff. split.
  - intros ([k v] & <- & Hin). apply filter_In in Hin as [Hin Hq]. simpl in *.
    split; [|exact Hq]. exists (k, v). split; [reflexivity | exact Hin].
  - intros [([k v] & <- & Hin) Hq]. exists (k, v). split; [reflexivity|].
    apply filter_In. split; assumption.
Qed.

Lemma remove_selfloops_edges (G : DiGraph N) (u v : N) :
  In (u, v) (edge_list (remove_edges_from G (selfloop_edges G)))
  <-> In (u, v) (edge_list G) /\ u <> v.
Proof.
  unfold remove_edges_from, selfloop_edges. cbn [edge_list].
  rewrite filter_In, negb_true_iff, mem_false, filter_In. cbn [fst snd].
  rewrite eqb_of_true. tauto.
Qed.

Lemma subgraph_nodes (G : DiGraph N) (ns : list N) (n : N) :
  In n (node_list (subgraph G ns)) <-> In n (node_list G) /\ In n ns.
Proof.
  unfold subgraph, node_list. cbn [node_attrs].
  rewrite (keys_filter (fun x => mem x ns)), mem_In. tauto.
Qed.

Lemma subgraph_edges (G : DiGraph N) (ns : list N) (u v : N) :
  In (u, v) (edge_list (subgraph G ns))
  <-> In (u, v) (edge_list G) /\ In u ns /\ In v ns.
Proof.
  unfold subgraph. cbn [edge_list].
  rewrite filter_In, andb_true_iff, !mem_In. cbn [fst snd]. tauto.
Qed.

Lemma prune_edges (G : DiGraph N) (u v : N) :
  In (u, v) (edge_list (prune_graph G)) <-> In (u, v) (edge_list G) /\ u <> v.
Proof.
  unfold prune_graph. set (G2 := remove_edges_from G (selfloop_edges G)).
  unfold remove_nodes_from. cbn [edge_list].
  rewrite filter_In, andb_true_iff, !negb_true_iff, !mem_false. cbn [fst snd].
  fold G2. rewrite <- (remove_selfloops_edges G u v). fold G2.
  split; [tauto|]. intro Huv. split; [exact Huv|].
  split; intro Hs; apply filter_In in Hs as [_ Hz]; apply Nat.eqb_eq in Hz;
    revert Hz.
  - apply (degree_positive G2 u v). left. exact Huv.
  - apply (degree_positive G2 v u). right. exact Huv.
Qed.

Lemma prune_nodes (G : DiGraph N) (n : N) :
  In n (node_list (prune_graph G))
  <-> In n (node_list G) /\
      degree (remove_edges_from G (selfloop_edges G)) n <> 0%nat.
Proof.
  unfold prune_graph. set (G2 := remove_edges_from G (selfloop_edges G)).
  unfold remove_nodes_from, node_list at 1. cbn [node_attrs].
  rewrite (keys_filter
             (fun x => negb (mem x (filter (fun n => Nat.eqb (degree G2 n) 0)
                                           (node_list G2))))).
  rewrite negb_true_iff, mem_false, filter_In, Nat.eqb_eq.
  change (dict_keys (node_attrs G2)) with (node_list G).
  change (node_list G2) with (node_list G). tauto.
Qed.

(** After pruning no node is isolated and no edge is a self-loop. *)
Lemma prune_no_isolated (G : DiGraph N) (n : N) :
  In n (node_list (prune_graph G)) ->
  exists m, m <> n /\
    (In (n, m) (edge_list (prune_graph G)) \/ In (m, n) (edge_list (prune_graph G))).
Proof.
  intro Hn. apply prune_nodes in Hn as [_ Hdeg].
  set (G2 := remove_edges_from G (selfloop_edges G)) in *.
  destruct (Nat.eq_dec (degree G2 n) 0) as [Hz|_]; [contradiction|].
  assert (Hex : exists u v, In (u, v) (edge_list G2) /\ (u = n \/ v = n)).
  { destruct (Forall_Exists_dec (fun e : N * N => fst e <> n /\ snd e <> n)
                (fun e => match eq_dec (fst e) n, eq_dec (snd e) n with
                          | right a, right b => left (conj a b)
                          | left a, _ => right (fun c => proj1 c a)
                          | _, left b => right (fun c => proj2 c b)
                          end) (edge_list G2)) as [Hall|Hex].
    - exfalso. apply Hdeg. apply degree_zero. intros u v Huv.
      rewrite Forall_forall in Hall. exact (Hall (u, v) Huv).
    - apply Exists_exists in Hex as ([u v] & Huv & Hnot). exists u, v.
      split; [exact Huv|]. cbn [fst snd] in Hnot.
      destruct (eq_dec u n); [tauto|]. destruct (eq_dec v n); tauto. }
  destruct Hex as (u & v & Huv & Hend).
  pose proof Huv as Huv2. apply remove_selfloops_edges in Huv2 as [Hin Hne].
  destruct Hend as [ -> | -> ].
  - exists v. split; [congruence|]. left. apply prune_edges. tauto.
  - exists u. split; [congruence|]. right. apply prune_edges. tauto.
Qed.

Lemma prune_wf (G : DiGraph N) : wf_graph G -> wf_graph (prune_graph G).
Proof.
  intros Hwf u v Huv. pose proof Huv as Huv0.
  apply prune_edges in Huv as [Hin Hne].
  destruct (Hwf u v Hin) as [Hu Hv].
  assert (H2 : In (u, v) (edge_list (remove_edges_from G (selfloop_edges G))))
    by (apply remove_selfloops_edges; tauto).
  split; apply prune_nodes; (split; [assumption|]).
  - apply (degree_positive _ u v). left. exact H2.
  - apply (degree_positive _ v u). right. exact H2.
Qed.

Lemma subgraph_wf (G : DiGraph N) (ns : list N) :
  wf_graph G -> wf_graph (subgraph G ns).
Proof.
  intros Hwf u v Huv. apply subgraph_edges in Huv as (Hin & Hu & Hv).
  destruct (Hwf u v Hin). rewrite !subgraph_nodes. tauto.
Qed.

End PruneFacts.

Section RelabelFacts.

Context {N M : Type} `{EqDec N} `{EqDec M}.
Variable f : N -> M.

Lemma dict_set_keys_In (K V : Type) `{EqDec K} (d : dict K V) (k x : K) (v : V) :
  In x (dict_keys (dict_set d k v)) <-> x = k \/ In x (dict_keys d).
Proof.
  destruct (in_dec eq_dec k (dict_keys d)) as [Hin|Hn].
  - rewrite dict_set_keys_present by exact Hin. split; [tauto|].
    intros [->|Hx]; assumption.
  - rewrite dict_set_keys_absent by exact Hn. rewrite in_app_iff. simpl.
    split; [intros [Hx|[<-|[]]]; tauto | intros [->|Hx]; tauto].
Qed.

Lemma relabel_keys (V : Type) (l : list (N * V)) (d0 : dict M V) (x : M) :
  In x (dict_keys (fold_left (fun d na => dict_set d (f (fst na)) (snd na)) l d0))
  <-> In x (dict_keys d0) \/ exists n, In n (dict_keys l) /\ f n = x.
Proof.
  revert d0. induction l as [|[n a] l IH]; intro d0; simpl.
  - split; [tauto|]. intros [Hx|(n & [] & _)]. exact Hx.
  - rewrite IH, dict_set_keys_In. split.
    + intros [[->|Hx]|(n' & Hn' & <-)].
      * right. exists n. tauto.
      * tauto.
      * right. exists n'. tauto.
    + intros [Hx|(n' & [<-|Hn'] & <-)].
      * tauto.
      * tauto.
      * right. exists n'. tauto.
Qed.

Lemma relabel_edges_fold (es : list (N * N)) (g0 : DiGraph M) (x y : M) :
  In (x, y) (edge_list (fold_left (fun g e => add_edge g (f (fst e)) (f (snd e))) es g0))
  <-> In (x, y) (edge_list g0) \/
      exists u v, In (u, v) es /\ x = f u /\ y = f v.
Proof.
  revert g0. induction es as [|[u v] es IH]; intro g0; simpl.
  - split; [tauto|]. intros [Hx|(u & v & [] & _)]. exact Hx.
  - rewrite IH, add_edge_edges. cbn [fst snd]. split.
    + intros [[E|Hin]|(u' & v' & Hin & -> & ->)].
      * injection E as -> ->. right. exists u, v. tauto.
      * tauto.
      * right. exists u', v'. tauto.
    + intros [Hin|(u' & v' & [E|Hin] & -> & ->)].
      * tauto.
      * injection E as -> ->. tauto.
      * right. exists u', v'. tauto.
Qed.

Lemma relabel_nodes_fold (es : list (N * N)) (g0 : DiGraph M) (x : M) :
  In x (node_list (fold_left (fun g e => add_edge g (f (fst e)) (f (snd e))) es g0))
  <-> In x (node_list g0) \/
      exists u v, In (u, v) es /\ (x = f u \/ x = f v).
Proof.
  revert g0. induction es as [|[u v] es IH]; intro g0; simpl.
  - split; [tauto|]. intros [Hx|(u & v & [] & _)]. exact Hx.
  - rewrite IH, add_edge_nodes. cbn [fst snd]. split.
    + intros [[->|[->|Hin]]|(u' & v' & Hin & Hx)].
      * right. exists u, v. tauto.
      * right. exists u, v. tauto.
      * tauto.
      * right. exists u', v'. tauto.
    + intros [Hin|(u' & v' & [E|Hin] & Hx)].
      * tauto.
      * injection E as -> ->. tauto.
      * right. exists u', v'. tauto.
Qed.

Lemma relabel_edges (G : DiGraph N) (x y : M) :
  In (x, y) (edge_list (relabel_nodes G f))
  <-> exists u v, In (u, v) (edge_list G) /\ x = f u /\ y = f v.
Proof.
  unfold relabel_nodes. rewrite relabel_edges_fold. cbn [edge_list]. simpl. tauto.
Qed.

Lemma relabel_nodes_spec (G : DiGraph N) (x : M) :
  wf_graph G ->
  In x (node_list (relabel_nodes G f))
  <-> exists n, In n (node_list G) /\ f n = x.
Proof.
  intro Hwf. unfold relabel_nodes. rewrite relabel_nodes_fold.
  unfold node_list at 1. cbn [node_attrs]. rewrite relabel_keys. simpl.
  fold (node_list G). split.
  - intros [[[]|Hn]|(u & v & Huv & Hx)]; [exact Hn|].
    destruct (Hwf u v Huv) as [Hu Hv].
    destruct Hx as [->| ->]; [exists u | exists v]; tauto.
  - intro Hn. left. right. exact Hn.
Qed.

End RelabelFacts.

(* ------------------------------------------------------------------ *)
(** * The loops of build_citation_network *)

Section CitationLoops.

Variable partial_ratio : string -> string -> Q.
Variable threshold : Q.
Variable norm_titles : list string.

Local Abbreviation matched ref := (match_reference partial_ratio threshold norm_titles ref).

Definition is_unmatched (ref : string) : bool :=
  match matched ref with Some _ => false | None => true end.

(** The references of a row that match no title, in order. *)
Definition unmatched_refs (d : Document) : list string :=
  match references d with
  | None => []
  | Some refs => filter is_unmatched (reference_list refs)
  end.

Lemma link_references_acc (idx : nat) (l : list string) (G : DiGraph nat)
      (acc : list string) :
  let step := fun (st : DiGraph nat * list string) (ref : string) =>
                match matched ref with
                | Some tgt => (add_edge (fst st) idx tgt, snd st)
                | None => (fst st, snd st ++ [ref])
                end in
  snd (fold_left step l (G, acc)) = acc ++ filter is_unmatched l /\
  (wf_graph G -> wf_graph (fst (fold_left step l (G, acc)))).
Proof.
  cbv zeta. revert G acc. induction l as [|ref l IH]; intros G acc; simpl.
  - rewrite app_nil_r. tauto.
  - unfold is_unmatched at 1. destruct (matched ref) as [tgt|].
    + destruct (IH (add_edge G idx tgt) acc) as [Hs Hw]. cbn [fst snd].
      split; [exact Hs|]. intro Hwf. apply Hw, add_edge_wf, Hwf.
    + destruct (IH G (acc ++ [ref])) as [Hs Hw]. cbn [fst snd].
      split; [|exact Hw]. rewrite Hs, <- app_assoc. reflexivity.
Qed.

Lemma link_references_unmatched (G : DiGraph nat) (idx : nat) (l : list string) :
  snd (link_references partial_ratio threshold norm_titles G idx l)
  = filter is_unmatched l.
Proof. unfold link_references. apply (link_references_acc idx l G []). Qed.

Lemma link_references_wf (G : DiGraph nat) (idx : nat) (l : list string) :
  wf_graph G ->
  wf_graph (fst (link_references partial_ratio threshold norm_titles G idx l)).
Proof. unfold link_references. apply (link_references_acc idx l G []). Qed.

(** One turn of the outer loop. *)
Definition link_row (st : DiGraph nat * dict nat (list string)) (row : nat * Document)
  : DiGraph nat * dict nat (list string) :=
  match references (snd row) with
  | None => st
  | Some refs =>
      let linked :=
        link_references partial_ratio threshold norm_titles (fst st) (fst row)
                        (reference_list refs) in
      match snd linked with
      | [] => (fst linked, snd st)
      | _ :: _ => (fst linked, dict_set (snd st) (fst row) (snd linked))
      end
  end.

Lemma link_row_wf st row : wf_graph (fst st) -> wf_graph (fst (link_row st row)).
Proof.
  intro Hwf. unfold link_row. destruct (references (snd row)) as [refs|]; [|exact Hwf].
  cbv zeta.
  pose proof (@link_references_wf (fst st) (fst row) (reference_list refs) Hwf) as Hw.
  destruct (snd (link_references _ _ _ _ _ _)); exact Hw.
Qed.

Lemma link_row_unmatched st row (i : nat) :
  dict_get (snd (link_row st row)) i
  = if Nat.eq_dec i (fst row) then
      match unmatched_refs (snd row) with
      | [] => dict_get (snd st) i
      | U => Some U
      end
    else dict_get (snd st) i.
Proof.
  unfold link_row, unmatched_refs.
  destruct (references (snd row)) as [refs|].
  - cbv zeta. rewrite link_references_unmatched.
    destruct (filter is_unmatched (reference_list refs)) as [|r U]; cbn [snd].
    + destruct (Nat.eq_dec i (fst row)); reflexivity.
    + rewrite dict_get_set. unfold eq_dec, nat_EqDec.
      destruct (Nat.eq_dec i (fst row)); reflexivity.
  - destruct (Nat.eq_dec i (fst row)); reflexivity.
Qed.

Lemma link_rows_spec (docs : list Document) (k : nat) st :
  let final := fold_left link_row (combine (seq k (List.length docs)) docs) st in
  (wf_graph (fst st) -> wf_graph (fst final)) /\
  forall i,
    dict_get (snd final) i
    = match (if (k <=? i)%nat then nth_error docs (i - k) else None) with
      | Some d =>
          match unmatched_refs d with
          | [] => dict_get (snd st) i
          | U => Some U
          end
      | None => dict_get (snd st) i
      end.
Proof.
  cbv zeta. revert k st. induction docs as [|d docs IH]; intros k st; simpl.
  - split; [tauto|]. intro i. destruct (k <=? i)%nat; [|reflexivity].
    destruct (i - k)%nat; reflexivity.
  - destruct (IH (S k) (link_row st (k, d))) as [Hw Hd]. split.
    + intro Hwf. apply Hw, link_row_wf, Hwf.
    + intro i. rewrite Hd, link_row_unmatched. cbn [fst snd].
      destruct (Nat.leb_spec (S k) i) as [Hle|Hgt].
      * destruct (Nat.leb_spec k i) as [_|Hlt]; [|lia].
        replace (i - k)%nat with (S (i - S k)) by lia. cbn [nth_error].
        destruct (Nat.eq_dec i k) as [->|_]; [lia|]. reflexivity.
      * destruct (Nat.leb_spec k i) as [Hle|Hlt].
        -- assert (i = k) by lia. subst i. rewrite Nat.sub_diag. cbn [nth_error].
           destruct (Nat.eq_dec k k); [reflexivity | contradiction].
        -- destruct (Nat.eq_dec i k); [lia | reflexivity].
Qed.

End CitationLoops.

Lemma max_by_len_spec (A : Type) (comps : list (list A)) (C : list A) :
  max_by_len comps = Ok C ->
  In C comps /\ forall C', In C' comps -> (List.length C' <= List.length C)%nat.
Proof.
  revert C. induction comps as [|c rest IH]; intros C; simpl; [discriminate|].
  destruct (max_by_len rest) as [best|e] eqn:E.
  - destruct (IH best eq_refl) as [Hin Hmax].
    destruct (Nat.ltb_spec (List.length c) (List.length best)) as [Hlt|Hge];
      intro H0; injection H0 as <-.
    + split; [right; exact Hin|]. intros C' [<-|HC']; [lia | apply Hmax, HC'].
    + split; [left; reflexivity|]. intros C' [<-|HC']; [lia|].
      specialize (Hmax C' HC'). lia.
  - intro H0; injection H0 as <-. split; [left; reflexivity|].
    intros C' [<-|HC']; [lia|]. destruct rest; [contradiction | simpl in E].
    destruct (max_by_len rest); [destruct (_ <? _)%nat|]; discriminate.
Qed.

Lemma dict_of_pairs_fold_absent (K V : Type) `{EqDec K} (l : list (K * V))
      (d : dict K V) (k : K) :
  ~ In k (map fst l) ->
  dict_get (fold_left (fun d kv => dict_set d (fst kv) (snd kv)) l d) k = dict_get d k.
Proof.
  revert d. induction l as [|[k0 v0] l IH]; intros d Hn; simpl in *; [reflexivity|].
  rewrite IH by tauto. apply dict_get_set_other. intro E. apply Hn. left. auto.
Qed.

Lemma dict_of_pairs_fold_get (K V : Type) `{EqDec K} (l : list (K * V))
      (d : dict K V) (k : K) (v : V) :
  NoDup (map fst l) -> In (k, v) l ->
  dict_get (fold_left (fun d kv => dict_set d (fst kv) (snd kv)) l d) k = Some v.
Proof.
  revert d. induction l as [|[k0 v0] l IH]; intros d Hnd Hin; simpl in *;
    [contradiction|].
  inversion Hnd as [|? ? Hfresh Hnd']; subst.
  destruct Hin as [E|Hin].
  - injection E as -> ->. rewrite dict_of_pairs_fold_absent by exact Hfresh.
    apply dict_get_set_same.
  - apply IH; assumption.
Qed.

Lemma dict_of_pairs_fold_inv (K V : Type) `{EqDec K} (l : list (K * V))
      (d : dict K V) (k : K) (v : V) :
  dict_get (fold_left (fun d kv => dict_set d (fst kv) (snd kv)) l d) k = Some v ->
  In (k, v) l \/ dict_get d k = Some v.
Proof.
  revert d. induction l as [|[k0 v0] l IH]; intros d Hget; simpl in *; [tauto|].
  destruct (IH _ Hget) as [Hin|Hd]; [tauto|].
  rewrite dict_get_set in Hd. destruct (eq_dec k k0) as [->|Hne]; [|tauto].
  injection Hd as ->. tauto.
Qed.

Lemma dict_of_pairs_get (K V : Type) `{EqDec K} (l : list (K * V)) (k : K) (v : V) :
  NoDup (map fst l) -> In (k, v) l -> dict_get (dict_of_pairs l) k = Some v.
Proof. intros. unfold dict_of_pairs. apply dict_of_pairs_fold_get; assumption. Qed.

Lemma dict_of_pairs_inv (K V : Type) `{EqDec K} (l : list (K * V)) (k : K) (v : V) :
  dict_get (dict_of_pairs l) k = Some v -> In (k, v) l.
Proof.
  intro Hget. unfold dict_of_pairs in Hget.
  apply dict_of_pairs_fold_inv in Hget as [Hin|Hd]; [exact Hin | discriminate].
Qed.

Lemma NoDup_map_inj_on (A B : Type) (f : A -> B) (l : list A) :
  (forall a b, In a l -> In b l -> f a = f b -> a = b) ->
  NoDup l -> NoDup (map f l).
Proof.
  intros Hinj Hnd. induction Hnd as [|x l Hfresh Hnd IH]; simpl; constructor.
  - intro Hin. apply in_map_iff in Hin as (y & E & Hy). apply Hfresh.
    rewrite (Hinj x y); [exact Hy | left; reflexivity | right; exact Hy | congruence].
  - apply IH. intros a b Ha Hb. apply Hinj; right; assumption.
Qed.

Lemma NoDup_keys_filter (K V : Type) (q : K * V -> bool) (d : dict K V) :
  NoDup (dict_keys d) -> NoDup (dict_keys (filter q d)).
Proof.
  unfold dict_keys. induction d as [|[k v] d IH]; simpl; intro Hnd; [constructor|].
  inversion Hnd as [|? ? Hfresh Hnd']; subst.
  destruct (q (k, v)); simpl; [|apply IH, Hnd'].
  constructor; [|apply IH, Hnd'].
  intro Hin. apply Hfresh. apply in_map_iff in Hin as ([k' v'] & E & Hin).
  apply filter_In in Hin as [Hin _]. simpl in E. subst k'.
  change k with (fst (k, v')). apply in_map. exact Hin.
Qed.

Lemma dict_get_of_In (K V : Type) `{EqDec K} (d : dict K V) (k : K) (v : V) :
  NoDup (dict_keys d) -> In (k, v) d -> dict_get d k = Some v.
Proof.
  unfold dict_keys. induction d as [|[k0 v0] d IH]; simpl; intros Hnd Hin;
    [contradiction|].
  inversion Hnd as [|? ? Hfresh Hnd']; subst.
  destruct Hin as [E|Hin].
  - injection E as -> ->. destruct (eq_dec k k); [reflexivity | contradiction].
  - destruct (eq_dec k k0) as [->|_]; [|apply IH; assumption].
    exfalso. apply Hfresh. change k0 with (fst (k0, v)). apply in_map, Hin.
Qed.

Lemma doc_id_at_inj (docs : list Document) (i j : nat) :
  NoDup (map doc_id docs) ->
  (i < List.length docs)%nat -> (j < List.length docs)%nat ->
  doc_id_at docs i = doc_id_at docs j -> i = j.
Proof.
  intros Hnd Hi Hj E. rewrite NoDup_nth_error in Hnd. apply Hnd.
  - rewrite length_map. exact Hi.
  - rewrite !nth_error_map. unfold doc_id_at in E.
    destruct (nth_error docs i) as [di|] eqn:Ei;
      [|apply nth_error_None in Ei; lia].
    destruct (nth_error docs j) as [dj|] eqn:Ej;
      [|apply nth_error_None in Ej; lia].
    simpl. congruence.
Qed.

(* ------------------------------------------------------------------ *)
(** * Invariants of the citation network *)

(** A set of nodes that no edge leaves or enters from outside: what a
    weakly-connected component is closed under. *)
Definition closed_under_edges (G : DiGraph nat) (C : list nat) : Prop :=
  forall u v, In (u, v) (edge_list G) -> (In u C <-> In v C).

Section CitationInvariants.

Variable partial_ratio : string -> string -> Q.
Variable weakly_connected_components : DiGraph nat -> list (list nat).
Variable docs : list Document.
Variable threshold : Q.

Local Abbreviation the_citation_graph :=
  (citation_graph partial_ratio weakly_connected_components docs threshold).

Lemma link_rows_keys_NoDup nt (rows : list (nat * Document)) st :
  NoDup (dict_keys (snd st)) ->
  NoDup (dict_keys (snd (fold_left (link_row partial_ratio threshold nt) rows st))).
Proof.
  revert st. induction rows as [|row rows IH]; intros st Hnd; simpl; [exact Hnd|].
  apply IH. unfold link_row. destruct (references (snd row)); [|exact Hnd].
  cbv zeta. destruct (snd (link_references _ _ _ _ _ _)); cbn [snd]; [exact Hnd|].
  apply dict_set_keys_NoDup, Hnd.
Qed.

(** The graph before relabelling: pruned, and cut to one component on
    request. *)
Lemma citation_graph_inv largest_only G4 U0 :
  the_citation_graph largest_only = Ok (G4, U0) ->
  exists nt P,
    normalized_titles docs = Ok nt /\
    the_citation_graph false = Ok (P, U0) /\
    wf_graph P /\
    (forall u v, In (u, v) (edge_list P) -> u <> v) /\
    (forall n, In n (node_list P) ->
       exists m, m <> n /\ (In (n, m) (edge_list P) \/ In (m, n) (edge_list P))) /\
    NoDup (dict_keys U0) /\
    (forall i U, dict_get U0 i = Some U ->
       exists d, nth_error docs i = Some d /\
                 U = unmatched_refs partial_ratio threshold nt d /\ U <> []) /\
    (forall i d, nth_error docs i = Some d ->
       unmatched_refs partial_ratio threshold nt d <> [] ->
       dict_get U0 i = Some (unmatched_refs partial_ratio threshold nt d)) /\
    (G4 = P /\ (largest_only = false \/ number_of_nodes P = 0%nat) \/
     largest_only = true /\ number_of_nodes P <> 0%nat /\
     exists C, max_by_len (weakly_connected_components P) = Ok C /\
               G4 = subgraph P C).
Proof.
  unfold citation_graph.
  destruct (normalized_titles docs) as [nt|e]; cbn [rbind]; [|discriminate].
  set (linked := link_documents partial_ratio threshold nt docs
                   (add_nodes_from empty_graph (seq 0 (List.length docs)))).
  set (P := prune_graph (fst linked)). intro Hout.
  assert (Hspec := link_rows_spec partial_ratio threshold nt docs 0
                     (add_nodes_from empty_graph (seq 0 (List.length docs)), [])).
  cbv zeta in Hspec. fold (link_documents partial_ratio threshold nt docs
    (add_nodes_from empty_graph (seq 0 (List.length docs)))) in Hspec.
  change (link_documents partial_ratio threshold nt docs
            (add_nodes_from empty_graph (seq 0 (List.length docs)))) with linked in Hspec.
  destruct Hspec as [Hwf Hdict]. cbn [fst snd] in Hwf, Hdict.
  assert (Hwf1 : wf_graph (fst linked)).
  { apply Hwf. intros u v Huv. rewrite add_nodes_from_edges in Huv. destruct Huv. }
  assert (HU0 : U0 = snd linked).
  { destruct (largest_only && (0 <? number_of_nodes P)%nat); cbn [rbind] in Hout.
    - destruct (max_by_len (weakly_connected_components P)); cbn [rbind] in Hout;
        [injection Hout as _ <-; reflexivity | discriminate].
    - injection Hout as _ <-. reflexivity. }
  exists nt, P. split; [reflexivity|]. split; [rewrite HU0; reflexivity|].
  split; [apply prune_wf, Hwf1|].
  split; [intros u v Huv; apply prune_edges in Huv; tauto|].
  split; [intros n Hn; apply prune_no_isolated, Hn|].
  split.
  { rewrite HU0. apply (link_rows_keys_NoDup nt). constructor. }
  split.
  { intros i U Hget. rewrite HU0, Hdict in Hget. cbn [Nat.leb] in Hget.
    rewrite Nat.sub_0_r in Hget.
    destruct (nth_error docs i) as [d|]; [|discriminate]. exists d.
    split; [reflexivity|].
    destruct (unmatched_refs partial_ratio threshold nt d) as [|r U'];
      [discriminate|]. injection Hget as <-. split; [reflexivity | discriminate]. }
  split.
  { intros i d Hi Hne. rewrite HU0, Hdict. cbn [Nat.leb]. rewrite Nat.sub_0_r, Hi.
    destruct (unmatched_refs partial_ratio threshold nt d); [contradiction | reflexivity]. }
  destruct largest_only; cbn [andb] in Hout.
  - destruct (Nat.ltb_spec 0 (number_of_nodes P)) as [Hpos|Hz]; cbn [rbind] in Hout.
    + right. split; [reflexivity|]. split; [lia|].
      destruct (max_by_len (weakly_connected_components P)) as [C|e];
        cbn [rbind] in Hout; [|discriminate].
      injection Hout as <- _. exists C. split; reflexivity.
    + left. injection Hout as <- _. split; [reflexivity|]. right. lia.
  - left. cbn [rbind] in Hout. injection Hout as <- _. split; [reflexivity|].
    left. reflexivity.
Qed.

(** C5, amended.  For a table with unique document identifiers, and
    components that are closed under edges, every returned graph has no
    self-loop and no node of degree 0, its nodes are document identifiers
    of the table, and with [largest_only=True] they all lie in one
    component of the pruned citation graph that no other component exceeds
    in size.  The references of a document that match no title are reported
    under its identifier when the document is a node of the returned graph;
    the returned mapping has no other keys, so the unmatched references of
    documents that were pruned are not reported. *)
Theorem citation_network_invariants largest_only G unmatched :
  NoDup (map doc_id docs) ->
  (largest_only = true ->
   forall P U0, the_citation_graph false = Ok (P, U0) ->
     forall C, In C (weakly_connected_components P) -> closed_under_edges P C) ->
  build_citation_network partial_ratio weakly_connected_components
    docs threshold largest_only = Ok (G, unmatched) ->
  (forall u v, In (u, v) (edge_list G) -> u <> v) /\
  (forall n, In n (node_list G) -> degree G n <> 0%nat) /\
  (forall n, In n (node_list G) ->
     exists i d, nth_error docs i = Some d /\ doc_id d = n) /\
  (largest_only = true ->
   forall P U0, the_citation_graph false = Ok (P, U0) ->
     number_of_nodes P <> 0%nat ->
     exists C,
       In C (weakly_connected_components P) /\
       (forall C', In C' (weakly_connected_components P) ->
          (List.length C' <= List.length C)%nat) /\
       forall n, In n (node_list G) ->
         exists i, In i C /\ In i (node_list P) /\ doc_id_at docs i = n) /\
  exists nt,
    normalized_titles docs = Ok nt /\
    (forall i d,
        nth_error docs i = Some d -> In (doc_id d) (node_list G) ->
        unmatched_refs partial_ratio threshold nt d <> [] ->
        dict_get unmatched (doc_id d)
        = Some (unmatched_refs partial_ratio threshold nt d)) /\
    (forall k U,
        dict_get unmatched k = Some U ->
        In k (node_list G) /\
        exists i d, nth_error docs i = Some d /\ doc_id d = k /\
                    U = unmatched_refs partial_ratio threshold nt d /\ U <> []).
Proof.
  intros Hids Hwcc Hbuild. unfold build_citation_network in Hbuild.
  destruct (the_citation_graph largest_only) as [[G4 U0]|e] eqn:Hcg;
    cbn [rbind fst snd] in Hbuild; [|discriminate].
  destruct (forallb (fun i => (i <? List.length docs)%nat) (node_list G4)) eqn:Hrange;
    [|discriminate].
  injection Hbuild as <- <-.
  rewrite forallb_forall in Hrange.
  assert (Hlt : forall n, In n (node_list G4) -> (n < List.length docs)%nat)
    by (intros n Hn; apply Nat.ltb_lt, Hrange, Hn).
  destruct (citation_graph_inv _ Hcg)
    as (nt & P & Hnt & HP & WP & LP & IP & NU & Uinv & Uget & Hshape).
  (* the graph before relabelling *)
  assert (H4 : wf_graph G4 /\
               (forall u v, In (u, v) (edge_list G4) -> u <> v) /\
               (forall n, In n (node_list G4) ->
                  exists m, m <> n /\
                    (In (n, m) (edge_list G4) \/ In (m, n) (edge_list G4))) /\
               (forall n, In n (node_list G4) -> In n (node_list P))).
  { destruct Hshape as [[-> _]|(Hlo & Hpos & C & HC & ->)].
    - split; [exact WP|]. split; [exact LP|]. split; [exact IP|]. auto.
    - apply max_by_len_spec in HC as [HinC _].
      pose proof (Hwcc Hlo P U0 HP C HinC) as Hclosed.
      split; [apply subgraph_wf, WP|]. split; [|split].
      + intros u v Huv. apply subgraph_edges in Huv. apply LP. tauto.
      + intros n Hn. apply subgraph_nodes in Hn as [HnP HnC].
        destruct (IP n HnP) as (m & Hne & [He|He]); exists m; (split; [exact Hne|]).
        * left. apply subgraph_edges. pose proof (Hclosed n m He). tauto.
        * right. apply subgraph_edges. pose proof (Hclosed m n He). tauto.
      + intros n Hn. apply subgraph_nodes in Hn. tauto. }
  destruct H4 as (W4 & L4 & I4 & N4).
  assert (Hinj : forall a b, In a (node_list G4) -> In b (node_list G4) ->
                   doc_id_at docs a = doc_id_at docs b -> a = b).
  { intros a b Ha Hb. apply (@doc_id_at_inj docs); auto. }
  split; [|split; [|split; [|split]]].
  - intros x y Hxy. apply relabel_edges in Hxy as (u & v & Huv & -> & ->).
    destruct (W4 u v Huv) as [Hu Hv]. intro E. apply (L4 u v Huv), Hinj; assumption.
  - intros x Hx. apply (relabel_nodes_spec _ _ W4) in Hx as (n & Hn & <-).
    destruct (I4 n Hn) as (m & _ & He).
    apply (degree_positive _ (doc_id_at docs n) (doc_id_at docs m)).
    destruct He as [He|He]; [left | right]; apply relabel_edges;
      [exists n, m | exists m, n]; tauto.
  - intros x Hx. apply (relabel_nodes_spec _ _ W4) in Hx as (n & Hn & <-).
    pose proof (Hlt n Hn) as Hnlt. unfold doc_id_at.
    destruct (nth_error docs n) as [d|] eqn:E; [|apply nth_error_None in E; lia].
    exists n, d. split; [exact E | reflexivity].
  - intros Hlo P' U' HP' Hpos. rewrite HP in HP'. injection HP' as <- <-.
    destruct Hshape as [[_ [Hf|Hz]]|(_ & _ & C & HC & ->)]; [congruence | contradiction|].
    apply max_by_len_spec in HC as [HinC Hmax]. exists C.
    split; [exact HinC|]. split; [exact Hmax|].
    intros x Hx. apply (relabel_nodes_spec _ _ W4) in Hx as (n & Hn & <-).
    apply subgraph_nodes in Hn. exists n. tauto.
  - exists nt. split; [exact Hnt|]. split.
    + intros i d Hi Hnode Hne.
      apply (relabel_nodes_spec _ _ W4) in Hnode as (n & Hn & En).
      assert (Hilt : (i < List.length docs)%nat)
        by (apply nth_error_Some; congruence).
      assert (Eid : doc_id_at docs i = doc_id d) by (unfold doc_id_at; rewrite Hi; reflexivity).
      assert (n = i).
      { apply (@doc_id_at_inj docs); auto. congruence. }
      subst n. rewrite <- Eid.
      apply dict_of_pairs_get.
      * rewrite map_map. cbn [fst].
        rewrite <- (map_map fst (doc_id_at docs)).
        apply NoDup_map_inj_on.
        -- intros a b Ha Hb. apply in_map_iff in Ha as ([a0 ua] & <- & Ha).
           apply in_map_iff in Hb as ([b0 ub] & <- & Hb).
           apply filter_In in Ha as [_ Ha]. apply filter_In in Hb as [_ Hb].
           cbn [fst] in *. apply mem_In in Ha, Hb. apply Hinj; assumption.
        -- apply (NoDup_keys_filter _ _ NU).
      * apply in_map_iff. exists (i, unmatched_refs partial_ratio threshold nt d).
        split; [reflexivity|]. apply filter_In. split.
        -- eapply dict_get_In. apply Uget; assumption.
        -- cbn [fst]. apply mem_In. exact Hn.
    + intros k U Hget. apply dict_of_pairs_inv in Hget.
      apply in_map_iff in Hget as ([i U'] & E & Hin). cbn [fst snd] in E.
      injection E as <- <-. apply filter_In in Hin as [Hin Hnode]. cbn [fst] in Hnode.
      apply mem_In in Hnode. split.
      * apply (relabel_nodes_spec _ _ W4). exists i. tauto.
      * assert (Hg : dict_get U0 i = Some U')
          by (apply dict_get_of_In; assumption).
        destruct (Uinv i U' Hg) as (d & Hd & -> & Hne).
        exists i, d. unfold doc_id_at. rewrite Hd. repeat split; assumption.
Qed.

End CitationInvariants.

(** Stand-ins for the external functions on the examples below: strings
    without a common character score 0, and a connected graph has one
    component. *)
Definition zero_ratio (a b : string) : Q := 0%Q.
Definition one_component (G : DiGraph nat) : list (list nat) := [node_list G].

Definition plain_document (id ttl : string) (refs : option string) : Document :=
  mkDocument id (Some ttl) None refs None None.

(** A document whose only reference matches nothing, and which nobody cites. *)
Definition lonely_document : Document := plain_document "D1" "alpha" (Some "zzz").

(** C5, as stated, fails: the reference "zzz" of D1 matches no title, D1 is
    pruned as an isolated node, and the returned mapping does not report
    the reference. *)
Lemma unmatched_of_pruned_document_is_dropped :
  build_citation_network zero_ratio one_component [lonely_document] 90%Q true
  = Ok (empty_graph, []) /\
  normalized_titles [lonely_document] = Ok ["alpha"] /\
  unmatched_refs zero_ratio 90%Q ["alpha"] lonely_document = ["zzz"].
Proof. repeat split; vm_compute; reflexivity. Qed.

Definition citing_pair : list Document :=
  [ plain_document "D1" "alpha" (Some "Beta; zzz");
    plain_document "D2" "beta" None ].

Example citing_pair_network :
  build_citation_network zero_ratio one_component citing_pair 90%Q true
  = Ok (mkDiGraph [("D1", []); ("D2", [])] [("D1", "D2")], [("D1", ["zzz"])]).
Proof. vm_compute. reflexivity. Qed.

Lemma citation_network_invariants_witness :
  NoDup (map doc_id citing_pair) /\
  forall u v,
    In (u, v) (edge_list (mkDiGraph [("D1", []); ("D2", [])] [("D1", "D2")])) ->
    u <> v.
Proof.
  split; [repeat constructor; simpl; intuition discriminate|].
  refine (proj1 (@citation_network_invariants zero_ratio one_component citing_pair
                   90%Q true _ _ _ _ citing_pair_network)).
  - repeat constructor; simpl; intuition discriminate.
  - intros _ P U0 HP C HC.
    assert (E : P = mkDiGraph [(0%nat, []); (1%nat, [])] [(0%nat, 1%nat)]).
    { vm_compute in HP. injection HP as <- _. reflexivity. }
    subst P. destruct HC as [<-|[]]. intros u v [Huv|[]]. injection Huv as <- <-.
    simpl. tauto.
Defined.

(* ------------------------------------------------------------------ *)
(** * compute_main_path *)

Fixpoint insert_sorted (x : string) (l : list string) : list string :=
  match l with
  | [] => [x]
  | y :: rest => if String.leb x y then x :: l else y :: insert_sorted x rest
  end.

(** [sorted(members)] on strings: ascending in the lexicographic order of
    the character codes. *)
Definition sorted (l : list string) : list string :=
  fold_right insert_sorted [] l.

(** [cG.nodes[comp]["members"]] *)
Definition members_of (cG : DiGraph nat) (comp : nat) : result (list string) :=
  match get_node_attr cG comp "members" with
  | Some (VMembers ms) => Ok ms
  | _ => Raise KeyError
  end.

(** [sorted(members)[0]] *)
Definition first_sorted (ms : list string) : result string :=
  match sorted ms with
  | [] => Raise IndexError
  | m :: _ => Ok m
  end.

(** The loop over [comp_path]. *)
Fixpoint representatives (cG : DiGraph nat) (comp_path : list nat)
  : result (list string) :=
  match comp_path with
  | [] => Ok []
  | comp :: rest =>
      rbind (members_of cG comp) (fun ms =>
      rbind (first_sorted ms) (fun m =>
      rbind (representatives cG rest) (fun path => Ok (m :: path))))
  end.

Section MainPath.

(** [nx.condensation]: a graph on component numbers whose nodes carry the
    attribute "members". *)
Variable condensation : DiGraph string -> result (DiGraph nat).
(** [nx.dag_longest_path] *)
Variable dag_longest_path : DiGraph nat -> result (list nat).

Definition compute_main_path (G : DiGraph string) : result (list string) :=
  rbind (condensation G) (fun cG =>
  rbind (dag_longest_path cG) (fun comp_path =>
  representatives cG comp_path)).

End MainPath.

(** A walk along edges of the graph. *)
Definition is_path (G : DiGraph nat) (p : list nat) : Prop :=
  (forall c, In c p -> In c (node_list G)) /\
  (forall k c1 c2, nth_error p k = Some c1 -> nth_error p (S k) = Some c2 ->
     In (c1, c2) (edge_list G)).

(** What [nx.condensation] promises of every node of its result, as far as
    [compute_main_path] relies on it: a non-empty set of members. *)
Definition has_members (cG : DiGraph nat) : Prop :=
  forall c, In c (node_list cG) ->
    exists ms, get_node_attr cG c "members" = Some (VMembers ms) /\ ms <> [].

(** What [nx.dag_longest_path] promises: a path that no path exceeds. *)
Definition is_longest_path (cG : DiGraph nat) (p : list nat) : Prop :=
  is_path cG p /\
  forall q, is_path cG q -> (List.length q <= List.length p)%nat.

(* ------------------------------------------------------------------ *)
(** * The order of strings and the first of a sorted list *)

Lemma ascii_compare_refl (a : ascii) : Ascii.compare a a = Eq.
Proof. unfold Ascii.compare. apply N.compare_refl. Qed.

Lemma string_compare_trans (c : comparison) (s1 s2 s3 : string) :
  String.compare s1 s2 = c -> String.compare s2 s3 = c -> String.compare s1 s3 = c.
Proof.
  revert s2 s3. induction s1 as [|a1 s1 IH]; intros [|a2 s2] [|a3 s3]; simpl;
    try congruence.
  unfold Ascii.compare.
  destruct (N.compare_spec (N_of_ascii a1) (N_of_ascii a2)) as [E12|L12|G12];
    destruct (N.compare_spec (N_of_ascii a2) (N_of_ascii a3)) as [E23|L23|G23];
    destruct (N.compare_spec (N_of_ascii a1) (N_of_ascii a3)) as [E13|L13|G13];
    try lia; try congruence.
  apply IH.
Qed.

Lemma string_compare_eq (s1 s2 : string) : String.compare s1 s2 = Eq <-> s1 = s2.
Proof.
  split; [apply String.compare_eq_iff|]. intros <-.
  induction s1 as [|a s IH]; simpl; [reflexivity|].
  rewrite ascii_compare_refl. exact IH.
Qed.

Lemma string_leb_refl (s : string) : String.leb s s = true.
Proof.
  unfold String.leb. rewrite (proj2 (string_compare_eq s s) eq_refl). reflexivity.
Qed.

Lemma string_leb_trans (s1 s2 s3 : string) :
  String.leb s1 s2 = true -> String.leb s2 s3 = true -> String.leb s1 s3 = true.
Proof.
  unfold String.leb.
  destruct (String.compare s1 s2) eqn:E12; try discriminate;
    destruct (String.compare s2 s3) eqn:E23; try discriminate; intros _ _.
  - apply string_compare_eq in E12, E23. subst.
    rewrite (proj2 (string_compare_eq s3 s3) eq_refl). reflexivity.
  - apply string_compare_eq in E12. subst. rewrite E23. reflexivity.
  - apply string_compare_eq in E23. subst. rewrite E12. reflexivity.
  - rewrite (@string_compare_trans Lt s1 s2 s3 E12 E23). reflexivity.
Qed.

Lemma insert_sorted_In (x y : string) (l : list string) :
  In y (insert_sorted x l) <-> y = x \/ In y l.
Proof.
  induction l as [|z l IH]; simpl.
  - intuition.
  - destruct (String.leb x z); simpl; [intuition|]. rewrite IH. intuition.
Qed.

Lemma sorted_In (y : string) (l : list string) : In y (sorted l) <-> In y l.
Proof.
  induction l as [|x l IH]; simpl; [tauto|].
  rewrite insert_sorted_In, IH. intuition.
Qed.

(** The head of a list is below all its elements. *)
Definition head_least (l : list string) : Prop :=
  match l with
  | [] => True
  | m :: _ => forall y, In y l -> String.leb m y = true
  end.

Lemma insert_sorted_head_least (x : string) (l : list string) :
  head_least l -> head_least (insert_sorted x l).
Proof.
  destruct l as [|z l]; simpl.
  - intros _ y [<-|[]]. apply string_leb_refl.
  - intro Hz. destruct (String.leb x z) eqn:E; simpl.
    + intros y [<-|Hy]; [apply string_leb_refl|].
      apply string_leb_trans with z; [exact E | apply Hz, Hy].
    + intros y [<-|Hy]; [apply string_leb_refl|].
      apply insert_sorted_In in Hy as [->|Hy].
      * destruct (String.leb_total x z) as [H1|H1]; congruence.
      * apply Hz. right. exact Hy.
Qed.

Lemma sorted_head_least (l : list string) : head_least (sorted l).
Proof.
  induction l as [|x l IH]; simpl; [exact I|].
  apply insert_sorted_head_least, IH.
Qed.

(** [sorted(ms)[0]] is a member, and no member is below it. *)
Lemma first_sorted_spec (ms : list string) :
  ms <> [] ->
  exists m, first_sorted ms = Ok m /\ In m ms /\
            forall y, In y ms -> String.leb m y = true.
Proof.
  intro Hne. unfold first_sorted.
  pose proof (sorted_head_least ms) as Hleast.
  destruct (sorted ms) as [|m rest] eqn:E.
  - destruct ms as [|x ms]; [contradiction|].
    assert (Hx : In x (sorted (x :: ms))) by (apply sorted_In; left; reflexivity).
    rewrite E in Hx. destruct Hx.
  - exists m. split; [reflexivity|]. split.
    + apply sorted_In. rewrite E. left. reflexivity.
    + intros y Hy. apply Hleast. rewrite <- E. apply sorted_In, Hy.
Qed.

(* ------------------------------------------------------------------ *)
(** * The main path *)

(** [x] represents component [c]: the least of its members. *)
Definition represents (cG : DiGraph nat) (c : nat) (x : string) : Prop :=
  exists ms, members_of cG c = Ok ms /\ In x ms /\
             forall y, In y ms -> String.leb x y = true.

Lemma Forall2_nth_error_l (A B : Type) (R : A -> B -> Prop) (l1 : list A) (l2 : list B)
      (k : nat) (a : A) :
  Forall2 R l1 l2 -> nth_error l1 k = Some a ->
  exists b, nth_error l2 k = Some b /\ R a b.
Proof.
  intro HF. revert k. induction HF as [|x y l1 l2 Hxy HF IH]; intros [|k]; simpl;
    try discriminate.
  - intro E; injection E as <-. exists y. tauto.
  - apply IH.
Qed.

Lemma Forall2_nth_error_r (A B : Type) (R : A -> B -> Prop) (l1 : list A) (l2 : list B)
      (k : nat) (b : B) :
  Forall2 R l1 l2 -> nth_error l2 k = Some b ->
  exists a, nth_error l1 k = Some a /\ R a b.
Proof.
  intro HF. revert k. induction HF as [|x y l1 l2 Hxy HF IH]; intros [|k]; simpl;
    try discriminate.
  - intro E; injection E as <-. exists x. tauto.
  - apply IH.
Qed.

Lemma representatives_spec (cG : DiGraph nat) (cp : list nat) :
  has_members cG -> (forall c, In c cp -> In c (node_list cG)) ->
  exists path, representatives cG cp = Ok path /\ Forall2 (represents cG) cp path.
Proof.
  intros Hm. induction cp as [|c cp IH]; intro Hnodes; simpl.
  - exists []. split; [reflexivity | constructor].
  - destruct (Hm c (Hnodes c (or_introl eq_refl))) as (ms & Hattr & Hne).
    assert (Hms : members_of cG c = Ok ms) by (unfold members_of; rewrite Hattr; reflexivity).
    destruct (first_sorted_spec Hne) as (m & Hfirst & Hin & Hleast).
    destruct IH as (path & Hpath & HF); [intros; apply Hnodes; right; assumption|].
    rewrite Hms. cbn [rbind]. rewrite Hfirst. cbn [rbind]. rewrite Hpath. cbn [rbind].
    exists (m :: path). split; [reflexivity|]. constructor; [|exact HF].
    exists ms. tauto.
Qed.

Section MainPathFacts.

Variable condensation : DiGraph string -> result (DiGraph nat).
Variable dag_longest_path : DiGraph nat -> result (list nat).

(** C4.  Whatever the directed graph (cycles included), when
    [nx.condensation] returns its condensation, with a non-empty set of
    members on every node, and [nx.dag_longest_path] returns a longest path
    of it, [compute_main_path] returns a list of the same length, which no
    path of the condensation exceeds; its [k]-th element is the
    lexicographically smallest member of the [k]-th component of that path;
    and consecutive elements are members of components joined by an edge of
    the condensation. *)
Theorem main_path_follows_condensation G cG cp :
  condensation G = Ok cG -> has_members cG ->
  dag_longest_path cG = Ok cp -> is_longest_path cG cp ->
  exists path,
    compute_main_path condensation dag_longest_path G = Ok path /\
    List.length path = List.length cp /\
    (forall q, is_path cG q -> (List.length q <= List.length path)%nat) /\
    (forall k x, nth_error path k = Some x ->
       exists c ms,
         nth_error cp k = Some c /\ members_of cG c = Ok ms /\ In x ms /\
         forall y, In y ms -> String.leb x y = true) /\
    (forall k x y,
       nth_error path k = Some x -> nth_error path (S k) = Some y ->
       exists c1 c2 ms1 ms2,
         In (c1, c2) (edge_list cG) /\
         members_of cG c1 = Ok ms1 /\ In x ms1 /\
         members_of cG c2 = Ok ms2 /\ In y ms2).
Proof.
  intros Hc Hm Hp [[Hnodes Hedges] Hlongest].
  destruct (@representatives_spec cG cp Hm Hnodes) as (path & Hpath & HF).
  exists path. unfold compute_main_path. rewrite Hc. cbn [rbind].
  rewrite Hp. cbn [rbind]. split; [exact Hpath|].
  pose proof (Forall2_length HF) as Hlen.
  split; [symmetry; exact Hlen|]. split; [|split].
  - intros q Hq. rewrite <- Hlen. apply Hlongest, Hq.
  - intros k x Hx.
    destruct (Forall2_nth_error_r k HF Hx) as (c & Hck & ms & Hms & Hin & Hleast).
    exists c, ms. tauto.
  - intros k x y Hx Hy.
    destruct (Forall2_nth_error_r k HF Hx) as (c1 & Hc1 & ms1 & Hms1 & Hin1 & _).
    destruct (Forall2_nth_error_r (S k) HF Hy) as (c2 & Hc2 & ms2 & Hms2 & Hin2 & _).
    exists c1, c2, ms1, ms2. split; [apply (Hedges k); assumption | tauto].
Qed.

End MainPathFacts.

(** The chain p1 -> p2 -> p3 -> p4 with the back edge p3 -> p2, its
    condensation (the cycle {p2, p3} is one node) and the longest path of
    the condensation. *)
Definition chain_graph : DiGraph string :=
  add_edge (add_edge (add_edge (add_edge empty_graph "p1" "p2") "p2" "p3")
                     "p3" "p2") "p3" "p4".

Definition chain_condensed : DiGraph nat :=
  mkDiGraph
    [ (0%nat, [("members", VMembers ["p4"])]);
      (1%nat, [("members", VMembers ["p3"; "p2"])]);
      (2%nat, [("members", VMembers ["p1"])]) ]
    [ (2%nat, 1%nat); (1%nat, 0%nat) ].

Definition chain_condensation (G : DiGraph string) : result (DiGraph nat) :=
  Ok chain_condensed.

Definition chain_longest_path (cG : DiGraph nat) : result (list nat) :=
  Ok [2%nat; 1%nat; 0%nat].

Example chain_main_path :
  compute_main_path chain_condensation chain_longest_path chain_graph
  = Ok ["p1"; "p2"; "p4"].
Proof. reflexivity. Qed.

Lemma chain_has_members : has_members chain_condensed.
Proof.
  intros c [<-|[<-|[<-|[]]]]; eexists; (split; [reflexivity | discriminate]).
Qed.

Lemma chain_longest : is_longest_path chain_condensed [2%nat; 1%nat; 0%nat].
Proof.
  split.
  - split.
    + intros c Hc. simpl in *. intuition.
    + intros [|[|[|k]]] c1 c2 H1 H2; simpl in *; try discriminate;
        injection H1 as <-; injection H2 as <-; intuition.
  - intros q [_ He].
    destruct q as [|a [|b [|c [|d q]]]]; simpl; try lia. exfalso.
    pose proof (He 0%nat a b eq_refl eq_refl) as H0.
    pose proof (He 1%nat b c eq_refl eq_refl) as H1.
    pose proof (He 2%nat c d eq_refl eq_refl) as H2.
    simpl in H0, H1, H2.
    destruct H0 as [E0|[E0|[]]]; destruct H1 as [E1|[E1|[]]];
      destruct H2 as [E2|[E2|[]]]; congruence.
Qed.

Lemma main_path_follows_condensation_witness :
  exists path,
    compute_main_path chain_condensation chain_longest_path chain_graph = Ok path /\
    List.length path = 3%nat.
Proof.
  destruct (@main_path_follows_condensation chain_condensation chain_longest_path
              chain_graph chain_condensed [2%nat; 1%nat; 0%nat]
              eq_refl chain_has_members eq_refl chain_longest)
    as (path & Hpath & Hlen & _).
  exists path. split; [exact Hpath | exact Hlen].
Defined.

(* ------------------------------------------------------------------ *)
(** * build_historiograph *)

(** Truth value of a string: the empty string is false. *)
Definition truthy (s : string) : bool := negb (eqb_of s "").

(** [extract_reference_titles]: of every reference, the third
    comma-separated part, or the first when there are fewer than three. *)
Definition extract_reference_titles (ref_string : option string) : list string :=
  match ref_string with
  | None => []
  | Some s =>
      map (fun ref =>
             let parts := map strip (split_on "," ref) in
             if (3 <=? List.length parts)%nat then nth 2 parts "" else nth 0 parts "")
          (reference_list s)
  end.

(** The label of a row that has a title: its short label, or the title
    when the short label is missing. *)
Definition label_of (d : Document) (ttl : string) : string :=
  match short_label d with
  | Some l => l
  | None => ttl
  end.

Definition weight_of (d : Document) : attr_value :=
  match cited_by d with
  | Some z => VInt z
  | None => VMissing
  end.

(** [{title.lower(): title for title in df[title_col].dropna().unique()}] *)
Definition title_map_of (docs : list Document) : dict string string :=
  fold_left (fun tm d =>
               match title d with
               | Some t => dict_set tm (lower t) t
               | None => tm
               end)
            docs [].

(** One turn of the first loop: rows with a title and a year get a label
    and a node. *)
Definition add_document (st : dict string string * DiGraph string) (d : Document)
  : dict string string * DiGraph string :=
  match title d, year d with
  | Some t, Some y =>
      let label := label_of d t in
      (dict_set (fst st) (lower t) label,
       add_node (snd st) label
                [("year", VInt y); ("title", VStr label); ("Cited by", weight_of d)])
  | _, _ => st
  end.

Section Historiograph.

(** [difflib.get_close_matches(word, possibilities, n=1, cutoff=cutoff)] *)
Variable get_close_matches : string -> list string -> Q -> list string.

(** [approximate_match] on a string. *)
Definition approximate_match (ref_title : string) (titles : list string) (cutoff : Q)
  : option string :=
  match get_close_matches (lower ref_title) titles cutoff with
  | [] => None
  | m :: _ => Some m
  end.

(** The body of the inner loop: the label of the document that the
    candidate title is matched to, when an edge is to be added. *)
Definition cited_label (title_map label_map : dict string string) (cutoff : Q)
           (citing_label ref_title : string) : result (option string) :=
  match approximate_match ref_title (dict_keys title_map) cutoff with
  | None => Ok None
  | Some match_key =>
      if truthy match_key then
        match dict_get title_map match_key with
        | None => Raise KeyError
        | Some matched_title =>
            match dict_get label_map (lower matched_title) with
            | Some cited =>
                if truthy cited && negb (eqb_of cited citing_label)
                then Ok (Some cited) else Ok None
            | None => Ok None
            end
        end
      else Ok None
  end.

Fixpoint link_cited (title_map label_map : dict string string) (cutoff : Q)
         (citing_label : string) (ref_titles : list string) (G : DiGraph string)
  : result (DiGraph string) :=
  match ref_titles with
  | [] => Ok G
  | ref_title :: rest =>
      rbind (cited_label title_map label_map cutoff citing_label ref_title)
            (fun found =>
               link_cited title_map label_map cutoff citing_label rest
                 (match found with
                  | Some cited => add_edge G cited citing_label
                  | None => G
                  end))
  end.

(** The label under which a row cites, if it does: a missing title has no
    [lower], an empty title or an unknown or empty label is skipped. *)
Definition citing_label_of (label_map : dict string string) (d : Document)
  : result (option string) :=
  match title d with
  | None => Raise AttributeError
  | Some t =>
      if truthy t then
        match dict_get label_map (lower t) with
        | Some l => if truthy l then Ok (Some l) else Ok None
        | None => Ok None
        end
      else Ok None
  end.

Fixpoint link_rows (title_map label_map : dict string string) (cutoff : Q)
         (rows : list Document) (G : DiGraph string) : result (DiGraph string) :=
  match rows with
  | [] => Ok G
  | d :: rest =>
      rbind (citing_label_of label_map d) (fun citing =>
      rbind (match citing with
             | None => Ok G
             | Some l =>
                 link_cited title_map label_map cutoff l
                            (extract_reference_titles (references d)) G
             end)
            (fun G' => link_rows title_map label_map cutoff rest G'))
  end.

(** [build_historiograph] with the default column names and no
    [save_path]. *)
Definition build_historiograph (docs : list Document) (cutoff : Q)
  : result (DiGraph string) :=
  let title_map := title_map_of docs in
  let labelled := fold_left add_document docs ([], empty_graph) in
  link_rows title_map (fst labelled) cutoff docs (snd labelled).

End Historiograph.

(** A matcher that finds a word only when it is one of the possibilities. *)
Definition exact_matches (word : string) (possibilities : list string) (cutoff : Q)
  : list string :=
  if mem word possibilities then [word] else [].

Definition dated_document (ttl : string) (y : Z) (refs : option string) : Document :=
  mkDocument ttl (Some ttl) (Some y) refs None None.

(** "alpha" (2001) cites "beta" (2000). *)
Definition alpha_cites_beta : list Document :=
  [ dated_document "alpha" 2001 (Some "beta");
    dated_document "beta" 2000 None ].

Example alpha_cites_beta_graph :
  build_historiograph exact_matches alpha_cites_beta (85 # 100)
  = Ok (mkDiGraph
          [ ("alpha", [("year", VInt 2001); ("title", VStr "alpha");
                       ("Cited by", VMissing)]);
            ("beta", [("year", VInt 2000); ("title", VStr "beta");
                      ("Cited by", VMissing)]) ]
          [ ("beta", "alpha") ]).
Proof. vm_compute. reflexivity. Qed.

(* ------------------------------------------------------------------ *)
(** * Nodes with attributes *)

Lemma dict_set_same_value (K V : Type) `{EqDec K} (d : dict K V) (k : K) (v : V) :
  dict_get d k = Some v -> dict_set d k v = d.
Proof.
  induction d as [|[k0 v0] d IH]; simpl; [discriminate|].
  destruct (eq_dec k k0) as [->|Hne].
  - intro E; injection E as ->. reflexivity.
  - intro E. rewrite IH by exact E. reflexivity.
Qed.

Lemma dict_get_app_absent (K V : Type) `{EqDec K} (d : dict K V) (k k' : K) (v : V) :
  dict_get d k = None ->
  dict_get (d ++ [(k, v)]) k' = if eq_dec k' k then Some v else dict_get d k'.
Proof.
  induction d as [|[k0 v0] d IH]; simpl.
  - reflexivity.
  - destruct (eq_dec k k0) as [->|Hne]; [discriminate|]. intro Hn.
    destruct (eq_dec k' k0) as [->|Hne'].
    + destruct (eq_dec k0 k); [congruence | reflexivity].
    + apply IH, Hn.
Qed.

Section AddNodeFacts.

Context {N : Type} `{EqDec N}.

(** Adding a node that is there, without attributes, changes nothing. *)
Lemma add_node_existing (G : DiGraph N) (n : N) :
  In n (node_list G) -> add_node G n [] = G.
Proof.
  intro Hn. unfold add_node.
  destruct (dict_get (node_attrs G) n) as [old|] eqn:E.
  - unfold update_attrs. simpl. rewrite dict_set_same_value by exact E.
    destruct G; reflexivity.
  - apply dict_get_None_keys in E. contradiction.
Qed.

Lemma add_edge_existing_attrs (G : DiGraph N) (u v : N) :
  In u (node_list G) -> In v (node_list G) ->
  node_attrs (add_edge G u v) = node_attrs G.
Proof.
  intros Hu Hv. unfold add_edge.
  rewrite (add_node_existing G u Hu), (add_node_existing G v Hv).
  destruct (has_edge G u v); reflexivity.
Qed.

Lemma add_node_attr_other (G : DiGraph N) (n n' : N) (a : attrs) (key : string) :
  n' <> n -> get_node_attr (add_node G n a) n' key = get_node_attr G n' key.
Proof.
  intro Hne. unfold add_node, get_node_attr.
  destruct (dict_get (node_attrs G) n) as [old|] eqn:E; cbn [node_attrs].
  - rewrite dict_get_set_other by exact Hne. reflexivity.
  - rewrite dict_get_app_absent by exact E.
    destruct (eq_dec n' n); [contradiction | reflexivity].
Qed.

(** The attributes of a node just added with a year, a title and a weight. *)
Lemma add_node_year (G : DiGraph N) (n : N) (y t w : attr_value) :
  get_node_attr (add_node G n [("year", y); ("title", t); ("Cited by", w)]) n "year"
  = Some y.
Proof.
  unfold add_node, get_node_attr.
  destruct (dict_get (node_attrs G) n) as [old|] eqn:E; cbn [node_attrs].
  - rewrite dict_get_set_same. unfold update_attrs. cbn [fold_left fst snd].
    rewrite !dict_get_set. unfold eq_dec, string_EqDec.
    destruct (string_dec "year" "Cited by"); [discriminate|].
    destruct (string_dec "year" "title"); [discriminate|].
    destruct (string_dec "year" "year"); [reflexivity | contradiction].
  - rewrite dict_get_app_absent by exact E.
    destruct (eq_dec n n); [|contradiction]. cbn.
    destruct (string_dec "year" "year"); [reflexivity | contradiction].
Qed.

End AddNodeFacts.

(* ------------------------------------------------------------------ *)
(** * The two loops of build_historiograph *)

Section HistoriographLoops.

Variable docs : list Document.

(** A node stands for a row with a title and a year, and holds that year. *)
Definition dated_node (G : DiGraph string) (n : string) : Prop :=
  exists y d t,
    get_node_attr G n "year" = Some (VInt y) /\
    In d docs /\ year d = Some y /\ title d = Some t /\ label_of d t = n.

(** What holds after any number of turns of the first loop. *)
Definition labelled_state (st : dict string string * DiGraph string) : Prop :=
  edge_list (snd st) = [] /\
  (forall k l, dict_get (fst st) k = Some l -> In l (node_list (snd st))) /\
  (forall n, In n (node_list (snd st)) -> dated_node (snd st) n).

Lemma add_document_labelled st d :
  In d docs -> labelled_state st -> labelled_state (add_document st d).
Proof.
  intros Hd (He & Hl & Hn). unfold add_document.
  destruct (title d) as [t|] eqn:Et; [|repeat split; assumption].
  destruct (year d) as [y|] eqn:Ey; [|repeat split; assumption].
  cbv zeta. unfold labelled_state. cbn [fst snd]. split; [|split].
  - rewrite add_node_edges. exact He.
  - intros k l Hget. apply add_node_nodes. rewrite dict_get_set in Hget.
    destruct (eq_dec k (lower t)).
    + injection Hget as <-. left. reflexivity.
    + right. eapply Hl, Hget.
  - intros n Hin. destruct (string_dec n (label_of d t)) as [->|Hne].
    + exists y, d, t. rewrite add_node_year. tauto.
    + apply add_node_nodes in Hin as [E|Hin]; [contradiction|].
      destruct (Hn n Hin) as (y' & d' & t' & Hy & Hrest).
      exists y', d', t'. rewrite add_node_attr_other by exact Hne. tauto.
Qed.

Lemma add_documents_labelled (rows : list Document) st :
  incl rows docs -> labelled_state st ->
  labelled_state (fold_left add_document rows st).
Proof.
  revert st. induction rows as [|d rows IH]; intros st Hincl Hst; simpl; [exact Hst|].
  apply IH.
  - intros x Hx. apply Hincl. right. exact Hx.
  - apply add_document_labelled; [apply Hincl; left; reflexivity | exact Hst].
Qed.

Variable get_close_matches : string -> list string -> Q -> list string.
Variable title_map label_map : dict string string.
Variable cutoff : Q.

Local Abbreviation the_cited_label :=
  (cited_label get_close_matches title_map label_map cutoff).

Lemma cited_label_known citing ref_title cited :
  the_cited_label citing ref_title = Ok (Some cited) ->
  cited <> citing /\ exists k, dict_get label_map k = Some cited.
Proof.
  unfold cited_label.
  destruct (approximate_match _ _ _ _) as [mk|]; [|discriminate].
  destruct (truthy mk); [|discriminate].
  destruct (dict_get title_map mk) as [mt|]; [|discriminate].
  destruct (dict_get label_map (lower mt)) as [c|] eqn:E; [|discriminate].
  destruct (truthy c); cbn [andb]; [|discriminate].
  destruct (negb (eqb_of c citing)) eqn:Hne; [|discriminate].
  intro H0; injection H0 as <-. split.
  - apply negb_true_iff, eqb_of_false in Hne. exact Hne.
  - exists (lower mt). exact E.
Qed.

(** The inner loop adds the edges cited -> citing of the candidates that
    are matched, and touches no node. *)
Lemma link_cited_spec citing (refs : list string) (G G' : DiGraph string) :
  (forall k l, dict_get label_map k = Some l -> In l (node_list G)) ->
  In citing (node_list G) ->
  link_cited get_close_matches title_map label_map cutoff citing refs G = Ok G' ->
  node_attrs G' = node_attrs G /\
  forall e, In e (edge_list G') <->
            In e (edge_list G) \/
            exists ref_title cited,
              In ref_title refs /\
              the_cited_label citing ref_title = Ok (Some cited) /\
              e = (cited, citing).
Proof.
  revert G. induction refs as [|rt refs IH]; intros G Hl Hc; simpl.
  - intro H0; injection H0 as <-. split; [reflexivity|].
    intro e. split; [tauto|]. intros [He|(r & c & [] & _)]. exact He.
  - destruct (the_cited_label citing rt) as [[cited|]|err] eqn:E; cbn [rbind];
      [| |discriminate].
    + destruct (cited_label_known _ _ E) as [_ (k & Hk)].
      assert (Hcited : In cited (node_list G)) by (eapply Hl, Hk).
      assert (Hattrs : node_attrs (add_edge G cited citing) = node_attrs G)
        by (apply add_edge_existing_attrs; assumption).
      intro Hrun. apply IH in Hrun.
      * destruct Hrun as [Ha Hedges]. split; [congruence|].
        intro e. rewrite Hedges, add_edge_edges. split.
        -- intros [[->|He]|(r & c & Hr & Hrc & ->)].
           ++ right. exists rt, cited. tauto.
           ++ tauto.
           ++ right. exists r, c. tauto.
        -- intros [He|(r & c & [<-|Hr] & Hrc & ->)].
           ++ tauto.
           ++ left. left. congruence.
           ++ right. exists r, c. tauto.
      * intros k' l' Hk'. unfold node_list. rewrite Hattrs. eapply Hl, Hk'.
      * unfold node_list. rewrite Hattrs. exact Hc.
    + intro Hrun. apply IH in Hrun; [|assumption|assumption].
      destruct Hrun as [Ha Hedges]. split; [exact Ha|].
      intro e. rewrite Hedges. split.
      * intros [He|(r & c & Hr & Hrc & ->)]; [tauto|]. right. exists r, c. tauto.
      * intros [He|(r & c & [<-|Hr] & Hrc & ->)]; [tauto|congruence|].
        right. exists r, c. tauto.
Qed.

End HistoriographLoops.

Section HistoriographFacts.

Variable get_close_matches : string -> list string -> Q -> list string.
Variable docs : list Document.
Variable cutoff : Q.

Definition the_title_map : dict string string := title_map_of docs.
Definition the_label_map : dict string string :=
  fst (fold_left add_document docs ([], empty_graph)).

(** The document labelled [citing] has a reference whose candidate title
    is matched to the document labelled [cited], another one. *)
Definition cites (citing cited : string) : Prop :=
  exists d ref_title,
    In d docs /\
    citing_label_of the_label_map d = Ok (Some citing) /\
    In ref_title (extract_reference_titles (references d)) /\
    cited_label get_close_matches the_title_map the_label_map cutoff citing ref_title
    = Ok (Some cited).

Lemma link_rows_edges (rows : list Document) (G G' : DiGraph string) :
  (forall k l, dict_get the_label_map k = Some l -> In l (node_list G)) ->
  link_rows get_close_matches the_title_map the_label_map cutoff rows G = Ok G' ->
  node_attrs G' = node_attrs G /\
  forall e, In e (edge_list G') <->
            In e (edge_list G) \/
            exists d citing ref_title cited,
              In d rows /\
              citing_label_of the_label_map d = Ok (Some citing) /\
              In ref_title (extract_reference_titles (references d)) /\
              cited_label get_close_matches the_title_map the_label_map cutoff
                          citing ref_title = Ok (Some cited) /\
              e = (cited, citing).
Proof.
  revert G. induction rows as [|d rows IH]; intros G Hl; simpl.
  - intro H0; injection H0 as <-. split; [reflexivity|].
    intro e. split; [tauto|]. intros [He|(d & c & r & x & [] & _)]. exact He.
  - destruct (citing_label_of the_label_map d) as [[citing|]|err] eqn:Ec;
      cbn [rbind]; [| |discriminate].
    + destruct (link_cited _ _ _ _ _ _ G) as [G1|err] eqn:E1; cbn [rbind];
        [|discriminate].
      assert (Hcit : In citing (node_list G)).
      { unfold citing_label_of in Ec. destruct (title d) as [t|]; [|discriminate].
        destruct (truthy t); [|discriminate].
        destruct (dict_get the_label_map (lower t)) as [l|] eqn:El; [|discriminate].
        destruct (truthy l); [|discriminate]. injection Ec as <-. eapply Hl, El. }
      destruct (@link_cited_spec _ _ _ _ _ _ G G1 Hl Hcit E1) as [Ha1 He1].
      intro Hrun. apply IH in Hrun.
      * destruct Hrun as [Ha He]. split; [congruence|].
        intro e. rewrite He, He1. split.
        -- intros [[H0|(r & c & Hr & Hrc & ->)]|(d' & c' & r' & x' & Hd' & Hrest)].
           ++ tauto.
           ++ right. exists d, citing, r, c. tauto.
           ++ right. exists d', c', r', x'. tauto.
        -- intros [H0|(d' & c' & r' & x' & [<-|Hd'] & Hc' & Hr' & Hx' & ->)].
           ++ tauto.
           ++ left. right. rewrite Ec in Hc'. injection Hc' as <-.
              exists r', x'. tauto.
           ++ right. exists d', c', r', x'. tauto.
      * intros k l Hk. unfold node_list. rewrite Ha1. eapply Hl, Hk.
    + intro Hrun. apply IH in Hrun; [|exact Hl].
      destruct Hrun as [Ha He]. split; [exact Ha|].
      intro e. rewrite He. split.
      * intros [H0|(d' & c' & r' & x' & Hd' & Hrest)]; [tauto|].
        right. exists d', c', r', x'. tauto.
      * intros [H0|(d' & c' & r' & x' & [<-|Hd'] & Hc' & Hrest)]; [tauto|congruence|].
        right. exists d', c', r', x'. tauto.
Qed.

(** C3, amended.  Every edge of the returned graph runs from the cited
    document's label to the citing document's label, and there is such an
    edge exactly for the pairs where a candidate title of the citing row is
    matched to another labelled document; every node of the returned graph
    stands for a row with a title and a year and carries that year in its
    attribute "year". *)
Theorem historiograph_edges_run_cited_to_citing (G : DiGraph string) :
  build_historiograph get_close_matches docs cutoff = Ok G ->
  (forall cited citing,
      In (cited, citing) (edge_list G) <-> cites citing cited) /\
  (forall cited citing, In (cited, citing) (edge_list G) -> cited <> citing) /\
  (forall n, In n (node_list G) ->
     exists y d t,
       get_node_attr G n "year" = Some (VInt y) /\
       In d docs /\ year d = Some y /\ title d = Some t /\ label_of d t = n).
Proof.
  unfold build_historiograph. cbv zeta.
  fold the_title_map. fold the_label_map. intro Hrun.
  assert (Hst : labelled_state docs (fold_left add_document docs ([], empty_graph))).
  { apply add_documents_labelled; [apply incl_refl|].
    repeat split; [intros k l Hk; discriminate | intros n []]. }
  destruct Hst as (He0 & Hl0 & Hn0).
  destruct (@link_rows_edges docs _ G Hl0 Hrun) as [Ha He].
  assert (Hedge : forall cited citing,
            In (cited, citing) (edge_list G) <-> cites citing cited).
  { intros cited citing. rewrite He, He0. unfold cites. split.
    - intros [[]|(d & c & r & x & Hd & Hc & Hr & Hx & E)]. injection E as -> ->.
      exists d, r. tauto.
    - intros (d & r & Hd & Hc & Hr & Hx). right. exists d, citing, r, cited. tauto. }
  split; [exact Hedge|]. split.
  - intros cited citing Hin. apply Hedge in Hin as (d & r & _ & _ & _ & Hx).
    apply cited_label_known in Hx. tauto.
  - intros n Hn. unfold node_list in Hn. rewrite Ha in Hn.
    destruct (Hn0 n Hn) as (y & d & t & Hy & Hrest).
    exists y, d, t. split; [|exact Hrest].
    unfold get_node_attr in *. rewrite Ha. exact Hy.
Qed.

End HistoriographFacts.

(** C3 as stated fails.  "alpha" cites "beta": the one edge of the graph
    runs from "beta" (cited) to "alpha" (citing), and there is no edge from
    the citing document to the cited one. *)
Lemma historiograph_edge_is_not_citing_to_cited :
  exists G,
    build_historiograph exact_matches alpha_cites_beta (85 # 100) = Ok G /\
    cites exact_matches alpha_cites_beta (85 # 100) "alpha" "beta" /\
    has_edge G "alpha" "beta" = false /\
    has_edge G "beta" "alpha" = true.
Proof.
  eexists. split; [exact alpha_cites_beta_graph|]. split; [|split; reflexivity].
  exists (dated_document "alpha" 2001 (Some "beta")), "beta".
  split; [left; reflexivity|]. split; [reflexivity|].
  split; [left; reflexivity | reflexivity].
Qed.

Lemma historiograph_edges_witness :
  build_historiograph exact_matches alpha_cites_beta (85 # 100)
  = Ok (mkDiGraph
          [ ("alpha", [("year", VInt 2001); ("title", VStr "alpha");
                       ("Cited by", VMissing)]);
            ("beta", [("year", VInt 2000); ("title", VStr "beta");
                      ("Cited by", VMissing)]) ]
          [ ("beta", "alpha") ]) /\
  cites exact_matches alpha_cites_beta (85 # 100) "alpha" "beta".
Proof.
  split; [exact alpha_cites_beta_graph|].
  apply (proj1 (@historiograph_edges_run_cited_to_citing exact_matches
                  alpha_cites_beta (85 # 100) _ alpha_cites_beta_graph)).
  left. reflexivity.
Defined.

(* ------------------------------------------------------------------ *)
(** * select_documents *)

(** [s.count(sub)]: occurrences that do not overlap, from the left. *)
Fixpoint count_scan (sub : list ascii) (skip : nat) (l : list ascii) : nat :=
  match l with
  | [] => 0
  | c :: rest =>
      match skip with
      | S k => count_scan sub k rest
      | O =>
          if starts_with sub l
          then S (count_scan sub (List.length sub - 1) rest)
          else count_scan sub 0 rest
      end
  end.

Definition count_substring (sub s : string) : nat :=
  match chars sub with
  | [] => S (List.length (chars s))
  | _ => count_scan (chars sub) 0 (chars s)
  end.

(** [sub in s] *)
Definition contains (sub s : string) : bool := (0 <? count_substring sub s)%nat.

(** [list(set(items_of_interest) - set(exclude_items))].  Python leaves the
    order of a set unspecified; the model keeps the order of first
    occurrence. *)
Definition select_items (items_of_interest exclude_items : list string) : list string :=
  dedup (filter (fun item => negb (mem item exclude_items)) items_of_interest).

(** The parts of a list-valued cell: [[v.strip() for v in val.split(separator)]]. *)
Definition cell_parts (separator val : string) : result (list string) :=
  rbind (split separator val) (fun raw => Ok (map strip raw)).

(** The items matched by one cell, in the order of [items]. *)
Definition matched_items (value_type separator : string) (items : list string)
           (val : string) : result (list string) :=
  if eqb_of value_type "string" then
    Ok (if mem val items then [val] else [])
  else if eqb_of value_type "list" then
    rbind (cell_parts separator val) (fun parts =>
      Ok (filter (fun item => mem item parts) items))
  else if eqb_of value_type "text" then
    Ok (filter (fun item => contains (lower item) (lower val)) items)
  else Ok [].

(** One pass of the matching loop over the column: every matched item gets
    the row index appended. *)
Fixpoint match_rows (value_type separator : string) (items : list string)
         (rows : list (nat * option string)) (match_indices : dict string (list nat))
  : result (dict string (list nat)) :=
  match rows with
  | [] => Ok match_indices
  | (_, None) :: rest => match_rows value_type separator items rest match_indices
  | (idx, Some val) :: rest =>
      rbind (matched_items value_type separator items val) (fun found =>
        match_rows value_type separator items rest
          (fold_left
             (fun mi item =>
                match dict_get mi item with
                | Some l => dict_set mi item (l ++ [idx])
                | None => mi
                end)
             found match_indices))
  end.

Definition indexed {A : Type} (l : list A) : list (nat * A) :=
  combine (seq 0 (List.length l)) l.

(** [indicator_frac.at[idx, p] += delta] on the row of document [idx]. *)
Fixpoint add_at (items : list string) (p : string) (row : list npfloat)
         (delta : npfloat) : list npfloat :=
  match items, row with
  | item :: items', v :: row' =>
      (if string_dec item p then np_add v delta else v) :: add_at items' p row' delta
  | _, _ => row
  end.

(** The fractional row of a cell with the given parts. *)
Definition fractional_row (items parts : list string) : list npfloat :=
  let total := List.length parts in
  fold_left
    (fun row p => if mem p items then add_at items p row (Fin (1 / INR total)) else row)
    parts (map (fun _ => Fin 0) items).

Fixpoint fractional_rows (separator : string) (items : list string)
         (col : list (option string)) : result matrix :=
  match col with
  | [] => Ok []
  | None :: rest =>
      rbind (fractional_rows separator items rest)
            (fun rows => Ok (map (fun _ => Fin 0) items :: rows))
  | Some val :: rest =>
      rbind (cell_parts separator val) (fun parts =>
      rbind (fractional_rows separator items rest)
            (fun rows => Ok (fractional_row items parts :: rows)))
  end.

(** The binary row of document [idx]: [df.index.isin(match_indices[item])]. *)
Definition binary_row (items : list string) (match_indices : dict string (list nat))
           (idx : nat) : list npfloat :=
  map (fun item =>
         match dict_get match_indices item with
         | Some l => if mem idx l then Fin 1 else Fin 0
         | None => Fin 0
         end) items.

Definition count_rows (items : list string) (col : list (option string)) : matrix :=
  map (fun cell =>
         match cell with
         | None => map (fun _ => Fin 0) items
         | Some val =>
             map (fun item => np_of_nat (count_substring (lower item) (lower val))) items
         end) col.

Section SelectDocuments.

(** The re-weighting of the count frame named by [text_norm] ("tfidf",
    "df-icf" or "mtf-idf"). *)
Variable text_weighting : string -> DataFrame -> result DataFrame.

(** [select_documents] on one column.  [top_items] stands for the items
    selected from [top_items_df] when no items of interest are given
    ([None]: no such frame). *)
Definition select_documents
           (col : list (option string))
           (items_of_interest exclude_items : list string)
           (top_items : option (list string))
           (indicators missing_as_zero : bool)
           (separator value_type : string) (text_norm : option string)
  : result (dict string (list nat) * dict string DataFrame) :=
  if negb (mem value_type ["string"; "list"; "text"]) then Raise ValueError else
  if negb (match text_norm with
           | Some t => mem t ["tfidf"; "df-icf"; "mtf-idf"]
           | None => true
           end) then Raise ValueError else
  rbind (match items_of_interest with
         | [] => match top_items with
                 | None => Raise ValueError
                 | Some selected => Ok selected
                 end
         | _ :: _ => Ok items_of_interest
         end) (fun items0 =>
  let items := select_items items0 exclude_items in
  let rows := indexed col in
  rbind (match_rows value_type separator items rows
                    (map (fun item => (item, [])) items)) (fun first_pass =>
  rbind (match_rows value_type separator items rows first_pass) (fun match_indices =>
  if negb indicators then Ok (match_indices, []) else
  let binary := mkDataFrame items
                  (map (fun row => binary_row items match_indices (fst row)) rows) in
  let d1 := dict_set [] "binary" binary in
  rbind (if eqb_of value_type "list" then
           rbind (fractional_rows separator items col) (fun frac =>
             Ok (dict_set d1 "fractional" (mkDataFrame items frac)))
         else Ok d1) (fun d2 =>
  rbind (if eqb_of value_type "text" then
           let count_df := mkDataFrame items (count_rows items col) in
           let d3 := dict_set d2 "count" count_df in
           match text_norm with
           | Some t => rbind (text_weighting t count_df)
                             (fun w => Ok (dict_set d3 t w))
           | None => Ok d3
           end
         else Ok d2) (fun d4 =>
  Ok (match_indices, d4)))))).

End SelectDocuments.

Definition no_weighting (name : string) (df : DataFrame) : result DataFrame := Ok df.

(** One document with the keywords A and X, of which only A is of interest. *)
Example half_row :
  exists mi ind frac,
    select_documents no_weighting [Some "A; X"] ["A"] [] None true false "; " "list"
                     (Some "tfidf") = Ok (mi, ind) /\
    mi = [("A", [0%nat; 0%nat])] /\
    dict_get ind "fractional" = Some frac /\
    values frac = [ [Fin (0 + 1 / INR 2)] ].
Proof. do 3 eexists. repeat split; reflexivity. Qed.

(** ** Row sums of the fractional indicator *)

(** The sum of the finite entries of a row, as a real number. *)
Fixpoint row_total (row : list npfloat) : R :=
  match row with
  | [] => 0
  | Fin x :: rest => x + row_total rest
  | _ :: rest => row_total rest
  end.

Lemma np_sum_from (row : list npfloat) :
  Forall finite row ->
  forall a : R, fold_left np_add row (Fin a) = Fin (a + row_total row).
Proof.
  induction 1 as [|v row [x ->] Hrow IH]; intro a; simpl.
  - f_equal. lra.
  - rewrite IH. f_equal. lra.
Qed.

Lemma np_sum_row_total (row : list npfloat) :
  Forall finite row -> np_sum row = Fin (row_total row).
Proof.
  intro Hrow. unfold np_sum. rewrite (np_sum_from Hrow). f_equal. lra.
Qed.

Lemma zero_row (A : Type) (items : list A) :
  Forall finite (map (fun _ => Fin 0) items) /\
  List.length (map (fun _ : A => Fin 0) items) = List.length items /\
  row_total (map (fun _ => Fin 0) items) = 0.
Proof.
  induction items as [|item items (Hf & Hl & Ht)]; simpl.
  - repeat split. constructor.
  - split; [|split].
    + constructor; [exists 0; reflexivity | exact Hf].
    + now rewrite Hl.
    + rewrite Ht. lra.
Qed.

Lemma add_at_absent (items : list string) (p : string) (row : list npfloat)
      (delta : npfloat) :
  ~ In p items -> add_at items p row delta = row.
Proof.
  revert row. induction items as [|item items IH]; intros row Hp; simpl.
  - reflexivity.
  - destruct row as [|v row]; [reflexivity|].
    destruct (string_dec item p) as [->|_].
    + exfalso. apply Hp. now left.
    + rewrite IH; [reflexivity|]. intro Hin. apply Hp. now right.
Qed.

(** Adding at the column of [p] raises the row sum by the amount added. *)
Lemma add_at_total (items : list string) (p : string) (d : R) :
  NoDup items -> In p items ->
  forall row : list npfloat,
    Forall finite row -> List.length row = List.length items ->
    Forall finite (add_at items p row (Fin d)) /\
    List.length (add_at items p row (Fin d)) = List.length items /\
    row_total (add_at items p row (Fin d)) = row_total row + d.
Proof.
  induction 1 as [|item items Hnot Hnd IH]; intros Hin row Hrow Hlen.
  - destruct Hin.
  - destruct row as [|v row]; [discriminate Hlen|].
    inversion Hrow as [|v' row' [x ->] Hrest]; subst.
    simpl in Hlen. injection Hlen as Hlen. simpl.
    destruct (string_dec item p) as [->|Hne].
    + rewrite add_at_absent by exact Hnot. cbn [np_add row_total].
      split; [|split].
      * constructor; [eexists; reflexivity | exact Hrest].
      * simpl. now rewrite Hlen.
      * lra.
    + destruct Hin as [Heq|Hin]; [contradiction|].
      destruct (IH Hin row Hrest Hlen) as (Hf & Hl & Ht).
      split; [|split].
      * constructor; [eexists; reflexivity | exact Hf].
      * simpl. now rewrite Hl.
      * cbn [row_total]. rewrite Ht. lra.
Qed.

(** The number of parts of a cell that are items of interest. *)
Definition matched_parts (items parts : list string) : nat :=
  List.length (filter (fun p => mem p items) parts).

Lemma fractional_fold (items : list string) (d : R) :
  NoDup items ->
  forall (parts : list string) (row : list npfloat),
    Forall finite row -> List.length row = List.length items ->
    let r := fold_left
               (fun row p => if mem p items then add_at items p row (Fin d) else row)
               parts row in
    Forall finite r /\ List.length r = List.length items /\
    row_total r = row_total row + INR (matched_parts items parts) * d.
Proof.
  intros Hnd parts. unfold matched_parts.
  induction parts as [|p parts IH]; intros row Hrow Hlen; cbn zeta.
  - simpl. repeat split; [exact Hrow | exact Hlen | lra].
  - cbn [fold_left filter]. destruct (mem p items) eqn:Hp.
    + apply mem_In in Hp.
      destruct (@add_at_total items p d Hnd Hp row Hrow Hlen) as (Hf & Hl & Ht).
      destruct (IH _ Hf Hl) as (Hf' & Hl' & Ht').
      split; [exact Hf' | split; [exact Hl'|]].
      rewrite Ht', Ht. cbn [List.length]. rewrite S_INR. lra.
    + apply IH; assumption.
Qed.

Lemma fractional_row_total (items parts : list string) :
  NoDup items ->
  List.length (fractional_row items parts) = List.length items /\
  np_sum (fractional_row items parts)
  = Fin (INR (matched_parts items parts) * (1 / INR (List.length parts))).
Proof.
  intro Hnd. unfold fractional_row.
  destruct (zero_row items) as (Hf & Hl & Ht).
  destruct (@fractional_fold items (1 / INR (List.length parts)) Hnd parts _ Hf Hl)
    as (Hf' & Hl' & Ht').
  split; [exact Hl'|].
  rewrite (np_sum_row_total Hf'), Ht', Ht. f_equal. lra.
Qed.

Lemma matched_parts_all (items parts : list string) :
  Forall (fun p => In p items) parts ->
  matched_parts items parts = List.length parts.
Proof.
  unfold matched_parts. induction 1 as [|p parts Hp Hps IH]; simpl.
  - reflexivity.
  - apply (proj2 (mem_In p items)) in Hp. rewrite Hp. simpl. now rewrite IH.
Qed.

Lemma matched_parts_none (items parts : list string) :
  Forall (fun p => ~ In p items) parts ->
  matched_parts items parts = 0%nat.
Proof.
  unfold matched_parts. induction 1 as [|p parts Hp Hps IH]; simpl.
  - reflexivity.
  - destruct (mem p items) eqn:E; [apply mem_In in E; contradiction | exact IH].
Qed.

Lemma split_scan_nonempty (sep : list ascii) (l : list ascii) :
  forall (skip : nat) (cur : list ascii), split_scan sep skip cur l <> [].
Proof.
  induction l as [|c l IH]; intros skip cur; simpl.
  - discriminate.
  - destruct skip as [|k]; [|apply IH].
    destruct (starts_with sep (c :: l)); [discriminate | apply IH].
Qed.

(** [str.split] never returns the empty list. *)
Lemma cell_parts_nonempty (separator val : string) (parts : list string) :
  cell_parts separator val = Ok parts -> parts <> [].
Proof.
  unfold cell_parts, split. destruct (chars separator) as [|c sep]; [discriminate|].
  simpl. intros [= <-] E.
  apply map_eq_nil in E. apply map_eq_nil in E.
  exact (split_scan_nonempty _ _ _ _ E).
Qed.

Lemma dedup_NoDup (A : Type) `{EqDec A} (l : list A) : NoDup (dedup l).
Proof.
  induction l as [|x l IH]; simpl; constructor.
  - intro Hin. apply filter_In in Hin. destruct Hin as [_ Hx].
    unfold eqb_of in Hx. destruct (eq_dec x x); [discriminate | contradiction].
  - apply NoDup_filter. exact IH.
Qed.

Lemma select_items_NoDup (items_of_interest exclude_items : list string) :
  NoDup (select_items items_of_interest exclude_items).
Proof. apply dedup_NoDup. Qed.

(** The rows of the fractional frame, document by document. *)
Lemma fractional_rows_spec (separator : string) (items : list string) :
  forall (col : list (option string)) (rows : matrix),
    fractional_rows separator items col = Ok rows ->
    List.length rows = List.length col /\
    forall (i : nat) (cell : option string),
      nth_error col i = Some cell ->
      exists row, nth_error rows i = Some row /\
        match cell with
        | None => row = map (fun _ => Fin 0) items
        | Some val =>
            exists parts, cell_parts separator val = Ok parts /\
                          row = fractional_row items parts
        end.
Proof.
  induction col as [|cell col IH]; intros rows Hrows; simpl in Hrows.
  - injection Hrows as <-. split; [reflexivity|].
    intros [|i] c Hc; discriminate Hc.
  - destruct cell as [val|].
    + destruct (cell_parts separator val) as [parts|e] eqn:Hparts; [|discriminate].
      simpl in Hrows.
      destruct (fractional_rows separator items col) as [rest|e] eqn:Hrest;
        [|discriminate].
      simpl in Hrows. injection Hrows as <-.
      destruct (IH rest eq_refl) as [Hlen Hnth].
      split; [simpl; now rewrite Hlen|].
      intros [|i] c Hc; simpl in Hc.
      * injection Hc as <-. eexists. split; [reflexivity|].
        exists parts. split; [exact Hparts | reflexivity].
      * simpl. exact (Hnth i c Hc).
    + destruct (fractional_rows separator items col) as [rest|e] eqn:Hrest;
        [|discriminate].
      simpl in Hrows. injection Hrows as <-.
      destruct (IH rest eq_refl) as [Hlen Hnth].
      split; [simpl; now rewrite Hlen|].
      intros [|i] c Hc; simpl in Hc.
      * injection Hc as <-. eexists. split; reflexivity.
      * simpl. exact (Hnth i c Hc).
Qed.

Section SelectDocumentsFacts.

Variable text_weighting : string -> DataFrame -> result DataFrame.

(** On a list-type column with indicators requested, a call that returns
    has stored the fractional frame over the selected items. *)
Lemma select_documents_fractional
      (col : list (option string)) (items_of_interest exclude_items : list string)
      (top_items : option (list string)) (missing_as_zero : bool)
      (separator : string) (text_norm : option string)
      (match_indices : dict string (list nat)) (ind : dict string DataFrame) :
  select_documents text_weighting col items_of_interest exclude_items top_items
                   true missing_as_zero separator "list" text_norm
  = Ok (match_indices, ind) ->
  exists (items : list string) (rows : matrix),
    NoDup items /\
    fractional_rows separator items col = Ok rows /\
    dict_get ind "fractional" = Some (mkDataFrame items rows).
Proof.
  unfold select_documents.
  change (negb (mem "list" ["string"; "list"; "text"])) with false. cbv iota.
  destruct (negb match text_norm with
                 | Some t => mem t ["tfidf"; "df-icf"; "mtf-idf"]
                 | None => true
                 end); [discriminate|].
  match goal with
  | |- rbind ?m _ = _ -> _ => destruct m as [items0|e]; [|discriminate]
  end.
  cbn [rbind]. cbv zeta.
  set (items := select_items items0 exclude_items).
  match goal with
  | |- rbind ?m _ = _ -> _ => destruct m as [first_pass|e]; [|discriminate]
  end.
  cbn [rbind].
  match goal with
  | |- rbind ?m _ = _ -> _ => destruct m as [mi|e]; [|discriminate]
  end.
  cbn [rbind negb].
  change (eqb_of "list" "list") with true.
  change (eqb_of "list" "text") with false. cbv iota.
  destruct (fractional_rows separator items col) as [rows|e] eqn:Hrows;
    [|discriminate].
  cbn [rbind]. intros [= _ <-].
  exists items, rows. split; [apply select_items_NoDup|].
  split; [exact Hrows | reflexivity].
Qed.

(** C2 (amended): on a list-type column, the row of a document in the
    fractional indicator sums to the share of the document's parts that are
    items of interest: matched parts over all parts.  It is 1 when every
    part of the document is an item of interest, and 0 when none is or the
    value is missing; a document with k parts contributes 1/k per matched
    part. *)
Theorem fractional_row_sums
        (col : list (option string)) (items_of_interest exclude_items : list string)
        (top_items : option (list string)) (missing_as_zero : bool)
        (separator : string) (text_norm : option string)
        (match_indices : dict string (list nat)) (ind : dict string DataFrame) :
  select_documents text_weighting col items_of_interest exclude_items top_items
                   true missing_as_zero separator "list" text_norm
  = Ok (match_indices, ind) ->
  exists frac : DataFrame,
    dict_get ind "fractional" = Some frac /\
    List.length (values frac) = List.length col /\
    forall (i : nat) (cell : option string),
      nth_error col i = Some cell ->
      exists row : list npfloat,
        nth_error (values frac) i = Some row /\
        List.length row = List.length (columns frac) /\
        match cell with
        | None => np_sum row = Fin 0
        | Some val =>
            exists parts : list string,
              cell_parts separator val = Ok parts /\
              np_sum row
              = Fin (INR (matched_parts (columns frac) parts)
                     * (1 / INR (List.length parts))) /\
              (Forall (fun p => In p (columns frac)) parts -> np_sum row = Fin 1) /\
              (Forall (fun p => ~ In p (columns frac)) parts -> np_sum row = Fin 0)
        end.
Proof.
  intro Hrun.
  destruct (select_documents_fractional _ _ _ _ _ _ _ Hrun)
    as (items & rows & Hnd & Hrows & Hget).
  exists (mkDataFrame items rows). split; [exact Hget|].
  destruct (fractional_rows_spec _ _ _ Hrows) as [Hlen Hnth].
  split; [exact Hlen|].
  intros i cell Hcell. destruct (Hnth i cell Hcell) as (row & Hrow & Hshape).
  exists row. split; [exact Hrow|]. cbn [columns].
  destruct cell as [val|].
  - destruct Hshape as (parts & Hparts & ->).
    destruct (fractional_row_total parts Hnd) as [Hl Hsum].
    split; [exact Hl|].
    exists parts. split; [exact Hparts|]. split; [exact Hsum|].
    assert (Hpos : INR (List.length parts) <> 0).
    { apply not_0_INR. intro E. apply length_zero_iff_nil in E.
      exact (cell_parts_nonempty _ _ Hparts E). }
    split; intro Hall; rewrite Hsum; f_equal.
    + rewrite (@matched_parts_all items parts Hall). field. exact Hpos.
    + rewrite (@matched_parts_none items parts Hall). simpl. lra.
  - subst row. destruct (zero_row items) as (Hf & Hl & Ht).
    split; [exact Hl|]. rewrite (np_sum_row_total Hf), Ht. reflexivity.
Qed.

End SelectDocumentsFacts.

(** A document with the keywords A and X, of which only A is selected: the
    document has a matched item and its fractional row sums to 1/2, not 1. *)
Lemma matched_document_row_sum_is_half :
  exists (match_indices : dict string (list nat)) (ind : dict string DataFrame)
         (frac : DataFrame) (row : list npfloat),
    select_documents no_weighting [Some "A; X"] ["A"] [] None true false "; " "list"
                     (Some "tfidf") = Ok (match_indices, ind) /\
    dict_get match_indices "A" = Some [0%nat; 0%nat] /\
    dict_get ind "fractional" = Some frac /\
    nth_error (values frac) 0 = Some row /\
    np_sum row = Fin (1 / 2) /\
    np_sum row <> Fin 1.
Proof.
  do 4 eexists.
  split; [reflexivity|]. split; [reflexivity|]. split; [reflexivity|].
  split; [reflexivity|].
  split; unfold np_sum; simpl.
  - f_equal. lra.
  - intros [= H]. lra.
Qed.

(** doc1 = {A, B} with both items selected: 0.5 for each item, row sum 1;
    a document with a missing value gets a row of zeros. *)
Lemma fractional_row_sums_witness :
  select_documents no_weighting [Some "A; B"; None] ["A"; "B"] [] None true false
                   "; " "list" (Some "tfidf")
  = Ok ([("A", [0%nat; 0%nat]); ("B", [0%nat; 0%nat])],
        [("binary", mkDataFrame ["A"; "B"] [[Fin 1; Fin 1]; [Fin 0; Fin 0]]);
         ("fractional",
          mkDataFrame ["A"; "B"]
                      [[Fin (0 + 1 / INR 2); Fin (0 + 1 / INR 2)]; [Fin 0; Fin 0]])]) /\
  exists frac : DataFrame,
    dict_get [("binary", mkDataFrame ["A"; "B"] [[Fin 1; Fin 1]; [Fin 0; Fin 0]]);
              ("fractional",
               mkDataFrame ["A"; "B"]
                 [[Fin (0 + 1 / INR 2); Fin (0 + 1 / INR 2)]; [Fin 0; Fin 0]])]
             "fractional" = Some frac /\
    List.length (values frac) = 2%nat /\
    forall (i : nat) (cell : option string),
      nth_error [Some "A; B"; None] i = Some cell ->
      exists row : list npfloat,
        nth_error (values frac) i = Some row /\
        List.length row = List.length (columns frac) /\
        match cell with
        | None => np_sum row = Fin 0
        | Some val =>
            exists parts : list string,
              cell_parts "; " val = Ok parts /\
              np_sum row
              = Fin (INR (matched_parts (columns frac) parts)
                     * (1 / INR (List.length parts))) /\
              (Forall (fun p => In p (columns frac)) parts -> np_sum row = Fin 1) /\
              (Forall (fun p => ~ In p (columns frac)) parts -> np_sum row = Fin 0)
        end.
Proof.
  split; [reflexivity|].
  apply (@fractional_row_sums no_weighting [Some "A; B"; None] ["A"; "B"] [] None
           false "; " (Some "tfidf")
           [("A", [0%nat; 0%nat]); ("B", [0%nat; 0%nat])]).
  reflexivity.
Defined.

(* ------------------------------------------------------------------ *)
(** * Citation indices *)

(** Citation counts are integers.  [sorted(citations, reverse=True)] and
    [sorted(citations)]: insertion keeps equal counts in their order, which
    is Python's stable sort. *)
Fixpoint insert_desc (x : Z) (l : list Z) : list Z :=
  match l with
  | [] => [x]
  | y :: rest => if (y <? x)%Z then x :: l else y :: insert_desc x rest
  end.

Definition sorted_desc (l : list Z) : list Z := fold_right insert_desc [] l.

Fixpoint insert_asc (x : Z) (l : list Z) : list Z :=
  match l with
  | [] => [x]
  | y :: rest => if (x <? y)%Z then x :: l else y :: insert_asc x rest
  end.

Definition sorted_asc (l : list Z) : list Z := fold_right insert_asc [] l.

(** [enumerate(l)] *)
Fixpoint enumerate_from {A : Type} (i : nat) (l : list A) : list (nat * A) :=
  match l with
  | [] => []
  | x :: rest => (i, x) :: enumerate_from (S i) rest
  end.

Definition enumerate {A : Type} (l : list A) : list (nat * A) := enumerate_from 0 l.

(** [sum(p(x) for x in l)] for a boolean [p]. *)
Definition count_if {A : Type} (p : A -> bool) (l : list A) : nat :=
  List.length (filter p l).

(** [sum(l)] on integers. *)
Definition zsum (l : list Z) : Z := fold_left Z.add l 0%Z.

(** [np.cumsum] *)
Fixpoint cumsum_from (acc : Z) (l : list Z) : list Z :=
  match l with
  | [] => []
  | x :: rest => (acc + x)%Z :: cumsum_from (acc + x)%Z rest
  end.

Definition cumsum (l : list Z) : list Z := cumsum_from 0%Z l.

Definition h_index (citations : list Z) (alpha : Z) : nat :=
  count_if (fun ic => (alpha * (Z.of_nat (fst ic) + 1) <=? snd ic)%Z)
           (enumerate (sorted_desc citations)).

Definition g_index (citations : list Z) : nat :=
  let citations := sorted_desc citations in
  let cumulative := cumsum citations in
  let thresholds := map (fun k => (Z.of_nat k ^ 2)%Z) (seq 1 (List.length citations)) in
  let differences := map (fun ct => (fst ct - snd ct)%Z) (combine cumulative thresholds) in
  let failing := map fst (filter (fun ix => (snd ix <? 0)%Z) (enumerate differences)) in
  match failing with
  | i :: _ => i
  | [] => List.length citations
  end.

Definition hg_index (citations : list Z) : npfloat :=
  np_sqrt (Fin (IZR (Z.of_nat (h_index citations 1 * g_index citations)))).

(** [np.mean] of integers: nan on the empty list. *)
Definition np_mean (l : list Z) : npfloat :=
  match l with
  | [] => NaN
  | _ => Fin (IZR (zsum l) / INR (List.length l))
  end.

Definition chi_index (citations : list Z) : npfloat :=
  let citations := sorted_desc citations in
  match map (fun ic => ((Z.of_nat (fst ic) + 1) * snd ic)%Z) (enumerate citations) with
  | [] => NaN
  | p :: products => np_sqrt (Fin (IZR (fold_left Z.max products p)))
  end.

Definition a_index (citations : list Z) : npfloat :=
  let h := h_index citations 1 in
  if (0 <? h)%nat then np_mean (firstn h (sorted_desc citations)) else Fin 0.

Definition r_index (citations : list Z) : npfloat :=
  let h := h_index citations 1 in
  if (0 <? h)%nat then np_sqrt (Fin (IZR (zsum (firstn h (sorted_desc citations)))))
  else Fin 0.

Definition h2_index (citations : list Z) : nat :=
  let citations := sorted_desc citations in
  count_if (fun ic => ((Z.of_nat (fst ic) + 1) ^ 2 <=? snd ic)%Z) (enumerate citations).

Definition w_index (citations : list Z) : nat :=
  let citations := sorted_desc citations in
  count_if (fun ic => (10 * (Z.of_nat (fst ic) + 1) <=? snd ic)%Z) (enumerate citations).

(** [top_k = int(np.sqrt(n))] is the integer square root for every list
    length a machine holds. *)
Definition pi_index (citations : list Z) : Z :=
  let n := List.length citations in
  let top_k := Nat.sqrt n in
  zsum (firstn top_k (sorted_desc citations)).

Definition gini_index (citations : list Z) : npfloat :=
  let citations := sorted_asc citations in
  let n := List.length citations in
  if (n =? 0)%nat then Fin 0 else
  let cum_cit := cumsum citations in
  let total := last cum_cit 0%Z in
  if (0 <? total)%Z
  then Fin ((INR n + 1 - 2 * IZR (zsum cum_cit) / IZR total) / INR n)
  else Fin 0.

Example indices_of_sample :
  h_index [10; 8; 5; 4; 3]%Z 1 = 4%nat /\
  g_index [10; 8; 5; 4; 3]%Z = 5%nat /\
  h2_index [10; 8; 5; 4; 3]%Z = 2%nat /\
  w_index [10; 8; 5; 4; 3]%Z = 1%nat /\
  pi_index [3; 10; 4; 8; 5]%Z = 18%Z /\
  h_index [3; 10; 4; 8; 5]%Z 1 = 4%nat /\
  g_index [] = 0%nat /\
  g_index [1; 1; 1]%Z = 1%nat.
Proof. repeat split; reflexivity. Qed.

(** ** Sorting *)

Lemma insert_desc_perm (x : Z) (l : list Z) : Permutation (insert_desc x l) (x :: l).
Proof.
  induction l as [|y l IH]; simpl.
  - apply Permutation_refl.
  - destruct (y <? x)%Z.
    + apply Permutation_refl.
    + eapply perm_trans; [apply perm_skip, IH | apply perm_swap].
Qed.

Lemma sorted_desc_perm (l : list Z) : Permutation (sorted_desc l) l.
Proof.
  induction l as [|x l IH]; simpl.
  - apply perm_nil.
  - eapply perm_trans; [apply insert_desc_perm | apply perm_skip, IH].
Qed.

Lemma insert_desc_sorted (x : Z) (l : list Z) :
  StronglySorted Z.ge l -> StronglySorted Z.ge (insert_desc x l).
Proof.
  induction 1 as [|y l Hl IH Hy]; simpl.
  - constructor; constructor.
  - destruct (y <? x)%Z eqn:E.
    + apply Z.ltb_lt in E. constructor.
      * constructor; assumption.
      * constructor; [lia|]. eapply Forall_impl; [|exact Hy].
        intros a Ha. simpl in Ha. lia.
    + apply Z.ltb_ge in E. constructor; [exact IH|].
      eapply Permutation_Forall; [apply Permutation_sym, insert_desc_perm|].
      constructor; [lia | exact Hy].
Qed.

Lemma sorted_desc_sorted (l : list Z) : StronglySorted Z.ge (sorted_desc l).
Proof.
  induction l as [|x l IH]; simpl; [constructor | apply insert_desc_sorted, IH].
Qed.

Lemma insert_asc_perm (x : Z) (l : list Z) : Permutation (insert_asc x l) (x :: l).
Proof.
  induction l as [|y l IH]; simpl.
  - apply Permutation_refl.
  - destruct (x <? y)%Z.
    + apply Permutation_refl.
    + eapply perm_trans; [apply perm_skip, IH | apply perm_swap].
Qed.

Lemma sorted_asc_perm (l : list Z) : Permutation (sorted_asc l) l.
Proof.
  induction l as [|x l IH]; simpl.
  - apply perm_nil.
  - eapply perm_trans; [apply insert_asc_perm | apply perm_skip, IH].
Qed.

Lemma insert_asc_sorted (x : Z) (l : list Z) :
  StronglySorted Z.le l -> StronglySorted Z.le (insert_asc x l).
Proof.
  induction 1 as [|y l Hl IH Hy]; simpl.
  - constructor; constructor.
  - destruct (x <? y)%Z eqn:E.
    + apply Z.ltb_lt in E. constructor.
      * constructor; assumption.
      * constructor; [lia|]. eapply Forall_impl; [|exact Hy].
        intros a Ha. simpl in Ha. lia.
    + apply Z.ltb_ge in E. constructor; [exact IH|].
      eapply Permutation_Forall; [apply Permutation_sym, insert_asc_perm|].
      constructor; [lia | exact Hy].
Qed.

Lemma sorted_asc_sorted (l : list Z) : StronglySorted Z.le (sorted_asc l).
Proof.
  induction l as [|x l IH]; simpl; [constructor | apply insert_asc_sorted, IH].
Qed.

(** Two descending arrangements of the same counts are the same list. *)
Lemma descending_unique (l1 : list Z) :
  forall l2 : list Z,
    StronglySorted Z.ge l1 -> StronglySorted Z.ge l2 -> Permutation l1 l2 -> l1 = l2.
Proof.
  induction l1 as [|a l1 IH]; intros l2 H1 H2 HP.
  - apply Permutation_nil in HP. now subst.
  - destruct l2 as [|b l2].
    + apply Permutation_sym, Permutation_nil in HP. discriminate.
    + inversion H1 as [|? ? H1' Ha]; subst. inversion H2 as [|? ? H2' Hb]; subst.
      assert (Hab : a = b).
      { assert (Ia : In a (b :: l2)).
        { eapply Permutation_in; [exact HP | now left]. }
        assert (Ib : In b (a :: l1)).
        { eapply Permutation_in; [apply Permutation_sym, HP | now left]. }
        rewrite Forall_forall in Ha, Hb.
        destruct Ia as [->|Ia]; [reflexivity|].
        destruct Ib as [->|Ib]; [reflexivity|].
        specialize (Ha _ Ib). specialize (Hb _ Ia). lia. }
      subst b. f_equal. apply IH; try assumption.
      eapply Permutation_cons_inv. exact HP.
Qed.

Lemma sorted_desc_permutation (l1 l2 : list Z) :
  Permutation l1 l2 -> sorted_desc l1 = sorted_desc l2.
Proof.
  intro HP. apply descending_unique; try apply sorted_desc_sorted.
  eapply perm_trans; [apply sorted_desc_perm|].
  eapply perm_trans; [exact HP | apply Permutation_sym, sorted_desc_perm].
Qed.

(** ** The h-index *)

Lemma count_if_permutation (A : Type) (p : A -> bool) (l1 l2 : list A) :
  Permutation l1 l2 -> count_if p l1 = count_if p l2.
Proof.
  unfold count_if. induction 1 as [|x l1 l2 HP IH|x y l|l1 l2 l3 H1 IH1 H2 IH2]; simpl.
  - reflexivity.
  - destruct (p x); simpl; now rewrite IH.
  - destruct (p x), (p y); reflexivity.
  - now rewrite IH1.
Qed.

Lemma count_if_le_length (A : Type) (p : A -> bool) (l : list A) :
  (count_if p l <= List.length l)%nat.
Proof. apply filter_length_le. Qed.

Lemma count_if_all (A : Type) (p : A -> bool) (l : list A) :
  Forall (fun x => p x = true) l -> count_if p l = List.length l.
Proof.
  unfold count_if. induction 1 as [|x l Hx Hl IH]; simpl; [reflexivity|].
  rewrite Hx. simpl. now rewrite IH.
Qed.

Lemma count_if_firstn (A : Type) (p : A -> bool) (n : nat) (l : list A) :
  (count_if p (firstn n l) <= count_if p l)%nat.
Proof.
  unfold count_if. revert n. induction l as [|x l IH]; intros [|n]; simpl; try lia.
  specialize (IH n). destruct (p x); simpl; lia.
Qed.

Lemma count_if_none (A : Type) (p : A -> bool) (l : list A) :
  Forall (fun x => p x = false) l -> count_if p l = 0%nat.
Proof.
  unfold count_if. induction 1 as [|x l Hx Hl IH]; simpl; [reflexivity|].
  now rewrite Hx.
Qed.

Lemma count_if_impl (A : Type) (p q : A -> bool) (l : list A) :
  (forall x, In x l -> p x = true -> q x = true) ->
  (count_if p l <= count_if q l)%nat.
Proof.
  unfold count_if. induction l as [|x l IH]; intro H; simpl; [lia|].
  assert (IH' := IH (fun y Hy => H y (or_intror Hy))).
  destruct (p x) eqn:Ep.
  - rewrite (H x (or_introl eq_refl) Ep). simpl. lia.
  - destruct (q x); simpl; lia.
Qed.

Lemma enumerate_from_length (A : Type) (l : list A) :
  forall i : nat, List.length (enumerate_from i l) = List.length l.
Proof. induction l as [|x l IH]; intro i; simpl; [reflexivity | now rewrite IH]. Qed.

Lemma enumerate_from_In (A : Type) (l : list A) :
  forall (i j : nat) (x : A), In (j, x) (enumerate_from i l) -> (i <= j)%nat /\ In x l.
Proof.
  induction l as [|y l IH]; intros i j x H; simpl in H; [destruct H|].
  destruct H as [[= <- <-]|H].
  - split; [lia | now left].
  - destruct (IH _ _ _ H). split; [lia | now right].
Qed.

(** The test of the h-index at rank [i + 1]. *)
Definition h_rank (ic : nat * Z) : bool :=
  (1 * (Z.of_nat (fst ic) + 1) <=? snd ic)%Z.

Definition ranks_passed (i : nat) (s : list Z) : nat :=
  count_if h_rank (enumerate_from i s).

Lemma ranks_passed_cons (i : nat) (c : Z) (s : list Z) :
  ranks_passed i (c :: s)
  = ((if (Z.of_nat i + 1 <=? c)%Z then 1 else 0) + ranks_passed (S i) s)%nat.
Proof.
  unfold ranks_passed, count_if, h_rank. cbn [enumerate_from filter fst snd].
  rewrite Z.mul_1_l. destruct (Z.of_nat i + 1 <=? c)%Z; reflexivity.
Qed.

Lemma ranks_passed_le (i : nat) (s : list Z) : (ranks_passed i s <= List.length s)%nat.
Proof.
  unfold ranks_passed. rewrite <- (enumerate_from_length s i). apply count_if_le_length.
Qed.

Lemma ranks_passed_low (s : list Z) :
  forall i : nat, Forall (fun c => (c < Z.of_nat i + 1)%Z) s -> ranks_passed i s = 0%nat.
Proof.
  induction s as [|c s IH]; intros i H; [reflexivity|].
  inversion H as [|? ? Hc Hs]; subst. rewrite ranks_passed_cons.
  destruct (Z.leb_spec (Z.of_nat i + 1) c) as [Hle|_]; [lia|].
  rewrite IH; [reflexivity|]. eapply Forall_impl; [|exact Hs].
  intros a Ha. simpl in Ha. lia.
Qed.

(** In a descending list the ranks that pass form a prefix, and every count
    of the prefix reaches the last rank passed. *)
Lemma ranks_passed_core (s : list Z) :
  StronglySorted Z.ge s ->
  forall i : nat,
    Forall (fun c => (Z.of_nat (i + ranks_passed i s) <= c)%Z)
           (firstn (ranks_passed i s) s).
Proof.
  induction 1 as [|c s Hs IH Hc]; intro i; [constructor|].
  rewrite ranks_passed_cons.
  destruct (Z.leb_spec (Z.of_nat i + 1) c) as [Hle|Hlt].
  - specialize (IH (S i)). cbn [Nat.add firstn].
    replace (i + S (ranks_passed (S i) s))%nat with (S i + ranks_passed (S i) s)%nat by lia.
    constructor; [|exact IH].
    destruct (ranks_passed (S i) s) as [|h'] eqn:Eh; [lia|].
    destruct s as [|x s]; [discriminate Eh|].
    cbn [firstn] in IH. inversion IH as [|? ? Hx _]; subst.
    inversion Hc as [|? ? Hcx _]; subst. lia.
  - rewrite ranks_passed_low; [constructor|].
    eapply Forall_impl; [|exact Hc]. intros a Ha. simpl in Ha. lia.
Qed.

Lemma ranks_passed_above (s : list Z) :
  StronglySorted Z.ge s ->
  forall i k : nat,
    (ranks_passed i s < k)%nat ->
    (count_if (fun c => (Z.of_nat (i + k) <=? c)%Z) s < k)%nat.
Proof.
  induction 1 as [|c s Hs IH Hc]; intros i k Hk;
    [unfold ranks_passed, count_if in *; simpl in *; lia|].
  rewrite ranks_passed_cons in Hk.
  destruct (Z.leb_spec (Z.of_nat i + 1) c) as [Hle|Hlt].
  - destruct k as [|k]; [lia|].
    assert (Hk' : (ranks_passed (S i) s < k)%nat) by lia.
    specialize (IH (S i) k Hk').
    replace (S i + k)%nat with (i + S k)%nat in IH by lia.
    unfold count_if in *. simpl.
    destruct (Z.of_nat (i + S k) <=? c)%Z; simpl; lia.
  - rewrite count_if_none; [lia|].
    constructor.
    + apply Z.leb_gt. lia.
    + eapply Forall_impl; [|exact Hc]. intros a Ha. simpl in Ha.
      apply Z.leb_gt. lia.
Qed.

Lemma h_index_ranks (citations : list Z) :
  h_index citations 1 = ranks_passed 0 (sorted_desc citations).
Proof. reflexivity. Qed.

Lemma h_index_le_length (citations : list Z) :
  (h_index citations 1 <= List.length citations)%nat.
Proof.
  rewrite h_index_ranks.
  rewrite <- (Permutation_length (sorted_desc_perm citations)).
  apply ranks_passed_le.
Qed.

(** X1: the h-index as it is defined in the literature: [h] documents have
    at least [h] citations each, and for no larger [k] do [k] documents have
    at least [k] citations each. *)
Theorem h_index_is_largest_rank (citations : list Z) :
  let h := h_index citations 1 in
  (h <= count_if (fun c => (Z.of_nat h <=? c)%Z) citations)%nat /\
  forall k : nat,
    (h < k)%nat -> (count_if (fun c => (Z.of_nat k <=? c)%Z) citations < k)%nat.
Proof.
  cbv zeta. rewrite h_index_ranks.
  set (s := sorted_desc citations).
  assert (HP : Permutation s citations) by apply sorted_desc_perm.
  assert (HS : StronglySorted Z.ge s) by apply sorted_desc_sorted.
  split.
  - rewrite <- (count_if_permutation _ HP).
    pose proof (ranks_passed_core HS 0) as Hcore. cbn [Nat.add] in Hcore.
    eapply Nat.le_trans; [|apply (count_if_firstn _ (ranks_passed 0 s))].
    rewrite count_if_all.
    + rewrite length_firstn. pose proof (ranks_passed_le 0 s). lia.
    + eapply Forall_impl; [|exact Hcore]. intros a Ha. simpl in Ha.
      apply Z.leb_le. exact Ha.
  - intros k Hk. rewrite <- (count_if_permutation _ HP).
    exact (@ranks_passed_above s HS 0 k Hk).
Qed.

(** ** The g-index *)

Lemma zsum_from (l : list Z) : forall a : Z, fold_left Z.add l a = (a + zsum l)%Z.
Proof.
  unfold zsum. induction l as [|x l IH]; intro a; simpl; [lia|].
  rewrite (IH (a + x)%Z), (IH x). lia.
Qed.

Lemma zsum_cons (x : Z) (l : list Z) : zsum (x :: l) = (x + zsum l)%Z.
Proof. unfold zsum. simpl. apply zsum_from. Qed.










(** ** Order of the input *)

Lemma ascending_unique (l1 : list Z) :
  forall l2 : list Z,
    StronglySorted Z.le l1 -> StronglySorted Z.le l2 -> Permutation l1 l2 -> l1 = l2.
Proof.
  induction l1 as [|a l1 IH]; intros l2 H1 H2 HP.
  - apply Permutation_nil in HP. now subst.
  - destruct l2 as [|b l2].
    + apply Permutation_sym, Permutation_nil in HP. discriminate.
    + inversion H1 as [|? ? H1' Ha]; subst. inversion H2 as [|? ? H2' Hb]; subst.
      assert (Hab : a = b).
      { assert (Ia : In a (b :: l2)).
        { eapply Permutation_in; [exact HP | now left]. }
        assert (Ib : In b (a :: l1)).
        { eapply Permutation_in; [apply Permutation_sym, HP | now left]. }
        rewrite Forall_forall in Ha, Hb.
        destruct Ia as [->|Ia]; [reflexivity|].
        destruct Ib as [->|Ib]; [reflexivity|].
        specialize (Ha _ Ib). specialize (Hb _ Ia). lia. }
      subst b. f_equal. apply IH; try assumption.
      eapply Permutation_cons_inv. exact HP.
Qed.

Lemma sorted_asc_permutation (l1 l2 : list Z) :
  Permutation l1 l2 -> sorted_asc l1 = sorted_asc l2.
Proof.
  intro HP. apply ascending_unique; try apply sorted_asc_sorted.
  eapply perm_trans; [apply sorted_asc_perm|].
  eapply perm_trans; [exact HP | apply Permutation_sym, sorted_asc_perm].
Qed.

(** X4: the indices do not depend on the order in which the citation counts
    of the documents are given. *)
Theorem indices_ignore_order (l1 l2 : list Z) (alpha : Z) :
  Permutation l1 l2 ->
  h_index l1 alpha = h_index l2 alpha /\
  g_index l1 = g_index l2 /\
  hg_index l1 = hg_index l2 /\
  chi_index l1 = chi_index l2 /\
  a_index l1 = a_index l2 /\
  r_index l1 = r_index l2 /\
  h2_index l1 = h2_index l2 /\
  w_index l1 = w_index l2 /\
  pi_index l1 = pi_index l2 /\
  gini_index l1 = gini_index l2.
Proof.
  intro HP.
  unfold hg_index, chi_index, a_index, r_index, h2_index, w_index, pi_index,
    gini_index, g_index, h_index.
  rewrite (sorted_desc_permutation HP), (sorted_asc_permutation HP),
    (Permutation_length HP).
  repeat split; reflexivity.
Qed.

Lemma indices_ignore_order_witness :
  Permutation [3; 10; 4]%Z [10; 4; 3]%Z /\
  h_index [3; 10; 4]%Z 1 = h_index [10; 4; 3]%Z 1 /\
  g_index [3; 10; 4]%Z = g_index [10; 4; 3]%Z /\
  hg_index [3; 10; 4]%Z = hg_index [10; 4; 3]%Z /\
  chi_index [3; 10; 4]%Z = chi_index [10; 4; 3]%Z /\
  a_index [3; 10; 4]%Z = a_index [10; 4; 3]%Z /\
  r_index [3; 10; 4]%Z = r_index [10; 4; 3]%Z /\
  h2_index [3; 10; 4]%Z = h2_index [10; 4; 3]%Z /\
  w_index [3; 10; 4]%Z = w_index [10; 4; 3]%Z /\
  pi_index [3; 10; 4]%Z = pi_index [10; 4; 3]%Z /\
  gini_index [3; 10; 4]%Z = gini_index [10; 4; 3]%Z.
Proof.
  assert (HP : Permutation [3; 10; 4]%Z [10; 4; 3]%Z).
  { apply perm_trans with (l' := [10; 3; 4]%Z).
    - apply perm_swap.
    - apply perm_skip, perm_swap. }
  split; [exact HP | exact (indices_ignore_order 1 HP)].
Defined.

(** ** Indices below the h-index *)

(** X5: the h(2)-index and the w-index never exceed the h-index. *)
Theorem h2_index_and_w_index_le_h_index (citations : list Z) :
  (h2_index citations <= h_index citations 1)%nat /\
  (w_index citations <= h_index citations 1)%nat.
Proof.
  unfold h2_index, w_index, h_index. cbv zeta.
  split; apply count_if_impl; intros [i c] _ H; cbn [fst snd] in *;
    apply Z.leb_le in H; apply Z.leb_le; nia.
Qed.

(** ** Indices of the h-core *)



(** ** The chi-index *)

Lemma fold_max_ge (l : list Z) :
  forall (p q : Z), (q = p \/ In q l) -> (q <= fold_left Z.max l p)%Z.
Proof.
  induction l as [|x l IH]; intros p q H; simpl.
  - destruct H as [->|[]]. lia.
  - destruct H as [->|[->|H]].
    + eapply Z.le_trans; [|apply IH; left; reflexivity]. lia.
    + eapply Z.le_trans; [|apply IH; left; reflexivity]. lia.
    + apply IH. now right.
Qed.

Lemma ranks_passed_product (s : list Z) :
  forall i : nat,
    (0 < ranks_passed i s)%nat ->
    exists q : Z,
      In q (map (fun ic : nat * Z => ((Z.of_nat (fst ic) + 1) * snd ic)%Z)
                (enumerate_from i s)) /\
      (Z.of_nat (i + ranks_passed i s) ^ 2 <= q)%Z.
Proof.
  induction s as [|c s IH]; intros i Hpos.
  - unfold ranks_passed, count_if in Hpos. simpl in Hpos. lia.
  - rewrite ranks_passed_cons in *. cbn [enumerate_from map fst snd].
    destruct (Nat.eq_dec (ranks_passed (S i) s) 0) as [Hz|Hnz].
    + rewrite Hz in *. destruct (Z.leb_spec (Z.of_nat i + 1) c) as [Hle|Hlt]; [|lia].
      exists ((Z.of_nat i + 1) * c)%Z. split; [now left|].
      replace (Z.of_nat (i + (1 + 0))) with (Z.of_nat i + 1)%Z by lia. nia.
    + destruct (IH (S i)) as (q & Hin & Hq); [lia|].
      exists q. split; [now right|].
      eapply Z.le_trans; [|exact Hq].
      destruct (Z.of_nat i + 1 <=? c)%Z.
      * replace (i + (1 + ranks_passed (S i) s))%nat
          with (S i + ranks_passed (S i) s)%nat by lia. lia.
      * apply Z.pow_le_mono_l. lia.
Qed.

(** X7: with a positive h-index, the chi-index is a number not below the
    h-index. *)
Theorem chi_index_dominates_h_index (citations : list Z) :
  (0 < h_index citations 1)%nat ->
  exists chi : R, chi_index citations = Fin chi /\ INR (h_index citations 1) <= chi.
Proof.
  intro Hpos. rewrite h_index_ranks in *.
  destruct (@ranks_passed_product (sorted_desc citations) 0 Hpos) as (q & Hin & Hq).
  cbn [Nat.add] in Hq. unfold chi_index. cbv zeta. unfold enumerate.
  set (h := ranks_passed 0 (sorted_desc citations)) in *.
  destruct (map (fun ic : nat * Z => ((Z.of_nat (fst ic) + 1) * snd ic)%Z)
                (enumerate_from 0 (sorted_desc citations))) as [|p products];
    [destruct Hin|].
  assert (Hmax : (q <= fold_left Z.max products p)%Z).
  { apply fold_max_ge. destruct Hin as [->|Hin]; [now left | now right]. }
  set (m := fold_left Z.max products p) in *.
  assert (HmR : INR h * INR h <= IZR m).
  { rewrite INR_IZR_INZ, <- mult_IZR. apply IZR_le. lia. }
  assert (Hh0 : 0 <= INR h) by apply pos_INR.
  unfold np_sqrt. destruct (Rlt_dec (IZR m) 0) as [Hneg|_]; [nra|].
  eexists. split; [reflexivity|].
  rewrite <- (sqrt_square (INR h)) at 1 by exact Hh0.
  apply sqrt_le_1_alt. exact HmR.
Qed.

Lemma chi_index_dominates_witness :
  (0 < h_index [10; 8; 5; 4; 3]%Z 1)%nat /\
  exists chi : R,
    chi_index [10; 8; 5; 4; 3]%Z = Fin chi /\
    INR (h_index [10; 8; 5; 4; 3]%Z 1) <= chi.
Proof.
  assert (H : (0 < h_index [10; 8; 5; 4; 3]%Z 1)%nat) by (vm_compute; lia).
  split; [exact H | exact (chi_index_dominates_h_index [10; 8; 5; 4; 3]%Z H)].
Defined.

(** ** The Gini coefficient *)

Lemma cumsum_from_length (l : list Z) :
  forall acc : Z, List.length (cumsum_from acc l) = List.length l.
Proof. induction l as [|x l IH]; intro acc; simpl; [reflexivity | now rewrite IH]. Qed.







(* ------------------------------------------------------------------ *)
(** * Matching rows and binary indicators *)

(** Whether the cell [val] matches [item]. *)
Definition row_matches (value_type separator : string) (items : list string)
           (item val : string) : bool :=
  match matched_items value_type separator items val with
  | Ok found => mem item found
  | Raise _ => false
  end.

(** The indices of the rows whose cell matches [item], in row order. *)
Definition matching_rows (value_type separator : string) (items : list string)
           (item : string) (rows : list (nat * option string)) : list nat :=
  map fst
      (filter (fun row => match snd row with
                          | Some val => row_matches value_type separator items item val
                          | None => false
                          end) rows).

(** [missing_rows = df[col].isna()], [mask[missing_rows] = np.nan] and the
    optional [fillna(0)] on the row of document [idx]. *)
Definition masked_row (items : list string) (match_indices : dict string (list nat))
           (missing_as_zero : bool) (idx : nat) (cell : option string) : list npfloat :=
  match cell with
  | None => map (fun _ => if missing_as_zero then Fin 0 else NaN) items
  | Some _ => binary_row items match_indices idx
  end.

Definition match_items_and_compute_binary_indicators
           (col : list (option string)) (items_of_interest : list string)
           (value_type separator : string) (indicators missing_as_zero : bool)
  : result (dict string (list nat) * dict string DataFrame) :=
  rbind (match_rows value_type separator items_of_interest (indexed col)
                    (dict_of_pairs (map (fun item => (item, [])) items_of_interest)))
        (fun match_indices =>
  if negb indicators then Ok (match_indices, []) else
  let indicator_01 :=
      mkDataFrame items_of_interest
        (map (fun row => masked_row items_of_interest match_indices missing_as_zero
                                    (fst row) (snd row))
             (indexed col)) in
  Ok (match_indices, dict_set [] "binary" indicator_01)).

Lemma indexed_from_In (A : Type) (l : list A) :
  forall (s i : nat) (x : A),
    In (i, x) (combine (seq s (List.length l)) l) <->
    (s <= i)%nat /\ nth_error l (i - s) = Some x.
Proof.
  induction l as [|y l IH]; intros s i x; simpl.
  - split; [intros [] | intros [_ H]]. destruct (i - s)%nat; discriminate.
  - rewrite IH. split.
    + intros [[= <- <-]|[Hle Hn]].
      * split; [lia|]. now rewrite Nat.sub_diag.
      * split; [lia|]. replace (i - s)%nat with (S (i - S s)) by lia. exact Hn.
    + intros [Hle Hn]. destruct (Nat.eq_dec s i) as [->|Hne].
      * left. rewrite Nat.sub_diag in Hn. simpl in Hn. congruence.
      * right. split; [lia|].
        replace (i - s)%nat with (S (i - S s)) in Hn by lia. exact Hn.
Qed.

Lemma indexed_In (A : Type) (l : list A) (i : nat) (x : A) :
  In (i, x) (indexed l) <-> nth_error l i = Some x.
Proof.
  unfold indexed. rewrite indexed_from_In, Nat.sub_0_r. split; [tauto|].
  intro H. split; [lia | exact H].
Qed.

Lemma indexed_nth (A : Type) (l : list A) :
  forall (s i : nat) (x : A),
    nth_error l i = Some x ->
    nth_error (combine (seq s (List.length l)) l) i = Some ((s + i)%nat, x).
Proof.
  induction l as [|y l IH]; intros s [|i] x H; simpl in *; try discriminate.
  - injection H as <-. now rewrite Nat.add_0_r.
  - rewrite (IH (S s) i x H). do 2 f_equal. lia.
Qed.

Lemma indexed_length (A : Type) (l : list A) : List.length (indexed l) = List.length l.
Proof. unfold indexed. rewrite length_combine, length_seq. apply Nat.min_id. Qed.

(** One turn of the matching loop appends the row index to the list of
    every item found. *)
Lemma append_found (idx : nat) (found : list string) :
  NoDup found ->
  forall (mi : dict string (list nat)) (item : string),
    dict_get (fold_left
                (fun mi item =>
                   match dict_get mi item with
                   | Some l => dict_set mi item (l ++ [idx])
                   | None => mi
                   end) found mi) item
    = match dict_get mi item with
      | Some l => Some (if mem item found then l ++ [idx] else l)
      | None => None
      end.
Proof.
  induction 1 as [|x found Hx Hnd IH]; intros mi item; cbn [fold_left].
  - destruct (dict_get mi item); reflexivity.
  - rewrite IH. cbn [mem existsb]. fold (mem item found).
    destruct (string_dec item x) as [->|Hne].
    + rewrite (proj2 (eqb_of_true x x) eq_refl). cbn [orb].
      rewrite (proj2 (mem_false x found) Hx).
      destruct (dict_get mi x) as [l|] eqn:E.
      * now rewrite dict_get_set_same.
      * now rewrite E.
    + rewrite (proj2 (eqb_of_false item x) Hne). cbn [orb].
      destruct (dict_get mi x) as [l|] eqn:E; [|reflexivity].
      rewrite dict_get_set_other by exact Hne. reflexivity.
Qed.

Lemma append_found_keys (idx : nat) (found : list string) :
  forall mi : dict string (list nat),
    dict_keys (fold_left
                 (fun mi item =>
                    match dict_get mi item with
                    | Some l => dict_set mi item (l ++ [idx])
                    | None => mi
                    end) found mi) = dict_keys mi.
Proof.
  induction found as [|x found IH]; intro mi; cbn [fold_left]; [reflexivity|].
  rewrite IH. destruct (dict_get mi x) as [l|] eqn:E; [|reflexivity].
  apply dict_set_keys_present. eapply dict_get_Some_key. exact E.
Qed.

Lemma matched_items_NoDup (value_type separator : string) (items : list string)
      (val : string) (found : list string) :
  NoDup items ->
  matched_items value_type separator items val = Ok found -> NoDup found.
Proof.
  intro Hnd. unfold matched_items.
  destruct (eqb_of value_type "string").
  - intros [= <-]. destruct (mem val items); repeat constructor. intros [].
  - destruct (eqb_of value_type "list").
    + unfold cell_parts. destruct (split separator val) as [raw|e]; [|discriminate].
      cbn [rbind]. intros [= <-]. apply NoDup_filter, Hnd.
    + destruct (eqb_of value_type "text").
      * intros [= <-]. apply NoDup_filter, Hnd.
      * intros [= <-]. constructor.
Qed.

Lemma matching_rows_cons (value_type separator : string) (items : list string)
      (item : string) (idx : nat) (val : string) (rows : list (nat * option string)) :
  matching_rows value_type separator items item ((idx, Some val) :: rows)
  = (if row_matches value_type separator items item val then [idx] else [])
      ++ matching_rows value_type separator items item rows.
Proof.
  unfold matching_rows. cbn [filter snd].
  destruct (row_matches value_type separator items item val); reflexivity.
Qed.

(** The matching loop over the rows: the keys stay, and every item gets the
    indices of its matching rows appended, in row order. *)
Lemma match_rows_spec (value_type separator : string) (items : list string) :
  NoDup items ->
  forall (rows : list (nat * option string)) (mi mi' : dict string (list nat)),
    match_rows value_type separator items rows mi = Ok mi' ->
    dict_keys mi' = dict_keys mi /\
    forall item : string,
      dict_get mi' item
      = option_map (fun l => l ++ matching_rows value_type separator items item rows)
                   (dict_get mi item).
Proof.
  intros Hnd. induction rows as [|[idx [val|]] rows IH]; intros mi mi' Hrun;
    cbn [match_rows] in Hrun.
  - injection Hrun as <-. split; [reflexivity|]. intro item.
    unfold matching_rows. cbn. destruct (dict_get mi item); cbn; [|reflexivity].
    now rewrite app_nil_r.
  - destruct (matched_items value_type separator items val) as [found|e] eqn:Efound;
      [|discriminate].
    cbn [rbind] in Hrun. destruct (IH _ _ Hrun) as [Hkeys Hget].
    split; [rewrite Hkeys; apply append_found_keys|].
    intro item. rewrite Hget, append_found by exact (matched_items_NoDup _ _ _ Hnd Efound).
    rewrite matching_rows_cons. unfold row_matches at 1. rewrite Efound.
    destruct (dict_get mi item) as [l|]; cbn [option_map]; [|reflexivity].
    f_equal. destruct (mem item found).
    + rewrite <- app_assoc. reflexivity.
    + reflexivity.
  - destruct (IH _ _ Hrun) as [Hkeys Hget]. split; [exact Hkeys|].
    intro item. rewrite Hget. reflexivity.
Qed.

Lemma empty_lists_get (items : list string) (item : string) :
  dict_get (map (fun item : string => (item, @nil nat)) items) item
  = if mem item items then Some [] else None.
Proof.
  induction items as [|x items IH]; cbn [map dict_get mem existsb]; [reflexivity|].
  fold (mem item items). unfold eqb_of.
  destruct (eq_dec item x); [reflexivity | exact IH].
Qed.

Lemma empty_lists_keys (items : list string) :
  dict_keys (map (fun item : string => (item, @nil nat)) items) = items.
Proof. unfold dict_keys. rewrite map_map. cbn. apply map_id. Qed.

Lemma matching_rows_In (value_type separator : string) (items : list string)
      (item : string) (col : list (option string)) (idx : nat) :
  In idx (matching_rows value_type separator items item (indexed col)) <->
  exists val : string,
    nth_error col idx = Some (Some val) /\
    row_matches value_type separator items item val = true.
Proof.
  unfold matching_rows. rewrite in_map_iff. split.
  - intros ([i cell] & Hi & Hin). cbn [fst] in Hi. subst i.
    apply filter_In in Hin. destruct Hin as [Hin Hf]. cbn [snd] in Hf.
    apply (proj1 (indexed_In col idx cell)) in Hin.
    destruct cell as [val|]; [|discriminate]. exists val. split; assumption.
  - intros (val & Hn & Hm). exists (idx, Some val). split; [reflexivity|].
    apply filter_In. split; [apply (proj2 (indexed_In col idx (Some val))), Hn|].
    exact Hm.
Qed.

Lemma mem_app (A : Type) `{EqDec A} (x : A) (l1 l2 : list A) :
  mem x (l1 ++ l2) = mem x l1 || mem x l2.
Proof. unfold mem. apply existsb_app. Qed.

Lemma mem_matching_rows (value_type separator : string) (items : list string)
      (item : string) (col : list (option string)) (idx : nat) (cell : option string) :
  nth_error col idx = Some cell ->
  mem idx (matching_rows value_type separator items item (indexed col))
  = match cell with
    | Some val => row_matches value_type separator items item val
    | None => false
    end.
Proof.
  intro Hcell.
  destruct (mem idx (matching_rows value_type separator items item (indexed col))) eqn:E.
  - apply (proj1 (mem_In _ _)) in E. apply matching_rows_In in E.
    destruct E as (val & Hn & Hm). rewrite Hn in Hcell. injection Hcell as <-.
    now rewrite Hm.
  - apply (proj1 (mem_false _ _)) in E. destruct cell as [val|]; [|reflexivity].
    destruct (row_matches value_type separator items item val) eqn:Hm; [|reflexivity].
    exfalso. apply E. apply matching_rows_In. exists val. split; assumption.
Qed.

Lemma select_items_In (items0 exclude_items : list string) (item : string) :
  In item (select_items items0 exclude_items)
  <-> In item items0 /\ ~ In item exclude_items.
Proof.
  unfold select_items.
  assert (Hd : forall l : list string, In item (dedup l) <-> In item l).
  { induction l as [|x l IH]; cbn [dedup]; [tauto|]. split.
    - intros [->|Hin]; [now left|]. apply filter_In in Hin. right. tauto.
    - intros [->|Hin]; [now left|].
      destruct (string_dec x item) as [->|Hne]; [now left|]. right.
      apply filter_In. split; [tauto|].
      apply negb_true_iff, eqb_of_false. exact Hne. }
  rewrite Hd, filter_In, negb_true_iff. split.
  - intros [Hin Hm]. split; [exact Hin | exact (proj1 (mem_false _ _) Hm)].
  - intros [Hin Hn]. split; [exact Hin | exact (proj2 (mem_false _ _) Hn)].
Qed.

Section SelectDocumentsMatches.

Variable text_weighting : string -> DataFrame -> result DataFrame.

(** The items that the call works with, before the exclusion. *)
Definition given_items (items_of_interest : list string)
           (top_items : option (list string)) : list string :=
  match items_of_interest with
  | [] => match top_items with Some selected => selected | None => [] end
  | _ :: _ => items_of_interest
  end.

(** What a returning call has computed: both matching loops, and the binary
    frame when indicators are requested. *)
Lemma select_documents_inv
      (col : list (option string)) (items_of_interest exclude_items : list string)
      (top_items : option (list string)) (indicators missing_as_zero : bool)
      (separator value_type : string) (text_norm : option string)
      (match_indices : dict string (list nat)) (ind : dict string DataFrame) :
  select_documents text_weighting col items_of_interest exclude_items top_items
                   indicators missing_as_zero separator value_type text_norm
  = Ok (match_indices, ind) ->
  let items := select_items (given_items items_of_interest top_items) exclude_items in
  exists first_pass : dict string (list nat),
    match_rows value_type separator items (indexed col)
               (map (fun item => (item, [])) items) = Ok first_pass /\
    match_rows value_type separator items (indexed col) first_pass = Ok match_indices /\
    (indicators = false -> ind = []) /\
    (indicators = true ->
     dict_get ind "binary"
     = Some (mkDataFrame items
               (map (fun row => binary_row items match_indices (fst row))
                    (indexed col)))).
Proof.
  unfold select_documents.
  destruct (negb (mem value_type ["string"; "list"; "text"])); [discriminate|].
  destruct (negb match text_norm with
                 | Some t => mem t ["tfidf"; "df-icf"; "mtf-idf"]
                 | None => true
                 end) eqn:Enorm; [discriminate|].
  assert (Hgiven :
            forall items0,
              match items_of_interest with
              | [] => match top_items with
                      | None => Raise ValueError
                      | Some selected => Ok selected
                      end
              | _ :: _ => Ok items_of_interest
              end = Ok items0 ->
              items0 = given_items items_of_interest top_items).
  { intros items0. unfold given_items.
    destruct items_of_interest; [destruct top_items|]; congruence. }
  match goal with
  | |- rbind ?m _ = _ -> _ => destruct m as [items0|e]; [|discriminate]
  end.
  rewrite <- (Hgiven items0 eq_refl). clear Hgiven.
  cbn [rbind]. cbv zeta.
  set (items := select_items items0 exclude_items).
  destruct (match_rows value_type separator items (indexed col)
                       (map (fun item => (item, [])) items)) as [first_pass|e] eqn:E1;
    [|discriminate].
  cbn [rbind].
  destruct (match_rows value_type separator items (indexed col) first_pass)
    as [mi|e] eqn:E2; [|discriminate].
  cbn [rbind]. intro Hrun. exists first_pass. split; [reflexivity|]. rewrite E2.
  destruct indicators; cbn [negb] in Hrun.
  - set (binary := mkDataFrame items
                     (map (fun row => binary_row items mi (fst row)) (indexed col))) in *.
    assert (Hbin : forall d2 : dict string DataFrame,
               dict_get d2 "binary" = Some binary ->
               rbind (if eqb_of value_type "text"
                      then match text_norm with
                           | Some t =>
                               rbind (text_weighting t
                                        (mkDataFrame items (count_rows items col)))
                                     (fun w => Ok (dict_set
                                                     (dict_set d2 "count"
                                                        (mkDataFrame items
                                                           (count_rows items col))) t w))
                           | None => Ok (dict_set d2 "count"
                                           (mkDataFrame items (count_rows items col)))
                           end
                      else Ok d2)
                     (fun d4 => Ok (mi, d4)) = Ok (match_indices, ind) ->
               mi = match_indices /\ dict_get ind "binary" = Some binary).
    { intros d2 Hd2. destruct (eqb_of value_type "text").
      - destruct text_norm as [t|].
        + destruct (text_weighting t (mkDataFrame items (count_rows items col)))
            as [w|e]; [|discriminate].
          cbn [rbind]. intros [= <- <-]. split; [reflexivity|].
          assert (Ht : t <> "binary").
          { intros ->. discriminate Enorm. }
          rewrite dict_get_set_other by congruence.
          rewrite dict_get_set_other by discriminate. exact Hd2.
        + cbn [rbind]. intros [= <- <-]. split; [reflexivity|].
          rewrite dict_get_set_other by discriminate. exact Hd2.
      - cbn [rbind]. intros [= <- <-]. split; [reflexivity | exact Hd2]. }
    destruct (eqb_of value_type "list").
    + destruct (fractional_rows separator items col) as [frac|e]; [|discriminate].
      cbn [rbind] in Hrun. apply Hbin in Hrun.
      * destruct Hrun as [<- Hget]. split; [reflexivity|].
        split; [discriminate | intros _; exact Hget].
      * rewrite dict_get_set_other by discriminate. reflexivity.
    + cbn [rbind] in Hrun. apply Hbin in Hrun.
      * destruct Hrun as [<- Hget]. split; [reflexivity|].
        split; [discriminate | intros _; exact Hget].
      * reflexivity.
  - injection Hrun as <- <-. split; [reflexivity|].
    split; [reflexivity | discriminate].
Qed.

(** On a list-type column the fractional frame is over the same items. *)
Lemma select_documents_list_inv
      (col : list (option string)) (items_of_interest exclude_items : list string)
      (top_items : option (list string)) (missing_as_zero : bool)
      (separator : string) (text_norm : option string)
      (match_indices : dict string (list nat)) (ind : dict string DataFrame) :
  select_documents text_weighting col items_of_interest exclude_items top_items
                   true missing_as_zero separator "list" text_norm
  = Ok (match_indices, ind) ->
  let items := select_items (given_items items_of_interest top_items) exclude_items in
  exists rows : matrix,
    fractional_rows separator items col = Ok rows /\
    dict_get ind "fractional" = Some (mkDataFrame items rows).
Proof.
  unfold select_documents.
  change (negb (mem "list" ["string"; "list"; "text"])) with false. cbv iota.
  destruct (negb match text_norm with
                 | Some t => mem t ["tfidf"; "df-icf"; "mtf-idf"]
                 | None => true
                 end); [discriminate|].
  assert (Hgiven :
            forall items0,
              match items_of_interest with
              | [] => match top_items with
                      | None => Raise ValueError
                      | Some selected => Ok selected
                      end
              | _ :: _ => Ok items_of_interest
              end = Ok items0 ->
              items0 = given_items items_of_interest top_items).
  { intros items0. unfold given_items.
    destruct items_of_interest; [destruct top_items|]; congruence. }
  match goal with
  | |- rbind ?m _ = _ -> _ => destruct m as [items0|e]; [|discriminate]
  end.
  rewrite <- (Hgiven items0 eq_refl). clear Hgiven.
  cbn [rbind]. cbv zeta.
  set (items := select_items items0 exclude_items).
  destruct (match_rows "list" separator items (indexed col)
                       (map (fun item => (item, [])) items)) as [first_pass|e];
    [|discriminate].
  cbn [rbind].
  destruct (match_rows "list" separator items (indexed col) first_pass)
    as [mi|e]; [|discriminate].
  cbn [rbind negb].
  change (eqb_of "list" "list") with true.
  change (eqb_of "list" "text") with false. cbv iota.
  destruct (fractional_rows separator items col) as [rows|e] eqn:Hrows;
    [|discriminate].
  cbn [rbind]. intros [= _ <-].
  exists rows. split; reflexivity.
Qed.

(** X9: the items a returning call has worked with are the given items
    (those of interest or, without any, the top items) that are not
    excluded, each once: they are the keys of the match lists and the
    columns of the binary indicator. *)
Theorem excluded_items_are_never_selected
        (col : list (option string)) (items_of_interest exclude_items : list string)
        (top_items : option (list string)) (indicators missing_as_zero : bool)
        (separator value_type : string) (text_norm : option string)
        (match_indices : dict string (list nat)) (ind : dict string DataFrame) :
  select_documents text_weighting col items_of_interest exclude_items top_items
                   indicators missing_as_zero separator value_type text_norm
  = Ok (match_indices, ind) ->
  NoDup (dict_keys match_indices) /\
  (forall item : string,
      In item (dict_keys match_indices)
      <-> In item (given_items items_of_interest top_items) /\
          ~ In item exclude_items) /\
  (indicators = true ->
   exists binary : DataFrame,
     dict_get ind "binary" = Some binary /\
     columns binary = dict_keys match_indices).
Proof.
  intro Hrun. apply select_documents_inv in Hrun. cbv zeta in Hrun.
  destruct Hrun as (first_pass & H1 & H2 & _ & Hbin).
  set (items := select_items (given_items items_of_interest top_items) exclude_items) in *.
  assert (Hnd : NoDup items) by apply select_items_NoDup.
  destruct (@match_rows_spec value_type separator items Hnd _ _ _ H1) as [K1 _].
  destruct (@match_rows_spec value_type separator items Hnd _ _ _ H2) as [K2 _].
  assert (Hkeys : dict_keys match_indices = items).
  { rewrite K2, K1. apply empty_lists_keys. }
  rewrite Hkeys. split; [exact Hnd|]. split.
  - intro item. apply select_items_In.
  - intro Hi. eexists. split; [exact (Hbin Hi) | reflexivity].
Qed.

(** X10: every item's match list holds the indices of its matching rows in
    row order, twice over: the matching loop runs once in
    [match_items_and_compute_binary_indicators] and once more in
    [select_documents] on the same lists. *)
Theorem match_indices_hold_each_row_twice
        (col : list (option string)) (items_of_interest exclude_items : list string)
        (top_items : option (list string)) (indicators missing_as_zero : bool)
        (separator value_type : string) (text_norm : option string)
        (match_indices : dict string (list nat)) (ind : dict string DataFrame) :
  select_documents text_weighting col items_of_interest exclude_items top_items
                   indicators missing_as_zero separator value_type text_norm
  = Ok (match_indices, ind) ->
  forall item : string,
    In item (dict_keys match_indices) ->
    let rows := matching_rows value_type separator (dict_keys match_indices) item
                              (indexed col) in
    dict_get match_indices item = Some (rows ++ rows).
Proof.
  intro Hrun. apply select_documents_inv in Hrun. cbv zeta in Hrun.
  destruct Hrun as (first_pass & H1 & H2 & _ & _).
  set (items := select_items (given_items items_of_interest top_items) exclude_items) in *.
  assert (Hnd : NoDup items) by apply select_items_NoDup.
  destruct (@match_rows_spec value_type separator items Hnd _ _ _ H1) as [K1 G1].
  destruct (@match_rows_spec value_type separator items Hnd _ _ _ H2) as [K2 G2].
  assert (Hkeys : dict_keys match_indices = items).
  { rewrite K2, K1. apply empty_lists_keys. }
  rewrite Hkeys. intros item Hin. cbv zeta.
  rewrite G2, G1, empty_lists_get.
  rewrite (proj2 (mem_In item items) Hin). reflexivity.
Qed.

Lemma binary_indicator_cells
        (col : list (option string)) (items_of_interest exclude_items : list string)
        (top_items : option (list string)) (missing_as_zero : bool)
        (separator value_type : string) (text_norm : option string)
        (match_indices : dict string (list nat)) (ind : dict string DataFrame) :
  select_documents text_weighting col items_of_interest exclude_items top_items
                   true missing_as_zero separator value_type text_norm
  = Ok (match_indices, ind) ->
  exists binary : DataFrame,
    dict_get ind "binary" = Some binary /\
    List.length (values binary) = List.length col /\
    forall (idx : nat) (cell : option string),
      nth_error col idx = Some cell ->
      nth_error (values binary) idx
      = Some (map (fun item =>
                     match cell with
                     | Some val =>
                         if row_matches value_type separator (columns binary) item val
                         then Fin 1 else Fin 0
                     | None => Fin 0
                     end) (columns binary)).
Proof.
  intro Hrun. apply select_documents_inv in Hrun. cbv zeta in Hrun.
  destruct Hrun as (first_pass & H1 & H2 & _ & Hbin).
  set (items := select_items (given_items items_of_interest top_items) exclude_items) in *.
  assert (Hnd : NoDup items) by apply select_items_NoDup.
  destruct (@match_rows_spec value_type separator items Hnd _ _ _ H1) as [K1 G1].
  destruct (@match_rows_spec value_type separator items Hnd _ _ _ H2) as [K2 G2].
  eexists. split; [exact (Hbin eq_refl)|]. cbn [values columns].
  split; [now rewrite length_map, indexed_length|].
  intros idx cell Hcell.
  rewrite nth_error_map. unfold indexed. rewrite (indexed_nth col 0 idx Hcell).
  cbn [option_map fst Nat.add]. f_equal. unfold binary_row.
  apply map_ext_in. intros item Hin.
  rewrite G2, G1, empty_lists_get, (proj2 (mem_In item items) Hin).
  cbn [option_map app]. rewrite mem_app, orb_diag.
  rewrite (mem_matching_rows value_type separator items item col idx Hcell).
  destruct cell as [val|]; reflexivity.
Qed.

(** X11: the binary indicator of [select_documents] has one row per
    document; a cell is 1.0 when the document's value matches the item and
    0.0 otherwise, also for a missing value: it never holds nan, whatever
    [missing_as_zero] is. *)
Theorem binary_indicator_marks_matching_rows
        (col : list (option string)) (items_of_interest exclude_items : list string)
        (top_items : option (list string)) (missing_as_zero : bool)
        (separator value_type : string) (text_norm : option string)
        (match_indices : dict string (list nat)) (ind : dict string DataFrame) :
  select_documents text_weighting col items_of_interest exclude_items top_items
                   true missing_as_zero separator value_type text_norm
  = Ok (match_indices, ind) ->
  exists binary : DataFrame,
    dict_get ind "binary" = Some binary /\
    List.length (values binary) = List.length col /\
    (forall (idx : nat) (cell : option string),
      nth_error col idx = Some cell ->
      nth_error (values binary) idx
      = Some (map (fun item =>
                     match cell with
                     | Some val =>
                         if row_matches value_type separator (columns binary) item val
                         then Fin 1 else Fin 0
                     | None => Fin 0
                     end) (columns binary))) /\
    Forall (Forall (fun v => v = Fin 0 \/ v = Fin 1)) (values binary).
Proof.
  intro Hrun.
  destruct (binary_indicator_cells _ _ _ _ _ _ _ _ Hrun)
    as (binary & Hbin & Hlen & Hrows).
  exists binary. split; [exact Hbin|]. split; [exact Hlen|]. split; [exact Hrows|].
  apply Forall_forall. intros row Hrow.
  apply In_nth_error in Hrow. destruct Hrow as [idx Hidx].
  assert (Hlt : (idx < List.length col)%nat).
  { rewrite <- Hlen. apply nth_error_Some. congruence. }
  destruct (nth_error col idx) as [cell|] eqn:Hcell;
    [|apply nth_error_None in Hcell; lia].
  rewrite (Hrows idx cell Hcell) in Hidx. injection Hidx as <-.
  apply Forall_forall. intros v Hv. apply in_map_iff in Hv.
  destruct Hv as (item & <- & _).
  destruct cell as [val|]; [|now left].
  destruct (row_matches value_type separator (columns binary) item val);
    [now right | now left].
Qed.

End SelectDocumentsMatches.

(** ** Cells of the fractional indicator *)

Lemma add_at_map (items : list string) (p : string) (v : string -> R) (d : R) :
  add_at items p (map (fun item => Fin (v item)) items) (Fin d)
  = map (fun item => Fin (if string_dec item p then v item + d else v item)) items.
Proof.
  induction items as [|x items IH]; cbn [map add_at]; [reflexivity|].
  rewrite IH. destruct (string_dec x p); reflexivity.
Qed.

Lemma fractional_fold_cells (items : list string) (d : R) :
  forall (parts : list string) (v : string -> R),
  exists w : string -> R,
    fold_left (fun row p => if mem p items then add_at items p row (Fin d) else row)
              parts (map (fun item => Fin (v item)) items)
    = map (fun item => Fin (w item)) items /\
    forall item : string,
      In item items -> w item = v item + INR (count_occ string_dec parts item) * d.
Proof.
  induction parts as [|p parts IH]; intro v; cbn [fold_left].
  - exists v. split; [reflexivity|]. intros item _. simpl. lra.
  - destruct (mem p items) eqn:Hp.
    + rewrite add_at_map.
      destruct (IH (fun item => if string_dec item p then v item + d else v item))
        as (w & Hw & Hcell).
      exists w. split; [exact Hw|]. intros item Hin. rewrite (Hcell item Hin).
      cbn [count_occ]. destruct (string_dec p item) as [->|Hne].
      * destruct (string_dec item item); [|contradiction]. rewrite S_INR. lra.
      * destruct (string_dec item p); [congruence|]. lra.
    + destruct (IH v) as (w & Hw & Hcell). exists w. split; [exact Hw|].
      intros item Hin. rewrite (Hcell item Hin). cbn [count_occ].
      destruct (string_dec p item) as [->|Hne]; [|reflexivity].
      apply (proj1 (mem_false _ _)) in Hp. contradiction.
Qed.

Lemma fractional_row_cells (items parts : list string) :
  parts <> [] ->
  forall (j : nat) (item : string),
    nth_error items j = Some item ->
    exists x : R,
      nth_error (fractional_row items parts) j = Some (Fin x) /\
      x = INR (count_occ string_dec parts item) / INR (List.length parts) /\
      (0 < x <-> In item parts).
Proof.
  intros Hne j item Hj. unfold fractional_row. cbv zeta.
  destruct (fractional_fold_cells items (1 / INR (List.length parts)) parts (fun _ => 0))
    as (w & Hw & Hcell).
  rewrite Hw. exists (w item). split; [now rewrite nth_error_map, Hj|].
  assert (Hin : In item items) by (eapply nth_error_In; exact Hj).
  rewrite (Hcell item Hin).
  assert (Hlen : 0 < INR (List.length parts)).
  { apply lt_0_INR. destruct parts; [contradiction | simpl; lia]. }
  split; [unfold Rdiv; ring|].
  rewrite Rplus_0_l. rewrite (count_occ_In string_dec). split.
  - intro Hpos. destruct (count_occ string_dec parts item) as [|c]; [|lia].
    simpl in Hpos. lra.
  - intro Hc. apply Rmult_lt_0_compat.
    + apply lt_0_INR. lia.
    + apply Rdiv_lt_0_compat; lra.
Qed.

Lemma row_matches_list (separator : string) (items : list string)
      (item val : string) (parts : list string) :
  cell_parts separator val = Ok parts -> In item items ->
  row_matches "list" separator items item val = mem item parts.
Proof.
  intros Hparts Hin. unfold row_matches, matched_items.
  change (eqb_of "list" "string") with false. change (eqb_of "list" "list") with true.
  cbv iota. rewrite Hparts. cbn [rbind].
  destruct (mem item parts) eqn:E.
  - apply mem_In, filter_In. split; assumption.
  - apply mem_false. intro H. apply filter_In in H. destruct H as [_ H]. congruence.
Qed.

Section FractionalCells.

Variable text_weighting : string -> DataFrame -> result DataFrame.

(** X12: on a list-type column the fractional cell of a document and an
    item is the number of the document's parts equal to the item over the
    number of its parts; it is positive exactly when the item is one of the
    parts, which is exactly when the binary cell is 1.0. *)
Theorem fractional_cells_share_the_document
        (col : list (option string)) (items_of_interest exclude_items : list string)
        (top_items : option (list string)) (missing_as_zero : bool)
        (separator : string) (text_norm : option string)
        (match_indices : dict string (list nat)) (ind : dict string DataFrame) :
  select_documents text_weighting col items_of_interest exclude_items top_items
                   true missing_as_zero separator "list" text_norm
  = Ok (match_indices, ind) ->
  exists binary frac : DataFrame,
    dict_get ind "binary" = Some binary /\
    dict_get ind "fractional" = Some frac /\
    columns frac = columns binary /\
    forall (idx : nat) (val : string),
      nth_error col idx = Some (Some val) ->
      exists (parts : list string) (brow frow : list npfloat),
        cell_parts separator val = Ok parts /\
        nth_error (values binary) idx = Some brow /\
        nth_error (values frac) idx = Some frow /\
        forall (j : nat) (item : string),
          nth_error (columns frac) j = Some item ->
          exists x : R,
            nth_error frow j = Some (Fin x) /\
            x = INR (count_occ string_dec parts item) / INR (List.length parts) /\
            (0 < x <-> In item parts) /\
            nth_error brow j = Some (if mem item parts then Fin 1 else Fin 0).
Proof.
  intro Hrun.
  destruct (binary_indicator_cells _ _ _ _ _ _ _ _ _ Hrun)
    as (binary & Hbin & Hblen & Hbrows).
  pose proof (select_documents_list_inv _ _ _ _ _ _ _ _ Hrun) as Hlist.
  pose proof (select_documents_inv _ _ _ _ _ _ _ _ _ _ Hrun) as Hinv.
  cbv zeta in Hlist, Hinv.
  set (items := select_items (given_items items_of_interest top_items) exclude_items) in *.
  destruct Hlist as (rows & Hrows & Hfrac).
  destruct Hinv as (fp & _ & _ & _ & Hb).
  assert (Hcols : columns binary = items).
  { rewrite (Hb eq_refl) in Hbin. injection Hbin as <-. reflexivity. }
  exists binary, (mkDataFrame items rows).
  split; [exact Hbin|]. split; [exact Hfrac|]. cbn [columns values].
  split; [now rewrite Hcols|].
  intros idx val Hcell.
  destruct (fractional_rows_spec _ _ _ Hrows) as [_ Hnth].
  destruct (Hnth idx (Some val) Hcell) as (frow & Hfrow & parts & Hparts & ->).
  exists parts. eexists. exists (fractional_row items parts).
  split; [exact Hparts|]. split; [exact (Hbrows idx (Some val) Hcell)|].
  split; [exact Hfrow|].
  intros j item Hj.
  destruct (fractional_row_cells items (cell_parts_nonempty _ _ Hparts) j Hj)
    as (x & Hx & Hval & Hpos).
  exists x. split; [exact Hx|]. split; [exact Hval|]. split; [exact Hpos|].
  rewrite nth_error_map, Hcols, Hj. cbn [option_map]. f_equal.
  assert (Hin : In item items) by (eapply nth_error_In; exact Hj).
  now rewrite (row_matches_list separator items item val Hparts Hin).
Qed.

End FractionalCells.

(** ** The indicator of [match_items_and_compute_binary_indicators] *)

Lemma dict_set_absent (K V : Type) `{EqDec K} (d : dict K V) (k : K) (v : V) :
  ~ In k (dict_keys d) -> dict_set d k v = d ++ [(k, v)].
Proof.
  induction d as [|[k' v'] d IH]; cbn [dict_set dict_keys map fst app]; [reflexivity|].
  intro Hn. destruct (eq_dec k k') as [->|Hne].
  - exfalso. apply Hn. now left.
  - f_equal. apply IH. intro Hin. apply Hn. now right.
Qed.

Lemma dict_of_pairs_fold_fresh (K V : Type) `{EqDec K} (l : list (K * V)) :
  forall d : dict K V,
    NoDup (dict_keys d ++ map fst l) ->
    fold_left (fun d kv => dict_set d (fst kv) (snd kv)) l d = d ++ l.
Proof.
  induction l as [|[k v] l IH]; intros d Hnd; cbn [fold_left fst snd map] in *.
  - now rewrite app_nil_r.
  - rewrite dict_set_absent.
    + rewrite IH.
      * now rewrite <- app_assoc.
      * unfold dict_keys in *. rewrite map_app, <- app_assoc. exact Hnd.
    + apply NoDup_remove_2 in Hnd. intro Hin. apply Hnd. apply in_or_app. now left.
Qed.

Lemma dict_of_pairs_fresh (K V : Type) `{EqDec K} (l : list (K * V)) :
  NoDup (map fst l) -> dict_of_pairs l = l.
Proof. intro Hnd. unfold dict_of_pairs. now rewrite dict_of_pairs_fold_fresh. Qed.

(** X13: for items without repetition,
    [match_items_and_compute_binary_indicators] lists for every item the
    indices of its matching rows once, in row order, and its binary cell is
    1.0 for a match, 0.0 for a value that does not match, and for a missing
    value nan, or 0.0 when [missing_as_zero] is set. *)
Theorem masked_binary_indicator
        (col : list (option string)) (items : list string)
        (value_type separator : string) (missing_as_zero : bool)
        (match_indices : dict string (list nat)) (ind : dict string DataFrame) :
  NoDup items ->
  match_items_and_compute_binary_indicators col items value_type separator
                                            true missing_as_zero
  = Ok (match_indices, ind) ->
  (forall item : string,
      In item items ->
      dict_get match_indices item
      = Some (matching_rows value_type separator items item (indexed col))) /\
  exists binary : DataFrame,
    dict_get ind "binary" = Some binary /\
    columns binary = items /\
    forall (idx : nat) (cell : option string),
      nth_error col idx = Some cell ->
      nth_error (values binary) idx
      = Some (map (fun item =>
                     match cell with
                     | Some val =>
                         if row_matches value_type separator items item val
                         then Fin 1 else Fin 0
                     | None => if missing_as_zero then Fin 0 else NaN
                     end) items).
Proof.
  intros Hnd. unfold match_items_and_compute_binary_indicators.
  rewrite dict_of_pairs_fresh
    by (rewrite map_map; cbn [fst]; rewrite map_id; exact Hnd).
  destruct (match_rows value_type separator items (indexed col)
                       (map (fun item => (item, [])) items)) as [mi|e] eqn:Hrun;
    [|discriminate].
  cbn [rbind negb]. intros [= <- <-].
  destruct (@match_rows_spec value_type separator items Hnd _ _ _ Hrun) as [_ Hget].
  assert (Hlists : forall item : string,
             In item items ->
             dict_get mi item
             = Some (matching_rows value_type separator items item (indexed col))).
  { intros item Hin. rewrite Hget, empty_lists_get.
    now rewrite (proj2 (mem_In item items) Hin). }
  split; [exact Hlists|].
  eexists. split; [reflexivity|]. cbn [columns values]. split; [reflexivity|].
  intros idx cell Hcell.
  rewrite nth_error_map. unfold indexed. rewrite (indexed_nth col 0 idx Hcell).
  cbn [option_map fst snd Nat.add]. f_equal. unfold masked_row.
  destruct cell as [val|]; [|reflexivity].
  unfold binary_row. apply map_ext_in. intros item Hin.
  rewrite (Hlists item Hin).
  now rewrite (mem_matching_rows value_type separator items item col idx Hcell).
Qed.

(** ** Sample calls *)

Definition keyword_column : list (option string) := [Some "A; B"; None; Some "B"].

Lemma excluded_items_witness :
  select_documents no_weighting keyword_column ["A"; "B"; "C"] ["C"] None
                   false false "; " "list" None
  = Ok ([("A", [0; 0]); ("B", [0; 2; 0; 2])]%nat, []) /\
  NoDup (dict_keys [("A", [0; 0]); ("B", [0; 2; 0; 2])]%nat) /\
  (forall item : string,
      In item (dict_keys [("A", [0; 0]); ("B", [0; 2; 0; 2])]%nat)
      <-> In item (given_items ["A"; "B"; "C"] None) /\ ~ In item ["C"]) /\
  (false = true ->
   exists binary : DataFrame,
     dict_get (@nil (string * DataFrame)) "binary" = Some binary /\
     columns binary = dict_keys [("A", [0; 0]); ("B", [0; 2; 0; 2])]%nat).
Proof.
  split; [reflexivity|].
  apply (@excluded_items_are_never_selected no_weighting keyword_column
           ["A"; "B"; "C"] ["C"] None false false "; " "list" None).
  reflexivity.
Defined.

Lemma match_indices_twice_witness :
  select_documents no_weighting keyword_column ["A"; "B"; "C"] ["C"] None
                   false false "; " "list" None
  = Ok ([("A", [0; 0]); ("B", [0; 2; 0; 2])]%nat, []) /\
  forall item : string,
    In item (dict_keys [("A", [0; 0]); ("B", [0; 2; 0; 2])]%nat) ->
    let rows := matching_rows "list" "; "
                  (dict_keys [("A", [0; 0]); ("B", [0; 2; 0; 2])]%nat) item
                  (indexed keyword_column) in
    dict_get [("A", [0; 0]); ("B", [0; 2; 0; 2])]%nat item = Some (rows ++ rows).
Proof.
  split; [reflexivity|].
  apply (@match_indices_hold_each_row_twice no_weighting keyword_column
           ["A"; "B"; "C"] ["C"] None false false "; " "list" None
           [("A", [0; 0]); ("B", [0; 2; 0; 2])]%nat []).
  reflexivity.
Defined.

Definition source_column : list (option string) := [Some "A"; None; Some "B"].

Definition source_indicators : dict string DataFrame :=
  [("binary", mkDataFrame ["A"; "B"] [[Fin 1; Fin 0]; [Fin 0; Fin 0]; [Fin 0; Fin 1]])].

Lemma binary_indicator_witness :
  select_documents no_weighting source_column ["A"; "B"] [] None
                   true false "; " "string" None
  = Ok ([("A", [0; 0]); ("B", [2; 2])]%nat, source_indicators) /\
  exists binary : DataFrame,
    dict_get source_indicators "binary" = Some binary /\
    List.length (values binary) = List.length source_column /\
    (forall (idx : nat) (cell : option string),
      nth_error source_column idx = Some cell ->
      nth_error (values binary) idx
      = Some (map (fun item =>
                     match cell with
                     | Some val =>
                         if row_matches "string" "; " (columns binary) item val
                         then Fin 1 else Fin 0
                     | None => Fin 0
                     end) (columns binary))) /\
    Forall (Forall (fun v => v = Fin 0 \/ v = Fin 1)) (values binary).
Proof.
  split; [reflexivity|].
  apply (@binary_indicator_marks_matching_rows no_weighting source_column
           ["A"; "B"] [] None false "; " "string" None
           [("A", [0; 0]); ("B", [2; 2])]%nat).
  reflexivity.
Defined.

Definition shared_indicators : dict string DataFrame :=
  [("binary", mkDataFrame ["A"; "B"] [[Fin 1; Fin 1]; [Fin 0; Fin 0]]);
   ("fractional",
    mkDataFrame ["A"; "B"]
                [[Fin (0 + 1 / INR 2); Fin (0 + 1 / INR 2)]; [Fin 0; Fin 0]])].

Lemma fractional_cells_witness :
  select_documents no_weighting [Some "A; B"; None] ["A"; "B"] [] None true false
                   "; " "list" None
  = Ok ([("A", [0; 0]); ("B", [0; 0])]%nat, shared_indicators) /\
  exists binary frac : DataFrame,
    dict_get shared_indicators "binary" = Some binary /\
    dict_get shared_indicators "fractional" = Some frac /\
    columns frac = columns binary /\
    forall (idx : nat) (val : string),
      nth_error [Some "A; B"; None] idx = Some (Some val) ->
      exists (parts : list string) (brow frow : list npfloat),
        cell_parts "; " val = Ok parts /\
        nth_error (values binary) idx = Some brow /\
        nth_error (values frac) idx = Some frow /\
        forall (j : nat) (item : string),
          nth_error (columns frac) j = Some item ->
          exists x : R,
            nth_error frow j = Some (Fin x) /\
            x = INR (count_occ string_dec parts item) / INR (List.length parts) /\
            (0 < x <-> In item parts) /\
            nth_error brow j = Some (if mem item parts then Fin 1 else Fin 0).
Proof.
  split; [reflexivity|].
  apply (@fractional_cells_share_the_document no_weighting [Some "A; B"; None]
           ["A"; "B"] [] None false "; " None
           [("A", [0; 0]); ("B", [0; 0])]%nat).
  reflexivity.
Defined.

Lemma masked_binary_indicator_witness :
  NoDup ["A"] /\
  match_items_and_compute_binary_indicators [Some "A"; None] ["A"] "string" "; "
                                            true false
  = Ok ([("A", [0%nat])], [("binary", mkDataFrame ["A"] [[Fin 1]; [NaN]])]) /\
  (forall item : string,
      In item ["A"] ->
      dict_get [("A", [0%nat])] item
      = Some (matching_rows "string" "; " ["A"] item (indexed [Some "A"; None]))) /\
  exists binary : DataFrame,
    dict_get [("binary", mkDataFrame ["A"] [[Fin 1]; [NaN]])] "binary" = Some binary /\
    columns binary = ["A"] /\
    forall (idx : nat) (cell : option string),
      nth_error [Some "A"; None] idx = Some cell ->
      nth_error (values binary) idx
      = Some (map (fun item =>
                     match cell with
                     | Some val =>
                         if row_matches "string" "; " ["A"] item val
                         then Fin 1 else Fin 0
                     | None => if false then Fin 0 else NaN
                     end) ["A"]).
Proof.
  assert (Hnd : NoDup ["A"]) by (repeat constructor; intros []).
  split; [exact Hnd|]. split; [reflexivity|].
  apply (@masked_binary_indicator [Some "A"; None] ["A"] "string" "; " false
           [("A", [0%nat])] [("binary", mkDataFrame ["A"] [[Fin 1]; [NaN]])] Hnd).
  reflexivity.
Defined.

(* ------------------------------------------------------------------ *)
(** * What [add_partitions] leaves alone *)

Lemma write_partition_edges (G : ItemGraph) (attr : string) (items : list (string * Z)) :
  edge_list (write_partition G attr items) = edge_list G.
Proof.
  revert G. induction items as [|[node cid] rest IH]; intro G; cbn [write_partition];
    [reflexivity|].
  destruct (set_node_attr G node attr (VInt cid)) as [G'|e] eqn:E; [|reflexivity].
  rewrite IH. unfold set_node_attr in E.
  destruct (dict_get (node_attrs G) node); [|discriminate].
  injection E as <-. reflexivity.
Qed.

Lemma attempt_edges (state : ItemGraph * dict string partition)
      (config : string * (ItemGraph -> result partition)) :
  edge_list (fst (attempt state config)) = edge_list (fst state).
Proof.
  destruct state as [G results], config as [name func]. cbn [attempt fst].
  destruct (func G); cbn [fst]; [apply write_partition_edges | reflexivity].
Qed.

Lemma attempt_foreign_attr (state : ItemGraph * dict string partition)
      (config : string * (ItemGraph -> result partition)) (n key : string) :
  key <> ("partition_" ++ fst config)%string ->
  get_node_attr (fst (attempt state config)) n key = get_node_attr (fst state) n key.
Proof.
  destruct state as [G results], config as [name func]. cbn [attempt fst]. intro Hne.
  destruct (func G); cbn [fst]; [|reflexivity].
  apply write_partition_other_attr. exact Hne.
Qed.

Lemma run_untouched (cfgs : list (string * (ItemGraph -> result partition))) :
  forall state : ItemGraph * dict string partition,
    edge_list (fst (fold_left attempt cfgs state)) = edge_list (fst state) /\
    forall n key : string,
      (forall name, In name (map fst cfgs) -> key <> ("partition_" ++ name)%string) ->
      get_node_attr (fst (fold_left attempt cfgs state)) n key
      = get_node_attr (fst state) n key.
Proof.
  induction cfgs as [|c cfgs IH]; intro state; cbn [fold_left map].
  - split; [reflexivity | intros; reflexivity].
  - destruct (IH (attempt state c)) as [He Ha]. split.
    + rewrite He. apply attempt_edges.
    + intros n key Hkey. rewrite Ha.
      * apply attempt_foreign_attr. apply Hkey. now left.
      * intros name Hin. apply Hkey. now right.
Qed.

Section PartitionFootprint.

Variable community_louvain : option (ItemGraph -> result (list (string * Z))).
Variable ig : option igraph_lib.
Variable greedy_modularity_communities : ItemGraph -> result (list (list string)).
Variable asyn_lpa_communities : ItemGraph -> result (list (list string)).
Variable girvan_newman : ItemGraph -> nat -> result (list (list string)).
Variable k_clique_communities : ItemGraph -> result (list (list string)).
Variable kernighan_lin_bisection : ItemGraph -> result (list string * list string).

(** X14: whatever the community back-ends do, [add_partitions] changes no
    edge of the graph and no node attribute other than the twelve
    [partition_<name>] attributes of its configured algorithms. *)
Theorem add_partitions_touches_only_partition_attributes
        (G : ItemGraph) (kw : partition_kwargs) :
  let final :=
      add_partitions community_louvain ig greedy_modularity_communities
                     asyn_lpa_communities girvan_newman k_clique_communities
                     kernighan_lin_bisection G kw in
  edge_list (fst final) = edge_list G /\
  forall n key : string,
    ~ In key (map (fun name => ("partition_" ++ name)%string)
                  [ "walktrap"; "edge_betweenness"; "infomap"; "leading_eigenvector";
                    "leiden"; "spinglass"; "louvain"; "greedy_modularity";
                    "label_propagation"; "girvan_newman"; "k_clique";
                    "kernighan_lin" ]) ->
    get_node_attr (fst final) n key = get_node_attr G n key.
Proof.
  cbv zeta. unfold add_partitions.
  set (cfgs := configs community_louvain ig greedy_modularity_communities
                       asyn_lpa_communities girvan_newman k_clique_communities
                       kernighan_lin_bisection kw).
  destruct (run_untouched cfgs (G, [])) as [He Ha]. cbn [fst] in He, Ha.
  split; [exact He|].
  intros n key Hkey. apply Ha. intros name Hin E. apply Hkey.
  rewrite E. apply in_map. exact Hin.
Qed.

End PartitionFootprint.

(* ------------------------------------------------------------------ *)
(** * Community ids of the partition wrappers *)

(** The position of the last community that holds [node], counting from [i]. *)
Fixpoint last_community_from (i : nat) (communities : list (list string))
         (node : string) : option nat :=
  match communities with
  | [] => None
  | comm :: rest =>
      match last_community_from (S i) rest node with
      | Some j => Some j
      | None => if mem node comm then Some i else None
      end
  end.

Lemma community_fold (cid : Z) (comm : list string) (node : string) :
  forall d : partition,
    dict_get (fold_left (fun d kv => dict_set d (fst kv) (snd kv))
                        (map (fun n : string => (n, cid)) comm) d) node
    = if mem node comm then Some cid else dict_get d node.
Proof.
  induction comm as [|n comm IH]; intro d; cbn [map fold_left fst snd mem existsb].
  - reflexivity.
  - fold (mem node comm). rewrite IH. destruct (mem node comm); [now rewrite orb_true_r|].
    rewrite orb_false_r. unfold eqb_of. rewrite dict_get_set.
    destruct (eq_dec node n); reflexivity.
Qed.

Lemma communities_fold (communities : list (list string)) (node : string) :
  forall (i : nat) (d : partition),
    dict_get
      (fold_left (fun d kv => dict_set d (fst kv) (snd kv))
         (List.concat
            (map (fun ic : nat * list string =>
                    map (fun n : string => (n, Z.of_nat (fst ic))) (snd ic))
                 (combine (seq i (List.length communities)) communities))) d) node
    = match last_community_from i communities node with
      | Some j => Some (Z.of_nat j)
      | None => dict_get d node
      end.
Proof.
  induction communities as [|comm rest IH]; intros i d;
    cbn [List.length seq combine map List.concat last_community_from fst snd].
  - reflexivity.
  - rewrite fold_left_app, IH.
    destruct (last_community_from (S i) rest node); [reflexivity|].
    rewrite community_fold. destruct (mem node comm); reflexivity.
Qed.

Lemma last_community_from_spec (communities : list (list string)) (node : string) :
  forall i j : nat,
    last_community_from i communities node = Some j <->
    (i <= j)%nat /\
    (exists comm, nth_error communities (j - i) = Some comm /\ In node comm) /\
    forall (k : nat) (comm : list string),
      (j - i < k)%nat -> nth_error communities k = Some comm -> ~ In node comm.
Proof.
  induction communities as [|comm rest IH]; intros i j; cbn [last_community_from].
  - split; [discriminate|]. intros (_ & (c & Hc & _) & _).
    destruct (j - i)%nat; discriminate.
  - destruct (last_community_from (S i) rest node) as [j'|] eqn:E.
    + apply (proj1 (IH (S i) j')) in E. destruct E as (Hle & (c & Hc & Hin) & Hlast).
      split.
      * intros [= <-]. split; [lia|]. split.
        -- exists c. replace (j' - i)%nat with (S (j' - S i)) by lia. tauto.
        -- intros [|k] c' Hk Hc'; [lia|]. cbn [nth_error] in Hc'.
           apply (Hlast k c'); [lia | exact Hc'].
      * intros (Hij & (c0 & Hc0 & Hin0) & Hlast0). f_equal.
        destruct (Nat.lt_trichotomy j j') as [Hlt|[Heq|Hgt]]; [|exact (eq_sym Heq)|].
        -- exfalso. apply (Hlast0 (S (j' - S i)) c); [lia | exact Hc | exact Hin].
        -- exfalso. destruct (j - i)%nat as [|m] eqn:Em; [lia|].
           cbn [nth_error] in Hc0. apply (Hlast m c0); [lia | exact Hc0 | exact Hin0].
    + assert (Hnone : forall k c, nth_error rest k = Some c -> ~ In node c).
      { intros k c Hc Hin.
        assert (Hex : exists j0, last_community_from (S i) rest node = Some j0).
        { clear E IH. revert i k Hc. induction rest as [|c0 rest IHr]; intros i k Hc;
            [destruct k; discriminate|].
          cbn [last_community_from].
          destruct (last_community_from (S (S i)) rest node) as [j0|] eqn:E0;
            [now exists j0|].
          destruct k as [|k]; cbn [nth_error] in Hc.
          - injection Hc as ->. rewrite (proj2 (mem_In node c) Hin). now eexists.
          - destruct (IHr (S i) k Hc) as [j0 Hj0]. congruence. }
        destruct Hex as [j0 Hj0]. congruence. }
      destruct (mem node comm) eqn:Em.
      * apply (proj1 (mem_In _ _)) in Em. split.
        -- intros [= <-]. split; [lia|]. rewrite Nat.sub_diag. split.
           ++ exists comm. split; [reflexivity | exact Em].
           ++ intros [|k] c Hk Hc; [lia|]. cbn [nth_error] in Hc. eapply Hnone, Hc.
        -- intros (Hij & (c0 & Hc0 & Hin0) & _). f_equal.
           destruct (j - i)%nat as [|m] eqn:E0; [lia|].
           cbn [nth_error] in Hc0. exfalso. exact (Hnone m c0 Hc0 Hin0).
      * apply (proj1 (mem_false _ _)) in Em. split; [discriminate|].
        intros (Hij & (c0 & Hc0 & Hin0) & _).
        destruct (j - i)%nat as [|m]; cbn [nth_error] in Hc0.
        -- injection Hc0 as ->. contradiction.
        -- exfalso. exact (Hnone m c0 Hc0 Hin0).
Qed.

(** X15: in the node-to-community dictionary that the partition wrappers
    build from a list of communities, a node has an entry exactly when some
    community holds it, and its id is the position of the last community
    that holds it (with disjoint communities: of its community). *)
Theorem community_id_is_last_position (communities : list (list string))
        (node : string) (cid : Z) :
  dict_get (enumerate_communities communities) node = Some cid <->
  exists (i : nat) (comm : list string),
    cid = Z.of_nat i /\
    nth_error communities i = Some comm /\ In node comm /\
    forall (j : nat) (later : list string),
      (i < j)%nat -> nth_error communities j = Some later -> ~ In node later.
Proof.
  unfold enumerate_communities, dict_of_pairs.
  rewrite (communities_fold communities node 0 []). cbn [dict_get].
  split.
  - destruct (last_community_from 0 communities node) as [i|] eqn:E; [|discriminate].
    intros [= <-]. apply (proj1 (last_community_from_spec communities node 0 i)) in E.
    rewrite Nat.sub_0_r in E. destruct E as (_ & (comm & Hc & Hin) & Hlast).
    exists i, comm. repeat split; try assumption.
  - intros (i & comm & -> & Hc & Hin & Hlast).
    assert (E : last_community_from 0 communities node = Some i).
    { apply last_community_from_spec. rewrite Nat.sub_0_r.
      split; [lia|]. split; [now exists comm | exact Hlast]. }
    now rewrite E.
Qed.

(* ------------------------------------------------------------------ *)
(** * The edges of the citation network *)

Section CitationEdges.

Variable partial_ratio : string -> string -> Q.
Variable weakly_connected_components : DiGraph nat -> list (list nat).
Variable threshold : Q.

(** Row [i] has a reference that is matched to the title of row [j]. *)
Definition refers_to (docs : list Document) (norm_titles : list string)
           (i j : nat) : Prop :=
  exists (d : Document) (refs ref : string),
    nth_error docs i = Some d /\
    references d = Some refs /\
    In ref (reference_list refs) /\
    match_reference partial_ratio threshold norm_titles ref = Some j.

Lemma link_references_edges (norm_titles : list string) (idx : nat)
      (l : list string) :
  forall (G : DiGraph nat) (acc : list string) (e : nat * nat),
    In e (edge_list
            (fst (fold_left
                    (fun (st : DiGraph nat * list string) (ref : string) =>
                       match match_reference partial_ratio threshold norm_titles ref with
                       | Some tgt => (add_edge (fst st) idx tgt, snd st)
                       | None => (fst st, snd st ++ [ref])
                       end) l (G, acc))))
    <-> In e (edge_list G) \/
        exists (ref : string) (tgt : nat),
          In ref l /\
          match_reference partial_ratio threshold norm_titles ref = Some tgt /\
          e = (idx, tgt).
Proof.
  induction l as [|ref l IH]; intros G acc e; cbn [fold_left].
  - cbn [fst]. split; [tauto|]. intros [He|(r & t & [] & _)]. exact He.
  - destruct (match_reference partial_ratio threshold norm_titles ref) as [tgt|] eqn:Em;
      cbn [fst snd]; rewrite IH.
    + rewrite add_edge_edges. split.
      * intros [[->|He]|(r & t & Hr & Hm & ->)].
        -- right. exists ref, tgt. split; [now left|]. tauto.
        -- now left.
        -- right. exists r, t. split; [now right|]. tauto.
      * intros [He|(r & t & [<-|Hr] & Hm & ->)].
        -- tauto.
        -- left. left. congruence.
        -- right. exists r, t. tauto.
    + split.
      * intros [He|(r & t & Hr & Hm & ->)]; [now left|].
        right. exists r, t. split; [now right|]. tauto.
      * intros [He|(r & t & [<-|Hr] & Hm & ->)]; [tauto|congruence|].
        right. exists r, t. tauto.
Qed.

Lemma link_documents_edges (norm_titles : list string) (docs : list Document) :
  forall (k : nat) (st : DiGraph nat * dict nat (list string)) (e : nat * nat),
    In e (edge_list
            (fst (fold_left
                    (fun (st : DiGraph nat * dict nat (list string))
                         (row : nat * Document) =>
                       match references (snd row) with
                       | None => st
                       | Some refs =>
                           let linked :=
                             link_references partial_ratio threshold norm_titles
                                             (fst st) (fst row) (reference_list refs) in
                           match snd linked with
                           | [] => (fst linked, snd st)
                           | _ :: _ => (fst linked,
                                        dict_set (snd st) (fst row) (snd linked))
                           end
                       end)
                    (combine (seq k (List.length docs)) docs) st)))
    <-> In e (edge_list (fst st)) \/
        exists i j : nat,
          (k <= i)%nat /\ refers_to docs norm_titles (i - k) j /\ e = (i, j).
Proof.
  induction docs as [|d docs IH]; intros k st e; cbn [List.length seq combine fold_left].
  - split; [tauto|]. intros [He|(i & j & _ & (d & refs & ref & Hd & _) & _)]; [exact He|].
    destruct (i - k)%nat; discriminate.
  - rewrite IH. cbn [fst snd]. split.
    + intros [He|(i & j & Hk & (d' & refs & ref & Hd' & Hrest) & ->)].
      * destruct (references d) as [refs|] eqn:Er; [|now left].
        cbv zeta in He.
        assert (He' : In e (edge_list (fst (link_references partial_ratio threshold
                                              norm_titles (fst st) k
                                              (reference_list refs))))).
        { destruct (snd (link_references partial_ratio threshold norm_titles
                           (fst st) k (reference_list refs))); exact He. }
        unfold link_references in He'. apply link_references_edges in He'.
        destruct He' as [H0|(ref & tgt & Hr & Hm & ->)]; [now left|].
        right. exists k, tgt. split; [lia|]. split; [|reflexivity].
        exists d, refs, ref. rewrite Nat.sub_diag. tauto.
      * right. exists i, j. split; [lia|]. split; [|reflexivity].
        exists d', refs, ref. replace (i - k)%nat with (S (i - S k)) by lia. tauto.
    + intros [He|(i & j & Hk & (d' & refs & ref & Hd' & Hr & Hin & Hm) & ->)].
      * left. destruct (references d) as [refs|]; [|exact He]. cbv zeta.
        assert (He' : In e (edge_list (fst (link_references partial_ratio threshold
                                              norm_titles (fst st) k
                                              (reference_list refs))))).
        { unfold link_references. apply link_references_edges. now left. }
        destruct (snd (link_references partial_ratio threshold norm_titles
                         (fst st) k (reference_list refs))); exact He'.
      * destruct (Nat.eq_dec i k) as [->|Hne].
        -- left. rewrite Nat.sub_diag in Hd'. cbn [nth_error] in Hd'.
           injection Hd' as <-. rewrite Hr. cbv zeta.
           assert (He' : In (k, j)
                            (edge_list (fst (link_references partial_ratio threshold
                                               norm_titles (fst st) k
                                               (reference_list refs))))).
           { unfold link_references. apply link_references_edges. right.
             exists ref, j. tauto. }
           destruct (snd (link_references partial_ratio threshold norm_titles
                            (fst st) k (reference_list refs))); exact He'.
        -- right. exists i, j. split; [lia|]. split; [|reflexivity].
           exists d', refs, ref.
           replace (i - k)%nat with (S (i - S k)) in Hd' by lia. tauto.
Qed.

(** X16: every edge of the network that [build_citation_network] returns
    runs from the identifier of a citing document to the identifier of a
    document that one of its references is matched to, another row; with
    [largest_only=False] there is such an edge for every such pair. *)
Theorem citation_edges_run_citing_to_cited
        (docs : list Document) (largest_only : bool)
        (G : DiGraph string) (unmatched : dict string (list string)) :
  build_citation_network partial_ratio weakly_connected_components
                         docs threshold largest_only = Ok (G, unmatched) ->
  exists norm_titles : list string,
    normalized_titles docs = Ok norm_titles /\
    (forall citing cited : string,
        In (citing, cited) (edge_list G) ->
        exists i j : nat,
          refers_to docs norm_titles i j /\ i <> j /\
          citing = doc_id_at docs i /\ cited = doc_id_at docs j) /\
    (largest_only = false ->
     forall i j : nat,
       refers_to docs norm_titles i j -> i <> j ->
       In (doc_id_at docs i, doc_id_at docs j) (edge_list G)).
Proof.
  unfold build_citation_network, citation_graph.
  destruct (normalized_titles docs) as [nt|e]; [|discriminate]. cbn [rbind]. cbv zeta.
  set (linked := link_documents partial_ratio threshold nt docs
                   (add_nodes_from empty_graph (seq 0 (List.length docs)))).
  set (P := prune_graph (fst linked)).
  assert (Hlinked : forall i j : nat,
             In (i, j) (edge_list (fst linked)) <-> refers_to docs nt i j).
  { intros i j. unfold linked, link_documents. rewrite link_documents_edges.
    cbn [fst]. rewrite add_nodes_from_edges. cbn [edge_list empty_graph]. split.
    - intros [[]|(i' & j' & _ & Hr & [= -> ->])]. now rewrite Nat.sub_0_r in Hr.
    - intro Hr. right. exists i, j. rewrite Nat.sub_0_r. split; [lia|]. tauto. }
  assert (HP : forall i j : nat,
             In (i, j) (edge_list P) <-> refers_to docs nt i j /\ i <> j).
  { intros i j. unfold P. rewrite prune_edges, Hlinked. reflexivity. }
  intro Hrun. exists nt. split; [reflexivity|].
  destruct (largest_only && (0 <? number_of_nodes P)%nat) eqn:Ecut.
  - destruct (max_by_len (weakly_connected_components P)) as [C|e]; [|discriminate].
    cbn [rbind fst snd] in Hrun.
    destruct (forallb (fun i => (i <? List.length docs)%nat)
                      (node_list (subgraph P C))); [|discriminate].
    injection Hrun as <- _. split.
    + intros citing cited He. apply relabel_edges in He.
      destruct He as (i & j & Hij & -> & ->). apply subgraph_edges in Hij.
      destruct Hij as [Hij _]. apply HP in Hij. exists i, j. tauto.
    + intros ->. discriminate Ecut.
  - cbn [rbind fst snd] in Hrun.
    destruct (forallb (fun i => (i <? List.length docs)%nat) (node_list P));
      [|discriminate].
    injection Hrun as <- _. split.
    + intros citing cited He. apply relabel_edges in He.
      destruct He as (i & j & Hij & -> & ->). apply HP in Hij. exists i, j. tauto.
    + intros _ i j Hr Hne. apply relabel_edges. exists i, j.
      split; [apply HP; tauto | tauto].
Qed.

End CitationEdges.

Lemma citation_edges_witness :
  build_citation_network zero_ratio one_component citing_pair 90%Q false
  = Ok (mkDiGraph [("D1", []); ("D2", [])] [("D1", "D2")], [("D1", ["zzz"])]) /\
  exists norm_titles : list string,
    normalized_titles citing_pair = Ok norm_titles /\
    (forall citing cited : string,
        In (citing, cited)
           (edge_list (mkDiGraph [("D1", @nil (string * attr_value)); ("D2", [])]
                                 [("D1", "D2")])) ->
        exists i j : nat,
          refers_to zero_ratio 90%Q citing_pair norm_titles i j /\ i <> j /\
          citing = doc_id_at citing_pair i /\ cited = doc_id_at citing_pair j) /\
    (false = false ->
     forall i j : nat,
       refers_to zero_ratio 90%Q citing_pair norm_titles i j -> i <> j ->
       In (doc_id_at citing_pair i, doc_id_at citing_pair j)
          (edge_list (mkDiGraph [("D1", @nil (string * attr_value)); ("D2", [])]
                                [("D1", "D2")]))).
Proof.
  assert (Hrun : build_citation_network zero_ratio one_component citing_pair 90%Q false
                 = Ok (mkDiGraph [("D1", []); ("D2", [])] [("D1", "D2")],
                       [("D1", ["zzz"])])) by (vm_compute; reflexivity).
  split; [exact Hrun|].
  exact (@citation_edges_run_citing_to_cited zero_ratio one_component 90%Q citing_pair
           false _ _ Hrun).
Defined.

(* ------------------------------------------------------------------ *)
(** * Matching a reference to a title *)

Section ReferenceMatching.

Variable partial_ratio : string -> string -> Q.
Variable threshold : Q.

Lemma Qgtb_true (a b : Q) : Qgtb a b = true <-> (b < a)%Q.
Proof.
  unfold Qgtb. rewrite negb_true_iff. split.
  - intro E. apply Qnot_le_lt. intro Hle. apply Qle_bool_iff in Hle. congruence.
  - intro Hlt. destruct (Qle_bool a b) eqn:E; [|reflexivity].
    apply Qle_bool_iff in E. exfalso. exact (Qlt_not_le _ _ Hlt E).
Qed.

Lemma Qgtb_false (a b : Q) : Qgtb a b = false <-> (a <= b)%Q.
Proof.
  unfold Qgtb. rewrite negb_false_iff. apply Qle_bool_iff.
Qed.

(** The scan keeps the first title with the highest score above the one
    it starts from. *)
Lemma best_scan (norm_ref : string) (titles : list string) :
  forall (k : nat) (m0 : Q) (t0 : option nat),
    let final :=
        fold_left
          (fun (best : Q * option nat) (jt : nat * string) =>
             let score := partial_ratio norm_ref (snd jt) in
             if Qgtb score (fst best) then (score, Some (fst jt)) else best)
          (combine (seq k (List.length titles)) titles) (m0, t0) in
    (forall (i : nat) (t : string),
        nth_error titles i = Some t -> (partial_ratio norm_ref t <= fst final)%Q) /\
    (final = (m0, t0) \/
     exists (j : nat) (t : string),
       snd final = Some (k + j)%nat /\
       nth_error titles j = Some t /\
       fst final = partial_ratio norm_ref t /\
       (m0 < fst final)%Q /\
       forall (i : nat) (t' : string),
         (i < j)%nat -> nth_error titles i = Some t' ->
         (partial_ratio norm_ref t' < fst final)%Q).
Proof.
  induction titles as [|x titles IH]; intros k m0 t0;
    cbn [List.length seq combine fold_left].
  - cbv zeta. split; [|now left]. intros [|i] t Hi; discriminate.
  - cbv zeta. cbn [fst snd].
    destruct (Qgtb (partial_ratio norm_ref x) m0) eqn:Eg.
    + apply Qgtb_true in Eg.
      specialize (IH (S k) (partial_ratio norm_ref x) (Some k)). cbv zeta in IH.
      destruct IH as [Hall Hbest].
      set (final := fold_left _ _ _) in *.
      assert (Hx : (partial_ratio norm_ref x <= fst final)%Q).
      { destruct Hbest as [->|(j & t & _ & _ & _ & Hlt & _)];
          [apply Qle_refl | apply Qlt_le_weak, Hlt]. }
      split.
      * intros [|i] t Hi; cbn [nth_error] in Hi; [injection Hi as <-; exact Hx|].
        exact (Hall i t Hi).
      * right. destruct Hbest as [E|(j & t & Hs & Ht & Hm & Hlt & Hfirst)].
        -- exists 0%nat, x. rewrite E. cbn [fst snd]. rewrite Nat.add_0_r.
           repeat split; try reflexivity; try assumption.
           intros i t' Hi. lia.
        -- exists (S j), t. rewrite Hs. split; [f_equal; lia|].
           split; [exact Ht|]. split; [exact Hm|].
           split; [eapply Qlt_trans; [exact Eg | exact Hlt]|].
           intros [|i] t' Hi Ht'; cbn [nth_error] in Ht'.
           ++ injection Ht' as <-. exact Hlt.
           ++ apply (Hfirst i t'); [lia | exact Ht'].
    + apply Qgtb_false in Eg.
      specialize (IH (S k) m0 t0). cbv zeta in IH. destruct IH as [Hall Hbest].
      set (final := fold_left _ _ _) in *.
      assert (Hm0 : (m0 <= fst final)%Q).
      { destruct Hbest as [->|(j & t & _ & _ & _ & Hlt & _)];
          [apply Qle_refl | apply Qlt_le_weak, Hlt]. }
      split.
      * intros [|i] t Hi; cbn [nth_error] in Hi.
        -- injection Hi as <-. eapply Qle_trans; [exact Eg | exact Hm0].
        -- exact (Hall i t Hi).
      * destruct Hbest as [E|(j & t & Hs & Ht & Hm & Hlt & Hfirst)]; [now left|].
        right. exists (S j), t. rewrite Hs. split; [f_equal; lia|].
        split; [exact Ht|]. split; [exact Hm|]. split; [exact Hlt|].
        intros [|i] t' Hi Ht'; cbn [nth_error] in Ht'.
        -- injection Ht' as <-. eapply Qle_lt_trans; [exact Eg | exact Hlt].
        -- apply (Hfirst i t'); [lia | exact Ht'].
Qed.

Lemma index_of_spec (x : string) (l : list string) :
  match index_of x l with
  | Some i => nth_error l i = Some x /\
              forall k : nat, (k < i)%nat -> nth_error l k <> Some x
  | None => ~ In x l
  end.
Proof.
  induction l as [|y l IH]; cbn [index_of]; [tauto|].
  destruct (string_dec x y) as [->|Hne].
  - split; [reflexivity | intros k Hk; lia].
  - destruct (index_of x l) as [i|].
    + destruct IH as [Hi Hfirst]. split; [exact Hi|].
      intros [|k] Hk; cbn [nth_error]; [congruence|]. apply Hfirst. lia.
    + intros [E|Hin]; [congruence | contradiction].
Qed.

(** X17: a reference whose normalized text is a normalized title is matched
    to the first document with that title, whatever the fuzzy scores and the
    threshold; any other reference is matched to the first title with the
    highest fuzzy score, provided that score is positive and reaches the
    threshold, and to nothing otherwise. *)
Theorem match_reference_prefers_exact_then_first_best
        (norm_titles : list string) (ref : string) :
  let norm_ref := normalize ref in
  let score := partial_ratio norm_ref in
  match match_reference partial_ratio threshold norm_titles ref with
  | Some j =>
      exists t : string,
        nth_error norm_titles j = Some t /\
        (t = norm_ref /\
         (forall k : nat, (k < j)%nat -> nth_error norm_titles k <> Some norm_ref)
         \/
         ~ In norm_ref norm_titles /\
         (threshold <= score t)%Q /\ (0 < score t)%Q /\
         forall (k : nat) (t' : string),
           nth_error norm_titles k = Some t' ->
           (score t' <= score t)%Q /\ ((k < j)%nat -> (score t' < score t)%Q))
  | None =>
      ~ In norm_ref norm_titles /\
      forall t : string,
        In t norm_titles -> (score t < threshold)%Q \/ (score t <= 0)%Q
  end.
Proof.
  cbv zeta. unfold match_reference. cbv zeta.
  pose proof (index_of_spec (normalize ref) norm_titles) as Hidx.
  destruct (index_of (normalize ref) norm_titles) as [i|].
  - destruct Hidx as [Hi Hfirst]. exists (normalize ref). split; [exact Hi|].
    left. split; [reflexivity | exact Hfirst].
  - unfold best_fuzzy.
    pose proof (best_scan (normalize ref) norm_titles 0 0%Q None) as Hscan.
    cbv zeta in Hscan. destruct Hscan as [Hall Hbest].
    set (final := fold_left _ _ _) in *.
    destruct (Qgeb (fst final) threshold) eqn:Eth.
    + unfold Qgeb in Eth. apply Qle_bool_iff in Eth.
      destruct Hbest as [E|(j & t & Hs & Ht & Hm & Hlt & Hfirst)].
      * rewrite E. cbn [snd]. split; [exact Hidx|].
        intros t Hin. right. apply In_nth_error in Hin. destruct Hin as [k Hk].
        specialize (Hall k t Hk). rewrite E in Hall. exact Hall.
      * rewrite Hs. cbn [Nat.add]. exists t. split; [exact Ht|]. right.
        split; [exact Hidx|]. rewrite <- Hm.
        split; [exact Eth|]. split; [exact Hlt|].
        intros k t' Hk. split; [exact (Hall k t' Hk)|].
        intro Hkj. exact (Hfirst k t' Hkj Hk).
    + split; [exact Hidx|]. intros t Hin. left.
      apply In_nth_error in Hin. destruct Hin as [k Hk].
      eapply Qle_lt_trans; [exact (Hall k t Hk)|].
      apply Qnot_le_lt. intro Hle. unfold Qgeb in Eth.
      apply Qle_bool_iff in Hle. congruence.
Qed.

End ReferenceMatching.

(* ------------------------------------------------------------------ *)
(** * Self co-occurrence: symmetric normalizations *)

Section SymmetricNormalizations.

Variable tfidf_fit_transform : matrix -> result matrix.
Variable fisher_exact :
  npfloat -> npfloat -> npfloat -> npfloat -> result (npfloat * npfloat).
Variable nxGraph : Type.
Variable from_pandas_adjacency : bool -> RelationFrame -> result nxGraph.
Variable fault : site -> bool.

(** X20: for self co-occurrence of a binary indicator frame, each of the
    returned 'association', 'inclusion', 'salton', 'yule_q', 'jaccard' and
    'equivalence' matrices is symmetric. *)
Theorem self_normalizations_are_symmetric df1 df2 network (eps : npfloat) out :
  wf_frame df1 -> binary_frame df1 ->
  df2 = None \/ df2 = Some df1 ->
  compute_relation_matrix tfidf_fit_transform fisher_exact
    from_pandas_adjacency fault df1 df2 true false false network eps = Ok out ->
  forall name frame,
    In name ["association"; "inclusion"; "salton"; "yule_q"; "jaccard"; "equivalence"] ->
    dict_get (out_normalized out) name = Some frame ->
    forall i j : nat,
      (i < n_cols df1)%nat -> (j < n_cols df1)%nat ->
      mat_get (cells frame) i j = mat_get (cells frame) j i.
Proof.
  intros W B Hself Hout.
  apply compute_relation_matrix_inv in Hout
    as (e1 & e2 & [-> ->] & E & _ & Hrel & Hnm).
  assert (Hd2 : second_frame df1 df2 = df1) by (destruct Hself; subst; reflexivity).
  rewrite Hd2 in *. clear Hd2.
  rewrite Hrel in Hnm. cbn [cells] in Hnm.
  pose proof (normalized_lookup fisher_exact fault df1 df1 (product df1 df1) eps)
    as (L1 & L2 & L3 & L4 & _ & L6 & L7).
  cbv zeta in *. rewrite <- Hnm in *. clear Hnm Hrel.
  assert (HR : forall i j, (i < n_cols df1)%nat -> (j < n_cols df1)%nat ->
            mat_get (product df1 df1) i j = mat_get (product df1 df1) j i).
  { intros i j Hi Hj. unfold product. rewrite !mat_get_init by assumption.
    rewrite !relation_cell_counts by assumption.
    unfold co_count. now rewrite count_both_sym. }
  assert (Hsum : forall i, (i < n_cols df1)%nat ->
            exists p : R, nth i (sum_axis0 df1) NaN = Fin p).
  { intros i Hi. rewrite doc_freq_is_column_sum by assumption. now eexists. }
  assert (Hx : forall i j, (i < n_cols df1)%nat -> (j < n_cols df1)%nat ->
            exists x : R, mat_get (product df1 df1) i j = Fin x).
  { intros i j Hi Hj. unfold product. rewrite mat_get_init by assumption.
    rewrite relation_cell_counts by assumption. now eexists. }
  intros name frame Hname Hget i j Hi Hj. simpl in Hname.
  destruct (Hsum i Hi) as [p Hp]. destruct (Hsum j Hj) as [q Hq].
  destruct (Hx i j Hi Hj) as [x Hxij]. pose proof (HR i j Hi Hj) as Hsym.
  rewrite Hxij in Hsym. symmetry in Hsym.
  destruct Hname as [<-|[<-|[<-|[<-|[<-|[<-|[]]]]]]].
  - rewrite L1 in Hget. destruct (fault s_association); [discriminate|].
    injection Hget as <-. cbn [cells safe_df]. unfold association.
    rewrite !mat_get_init by assumption. rewrite Hxij, Hsym, Hp, Hq.
    cbn [np_mul np_add]. now rewrite (Rmult_comm q p).
  - rewrite L2 in Hget. destruct (fault s_inclusion); [discriminate|].
    injection Hget as <-. cbn [cells safe_df]. unfold inclusion.
    rewrite !mat_get_init by assumption. rewrite Hxij, Hsym, Hp, Hq.
    cbn [np_minimum np_add]. now rewrite (Rmin_comm q p).
  - rewrite L3 in Hget. destruct (fault s_salton); [discriminate|].
    injection Hget as <-. cbn [cells safe_df]. unfold salton.
    rewrite !mat_get_init by assumption. rewrite Hxij, Hsym, Hp, Hq.
    cbn [np_mul]. now rewrite (Rmult_comm q p).
  - rewrite L4 in Hget. destruct (yule_raises fault); [discriminate|].
    injection Hget as <-. cbn [cells safe_df]. unfold yule_q.
    rewrite !mat_get_init by assumption. cbv zeta.
    unfold yule_d. rewrite !mat_get_init by assumption.
    unfold yule_b, yule_c. rewrite !mat_get_init by assumption.
    rewrite Hxij, Hsym, Hp, Hq. unfold np_of_nat.
    cbn [np_mul np_add np_sub].
    replace (x + (q - x) + (p - x)) with (x + (p - x) + (q - x)) by ring.
    now rewrite (Rmult_comm (q - x) (p - x)).
  - rewrite L6 in Hget. destruct (_ || _); [discriminate|].
    injection Hget as <-. cbn [cells safe_df]. unfold jaccard.
    rewrite !mat_get_init by assumption. rewrite Hxij, Hsym, Hp, Hq.
    cbn [np_add np_sub]. now rewrite (Rplus_comm q p).
  - rewrite L7 in Hget. destruct (fault s_equivalence); [discriminate|].
    injection Hget as <-. cbn [cells safe_df]. unfold equivalence.
    rewrite !mat_get_init by assumption. rewrite Hxij, Hsym, Hp, Hq.
    cbn [np_mul np_add]. now rewrite (Rmult_comm q p).
Qed.

End SymmetricNormalizations.

Lemma self_normalizations_witness :
  exists out,
    compute_relation_matrix sample_tfidf sample_fisher sample_adjacency no_fault
      scenario_frame None true false false false default_eps = Ok out /\
    forall frame,
      dict_get (out_normalized out) "jaccard" = Some frame ->
      forall i j : nat,
        (i < n_cols scenario_frame)%nat -> (j < n_cols scenario_frame)%nat ->
        mat_get (cells frame) i j = mat_get (cells frame) j i.
Proof.
  eexists. split; [reflexivity|].
  intros frame Hget.
  refine (@self_normalizations_are_symmetric
            sample_tfidf sample_fisher unit sample_adjacency no_fault
            scenario_frame None false default_eps _
            scenario_frame_wf scenario_frame_binary (or_introl eq_refl) eq_refl
            "jaccard" frame _ Hget).
  right. right. right. right. left. reflexivity.
Defined.

Section PmiGuard.

Variable tfidf_fit_transform : matrix -> result matrix.
Variable fisher_exact :
  npfloat -> npfloat -> npfloat -> npfloat -> result (npfloat * npfloat).
Variable nxGraph : Type.
Variable from_pandas_adjacency : bool -> RelationFrame -> result nxGraph.
Variable fault : site -> bool.

(** X18: with [pmi=True], a second frame that is not equal to the first
    makes the call raise [ValueError], whatever [normalization], [network]
    and [eps] are; no result is returned. *)
Theorem pmi_needs_self_cooccurrence
        (df1 d2 : DataFrame) (normalization network : bool) (eps : npfloat) :
  d2 <> df1 ->
  compute_relation_matrix tfidf_fit_transform fisher_exact from_pandas_adjacency
                          fault df1 (Some d2) normalization true false network eps
  = Raise ValueError.
Proof.
  intro Hne. unfold compute_relation_matrix. cbn [rbind].
  unfold matmul_T. destruct (Nat.eqb (n_rows df1) (n_rows d2)); cbn [rbind];
    [|reflexivity].
  destruct (df_equals df1 d2) eqn:E; [|reflexivity].
  apply df_equals_true in E. congruence.
Qed.

End PmiGuard.

Lemma pmi_needs_self_cooccurrence_witness :
  empty_document_frame <> scenario_frame /\
  compute_relation_matrix sample_tfidf sample_fisher sample_adjacency no_fault
    scenario_frame (Some empty_document_frame) false true false false default_eps
  = Raise ValueError.
Proof.
  assert (Hne : empty_document_frame <> scenario_frame) by discriminate.
  split; [exact Hne|].
  exact (@pmi_needs_self_cooccurrence sample_tfidf sample_fisher unit sample_adjacency
           no_fault scenario_frame empty_document_frame false false default_eps Hne).
Defined.

Lemma scenario_total :
  mat_sum (product scenario_frame scenario_frame) = Fin 17.
Proof.
  unfold mat_sum, product, np_sum. cbn. f_equal. lra.
Qed.

Lemma scenario_finite : finite_frame scenario_frame.
Proof.
  unfold finite_frame, scenario_frame. cbn [values].
  repeat (constructor; [repeat (constructor; [eexists; reflexivity|]); constructor|]).
  constructor.
Qed.

Lemma pmi_entries_nonnegative_witness :
  exists out,
    compute_relation_matrix sample_tfidf sample_fisher sample_adjacency no_fault
      scenario_frame None false true false false default_eps = Ok out /\
    forall i j, (i < n_cols scenario_frame)%nat -> (j < n_cols scenario_frame)%nat ->
      exists x a b : R,
        mat_get (product scenario_frame scenario_frame) i j = Fin x /\
        mat_get (product scenario_frame scenario_frame) i i = Fin a /\
        mat_get (product scenario_frame scenario_frame) j j = Fin b /\
        mat_get (cells (out_relation out)) i j
        = Fin (Rmax 0 (ln (Rmax (x / 17) (1 / 1000000000)
                           / (Rmax (a / 17) (1 / 1000000000)
                              * Rmax (b / 17) (1 / 1000000000))))) /\
        0 <= Rmax 0 (ln (Rmax (x / 17) (1 / 1000000000)
                         / (Rmax (a / 17) (1 / 1000000000)
                            * Rmax (b / 17) (1 / 1000000000)))).
Proof.
  assert (Hrun : { out | compute_relation_matrix sample_tfidf sample_fisher
                           sample_adjacency no_fault scenario_frame None
                           false true false false default_eps = Ok out }).
  { unfold compute_relation_matrix. cbn [rbind].
    unfold matmul_T. cbn [n_rows scenario_frame values List.length Nat.eqb rbind].
    rewrite df_equals_refl. cbn [rbind]. eexists. reflexivity. }
  destruct Hrun as [out Hout]. exists out. split; [exact Hout|].
  assert (Ht : (17 : R) <> 0) by lra.
  exact (@pmi_entries_nonnegative sample_tfidf sample_fisher unit sample_adjacency
           no_fault scenario_frame None false false (1 / 1000000000) 17 out
           scenario_frame_wf scenario_finite (or_introl eq_refl)
           default_eps_positive scenario_total Ht Hout).
Defined.

(* ------------------------------------------------------------------ *)
(** * normalize_symmetric_matrix *)

(** [x > 0] on floats: false on nan. *)
Definition np_gt0 (a : npfloat) : bool :=
  match a with
  | Fin x => if Rlt_dec 0 x then true else false
  | PInf => true
  | NInf | NaN => false
  end.

(** [matrix_df.empty]: some axis has no label. *)
Definition frame_empty (m : RelationFrame) : bool :=
  (List.length (row_labels m) =? 0)%nat || (List.length (col_labels m) =? 0)%nat.

(** A loop whose body may raise: the results, or the first exception. *)
Fixpoint rmap {A B : Type} (f : A -> result B) (l : list A) : result (list B) :=
  match l with
  | [] => Ok []
  | x :: rest =>
      rbind (f x) (fun y => rbind (rmap f rest) (fun ys => Ok (y :: ys)))
  end.

(** [matrix_df.sum(axis=1)] *)
Definition sum_axis1 (m : RelationFrame) : list npfloat := map nansum (cells m).

(** [s.replace(0, 1)] *)
Definition replace_zero_by_one (s : list npfloat) : list npfloat :=
  map (fun v => if npfloat_eq_dec v (Fin 0) then Fin 1 else v) s.

(** [matrix_df.div(row_sums, axis=0)] *)
Definition div_rows (m : matrix) (row_sums : list npfloat) : matrix :=
  map (fun rs => map (fun v => np_div v (snd rs)) (fst rs)) (combine m row_sums).

(** One cell of the Jaccard loop, for the index entries [a] and [b]
    (position and label; the index labels are taken to be unique, so that
    a label stands for its position in the index).  [matrix_df.loc[i, j]]
    looks the label of [b] up among the columns. *)
Definition jaccard_cell (m : RelationFrame) (row_sums : list npfloat)
           (a b : nat * string) : result npfloat :=
  if string_dec (snd a) (snd b) then Ok (Fin 1)
  else
    match index_of (snd b) (col_labels m) with
    | None => Raise KeyError
    | Some cb =>
        let numerator := mat_get (cells m) (fst a) cb in
        let denominator :=
            (nth (fst a) row_sums NaN + nth (fst b) row_sums NaN - numerator)%np in
        Ok (if np_gt0 denominator then (numerator / denominator)%np else Fin 0)
    end.

Section NormalizeSymmetric.

(** [sklearn.metrics.pairwise.cosine_similarity] *)
Variable cosine_similarity : matrix -> result matrix.

(** [None] is what the function returns for a method it does not know. *)
Definition normalize_symmetric_matrix (matrix_df : RelationFrame) (method : string)
  : result (option RelationFrame) :=
  if frame_empty matrix_df then Ok (Some (mkRelationFrame [] [] []))
  else if eqb_of method "none" then Ok (Some matrix_df)
  else if eqb_of method "row" then
    let row_sums := replace_zero_by_one (sum_axis1 matrix_df) in
    Ok (Some (mkRelationFrame (row_labels matrix_df) (col_labels matrix_df)
                              (div_rows (cells matrix_df) row_sums)))
  else if eqb_of method "cosine" then
    rbind (cosine_similarity (cells matrix_df)) (fun similarity =>
      Ok (Some (mkRelationFrame (row_labels matrix_df) (col_labels matrix_df)
                                similarity)))
  else if eqb_of method "jaccard" then
    let index := indexed (row_labels matrix_df) in
    let row_sums := sum_axis1 matrix_df in
    rbind (rmap (fun a => rmap (jaccard_cell matrix_df row_sums a) index) index)
          (fun jaccard =>
      Ok (Some (mkRelationFrame (row_labels matrix_df) (row_labels matrix_df)
                                jaccard)))
  else Ok None.

End NormalizeSymmetric.

Definition no_cosine (m : matrix) : result matrix := Raise ImportError.

(** Collaboration counts of three countries. *)
Definition collaboration : RelationFrame :=
  mkRelationFrame ["SI"; "AT"; "IT"] ["SI"; "AT"; "IT"]
                  [ [Fin 4; Fin 2; Fin 0];
                    [Fin 2; Fin 3; Fin 1];
                    [Fin 0; Fin 1; Fin 0] ].

Example collaboration_unknown_method :
  normalize_symmetric_matrix no_cosine collaboration "dice" = Ok None /\
  normalize_symmetric_matrix no_cosine collaboration "none" = Ok (Some collaboration) /\
  normalize_symmetric_matrix no_cosine (mkRelationFrame [] ["SI"] []) "jaccard"
  = Ok (Some (mkRelationFrame [] [] [])).
Proof. repeat split; reflexivity. Qed.

(** ** Rows of finite, non-negative numbers *)

Definition nonneg (v : npfloat) : Prop := exists x : R, v = Fin x /\ 0 <= x.

Lemma nonneg_finite (row : list npfloat) : Forall nonneg row -> Forall finite row.
Proof.
  intro H. eapply Forall_impl; [|exact H]. intros v (x & -> & _). now exists x.
Qed.

Lemma nansum_from (row : list npfloat) :
  Forall finite row ->
  forall a : R,
    fold_left (fun acc v => if np_isnan v then acc else np_add acc v) row (Fin a)
    = Fin (a + row_total row).
Proof.
  induction 1 as [|v row [x ->] Hrow IH]; intro a; simpl.
  - f_equal. lra.
  - rewrite IH. f_equal. lra.
Qed.

Lemma nansum_row_total (row : list npfloat) :
  Forall finite row -> nansum row = Fin (row_total row).
Proof.
  intro H. unfold nansum. rewrite (nansum_from H). f_equal. lra.
Qed.

Lemma row_total_nonneg (row : list npfloat) :
  Forall nonneg row -> 0 <= row_total row.
Proof.
  induction 1 as [|v row (x & -> & Hx) Hrow IH]; simpl; lra.
Qed.

Lemma entry_le_row_total (row : list npfloat) :
  Forall nonneg row ->
  forall j : nat,
    (j < List.length row)%nat ->
    exists x : R, nth j row NaN = Fin x /\ 0 <= x <= row_total row.
Proof.
  induction 1 as [|v row (y & -> & Hy) Hrow IH]; intros j Hj; [simpl in Hj; lia|].
  pose proof (row_total_nonneg Hrow) as Ht.
  destruct j as [|j]; cbn [nth row_total].
  - exists y. split; [reflexivity | lra].
  - destruct (IH j) as (x & Hx & Hb); [simpl in Hj; lia|].
    exists x. split; [exact Hx | lra].
Qed.

Lemma rmap_total (A B : Type) (f : A -> result B) (g : A -> B) (l : list A) :
  (forall x, In x l -> f x = Ok (g x)) -> rmap f l = Ok (map g l).
Proof.
  induction l as [|x l IH]; intro H; cbn [rmap map]; [reflexivity|].
  rewrite (H x (or_introl eq_refl)). cbn [rbind].
  rewrite IH by (intros y Hy; apply H; now right). reflexivity.
Qed.

Lemma index_of_nth (l : list string) :
  NoDup l ->
  forall (i : nat) (x : string), nth_error l i = Some x -> index_of x l = Some i.
Proof.
  induction 1 as [|y l Hy Hnd IH]; intros [|i] x Hi; cbn [nth_error] in Hi;
    try discriminate; cbn [index_of].
  - injection Hi as ->. destruct (string_dec x x); [reflexivity | contradiction].
  - destruct (string_dec x y) as [->|Hne].
    + exfalso. apply Hy. eapply nth_error_In. exact Hi.
    + now rewrite (IH i x Hi).
Qed.

Lemma NoDup_nth_error_inj (l : list string) (i j : nat) (x : string) :
  NoDup l -> nth_error l i = Some x -> nth_error l j = Some x -> i = j.
Proof.
  intros Hnd Hi Hj.
  pose proof (index_of_nth Hnd i Hi) as E1.
  pose proof (index_of_nth Hnd j Hj) as E2. congruence.
Qed.

Lemma indexed_map_nth (A B : Type) (f : nat * A -> B) (l : list A) (i : nat) (x : A)
      (d : B) :
  nth_error l i = Some x -> nth i (map f (indexed l)) d = f (i, x).
Proof.
  intro Hi. apply nth_error_nth. rewrite nth_error_map. unfold indexed.
  rewrite (indexed_nth l 0 i Hi). reflexivity.
Qed.

Section JaccardNormalization.

Variable cosine_similarity : matrix -> result matrix.
Variable m : RelationFrame.

Let n := List.length (row_labels m).

Hypothesis labels_unique : NoDup (row_labels m).
Hypothesis same_labels : col_labels m = row_labels m.
Hypothesis some_label : row_labels m <> [].
Hypothesis square : List.length (cells m) = n.
Hypothesis rows_nonneg :
  Forall (fun row => List.length row = n /\ Forall nonneg row) (cells m).
Hypothesis symmetric :
  forall i j : nat, (i < n)%nat -> (j < n)%nat ->
                    mat_get (cells m) i j = mat_get (cells m) j i.

(** The Jaccard cell as a function of the two positions. *)
Definition jaccard_value (i j : nat) : npfloat :=
  if Nat.eq_dec i j then Fin 1
  else
    let numerator := mat_get (cells m) i j in
    let denominator :=
        (nth i (sum_axis1 m) NaN + nth j (sum_axis1 m) NaN - numerator)%np in
    if np_gt0 denominator then (numerator / denominator)%np else Fin 0.

Lemma jaccard_run :
  normalize_symmetric_matrix cosine_similarity m "jaccard"
  = Ok (Some (mkRelationFrame (row_labels m) (row_labels m)
                (map (fun a => map (fun b => jaccard_value (fst a) (fst b))
                                   (indexed (row_labels m)))
                     (indexed (row_labels m))))).
Proof.
  unfold normalize_symmetric_matrix, frame_empty. rewrite same_labels.
  destruct (row_labels m) as [|l0 ls] eqn:El; [contradiction|].
  cbn [List.length Nat.eqb orb].
  change (eqb_of "jaccard" "none") with false.
  change (eqb_of "jaccard" "row") with false.
  change (eqb_of "jaccard" "cosine") with false.
  change (eqb_of "jaccard" "jaccard") with true. cbv iota zeta.
  rewrite <- El in *.
  rewrite (@rmap_total _ _ _
             (fun a => map (fun b => jaccard_value (fst a) (fst b))
                           (indexed (row_labels m)))); [reflexivity|].
  intros [i la] Ha. apply rmap_total. intros [j lb] Hb.
  apply (proj1 (indexed_In _ _ _)) in Ha. apply (proj1 (indexed_In _ _ _)) in Hb.
  unfold jaccard_cell, jaccard_value. cbn [fst snd]. rewrite same_labels.
  destruct (string_dec la lb) as [->|Hne].
  - rewrite (@NoDup_nth_error_inj _ i j lb labels_unique Ha Hb).
    destruct (Nat.eq_dec j j); [reflexivity | contradiction].
  - destruct (Nat.eq_dec i j) as [->|Hij]; [congruence|].
    rewrite (index_of_nth labels_unique j Hb). reflexivity.
Qed.

Lemma row_sum_bounds (i j : nat) :
  (i < n)%nat -> (j < n)%nat ->
  exists x s : R,
    mat_get (cells m) i j = Fin x /\ nth i (sum_axis1 m) NaN = Fin s /\ 0 <= x <= s.
Proof.
  intros Hi Hj. unfold mat_get, sum_axis1.
  assert (Hrow : exists row, nth_error (cells m) i = Some row).
  { destruct (nth_error (cells m) i) eqn:E; [now eexists|].
    apply nth_error_None in E. lia. }
  destruct Hrow as [row Hrow].
  assert (Hin : In row (cells m)) by (eapply nth_error_In; exact Hrow).
  rewrite Forall_forall in rows_nonneg. destruct (rows_nonneg row Hin) as [Hlen Hnn].
  rewrite (nth_error_nth _ _ [] Hrow).
  assert (Hs : nth i (map nansum (cells m)) NaN = nansum row).
  { apply nth_error_nth. rewrite nth_error_map, Hrow. reflexivity. }
  rewrite Hs.
  rewrite (nansum_row_total (nonneg_finite Hnn)).
  destruct (@entry_le_row_total row Hnn j) as (x & Hx & Hb); [lia|].
  exists x, (row_total row). tauto.
Qed.

(** X21: for a square table of finite, non-negative numbers that is
    symmetric, with the same unique labels on both axes, the 'jaccard'
    normalization returns a table over the same labels that has 1.0 on its
    diagonal, is symmetric, and holds a number in [0, 1] in every cell. *)
Theorem jaccard_normalization_is_a_similarity :
  exists J : RelationFrame,
    normalize_symmetric_matrix cosine_similarity m "jaccard" = Ok (Some J) /\
    row_labels J = row_labels m /\ col_labels J = row_labels m /\
    forall i j : nat,
      (i < n)%nat -> (j < n)%nat ->
      mat_get (cells J) i i = Fin 1 /\
      mat_get (cells J) i j = mat_get (cells J) j i /\
      exists x : R, mat_get (cells J) i j = Fin x /\ 0 <= x <= 1.
Proof.
  eexists. split; [exact jaccard_run|]. cbn [row_labels col_labels cells].
  split; [reflexivity|]. split; [reflexivity|].
  assert (Hget : forall i j : nat,
             (i < n)%nat -> (j < n)%nat ->
             mat_get (map (fun a => map (fun b => jaccard_value (fst a) (fst b))
                                        (indexed (row_labels m)))
                          (indexed (row_labels m))) i j
             = jaccard_value i j).
  { intros i j Hi Hj. unfold mat_get.
    destruct (nth_error (row_labels m) i) as [la|] eqn:Ea;
      [|apply nth_error_None in Ea; fold n in Ea; lia].
    destruct (nth_error (row_labels m) j) as [lb|] eqn:Eb;
      [|apply nth_error_None in Eb; fold n in Eb; lia].
    rewrite (indexed_map_nth _ _ i [] Ea). cbn [fst].
    rewrite (indexed_map_nth _ _ j NaN Eb). reflexivity. }
  intros i j Hi Hj. rewrite !Hget by assumption.
  destruct (row_sum_bounds Hi Hj) as (x & s & Hx & Hs & Hxs).
  destruct (row_sum_bounds Hj Hi) as (y & t & Hy & Ht & Hyt).
  rewrite (symmetric Hj Hi) in Hy. rewrite Hx in Hy. injection Hy as <-.
  unfold jaccard_value. rewrite (symmetric Hj Hi), Hx, Hs, Ht.
  destruct (Nat.eq_dec i i) as [_|Hn]; [|contradiction].
  split; [reflexivity|].
  destruct (Nat.eq_dec i j) as [Hij|Hij], (Nat.eq_dec j i) as [Hji|Hji];
    try (exfalso; lia).
  - split; [reflexivity|]. exists 1. split; [reflexivity | lra].
  - cbn [np_add np_sub np_gt0]. rewrite (Rplus_comm t s).
    split; [reflexivity|].
    destruct (Rlt_dec 0 (s + t - x)) as [Hpos|Hle].
    + rewrite np_div_fin by lra. eexists. split; [reflexivity|]. split.
      * apply Rmult_le_pos; [lra|]. apply Rlt_le, Rinv_0_lt_compat, Hpos.
      * apply Rmult_le_reg_r with (r := s + t - x); [exact Hpos|].
        unfold Rdiv. rewrite Rmult_assoc, Rinv_l by lra. lra.
    + exists 0. split; [reflexivity | lra].
Qed.

End JaccardNormalization.

Lemma collaboration_rows :
  Forall (fun row => List.length row = 3%nat /\ Forall nonneg row) (cells collaboration).
Proof.
  unfold collaboration. cbn [cells].
  repeat (constructor;
          [split; [reflexivity|];
           repeat (constructor; [eexists; split; [reflexivity | lra]|]); constructor|]).
  constructor.
Qed.

Lemma jaccard_normalization_witness :
  exists J : RelationFrame,
    normalize_symmetric_matrix no_cosine collaboration "jaccard" = Ok (Some J) /\
    row_labels J = row_labels collaboration /\
    col_labels J = row_labels collaboration /\
    forall i j : nat,
      (i < 3)%nat -> (j < 3)%nat ->
      mat_get (cells J) i i = Fin 1 /\
      mat_get (cells J) i j = mat_get (cells J) j i /\
      exists x : R, mat_get (cells J) i j = Fin x /\ 0 <= x <= 1.
Proof.
  apply (@jaccard_normalization_is_a_similarity no_cosine collaboration).
  - repeat (constructor; [simpl; intuition discriminate|]). constructor.
  - reflexivity.
  - discriminate.
  - reflexivity.
  - exact collaboration_rows.
  - intros i j Hi Hj.
    destruct i as [|[|[|i]]]; [| | |cbn in Hi; lia];
      (destruct j as [|[|[|j]]]; [| | |cbn in Hj; lia]); reflexivity.
Defined.

(** ** Row proportions *)

Lemma div_row_total (s : R) (row : list npfloat) :
  s <> 0 -> Forall finite row ->
  Forall finite (map (fun v => np_div v (Fin s)) row) /\
  row_total (map (fun v => np_div v (Fin s)) row) = row_total row / s.
Proof.
  intros Hs. induction 1 as [|v row [x ->] Hrow [IHf IHt]]; cbn [map row_total].
  - split; [constructor | unfold Rdiv; ring].
  - rewrite np_div_fin by exact Hs. cbn [row_total]. split.
    + constructor; [now eexists | exact IHf].
    + rewrite IHt. unfold Rdiv. ring.
Qed.

Lemma div_row_by_one (row : list npfloat) :
  Forall finite row -> map (fun v => np_div v (Fin 1)) row = row.
Proof.
  induction 1 as [|v row [x ->] Hrow IH]; cbn [map]; [reflexivity|].
  rewrite IH, np_div_fin by lra. do 2 f_equal. field.
Qed.

Lemma nth_error_combine (A B : Type) (l1 : list A) :
  forall (l2 : list B) (i : nat) (a : A) (b : B),
    nth_error l1 i = Some a -> nth_error l2 i = Some b ->
    nth_error (combine l1 l2) i = Some (a, b).
Proof.
  induction l1 as [|x l1 IH]; intros l2 [|i] a b H1 H2;
    destruct l2 as [|y l2]; cbn [nth_error combine] in *; try discriminate.
  - congruence.
  - now apply IH.
Qed.

Section RowNormalization.

Variable cosine_similarity : matrix -> result matrix.

(** X22: on a table of finite numbers with at least one row and one
    column, the 'row' normalization keeps the labels; a row whose sum is not
    zero is divided by its sum and then sums to 1.0, and a row whose sum is
    zero is returned as it is. *)
Theorem row_normalization_rows_sum_to_one (m : RelationFrame) :
  frame_empty m = false ->
  Forall (Forall finite) (cells m) ->
  exists out : RelationFrame,
    normalize_symmetric_matrix cosine_similarity m "row" = Ok (Some out) /\
    row_labels out = row_labels m /\ col_labels out = col_labels m /\
    List.length (cells out) = List.length (cells m) /\
    forall (i : nat) (row : list npfloat),
      nth_error (cells m) i = Some row ->
      exists row' : list npfloat,
        nth_error (cells out) i = Some row' /\
        (row_total row <> 0 ->
         row' = map (fun v => np_div v (Fin (row_total row))) row /\
         nansum row' = Fin 1) /\
        (row_total row = 0 -> row' = row).
Proof.
  intros Hne Hfin. unfold normalize_symmetric_matrix. rewrite Hne.
  change (eqb_of "row" "none") with false. change (eqb_of "row" "row") with true.
  cbv iota zeta. eexists. split; [reflexivity|]. cbn [row_labels col_labels cells].
  split; [reflexivity|]. split; [reflexivity|].
  unfold div_rows, replace_zero_by_one, sum_axis1. split.
  - rewrite length_map, length_combine, !length_map. apply Nat.min_id.
  - intros i row Hrow.
    assert (Hf : Forall finite row).
    { rewrite Forall_forall in Hfin. apply Hfin. eapply nth_error_In. exact Hrow. }
    rewrite nth_error_map.
    erewrite nth_error_combine;
      [|exact Hrow | rewrite !nth_error_map, Hrow; reflexivity].
    cbn [option_map fst snd]. eexists. split; [reflexivity|].
    rewrite (nansum_row_total Hf).
    destruct (npfloat_eq_dec (Fin (row_total row)) (Fin 0)) as [E|E].
    + injection E as E. split; [intro Hnz; contradiction|].
      intros _. apply div_row_by_one, Hf.
    + assert (Hnz : row_total row <> 0) by (intro Hz; apply E; now rewrite Hz).
      split; [|intro Hz; contradiction]. intros _. split; [reflexivity|].
      destruct (div_row_total Hnz Hf) as [Hf' Ht'].
      rewrite (nansum_row_total Hf'), Ht'. f_equal. field. exact Hnz.
Qed.

End RowNormalization.

Lemma row_normalization_witness :
  exists out : RelationFrame,
    normalize_symmetric_matrix no_cosine collaboration "row" = Ok (Some out) /\
    row_labels out = row_labels collaboration /\
    col_labels out = col_labels collaboration /\
    List.length (cells out) = List.length (cells collaboration) /\
    forall (i : nat) (row : list npfloat),
      nth_error (cells collaboration) i = Some row ->
      exists row' : list npfloat,
        nth_error (cells out) i = Some row' /\
        (row_total row <> 0 ->
         row' = map (fun v => np_div v (Fin (row_total row))) row /\
         nansum row' = Fin 1) /\
        (row_total row = 0 -> row' = row).
Proof.
  apply (@row_normalization_rows_sum_to_one no_cosine collaboration).
  - reflexivity.
  - eapply Forall_impl; [|exact collaboration_rows].
    intros row [_ Hrow]. apply nonneg_finite, Hrow.
Defined.

(* ------------------------------------------------------------------ *)
(** * remove_zero_margins *)

(** [l[mask]]: the entries at the positions where the boolean mask holds. *)
Definition select_mask {A : Type} (mask : list bool) (l : list A) : list A :=
  map snd (filter fst (combine mask l)).

(** [df.loc[df.sum(axis=1) > 0, df.sum(axis=0) > 0]] *)
Definition remove_zero_margins (df_relation : RelationFrame) : RelationFrame :=
  let row_keep := map (fun row => np_gt0 (nansum row)) (cells df_relation) in
  let col_keep :=
      map (fun j => np_gt0 (nansum (column j (cells df_relation))))
          (seq 0 (List.length (col_labels df_relation))) in
  mkRelationFrame (select_mask row_keep (row_labels df_relation))
                  (select_mask col_keep (col_labels df_relation))
                  (map (select_mask col_keep)
                       (select_mask row_keep (cells df_relation))).

Example collaboration_margins :
  remove_zero_margins
    (mkRelationFrame ["a"; "b"] ["x"; "y"; "z"]
                     [ [Fin 0; Fin 0; Fin 0]; [Fin 2; Fin 0; Fin 1] ])
  = mkRelationFrame ["b"] ["x"; "z"] [ [Fin 2; Fin 1] ].
Proof.
  unfold remove_zero_margins, select_mask. cbn.
  destruct (Rlt_dec 0 (0 + 0 + 0 + 0)) as [H|_]; [exfalso; lra|].
  destruct (Rlt_dec 0 (0 + 2 + 0 + 1)) as [_|H]; [|exfalso; lra].
  destruct (Rlt_dec 0 (0 + 0 + 2)) as [_|H]; [|exfalso; lra].
  destruct (Rlt_dec 0 (0 + 0 + 0)) as [H|_]; [exfalso; lra|].
  destruct (Rlt_dec 0 (0 + 0 + 1)) as [_|H]; [|exfalso; lra].
  reflexivity.
Qed.

(** ** Masks *)

Lemma select_mask_cons (A : Type) (b : bool) (mask : list bool) (x : A) (l : list A) :
  select_mask (b :: mask) (x :: l)
  = if b then x :: select_mask mask l else select_mask mask l.
Proof. unfold select_mask. cbn. destruct b; reflexivity. Qed.

Lemma select_mask_nil_r (A : Type) (mask : list bool) : select_mask mask (@nil A) = [].
Proof. unfold select_mask. destruct mask; reflexivity. Qed.

Lemma select_mask_all (A : Type) (mask : list bool) :
  forall l : list A,
    List.length mask = List.length l -> Forall (fun b => b = true) mask ->
    select_mask mask l = l.
Proof.
  induction mask as [|b mask IH]; intros [|x l] Hlen Hall; try discriminate Hlen.
  - reflexivity.
  - inversion Hall as [|? ? Hb Hrest]; subst. rewrite select_mask_cons.
    f_equal. apply IH; [simpl in Hlen; lia | exact Hrest].
Qed.

Lemma select_mask_length (A B : Type) (mask : list bool) :
  forall (l1 : list A) (l2 : list B),
    List.length l1 = List.length l2 ->
    List.length (select_mask mask l1) = List.length (select_mask mask l2).
Proof.
  induction mask as [|b mask IH]; intros [|x l1] [|y l2] Hlen; try discriminate Hlen;
    try reflexivity.
  rewrite !select_mask_cons. destruct b; cbn [List.length];
    rewrite (IH l1 l2) by (simpl in Hlen; lia); reflexivity.
Qed.

Lemma select_mask_In (A : Type) (mask : list bool) :
  forall (l : list A) (x : A), In x (select_mask mask l) -> In x l.
Proof.
  induction mask as [|b mask IH]; intros [|y l] x Hin; try (now destruct Hin).
  rewrite select_mask_cons in Hin. destruct b.
  - destruct Hin as [->|Hin]; [now left | right; eapply IH, Hin].
  - right. eapply IH, Hin.
Qed.

(** Entries that are masked out and are zero do not change the sum. *)
Lemma select_mask_total (mask : list bool) :
  forall row : list npfloat,
    Forall2 (fun (b : bool) v => b = false -> v = Fin 0) mask row ->
    row_total (select_mask mask row) = row_total row.
Proof.
  induction mask as [|b mask IH]; intros row H; inversion H as [|? v ? row' Hb Hrest];
    subst; [reflexivity|].
  rewrite select_mask_cons. destruct b.
  - destruct v; cbn [row_total]; rewrite (IH row' Hrest); reflexivity.
  - rewrite (Hb eq_refl). cbn [row_total]. rewrite (IH row' Hrest). lra.
Qed.

Lemma Forall2_of_nth (A B : Type) (P : A -> B -> Prop) (da : A) (db : B) (l1 : list A) :
  forall l2 : list B,
    List.length l1 = List.length l2 ->
    (forall j, (j < List.length l1)%nat -> P (nth j l1 da) (nth j l2 db)) ->
    Forall2 P l1 l2.
Proof.
  induction l1 as [|x l1 IH]; intros [|y l2] Hlen H; try discriminate Hlen;
    constructor.
  - apply (H 0%nat). simpl. lia.
  - apply IH; [simpl in Hlen; lia|]. intros j Hj. apply (H (S j)). simpl. lia.
Qed.

(** The positions that a mask keeps. *)
Definition kept_positions (mask : list bool) : list nat :=
  select_mask mask (seq 0 (List.length mask)).

Lemma select_mask_by_position (A : Type) (d : A) (mask : list bool) :
  forall (s : nat) (l : list A),
    List.length l = List.length mask ->
    select_mask mask l
    = map (fun j => nth (j - s) l d) (select_mask mask (seq s (List.length mask))).
Proof.
  induction mask as [|b mask IH]; intros s [|x l] Hlen; try discriminate Hlen;
    [reflexivity|].
  cbn [List.length seq]. rewrite !select_mask_cons.
  assert (Htail : select_mask mask l
                  = map (fun j => nth (j - s) (x :: l) d)
                        (select_mask mask (seq (S s) (List.length mask)))).
  { rewrite (IH (S s) l) by (simpl in Hlen; lia).
    apply map_ext_in. intros j Hj. apply select_mask_In, in_seq in Hj.
    replace (j - s)%nat with (S (j - S s)) by lia. reflexivity. }
  destruct b; cbn [map]; [|exact Htail].
  rewrite Nat.sub_diag. cbn [nth]. now rewrite Htail.
Qed.

Lemma kept_positions_In (mask : list bool) (j : nat) :
  In j (kept_positions mask) -> (j < List.length mask)%nat /\ nth j mask false = true.
Proof.
  unfold kept_positions.
  assert (H : forall (s : nat) (m : list bool),
             In j (select_mask m (seq s (List.length m))) ->
             (s <= j < s + List.length m)%nat /\ nth (j - s) m false = true).
  { intros s m. revert s. induction m as [|b m IH]; intros s Hin; [destruct Hin|].
    cbn [List.length seq] in Hin. rewrite select_mask_cons in Hin.
    assert (Htail : In j (select_mask m (seq (S s) (List.length m))) ->
                    (s <= j < s + List.length (b :: m))%nat /\
                    nth (j - s) (b :: m) false = true).
    { intro Hj. destruct (IH (S s) Hj) as [Hr Hn]. cbn [List.length]. split; [lia|].
      replace (j - s)%nat with (S (j - S s)) by lia. exact Hn. }
    destruct b; [|exact (Htail Hin)].
    destruct Hin as [<-|Hin]; [|exact (Htail Hin)].
    cbn [List.length]. split; [lia|]. now rewrite Nat.sub_diag. }
  intro Hin. destruct (H 0%nat mask Hin) as [Hr Hn].
  rewrite Nat.sub_0_r in Hn. split; [lia | exact Hn].
Qed.

Lemma column_select_mask (j : nat) (mask : list bool) :
  forall rows : matrix,
    column j (select_mask mask rows) = select_mask mask (column j rows).
Proof.
  unfold column.
  induction mask as [|b mask IH]; intros [|r rows]; try reflexivity.
  cbn [map]. rewrite !select_mask_cons. destruct b; cbn [map]; now rewrite IH.
Qed.

Lemma nonneg_zero_total (row : list npfloat) :
  Forall nonneg row -> row_total row <= 0 -> Forall (fun v => v = Fin 0) row.
Proof.
  induction 1 as [|v row (x & -> & Hx) Hrow IH]; intro Ht; [constructor|].
  cbn [row_total] in Ht. pose proof (row_total_nonneg Hrow) as H0.
  constructor; [f_equal; lra | apply IH; lra].
Qed.

Lemma np_gt0_total (row : list npfloat) :
  Forall finite row -> (np_gt0 (nansum row) = true <-> 0 < row_total row).
Proof.
  intro Hf. rewrite (nansum_row_total Hf). cbn [np_gt0].
  destruct (Rlt_dec 0 (row_total row)); split; try tauto; discriminate.
Qed.

Lemma select_mask_map_In (A : Type) (f : A -> bool) (l : list A) (x : A) :
  In x (select_mask (map f l) l) -> In x l /\ f x = true.
Proof.
  induction l as [|y l IH]; intro Hin; [destruct Hin|].
  cbn [map] in Hin. rewrite select_mask_cons in Hin.
  destruct (f y) eqn:Ey.
  - destruct Hin as [<-|Hin]; [split; [now left | exact Ey]|].
    destruct (IH Hin). split; [now right | assumption].
  - destruct (IH Hin). split; [now right | assumption].
Qed.

Lemma select_mask_Forall (A : Type) (P : A -> Prop) (mask : list bool) (l : list A) :
  Forall P l -> Forall P (select_mask mask l).
Proof.
  intro H. apply Forall_forall. intros x Hin. rewrite Forall_forall in H.
  apply H. eapply select_mask_In, Hin.
Qed.

Section ZeroMargins.

Variable t : RelationFrame.

Let rows := cells t.
Let n2 := List.length (col_labels t).
Let row_keep := map (fun row => np_gt0 (nansum row)) rows.
Let col_keep := map (fun j => np_gt0 (nansum (column j rows))) (seq 0 n2).

Hypothesis one_row_per_label : List.length rows = List.length (row_labels t).
Hypothesis rows_nonneg :
  Forall (fun row => List.length row = n2 /\ Forall nonneg row) rows.

Lemma row_of_table (r : list npfloat) :
  In r rows -> List.length r = n2 /\ Forall nonneg r.
Proof. intro Hin. rewrite Forall_forall in rows_nonneg. now apply rows_nonneg. Qed.

Lemma cell_nonneg (r : list npfloat) (j : nat) :
  In r rows -> (j < n2)%nat -> nonneg (nth j r NaN).
Proof.
  intros Hin Hj. destruct (@row_of_table _ Hin) as [Hlen Hnn].
  rewrite Forall_forall in Hnn. apply Hnn, nth_In. lia.
Qed.

Lemma column_nonneg (j : nat) : (j < n2)%nat -> Forall nonneg (column j rows).
Proof.
  intro Hj. unfold column. apply Forall_map, Forall_forall.
  intros r Hin. now apply cell_nonneg.
Qed.

Lemma col_keep_length : List.length col_keep = n2.
Proof. unfold col_keep. now rewrite length_map, length_seq. Qed.

Lemma col_keep_nth (j : nat) :
  (j < n2)%nat -> nth j col_keep false = np_gt0 (nansum (column j rows)).
Proof.
  intro Hj. unfold col_keep.
  exact (nth_map_seq (fun j => np_gt0 (nansum (column j rows))) false Hj).
Qed.

(** A column that goes holds only zeros. *)
Lemma dropped_columns_are_zero (r : list npfloat) :
  In r rows -> Forall2 (fun (b : bool) v => b = false -> v = Fin 0) col_keep r.
Proof.
  intro Hin. destruct (@row_of_table _ Hin) as [Hlen _].
  apply Forall2_of_nth with (da := false) (db := NaN);
    [rewrite col_keep_length; lia|].
  intros j Hj Hoff. rewrite col_keep_length in Hj. rewrite col_keep_nth in Hoff by exact Hj.
  pose proof (@column_nonneg j Hj) as Hcol.
  assert (Hz : Forall (fun v => v = Fin 0) (column j rows)).
  { apply nonneg_zero_total; [exact Hcol|].
    destruct (Rle_or_lt (row_total (column j rows)) 0) as [Hle|Hlt]; [exact Hle|].
    apply (np_gt0_total (nonneg_finite Hcol)) in Hlt. congruence. }
  rewrite Forall_forall in Hz. apply Hz. unfold column.
  apply in_map with (f := fun row => nth j row NaN). exact Hin.
Qed.

(** A row that goes holds only zeros. *)
Lemma dropped_rows_are_zero (j : nat) :
  (j < n2)%nat ->
  Forall2 (fun (b : bool) v => b = false -> v = Fin 0) row_keep (column j rows).
Proof.
  intro Hj. unfold row_keep, column.
  assert (H : forall l : matrix,
             (forall r, In r l -> In r rows) ->
             Forall2 (fun (b : bool) v => b = false -> v = Fin 0)
                     (map (fun row => np_gt0 (nansum row)) l)
                     (map (fun row => nth j row NaN) l)).
  { induction l as [|r l IH]; intro Hsub; cbn [map]; constructor.
    - intro Hoff. destruct (@row_of_table _ (Hsub r (or_introl eq_refl))) as [Hlen Hnn].
      assert (Hz : Forall (fun v => v = Fin 0) r).
      { apply nonneg_zero_total; [exact Hnn|].
        destruct (Rle_or_lt (row_total r) 0) as [Hle|Hlt]; [exact Hle|].
        apply (np_gt0_total (nonneg_finite Hnn)) in Hlt. congruence. }
      rewrite Forall_forall in Hz. apply Hz, nth_In. lia.
    - apply IH. intros r' Hr'. apply Hsub. now right. }
  apply H. auto.
Qed.

Lemma kept_row_positive (r : list npfloat) :
  In r (select_mask row_keep rows) ->
  In r rows /\ 0 < row_total (select_mask col_keep r) /\
  Forall finite (select_mask col_keep r).
Proof.
  intro Hin. unfold row_keep in Hin. apply select_mask_map_In in Hin.
  destruct Hin as [Hin Hkeep]. destruct (@row_of_table _ Hin) as [_ Hnn].
  split; [exact Hin|]. split.
  - rewrite (select_mask_total (@dropped_columns_are_zero r Hin)).
    apply (np_gt0_total (nonneg_finite Hnn)). exact Hkeep.
  - apply select_mask_Forall, nonneg_finite, Hnn.
Qed.

Lemma kept_column (j' : nat) :
  (j' < List.length (select_mask col_keep (col_labels t)))%nat ->
  exists j : nat,
    (j < n2)%nat /\ nth j col_keep false = true /\
    column j' (map (select_mask col_keep) (select_mask row_keep rows))
    = select_mask row_keep (column j rows).
Proof.
  intro Hj'.
  assert (Hlen : List.length (select_mask col_keep (col_labels t))
                 = List.length (kept_positions col_keep)).
  { unfold kept_positions. apply select_mask_length.
    now rewrite length_seq, col_keep_length. }
  rewrite Hlen in Hj'.
  set (j := nth j' (kept_positions col_keep) 0%nat).
  assert (Hin : In j (kept_positions col_keep)) by (apply nth_In; exact Hj').
  apply kept_positions_In in Hin. destruct Hin as [Hlt Hon].
  rewrite col_keep_length in Hlt.
  exists j. split; [exact Hlt|]. split; [exact Hon|].
  rewrite <- column_select_mask. unfold column. rewrite map_map.
  apply map_ext_in. intros r Hr.
  apply select_mask_In in Hr. destruct (@row_of_table _ Hr) as [Hrlen _].
  rewrite (select_mask_by_position NaN col_keep 0 r)
    by (rewrite col_keep_length; exact Hrlen).
  fold (kept_positions col_keep).
  rewrite (nth_indep _ NaN (nth (0 - 0) r NaN)) by (rewrite length_map; exact Hj').
  rewrite (map_nth (fun j0 => nth (j0 - 0) r NaN) (kept_positions col_keep) 0%nat j').
  fold j. now rewrite Nat.sub_0_r.
Qed.

(** X23: on a table of finite, non-negative numbers, [remove_zero_margins]
    returns a table in which every row and every column has a positive sum,
    and which the function returns unchanged when it is applied again. *)
Theorem remove_zero_margins_leaves_positive_margins :
  let cleaned := remove_zero_margins t in
  Forall (fun row => exists s : R, nansum row = Fin s /\ 0 < s) (cells cleaned) /\
  (forall j : nat,
      (j < List.length (col_labels cleaned))%nat ->
      exists s : R, nansum (column j (cells cleaned)) = Fin s /\ 0 < s) /\
  remove_zero_margins cleaned = cleaned.
Proof.
  cbv zeta.
  assert (Hrows : Forall (fun row => exists s : R, nansum row = Fin s /\ 0 < s)
                         (cells (remove_zero_margins t))).
  { unfold remove_zero_margins. cbn [cells]. fold rows n2 row_keep col_keep.
    apply Forall_map, Forall_forall. intros r Hr.
    destruct (@kept_row_positive r Hr) as (_ & Hpos & Hfin).
    exists (row_total (select_mask col_keep r)).
    split; [apply nansum_row_total, Hfin | exact Hpos]. }
  assert (Hcols : forall j : nat,
             (j < List.length (col_labels (remove_zero_margins t)))%nat ->
             exists s : R,
               nansum (column j (cells (remove_zero_margins t))) = Fin s /\ 0 < s).
  { unfold remove_zero_margins. cbn [cells col_labels]. fold rows n2 row_keep col_keep.
    intros j' Hj'. destruct (@kept_column j' Hj') as (j & Hj & Hon & ->).
    pose proof (@column_nonneg j Hj) as Hcol.
    exists (row_total (select_mask row_keep (column j rows))). split.
    - apply nansum_row_total, select_mask_Forall, nonneg_finite, Hcol.
    - rewrite (select_mask_total (@dropped_rows_are_zero j Hj)).
      apply (np_gt0_total (nonneg_finite Hcol)).
      rewrite <- col_keep_nth by exact Hj. exact Hon. }
  split; [exact Hrows|]. split; [exact Hcols|].
  set (c := remove_zero_margins t) in *.
  assert (Hlen1 : List.length (cells c) = List.length (row_labels c)).
  { unfold c, remove_zero_margins. cbn [cells row_labels].
    fold rows n2 row_keep col_keep. rewrite length_map.
    apply select_mask_length. exact one_row_per_label. }
  assert (Hlen2 : Forall (fun row => List.length row = List.length (col_labels c))
                         (cells c)).
  { unfold c, remove_zero_margins. cbn [cells col_labels].
    fold rows n2 row_keep col_keep. apply Forall_map, Forall_forall. intros r Hr.
    apply select_mask_In in Hr. destruct (@row_of_table _ Hr) as [Hrlen _].
    apply select_mask_length. exact Hrlen. }
  assert (Hall_rows : Forall (fun b => b = true)
                             (map (fun row => np_gt0 (nansum row)) (cells c))).
  { apply Forall_map. eapply Forall_impl; [|exact Hrows].
    intros row (s & -> & Hs). cbn [np_gt0].
    destruct (Rlt_dec 0 s); [reflexivity | contradiction]. }
  assert (Hall_cols : Forall (fun b => b = true)
                             (map (fun j => np_gt0 (nansum (column j (cells c))))
                                  (seq 0 (List.length (col_labels c))))).
  { apply Forall_map, Forall_forall. intros j Hj. apply in_seq in Hj.
    destruct (Hcols j) as (s & -> & Hs); [lia|]. cbn [np_gt0].
    destruct (Rlt_dec 0 s); [reflexivity | contradiction]. }
  assert (Hm1 : List.length (map (fun row => np_gt0 (nansum row)) (cells c))
                = List.length (row_labels c)) by (rewrite length_map; exact Hlen1).
  assert (Hm2 : List.length (map (fun j => np_gt0 (nansum (column j (cells c))))
                                 (seq 0 (List.length (col_labels c))))
                = List.length (col_labels c)) by (now rewrite length_map, length_seq).
  assert (Hm3 : List.length (map (fun row => np_gt0 (nansum row)) (cells c))
                = List.length (cells c)) by apply length_map.
  unfold remove_zero_margins at 1.
  rewrite (@select_mask_all _ _ (row_labels c) Hm1 Hall_rows).
  rewrite (@select_mask_all _ _ (col_labels c) Hm2 Hall_cols).
  rewrite (@select_mask_all _ _ (cells c) Hm3 Hall_rows).
  assert (Hcells : map (select_mask
                          (map (fun j => np_gt0 (nansum (column j (cells c))))
                               (seq 0 (List.length (col_labels c))))) (cells c)
                   = cells c).
  { rewrite <- (map_id (cells c)) at 2. apply map_ext_in. intros r Hr.
    rewrite Forall_forall in Hlen2. apply select_mask_all; [|exact Hall_cols].
    rewrite Hm2. symmetry. exact (Hlen2 r Hr). }
  rewrite Hcells. destruct c; reflexivity.
Qed.

End ZeroMargins.

Lemma remove_zero_margins_witness :
  let cleaned := remove_zero_margins collaboration in
  Forall (fun row => exists s : R, nansum row = Fin s /\ 0 < s) (cells cleaned) /\
  (forall j : nat,
      (j < List.length (col_labels cleaned))%nat ->
      exists s : R, nansum (column j (cells cleaned)) = Fin s /\ 0 < s) /\
  remove_zero_margins cleaned = cleaned.
Proof.
  apply (@remove_zero_margins_leaves_positive_margins collaboration).
  - reflexivity.
  - exact collaboration_rows.
Defined.

(* ------------------------------------------------------------------ *)
(** * get_entity_stats on the core indicators *)

(** A row of the document table: the entity column, "Cited by" and "Year"
    (both present and without missing values), and no author column. *)
Record Publication : Type := mkPublication {
  entity : option string;
  pub_cited_by : Z;
  pub_year : Z
}.

(** [df.iloc[positions]]: [IndexError] out of bounds. *)
Definition iloc (df : list Publication) (positions : list nat)
  : result (list Publication) :=
  rmap (fun i => match nth_error df i with
                 | Some row => Ok row
                 | None => Raise IndexError
                 end) positions.

(** The indicators of [mode="core"]. *)
Record CoreIndicators : Type := mkCoreIndicators {
  indicator_name : option string;
  number_of_documents : nat;
  total_citations : Z;
  h_index_value : nat;
  average_year : npfloat
}.

(** [get_performance_indicators(df, name, mode="core")]: the name is left
    out when it is empty. *)
Definition get_performance_indicators (df : list Publication) (name : string)
  : CoreIndicators :=
  mkCoreIndicators
    (if truthy name then Some name else None)
    (List.length df)
    (zsum (map pub_cited_by df))
    (h_index (map pub_cited_by df) 1)
    (np_mean (map pub_year df)).

Section EntityStats.

Variable text_weighting : string -> DataFrame -> result DataFrame.

(** [get_entity_stats] called with items of interest and [mode="core"]:
    one record of indicators per selected entity, over
    [df.iloc[selected_entities[name]]]. *)
Definition get_entity_stats (df : list Publication)
           (items_of_interest exclude_items : list string)
           (value_type : string) (indicators missing_as_zero : bool)
  : result (list CoreIndicators * option (dict string DataFrame)) :=
  rbind (select_documents text_weighting (map entity df) items_of_interest
                          exclude_items None indicators missing_as_zero
                          "; " value_type (Some "tfidf"))
        (fun selected =>
  rbind (rmap (fun entry : string * list nat =>
                 rbind (iloc df (snd entry)) (fun entity_df =>
                 Ok (get_performance_indicators entity_df (fst entry))))
              (fst selected))
        (fun stats_list =>
  Ok (stats_list, if indicators then Some (snd selected) else None))).

End EntityStats.

Lemma rmap_nth (A B : Type) (f : A -> result B) (l : list A) :
  forall (l' : list B) (k : nat) (x : A),
    rmap f l = Ok l' -> nth_error l k = Some x ->
    exists y : B, f x = Ok y /\ nth_error l' k = Some y.
Proof.
  induction l as [|a l IH]; intros l' k x Hrun Hk; [destruct k; discriminate|].
  cbn [rmap] in Hrun. destruct (f a) as [b|e] eqn:Ea; [|discriminate].
  cbn [rbind] in Hrun. destruct (rmap f l) as [bs|e] eqn:El; [|discriminate].
  cbn [rbind] in Hrun. injection Hrun as <-.
  destruct k as [|k]; cbn [nth_error] in *.
  - injection Hk as <-. exists b. split; [exact Ea | reflexivity].
  - exact (IH bs k x eq_refl Hk).
Qed.

Lemma rmap_length (A B : Type) (f : A -> result B) (l : list A) :
  forall l' : list B, rmap f l = Ok l' -> List.length l' = List.length l.
Proof.
  induction l as [|a l IH]; intros l' Hrun; cbn [rmap] in Hrun.
  - injection Hrun as <-. reflexivity.
  - destruct (f a) as [b|e]; [|discriminate]. cbn [rbind] in Hrun.
    destruct (rmap f l) as [bs|e]; [|discriminate]. cbn [rbind] in Hrun.
    injection Hrun as <-. cbn [List.length]. now rewrite (IH bs eq_refl).
Qed.

Lemma rmap_app_inv (A B : Type) (f : A -> result B) (l1 l2 : list A) :
  forall l' : list B,
    rmap f (l1 ++ l2) = Ok l' ->
    exists e1 e2 : list B,
      rmap f l1 = Ok e1 /\ rmap f l2 = Ok e2 /\ l' = e1 ++ e2.
Proof.
  induction l1 as [|a l1 IH]; intros l' Hrun; cbn [app rmap] in *.
  - exists [], l'. repeat split. exact Hrun.
  - destruct (f a) as [b|e]; [|discriminate]. cbn [rbind] in *.
    destruct (rmap f (l1 ++ l2)) as [bs|e] eqn:E; [|discriminate].
    cbn [rbind] in Hrun. injection Hrun as <-.
    destruct (IH bs eq_refl) as (e1 & e2 & -> & H2 & ->).
    exists (b :: e1), e2. cbn [rbind]. repeat split. exact H2.
Qed.

Lemma dict_entry_at (K V : Type) `{EqDec K} (d : dict K V) (k : nat) (key : K) (v : V) :
  NoDup (dict_keys d) ->
  nth_error (dict_keys d) k = Some key -> dict_get d key = Some v ->
  nth_error d k = Some (key, v).
Proof.
  intros Hnd Hk Hget. unfold dict_keys in Hk. rewrite nth_error_map in Hk.
  destruct (nth_error d k) as [[key' v']|] eqn:E; [|discriminate].
  cbn in Hk. injection Hk as ->.
  assert (Hin : In (key, v') d) by (eapply nth_error_In; exact E).
  rewrite (dict_get_of_In d key v' Hnd Hin) in Hget. congruence.
Qed.

Lemma zsum_app (l1 l2 : list Z) : zsum (l1 ++ l2) = (zsum l1 + zsum l2)%Z.
Proof.
  induction l1 as [|x l1 IH]; cbn [app]; [unfold zsum at 2; simpl; lia|].
  rewrite !zsum_cons, IH. lia.
Qed.

Section EntityStatsFacts.

Variable text_weighting : string -> DataFrame -> result DataFrame.

(** X24: [get_entity_stats] computes the indicators of every selected
    entity over the rows [df.iloc[selected_entities[name]]], and the match
    lists of [select_documents] hold every matching row two times: the
    reported number of documents and total citations are two times those
    of the matching documents. *)
Theorem entity_stats_repeat_each_document
        (df : list Publication) (items_of_interest exclude_items : list string)
        (value_type : string) (indicators missing_as_zero : bool)
        (stats : list CoreIndicators) (ind : option (dict string DataFrame)) :
  get_entity_stats text_weighting df items_of_interest exclude_items value_type
                   indicators missing_as_zero = Ok (stats, ind) ->
  let items := select_items items_of_interest exclude_items in
  List.length stats = List.length items /\
  forall (k : nat) (item : string),
    nth_error items k = Some item ->
    exists (docs : list Publication) (record : CoreIndicators),
      iloc df (matching_rows value_type "; " items item (indexed (map entity df)))
      = Ok docs /\
      nth_error stats k = Some record /\
      record = get_performance_indicators (docs ++ docs) item /\
      number_of_documents record = (2 * List.length docs)%nat /\
      total_citations record = (2 * zsum (map pub_cited_by docs))%Z.
Proof.
  unfold get_entity_stats.
  destruct (select_documents text_weighting (map entity df) items_of_interest
              exclude_items None indicators missing_as_zero "; " value_type
              (Some "tfidf")) as [[selected frames]|e] eqn:Hsel; [|discriminate].
  cbn [rbind fst snd].
  destruct (rmap _ selected) as [stats_list|e] eqn:Hstats; [|discriminate].
  cbn [rbind]. intros [= <- _]. cbv zeta.
  assert (Hgiven : given_items items_of_interest None = items_of_interest).
  { unfold given_items. destruct items_of_interest; reflexivity. }
  pose proof (select_documents_inv _ _ _ _ _ _ _ _ _ _ Hsel) as Hinv.
  cbv zeta in Hinv. rewrite Hgiven in Hinv.
  destruct Hinv as (first_pass & H1 & H2 & _ & _).
  set (items := select_items items_of_interest exclude_items) in *.
  assert (Hnd : NoDup items) by apply select_items_NoDup.
  destruct (@match_rows_spec value_type "; " items Hnd _ _ _ H1) as [K1 G1].
  destruct (@match_rows_spec value_type "; " items Hnd _ _ _ H2) as [K2 G2].
  assert (Hkeys : dict_keys selected = items).
  { rewrite K2, K1. apply empty_lists_keys. }
  split.
  - rewrite (rmap_length _ _ Hstats). rewrite <- Hkeys. unfold dict_keys.
    now rewrite length_map.
  - intros k item Hk.
    set (m := matching_rows value_type "; " items item (indexed (map entity df))).
    assert (Hin : In item items) by (eapply nth_error_In; exact Hk).
    assert (Hget : dict_get selected item = Some (m ++ m)).
    { rewrite G2, G1, empty_lists_get, (proj2 (mem_In item items) Hin). reflexivity. }
    assert (Hentry : nth_error selected k = Some (item, m ++ m)).
    { apply (@dict_entry_at string (list nat) string_EqDec selected k item (m ++ m));
        [rewrite Hkeys; exact Hnd | rewrite Hkeys; exact Hk | exact Hget]. }
    destruct (rmap_nth _ _ k Hstats Hentry) as (record & Hrec & Hnth).
    cbn [fst snd] in Hrec.
    destruct (iloc df (m ++ m)) as [entity_df|e] eqn:Hiloc; [|discriminate].
    cbn [rbind] in Hrec. injection Hrec as <-.
    unfold iloc in Hiloc. apply rmap_app_inv in Hiloc.
    destruct Hiloc as (e1 & e2 & He1 & He2 & ->).
    rewrite He1 in He2. injection He2 as <-.
    exists e1. eexists. split; [exact He1|]. split; [exact Hnth|].
    split; [reflexivity|].
    cbn [number_of_documents total_citations get_performance_indicators].
    split.
    + rewrite length_app. lia.
    + rewrite map_app, zsum_app. lia.
Qed.

End EntityStatsFacts.

(** Three documents of two journals. *)
Definition journal_table : list Publication :=
  [ mkPublication (Some "J1") 10 2020;
    mkPublication (Some "J2") 3 2021;
    mkPublication (Some "J1") 4 2022 ].

Definition journal_stats : list CoreIndicators :=
  [ mkCoreIndicators (Some "J1") 4 28 4 (Fin (IZR 8084 / INR 4));
    mkCoreIndicators (Some "J2") 2 6 2 (Fin (IZR 4042 / INR 2)) ].

Example journal_stats_run :
  get_entity_stats no_weighting journal_table ["J1"; "J2"] [] "string" false false
  = Ok (journal_stats, None).
Proof. reflexivity. Qed.

Lemma entity_stats_witness :
  get_entity_stats no_weighting journal_table ["J1"; "J2"] [] "string" false false
  = Ok (journal_stats, None) /\
  forall (k : nat) (item : string),
    nth_error (select_items ["J1"; "J2"] []) k = Some item ->
    exists (docs : list Publication) (record : CoreIndicators),
      iloc journal_table
           (matching_rows "string" "; " (select_items ["J1"; "J2"] []) item
                          (indexed (map entity journal_table)))
      = Ok docs /\
      nth_error journal_stats k = Some record /\
      record = get_performance_indicators (docs ++ docs) item /\
      number_of_documents record = (2 * List.length docs)%nat /\
      total_citations record = (2 * zsum (map pub_cited_by docs))%Z.
Proof.
  split; [reflexivity|].
  exact (proj2 (@entity_stats_repeat_each_document no_weighting journal_table
                  ["J1"; "J2"] [] "string" false false journal_stats None eq_refl)).
Defined.

(* ------------------------------------------------------------------ *)
(** * add_vectors_from_dataframe *)

(** [node in G] for a cell of the node column: only a string can be a node
    of a graph on item labels. *)
Definition node_of_cell (G : ItemGraph) (cell : attr_value) : option string :=
  match cell with
  | VStr s => if has_node G s then Some s else None
  | _ => None
  end.

(** [for col in vector_cols: G.nodes[node][col] = row[col]] *)
Fixpoint write_vector (G : ItemGraph) (node : string) (row : attrs)
         (vector_cols : list string) : result ItemGraph :=
  match vector_cols with
  | [] => Ok G
  | col :: rest =>
      match dict_get row col with
      | None => Raise KeyError
      | Some value =>
          rbind (set_node_attr G node col value)
                (fun G' => write_vector G' node row rest)
      end
  end.

(** The rows of the frame are dictionaries from column names to values. *)
Fixpoint add_vectors_from_dataframe (G : ItemGraph) (df : list attrs)
         (node_col : string) (vector_cols : list string) : result ItemGraph :=
  match df with
  | [] => Ok G
  | row :: rest =>
      match dict_get row node_col with
      | None => Raise KeyError
      | Some cell =>
          rbind (match node_of_cell G cell with
                 | Some node => write_vector G node row vector_cols
                 | None => Ok G
                 end)
                (fun G' => add_vectors_from_dataframe G' rest node_col vector_cols)
      end
  end.

Lemma set_node_attr_edges (G G' : ItemGraph) (n key : string) (v : attr_value) :
  set_node_attr G n key v = Ok G' -> edge_list G' = edge_list G.
Proof.
  unfold set_node_attr. destruct (dict_get (node_attrs G) n); [|discriminate].
  intros [= <-]. reflexivity.
Qed.

(** What writing one row does: the columns written hold the row's values,
    everything else stays. *)
Lemma write_vector_spec (node : string) (row : attrs) (vector_cols : list string) :
  forall G G' : ItemGraph,
    write_vector G node row vector_cols = Ok G' ->
    node_list G' = node_list G /\ edge_list G' = edge_list G /\
    forall n key : string,
      get_node_attr G' n key
      = if string_dec n node then
          (if mem key vector_cols then dict_get row key else get_node_attr G n key)
        else get_node_attr G n key.
Proof.
  induction vector_cols as [|col rest IH]; intros G G' Hrun; cbn [write_vector] in Hrun.
  - injection Hrun as <-. split; [reflexivity|]. split; [reflexivity|].
    intros n key. cbn [mem existsb]. destruct (string_dec n node); reflexivity.
  - destruct (dict_get row col) as [value|] eqn:Ecol; [|discriminate].
    destruct (set_node_attr G node col value) as [G1|e] eqn:Eset; [|discriminate].
    cbn [rbind] in Hrun. destruct (IH G1 G' Hrun) as (Hn & He & Ha).
    split; [rewrite Hn; exact (set_node_attr_nodes _ _ _ _ Eset)|].
    split; [rewrite He; exact (set_node_attr_edges _ _ _ _ Eset)|].
    intros n key. rewrite Ha, (set_node_attr_get _ _ _ _ n key Eset).
    cbn [mem existsb]. fold (mem key rest). unfold eqb_of.
    change (eq_dec n node) with (string_dec n node).
    change (eq_dec key col) with (string_dec key col).
    destruct (string_dec n node) as [->|Hne]; [|reflexivity].
    destruct (mem key rest) eqn:Em.
    + now rewrite orb_true_r.
    + rewrite orb_false_r. destruct (string_dec key col) as [->|Hk]; [|reflexivity].
      now rewrite Ecol.
Qed.

(** X25: a returning [add_vectors_from_dataframe] adds no node and changes
    no edge; it writes only the attributes named in [vector_cols]; rows
    whose node is not in the graph are skipped; and a node of the graph
    holds, for each vector column, the value of the last row that names
    it. *)
Theorem add_vectors_writes_the_last_row
        (df : list attrs) (node_col : string) (vector_cols : list string) :
  forall G G' : ItemGraph,
    add_vectors_from_dataframe G df node_col vector_cols = Ok G' ->
    node_list G' = node_list G /\ edge_list G' = edge_list G /\
    (forall n key : string,
        ~ In key vector_cols -> get_node_attr G' n key = get_node_attr G n key) /\
    (forall n : string,
        (forall row, In row df -> dict_get row node_col <> Some (VStr n)) ->
        forall key : string, get_node_attr G' n key = get_node_attr G n key) /\
    (forall (before after : list attrs) (row : attrs) (n col : string),
        df = before ++ row :: after ->
        dict_get row node_col = Some (VStr n) ->
        (forall later, In later after -> dict_get later node_col <> Some (VStr n)) ->
        has_node G n = true -> In col vector_cols ->
        get_node_attr G' n col = dict_get row col).
Proof.
  induction df as [|row rest IH]; intros G G' Hrun; cbn [add_vectors_from_dataframe] in Hrun.
  - injection Hrun as <-. split; [reflexivity|]. split; [reflexivity|].
    split; [reflexivity|]. split; [reflexivity|].
    intros before after row n col E. destruct before; discriminate E.
  - destruct (dict_get row node_col) as [cell|] eqn:Ecell; [|discriminate].
    destruct (match node_of_cell G cell with
              | Some node => write_vector G node row vector_cols
              | None => Ok G
              end) as [G1|e] eqn:Estep; [|discriminate].
    cbn [rbind] in Hrun. destruct (IH G1 G' Hrun) as (Hn & He & Hother & Hskip & Hlast).
    assert (Hstep : node_list G1 = node_list G /\ edge_list G1 = edge_list G /\
                    forall n key : string,
                      get_node_attr G1 n key
                      = if (match node_of_cell G cell with
                            | Some node => if string_dec n node then true else false
                            | None => false
                            end)
                        then (if mem key vector_cols then dict_get row key
                              else get_node_attr G n key)
                        else get_node_attr G n key).
    { destruct (node_of_cell G cell) as [node|].
      - destruct (write_vector_spec _ _ _ _ Estep) as (H1 & H2 & H3).
        split; [exact H1|]. split; [exact H2|].
        intros n key. rewrite H3. destruct (string_dec n node); reflexivity.
      - injection Estep as <-. repeat split. }
    destruct Hstep as (Hn1 & He1 & Ha1).
    split; [congruence|]. split; [congruence|]. split; [|split].
    + intros n key Hkey. rewrite (Hother n key Hkey), Ha1.
      rewrite (proj2 (mem_false key vector_cols) Hkey).
      destruct (match node_of_cell G cell with
                | Some node => if string_dec n node then true else false
                | None => false
                end); reflexivity.
    + intros n Hnone key. rewrite (Hskip n); [|intros r Hr; apply Hnone; now right].
      rewrite Ha1.
      assert (Hcell : cell <> VStr n).
      { intro E. apply (Hnone row (or_introl eq_refl)). now rewrite Ecell, E. }
      unfold node_of_cell. destruct cell as [z|x|s|ms|]; try reflexivity.
      destruct (has_node G s); [|reflexivity].
      destruct (string_dec n s) as [->|_]; [contradiction | reflexivity].
    + intros before after r n col E Hr Hafter Hnode Hcol.
      destruct before as [|b before]; cbn [app] in E; injection E as <- ->.
      * rewrite (Hskip n Hafter col), Ha1.
        rewrite Ecell in Hr. injection Hr as ->. unfold node_of_cell. rewrite Hnode.
        destruct (string_dec n n) as [_|Hne]; [|contradiction].
        now rewrite (proj2 (mem_In col vector_cols) Hcol).
      * apply (Hlast before after r n col eq_refl Hr Hafter); [|exact Hcol].
        unfold has_node in *. now rewrite Hn1.
Qed.

Definition scored_rows : list attrs :=
  [ [("node", VStr "a"); ("score", VInt 1)];
    [("node", VStr "zzz"); ("score", VInt 7)];
    [("node", VStr "a"); ("score", VInt 2)] ].

Lemma add_vectors_witness :
  exists G' : ItemGraph,
    add_vectors_from_dataframe path_graph scored_rows "node" ["score"] = Ok G' /\
    node_list G' = node_list path_graph /\ edge_list G' = edge_list path_graph /\
    get_node_attr G' "a" "score" = Some (VInt 2).
Proof.
  eexists. split; [reflexivity|].
  destruct (@add_vectors_writes_the_last_row scored_rows "node" ["score"] path_graph _
              eq_refl) as (Hn & He & _ & _ & Hlast).
  split; [exact Hn|]. split; [exact He|].
  refine (Hlast [ [("node", VStr "a"); ("score", VInt 1)];
                  [("node", VStr "zzz"); ("score", VInt 7)] ] []
                [("node", VStr "a"); ("score", VInt 2)] "a" "score"
                eq_refl eq_refl _ eq_refl _).
  - intros later [].
  - now left.
Defined.
